(** * ShellGeist safe-edit pipeline: a shallow embedding and its properties

    The models follow the layout of the Python package and of the parts of
    the standard library it calls:

    - [Py]       the str operations of the runtime, and what is left to it
    - [Re]       a backtracking matcher for the regular expressions of the code
    - [Apply]    shellgeist/diff/apply.py
    - [PyFloat]  binary64 floats: the similarity ratio and its thresholds
    - [Difflib]  difflib.SequenceMatcher and difflib.unified_diff
    - [Pathlib]  pure POSIX paths
    - [Guards]   shellgeist/diff/guards.py
    - [Json]     json.loads and JSONDecoder.raw_decode
    - [UtilJson] shellgeist/util_json.py
    - [Coder]    shellgeist/tools/coder.py
    - [Safety]   shellgeist/safety.py

    A Python [str] is a list of code points, so that the line boundaries and
    the white space of the runtime (which go beyond ASCII) are the real ones.
    Functions that raise return a sum; functions that read or write the
    working tree take the world and return it.  The language model is a list
    of answers, one for each call the driver makes.

    Left out: trace output (printing only), the model-client cache (it only
    saves calls to get_client), the interpreter's limits on recursion depth
    and on the length of a digit string given to int(), and operating-system
    failures other than the ones the world records.

    After the models come the vocabulary of the statements, general facts,
    and the properties, each under the number of the claim it settles. *)

From Stdlib Require Import String Ascii DecimalString.
From Stdlib Require Import List NArith ZArith Bool Arith Lia.
From Stdlib Require Import Floats.SpecFloat.
From Stdlib Require DecimalN.
Import ListNotations.

Set Implicit Arguments.

(* ===================================================================== *)
(** * Python runtime: strings                                             *)
(* ===================================================================== *)

Module Py.

(** A character is a Unicode code point, a [str] a list of them. *)
Definition char := N.
Definition pystr := list char.

Definition LF : char := 10%N.
Definition CR : char := 13%N.
Definition TAB : char := 9%N.
Definition SP : char := 32%N.
Definition DQ : char := 34%N.   (* double quote *)
Definition SQ : char := 39%N.   (* single quote *)
Definition BSL : char := 92%N.  (* backslash    *)

Definition hex_val (a : ascii) : option N :=
  let n := N_of_ascii a in
  if ((48 <=? n) && (n <=? 57))%N then Some (n - 48)%N
  else if ((97 <=? n) && (n <=? 102))%N then Some (n - 87)%N
  else if ((65 <=? n) && (n <=? 70))%N then Some (n - 55)%N
  else None.

(** [lit] reads a literal the way Python reads the body of a string literal:
    backslash-n, -r, -t, backslash-backslash and backslash-xHH are escapes,
    every other character stands for itself.  A double quote is written
    backslash-x22. *)
Fixpoint lit (s : string) : pystr :=
  match s with
  | EmptyString => []
  | String "\" (String "n" r) => LF :: lit r
  | String "\" (String "r" r) => CR :: lit r
  | String "\" (String "t" r) => TAB :: lit r
  | String "\" (String "\" r) => BSL :: lit r
  | String "\" (String "x" (String h1 (String h2 r))) =>
      match hex_val h1, hex_val h2 with
      | Some a, Some b => (16 * a + b)%N :: lit r
      | _, _ => BSL :: N_of_ascii "x" :: N_of_ascii h1 :: N_of_ascii h2 :: lit r
      end
  | String c r => N_of_ascii c :: lit r
  end.

Definition ch (a : ascii) : char := N_of_ascii a.

Definition char_eqb (a b : char) : bool := N.eqb a b.

Fixpoint str_eqb (a b : pystr) : bool :=
  match a, b with
  | [], [] => true
  | x :: a', y :: b' => char_eqb x y && str_eqb a' b'
  | _, _ => false
  end.

(** str.isspace of one character (Py_UNICODE_ISSPACE): what [strip],
    [lstrip], [rstrip] without argument and the regex class \s use. *)
Definition is_space (c : char) : bool :=
  (((9 <=? c) && (c <=? 13)) || ((28 <=? c) && (c <=? 32))
   || (c =? 133) || (c =? 160) || (c =? 5760)
   || ((8192 <=? c) && (c <=? 8202))
   || (c =? 8232) || (c =? 8233) || (c =? 8239) || (c =? 8287)
   || (c =? 12288))%N.

(** The line boundaries of str.splitlines. *)
Definition is_linebreak (c : char) : bool :=
  (((10 <=? c) && (c <=? 13)) || ((28 <=? c) && (c <=? 30))
   || (c =? 133) || (c =? 8232) || (c =? 8233))%N.

(** s.splitlines(keepends=True), with an accumulator for the current line
    (reversed).  CR LF is one boundary. *)
Fixpoint splitlines_keep_acc (s : pystr) (cur : pystr) : list pystr :=
  match s with
  | [] => match cur with [] => [] | _ => [rev cur] end
  | c :: r =>
      if is_linebreak c then
        if char_eqb c CR then
          match r with
          | d :: r' =>
              if char_eqb d LF
              then rev (d :: c :: cur) :: splitlines_keep_acc r' []
              else rev (c :: cur) :: splitlines_keep_acc r []
          | [] => [rev (c :: cur)]
          end
        else rev (c :: cur) :: splitlines_keep_acc r []
      else splitlines_keep_acc r (c :: cur)
  end.

Definition splitlines_keepends (s : pystr) : list pystr :=
  splitlines_keep_acc s [].

(** s.splitlines() *)
Fixpoint splitlines_acc (s : pystr) (cur : pystr) : list pystr :=
  match s with
  | [] => match cur with [] => [] | _ => [rev cur] end
  | c :: r =>
      if is_linebreak c then
        if char_eqb c CR then
          match r with
          | d :: r' =>
              if char_eqb d LF
              then rev cur :: splitlines_acc r' []
              else rev cur :: splitlines_acc r []
          | [] => [rev cur]
          end
        else rev cur :: splitlines_acc r []
      else splitlines_acc r (c :: cur)
  end.

Definition splitlines (s : pystr) : list pystr := splitlines_acc s [].

(** s.split(sep) for a one-character separator: never the empty list. *)
Fixpoint split_acc (sep : char) (s : pystr) (cur : pystr) : list pystr :=
  match s with
  | [] => [rev cur]
  | c :: r =>
      if char_eqb c sep then rev cur :: split_acc sep r []
      else split_acc sep r (c :: cur)
  end.

Definition split (sep : char) (s : pystr) : list pystr := split_acc sep s [].

(** sep.join(parts) *)
Fixpoint join (sep : pystr) (parts : list pystr) : pystr :=
  match parts with
  | [] => []
  | [p] => p
  | p :: rest => p ++ sep ++ join sep rest
  end.

Definition concat (parts : list pystr) : pystr := List.concat parts.

Fixpoint startswith (s p : pystr) : bool :=
  match p, s with
  | [], _ => true
  | x :: p', y :: s' => char_eqb x y && startswith s' p'
  | _ :: _, [] => false
  end.

Definition endswith (s p : pystr) : bool := startswith (rev s) (rev p).

(** s.startswith((p1, p2, ...)) *)
Definition startswith_any (s : pystr) (ps : list pystr) : bool :=
  existsb (startswith s) ps.

Fixpoint drop_while (p : char -> bool) (s : pystr) : pystr :=
  match s with
  | c :: r => if p c then drop_while p r else s
  | [] => []
  end.

Definition lstrip (s : pystr) : pystr := drop_while is_space s.
Definition rstrip (s : pystr) : pystr := rev (drop_while is_space (rev s)).
Definition strip (s : pystr) : pystr := rstrip (lstrip s).

Definition mem_char (c : char) (cs : pystr) : bool := existsb (char_eqb c) cs.

(** s.lstrip(chars) *)
Definition lstrip_chars (cs : pystr) (s : pystr) : pystr :=
  drop_while (fun c => mem_char c cs) s.

(** [sub in s]: substring test.  The empty string is in every string. *)
Fixpoint contains (s sub : pystr) : bool :=
  startswith s sub ||
  match s with
  | [] => false
  | _ :: r => contains r sub
  end.

(** s.find(sub): index of the first occurrence, None for -1. *)
Fixpoint find_from (s sub : pystr) (i : nat) : option nat :=
  if startswith s sub then Some i
  else match s with
       | [] => None
       | _ :: r => find_from r sub (S i)
       end.

Definition find (s sub : pystr) : option nat := find_from s sub 0.

(** s.rfind(sub): index of the last occurrence. *)
Fixpoint rfind_from (s sub : pystr) (i : nat) : option nat :=
  let here := if startswith s sub then Some i else None in
  match s with
  | [] => here
  | _ :: r =>
      match rfind_from r sub (S i) with
      | Some j => Some j
      | None => here
      end
  end.

Definition rfind (s sub : pystr) : option nat := rfind_from s sub 0.

(** s.replace(old, new) for a non-empty [old]: occurrences left to right,
    not overlapping.  [skip] counts the characters of a replaced occurrence
    still to be passed over. *)
Fixpoint replace_go (old new : pystr) (s : pystr) (skip : nat) : pystr :=
  match skip with
  | S n => match s with
           | [] => []
           | _ :: r => replace_go old new r n
           end
  | O =>
      match s with
      | [] => []
      | c :: r =>
          if startswith s old
          then new ++ replace_go old new r (pred (length old))
          else c :: replace_go old new r 0
      end
  end.

Definition replace (s old new : pystr) : pystr := replace_go old new s 0.

(** s.count(sub) for a non-empty [sub]: occurrences that do not overlap. *)
Fixpoint count_go (sub : pystr) (s : pystr) (skip : nat) : nat :=
  match skip with
  | S n => match s with
           | [] => 0
           | _ :: r => count_go sub r n
           end
  | O =>
      match s with
      | [] => 0
      | _ :: r =>
          if startswith s sub
          then S (count_go sub r (pred (length sub)))
          else count_go sub r 0
      end
  end.

Definition count (s sub : pystr) : nat := count_go sub s 0.

(** Slices s[i:j], s[i:], s[:j] for indices within 0..len. *)
Definition slice {A} (l : list A) (i j : nat) : list A :=
  firstn (j - i) (skipn i l).

Definition is_ascii (c : char) : bool := (c <? 128)%N.

Definition ascii_lower_char (c : char) : char :=
  if ((65 <=? c) && (c <=? 90))%N then (c + 32)%N else c.

(** Decimal text of a natural number: str(n), and the {} of str.format. *)
Definition str_of_N (n : N) : pystr :=
  map N_of_ascii (list_ascii_of_string (NilEmpty.string_of_uint (N.to_uint n))).
Definition str_of_nat (n : nat) : pystr := str_of_N (N.of_nat n).

(** What the code takes from the interpreter and its Unicode tables without
    the repository defining it.  The ASCII part of each operation is spelled
    out below; only the part outside ASCII is left to the runtime. *)
Class Runtime := {
  (** str.lower() of a string that has a character outside ASCII *)
  unicode_lower : pystr -> pystr;
  (** value of a decimal digit outside ASCII (category Nd), as \d and int() see it *)
  unicode_decimal : char -> option N;
  (** bytes(s, "utf-8").decode("unicode_escape"); None when it raises *)
  unicode_escape_decode : pystr -> option pystr;
  (** repr(s) of a str *)
  repr : pystr -> pystr;
  (** compile(content, path, "exec"): Some true when it returns, Some false
      when it raises SyntaxError, None when it raises anything else *)
  compile_exec : pystr -> pystr -> option bool
}.

Section WithRuntime.
Context {RT : Runtime}.

(** s.lower() *)
Definition lower (s : pystr) : pystr :=
  if forallb is_ascii s then map ascii_lower_char s else unicode_lower s.

(** Value of a decimal digit, None for a character that is not one. *)
Definition decimal_value (c : char) : option N :=
  if ((48 <=? c) && (c <=? 57))%N then Some (c - 48)%N
  else if is_ascii c then None
  else unicode_decimal c.

Definition is_digit (c : char) : bool :=
  match decimal_value c with Some _ => true | None => false end.

(** int(s) for a string of decimal digits (as matched by \d+). *)
Definition int_of_digits (s : pystr) : N :=
  fold_left (fun acc c =>
               match decimal_value c with
               | Some d => (10 * acc + d)%N
               | None => acc
               end) s 0%N.

End WithRuntime.

(** A runtime to run the models on ASCII text, for statements at concrete
    inputs that do not reach the runtime: nothing outside ASCII is a digit,
    characters outside ASCII are left alone, repr is the one of printable
    text without quotes or backslashes, and every source text compiles. *)
Definition ascii_runtime : Runtime := {|
  unicode_lower := fun s => map ascii_lower_char s;
  unicode_decimal := fun _ => None;
  unicode_escape_decode := fun _ => None;
  repr := fun s => SQ :: s ++ [SQ];
  compile_exec := fun _ _ => Some true
|}.

End Py.

(* ===================================================================== *)
(** * Python runtime: regular expressions                                 *)
(* ===================================================================== *)

Module Re.
Import Py.

(** The fragment of Python's [re] syntax the code uses.  Quantifiers are the
    greedy ones; groups are numbered as in the pattern. *)
Inductive regex :=
| Eps
| Cls (p : char -> bool)          (* one character of a class            *)
| Seq (a b : regex)
| Alt (a b : regex)               (* a|b, the left branch first          *)
| Star (a : regex)                (* a*                                  *)
| Grp (n : nat) (a : regex)       (* capturing group number n            *)
| Bol                             (* ^ (no MULTILINE)                    *)
| Eol.                            (* $ (no MULTILINE)                    *)

Definition plus (a : regex) : regex := Seq a (Star a).      (* a+ *)
Definition opt (a : regex) : regex := Alt a Eps.            (* a? *)
Definition chr (c : char) : regex := Cls (char_eqb c).

Fixpoint seq (rs : list regex) : regex :=
  match rs with
  | [] => Eps
  | [r] => r
  | r :: rest => Seq r (seq rest)
  end.

Definition word (s : pystr) : regex := seq (map chr s).

(** A position of the matcher: characters consumed so far, the text still
    ahead, and the text of the groups closed so far (the last closing of a
    group wins, as in [re]). *)
Record mstate := MState {
  pos : nat;
  rest : pystr;
  groups : list (nat * pystr)
}.

Definition set_group (n : nat) (txt : pystr) (st : mstate) : mstate :=
  MState (pos st) (rest st) ((n, txt) :: groups st).

Fixpoint lookup_group (n : nat) (gs : list (nat * pystr)) : option pystr :=
  match gs with
  | [] => None
  | (m, t) :: r => if Nat.eqb m n then Some t else lookup_group n r
  end.

(** m.group(n): None when the group did not take part in the match. *)
Definition group (n : nat) (st : mstate) : option pystr :=
  lookup_group n (groups st).

(** Backtracking matcher in continuation-passing style: [k] is what remains
    to be matched; alternatives are tried in order and the first success is
    the answer.  An iteration of a star has to consume a character. *)
Fixpoint run (r : regex) (st : mstate) (k : mstate -> option mstate)
  {struct r} : option mstate :=
  match r with
  | Eps => k st
  | Cls p =>
      match rest st with
      | c :: tl => if p c then k (MState (S (pos st)) tl (groups st)) else None
      | [] => None
      end
  | Seq a b => run a st (fun st1 => run b st1 k)
  | Alt a b =>
      match run a st k with
      | Some x => Some x
      | None => run b st k
      end
  | Star a =>
      (fix loop (fuel : nat) (st0 : mstate) {struct fuel} : option mstate :=
         match fuel with
         | O => k st0
         | S f =>
             match run a st0 (fun st1 =>
                     if List.length (rest st1) <? List.length (rest st0)
                     then loop f st1 else None) with
             | Some x => Some x
             | None => k st0
             end
         end) (S (List.length (rest st))) st
  | Grp n a =>
      run a st (fun st1 =>
        k (set_group n (firstn (pos st1 - pos st) (rest st)) st1))
  | Bol => if Nat.eqb (pos st) 0 then k st else None
  | Eol =>
      match rest st with
      | [] => k st
      | [c] => if char_eqb c LF then k st else None
      | _ => None
      end
  end.

(** pattern.match(s): a match that starts at the beginning of [s]. *)
Definition rmatch (r : regex) (s : pystr) : option mstate :=
  run r (MState 0 s []) Some.

(** pattern.search(s): the leftmost match. *)
Fixpoint search_from (r : regex) (p : nat) (s : pystr) : option (nat * mstate) :=
  match run r (MState p s []) Some with
  | Some st => Some (p, st)
  | None =>
      match s with
      | [] => None
      | _ :: tl => search_from r (S p) tl
      end
  end.

Definition search (r : regex) (s : pystr) : option (nat * mstate) :=
  search_from r 0 s.

(** pattern.sub(repl, s) with [repl] a function of the match state and of
    the matched text.  [skip] counts the characters of the last match still
    to be passed over. *)
Fixpoint sub_go (r : regex) (repl : mstate -> pystr -> pystr)
  (p : nat) (s : pystr) (skip : nat) : pystr :=
  match skip with
  | S n => match s with
           | [] => []
           | _ :: tl => sub_go r repl (S p) tl n
           end
  | O =>
      match run r (MState p s []) Some with
      | Some st1 =>
          let n := pos st1 - p in
          repl st1 (firstn n s) ++
          match s with
          | [] => []
          | c :: tl =>
              match n with
              | O => c :: sub_go r repl (S p) tl 0
              | S m => sub_go r repl (S p) tl m
              end
          end
      | None =>
          match s with
          | [] => []
          | c :: tl => c :: sub_go r repl (S p) tl 0
          end
      end
  end.

Definition sub (r : regex) (repl : mstate -> pystr -> pystr) (s : pystr) : pystr :=
  sub_go r repl 0 s 0.

(** Character classes *)
Definition ws : regex := Cls is_space.                       (* \s *)
Definition any_but_newline : regex :=                        (* .  *)
  Cls (fun c => negb (char_eqb c LF)).
Definition any_char : regex := Cls (fun _ => true).          (* . with DOTALL *)
Definition one_of (cs : pystr) : regex := Cls (fun c => mem_char c cs).
Definition none_of (cs : pystr) : regex := Cls (fun c => negb (mem_char c cs)).
Definition in_range (lo hi : N) (c : char) : bool := ((lo <=? c) && (c <=? hi))%N.

End Re.

(* ===================================================================== *)
(** * shellgeist/diff/apply.py                                            *)
(* ===================================================================== *)

Module Apply.
Import Py Re.

(** PatchApplyError, one constructor per raise of apply_unified_diff.  The
    three messages that quote a line through repr() keep the line. *)
Inductive PatchApplyError :=
| NoHunksFound
| ExpectedHunkHeader (got : pystr)
| InvalidHunkHeader (header : pystr)
| TargetBeforeCurrentIndex
| ContextEOF
| ContextMismatch
| DeleteEOF
| DeleteMismatch
| InvalidHunkLine (ln : pystr)
| EmptyHunkBody.

Inductive result (A : Type) :=
| Ok (a : A)
| Raise (e : PatchApplyError).
Arguments Ok {A} a.
Arguments Raise {A} e.

Section WithRuntime.
Context {RT : Runtime}.

Definition digit : regex := Cls is_digit.                    (* \d *)

(** _HUNK_RE = ^@@\s+-(\d+)(?:,(\d+))?\s+\+(\d+)(?:,(\d+))?\s+@@$ *)
Definition _HUNK_RE : regex :=
  seq [ Bol; word (lit "@@"); plus ws; chr (ch "-"); Grp 1 (plus digit);
        opt (Seq (chr (ch ",")) (Grp 2 (plus digit)));
        plus ws; chr (ch "+"); Grp 3 (plus digit);
        opt (Seq (chr (ch ",")) (Grp 4 (plus digit)));
        plus ws; word (lit "@@"); Eol ].

Definition _split_lines_keepends (s : pystr) : list pystr :=
  splitlines_keepends s.

(** The first while loop: skip file headers and noise until the first hunk. *)
Fixpoint skip_to_first_hunk (lines : list pystr) : list pystr :=
  match lines with
  | [] => []
  | l :: r => if startswith l (lit "@@") then lines else skip_to_first_hunk r
  end.

(** The outer while loop over hunks, with the loop over the body lines of a
    hunk as the inner [body].  [out] is the output list, [old_idx] the
    cursor in [old_lines]. *)
Fixpoint hunks (old_lines : list pystr) (lines : list pystr)
  (old_idx : nat) (out : list pystr) {struct lines} : result pystr :=
  let old_len := List.length old_lines in
  match lines with
  | [] => Ok (concat (out ++ skipn old_idx old_lines))
  | header :: after_header =>
      if negb (startswith header (lit "@@")) then Raise (ExpectedHunkHeader header)
      else
        match rmatch _HUNK_RE (strip header) with
        | None => Raise (InvalidHunkHeader (strip header))
        | Some m =>
            let old_start :=
              match group 1 m with Some g => int_of_digits g | None => 0%N end in
            let target0 := Z.to_nat (Z.max 0 (Z.of_N old_start - 1)) in
            let target_old_idx := if old_len <? target0 then old_len else target0 in
            if target_old_idx <? old_idx then Raise TargetBeforeCurrentIndex
            else
              (fix body (ls : list pystr) (old_idx : nat) (out : list pystr)
                 (hunk_lines : nat) {struct ls} : result pystr :=
                 match ls with
                 | [] =>
                     if Nat.eqb hunk_lines 0 then Raise EmptyHunkBody
                     else Ok (concat (out ++ skipn old_idx old_lines))
                 | ln :: ls' =>
                     if startswith ln (lit "@@") then
                       if Nat.eqb hunk_lines 0 then Raise EmptyHunkBody
                       else hunks old_lines ls old_idx out
                     else if startswith ln [BSL] then body ls' old_idx out hunk_lines
                     else if startswith ln [SP] then
                       if old_len <=? old_idx then Raise ContextEOF
                       else
                         let expected := skipn 1 ln in
                         let got := nth old_idx old_lines [] in
                         if negb (str_eqb got expected) then Raise ContextMismatch
                         else body ls' (S old_idx) (out ++ [got]) (S hunk_lines)
                     else if startswith ln (lit "-") then
                       if old_len <=? old_idx then Raise DeleteEOF
                       else
                         let expected := skipn 1 ln in
                         let got := nth old_idx old_lines [] in
                         if negb (str_eqb got expected) then Raise DeleteMismatch
                         else body ls' (S old_idx) out (S hunk_lines)
                     else if startswith ln (lit "+") then
                       body ls' old_idx (out ++ [skipn 1 ln]) (S hunk_lines)
                     else Raise (InvalidHunkLine ln)
                 end)
                after_header target_old_idx
                (out ++ slice old_lines old_idx target_old_idx) 0
        end
  end.

Definition apply_unified_diff (old diff : pystr) : result pystr :=
  let old_lines := _split_lines_keepends old in
  let lines := splitlines_keepends diff in
  match skip_to_first_hunk lines with
  | [] => Raise NoHunksFound
  | ls => hunks old_lines ls 0 []
  end.

(** str(e) *)
Definition str_of_error (e : PatchApplyError) : pystr :=
  match e with
  | NoHunksFound => lit "Invalid patch: no hunks found"
  | ExpectedHunkHeader header =>
      lit "Invalid patch: expected hunk header, got: " ++ repr (firstn 80 header)
  | InvalidHunkHeader stripped => lit "Invalid hunk header: " ++ repr stripped
  | TargetBeforeCurrentIndex =>
      lit "Patch context out of range (target before current index)"
  | ContextEOF => lit "Patch context out of range (EOF)"
  | ContextMismatch => lit "Patch context mismatch"
  | DeleteEOF => lit "Patch delete out of range (EOF)"
  | DeleteMismatch => lit "Patch delete mismatch"
  | InvalidHunkLine ln => lit "Invalid hunk line: " ++ repr (firstn 80 ln)
  | EmptyHunkBody => lit "Empty hunk body"
  end.

End WithRuntime.

End Apply.

(* ===================================================================== *)
(** * Python runtime: floats                                              *)
(* ===================================================================== *)

Module PyFloat.
Import Py.

(** A Python float is an IEEE 754 binary64 number. *)
Definition prec : Z := 53.
Definition emax : Z := 1024.

Definition float := spec_float.

(** float(n) for an int: the nearest double. *)
Definition of_nat (n : nat) : float := binary_normalize prec emax (Z.of_nat n) 0 false.

Definition mul (x y : float) : float := SFmul prec emax x y.
Definition div (x y : float) : float := SFdiv prec emax x y.
Definition ltb (x y : float) : bool := SFltb x y.

(** The literals of the code, as the doubles the interpreter reads them to. *)
Definition f_1_0 : float := S754_finite false 4503599627370496 (-52).
Definition f_2_0 : float := S754_finite false 4503599627370496 (-51).
Definition f_0_90 : float := S754_finite false 8106479329266893 (-53).
Definition f_0_20 : float := S754_finite false 7205759403792794 (-55).

Definition two_digits (n : N) : pystr := [(48 + n / 10)%N; (48 + n mod 10)%N].

(** format(x, ".2f"): the exact value of the double rounded to two decimals,
    half to even. *)
Definition format_2f (x : float) : pystr :=
  match x with
  | S754_zero s => (if s then lit "-" else []) ++ lit "0.00"
  | S754_infinity s => (if s then lit "-" else []) ++ lit "inf"
  | S754_nan => lit "nan"
  | S754_finite s m e =>
      let num := (Zpos m * 100)%Z in
      let hundredths :=
        match e with
        | Zneg p =>
            let den := Z.pow 2 (Zpos p) in
            let q := (num / den)%Z in
            let r := (num mod den)%Z in
            if (den <? 2 * r)%Z then (q + 1)%Z
            else if (2 * r =? den)%Z then (if Z.odd q then q + 1 else q)%Z
            else q
        | _ => (num * Z.pow 2 e)%Z
        end in
      let h := Z.to_N hundredths in
      (if s then lit "-" else []) ++ str_of_N (h / 100)%N ++ lit "." ++ two_digits (h mod 100)%N
  end.

End PyFloat.

(* ===================================================================== *)
(** * Python runtime: difflib                                             *)
(* ===================================================================== *)

Module Difflib.
Import Py.

Inductive tag := Replace | Delete | Insert | Equal.

Definition opcode := (tag * nat * nat * nat * nat)%type.
Definition block := (nat * nat * nat)%type.     (* Match(a, b, size) *)

Section SequenceMatcher.
(** SequenceMatcher(None, a, b): no junk predicate, autojunk on. *)
Variables a b : list pystr.

Definition elt_a (i : nat) : pystr := nth i a [].
Definition elt_b (j : nat) : pystr := nth j b [].

(** __chain_b: b2j maps a line to the increasing list of its indices in b;
    when b has at least 200 lines, a line that occurs more than
    len(b) // 100 + 1 times is popular and is removed from b2j. *)
Fixpoint indices_from (elt : pystr) (l : list pystr) (j : nat) : list nat :=
  match l with
  | [] => []
  | x :: r =>
      if str_eqb x elt then j :: indices_from elt r (S j)
      else indices_from elt r (S j)
  end.

Definition is_popular (elt : pystr) : bool :=
  let n := List.length b in
  (200 <=? n) && (n / 100 + 1 <? List.length (indices_from elt b 0)).

Definition b2j_get (elt : pystr) : list nat :=
  if is_popular elt then [] else indices_from elt b 0.

Fixpoint dict_get (d : list (nat * nat)) (key : nat) : nat :=
  match d with
  | [] => 0
  | (k, v) :: r => if Nat.eqb k key then v else dict_get r key
  end.

(** The loop over j of find_longest_match, for one i. *)
Fixpoint flm_inner (blo bhi i : nat) (j2len : list (nat * nat)) (js : list nat)
  (newj2len : list (nat * nat)) (best : block) : list (nat * nat) * block :=
  match js with
  | [] => (newj2len, best)
  | j :: js' =>
      if j <? blo then flm_inner blo bhi i j2len js' newj2len best
      else if bhi <=? j then (newj2len, best)
      else
        let k := (match j with O => 0 | S j1 => dict_get j2len j1 end) + 1 in
        let '(_, _, bestsize) := best in
        let best' := if bestsize <? k then (i + 1 - k, j + 1 - k, k) else best in
        flm_inner blo bhi i j2len js' ((j, k) :: newj2len) best'
  end.

(** The loop over i in range(alo, ahi); [n] is ahi - i. *)
Fixpoint flm_outer (blo bhi : nat) (i n : nat) (j2len : list (nat * nat))
  (best : block) : block :=
  match n with
  | O => best
  | S n' =>
      let '(newj2len, best') := flm_inner blo bhi i j2len (b2j_get (elt_a i)) [] best in
      flm_outer blo bhi (S i) n' newj2len best'
  end.

(** The two loops that extend the block with equal lines on both sides. *)
Fixpoint extend_back (alo blo : nat) (fuel : nat) (best : block) : block :=
  match fuel with
  | O => best
  | S f =>
      let '(besti, bestj, bestsize) := best in
      if (alo <? besti) && (blo <? bestj)
         && str_eqb (elt_a (besti - 1)) (elt_b (bestj - 1))
      then extend_back alo blo f (besti - 1, bestj - 1, bestsize + 1)
      else best
  end.

Fixpoint extend_forward (ahi bhi : nat) (fuel : nat) (best : block) : block :=
  match fuel with
  | O => best
  | S f =>
      let '(besti, bestj, bestsize) := best in
      if (besti + bestsize <? ahi) && (bestj + bestsize <? bhi)
         && str_eqb (elt_a (besti + bestsize)) (elt_b (bestj + bestsize))
      then extend_forward ahi bhi f (besti, bestj, bestsize + 1)
      else best
  end.

(** The first loop steps besti down and stops at alo at the latest, the
    second steps besti + bestsize up and stops at ahi at the latest: besti
    and ahi passes are all they can make. *)
Definition find_longest_match (alo ahi blo bhi : nat) : block :=
  let best := flm_outer blo bhi alo (ahi - alo) [] (alo, blo, 0) in
  let best := extend_back alo blo (fst (fst best)) best in
  extend_forward ahi bhi ahi best.

(** The work list of get_matching_blocks; queue.pop() takes the last entry,
    kept here at the head. *)
Fixpoint mb_loop (fuel : nat) (queue : list (nat * nat * nat * nat))
  (blocks : list block) : list block :=
  match fuel with
  | O => blocks
  | S f =>
      match queue with
      | [] => blocks
      | (alo, ahi, blo, bhi) :: q =>
          let '(i, j, k) := find_longest_match alo ahi blo bhi in
          if Nat.eqb k 0 then mb_loop f q blocks
          else
            let q1 := if (alo <? i) && (blo <? j) then (alo, i, blo, j) :: q else q in
            let q2 := if (i + k <? ahi) && (j + k <? bhi)
                      then (i + k, ahi, j + k, bhi) :: q1 else q1 in
            mb_loop f q2 (blocks ++ [(i, j, k)])
      end
  end.

Definition block_leb (x y : block) : bool :=
  let '(i1, j1, k1) := x in
  let '(i2, j2, k2) := y in
  (i1 <? i2) || (Nat.eqb i1 i2 && ((j1 <? j2) || (Nat.eqb j1 j2 && (k1 <=? k2)))).

Fixpoint insert_sorted (x : block) (l : list block) : list block :=
  match l with
  | [] => [x]
  | y :: r => if block_leb x y then x :: l else y :: insert_sorted x r
  end.

(** matching_blocks.sort() *)
Definition sort_blocks (l : list block) : list block :=
  fold_right insert_sorted [] l.

(** The loop that merges adjacent blocks. *)
Fixpoint collapse (cur : block) (l : list block) : list block :=
  let '(i1, j1, k1) := cur in
  match l with
  | [] => if Nat.eqb k1 0 then [] else [cur]
  | (i2, j2, k2) :: r =>
      if Nat.eqb (i1 + k1) i2 && Nat.eqb (j1 + k1) j2
      then collapse (i1, j1, k1 + k2) r
      else (if Nat.eqb k1 0 then [] else [cur]) ++ collapse (i2, j2, k2) r
  end.

(** Every pass of the work loop that finds a block takes at least one line
    of [a] out of play and adds at most two entries, so 2 * len(a) + 1
    passes empty the queue. *)
Definition get_matching_blocks : list block :=
  let la := List.length a in
  let lb := List.length b in
  let blocks := mb_loop (2 * la + 1) [(0, la, 0, lb)] [] in
  collapse (0, 0, 0) (sort_blocks blocks) ++ [(la, lb, 0)].

Definition _calculate_ratio (matches length : nat) : PyFloat.float :=
  if Nat.eqb length 0 then PyFloat.f_1_0
  else PyFloat.div (PyFloat.mul PyFloat.f_2_0 (PyFloat.of_nat matches))
                   (PyFloat.of_nat length).

Definition ratio : PyFloat.float :=
  let matches := fold_left (fun acc (t : block) => let '(_, _, k) := t in acc + k)
                           get_matching_blocks 0 in
  _calculate_ratio matches (List.length a + List.length b).

Fixpoint opcodes_go (i j : nat) (blocks : list block) : list opcode :=
  match blocks with
  | [] => []
  | (ai, bj, size) :: r =>
      let change :=
        if (i <? ai) && (j <? bj) then [(Replace, i, ai, j, bj)]
        else if i <? ai then [(Delete, i, ai, j, bj)]
        else if j <? bj then [(Insert, i, ai, j, bj)]
        else [] in
      let same := if Nat.eqb size 0 then [] else [(Equal, ai, ai + size, bj, bj + size)] in
      change ++ same ++ opcodes_go (ai + size) (bj + size) r
  end.

Definition get_opcodes : list opcode := opcodes_go 0 0 get_matching_blocks.

Definition is_equal_tag (t : tag) : bool :=
  match t with Equal => true | _ => false end.

Definition fix_first (n : nat) (codes : list opcode) : list opcode :=
  match codes with
  | (Equal, i1, i2, j1, j2) :: r =>
      (Equal, Nat.max i1 (i2 - n), i2, Nat.max j1 (j2 - n), j2) :: r
  | _ => codes
  end.

Fixpoint fix_last (n : nat) (codes : list opcode) : list opcode :=
  match codes with
  | [] => []
  | [(Equal, i1, i2, j1, j2)] =>
      [(Equal, i1, Nat.min i2 (i1 + n), j1, Nat.min j2 (j1 + n))]
  | c :: r => c :: fix_last n r
  end.

(** The loop of get_grouped_opcodes: [group] is the group being built. *)
Fixpoint group_loop (n : nat) (codes : list opcode) (group : list opcode)
  : list (list opcode) :=
  match codes with
  | [] =>
      match group with
      | [] => []
      | [(Equal, _, _, _, _)] => []
      | _ => [group]
      end
  | (t, i1, i2, j1, j2) :: r =>
      if is_equal_tag t && (n + n <? i2 - i1)
      then (group ++ [(t, i1, Nat.min i2 (i1 + n), j1, Nat.min j2 (j1 + n))])
           :: group_loop n r [(t, Nat.max i1 (i2 - n), i2, Nat.max j1 (j2 - n), j2)]
      else group_loop n r (group ++ [(t, i1, i2, j1, j2)])
  end.

Definition get_grouped_opcodes (n : nat) : list (list opcode) :=
  let codes := match get_opcodes with
               | [] => [(Equal, 0, 1, 0, 1)]
               | cs => cs
               end in
  group_loop n (fix_last n (fix_first n codes)) [].

Definition _format_range_unified (start stop : nat) : pystr :=
  let beginning := start + 1 in
  let length := stop - start in
  if Nat.eqb length 1 then str_of_nat beginning
  else
    let beginning := if Nat.eqb length 0 then beginning - 1 else beginning in
    str_of_nat beginning ++ lit "," ++ str_of_nat length.

Definition hunk_lines (op : opcode) : list pystr :=
  let '(t, i1, i2, j1, j2) := op in
  match t with
  | Equal => map (fun line => SP :: line) (slice a i1 i2)
  | Replace =>
      map (fun line => ch "-" :: line) (slice a i1 i2)
      ++ map (fun line => ch "+" :: line) (slice b j1 j2)
  | Delete => map (fun line => ch "-" :: line) (slice a i1 i2)
  | Insert => map (fun line => ch "+" :: line) (slice b j1 j2)
  end.

Definition first_last (g : list opcode) : opcode * opcode :=
  (hd (Equal, 0, 0, 0, 0) g, last g (Equal, 0, 0, 0, 0)).

Definition hunk_text (g : list opcode) : list pystr :=
  let '(first, last) := first_last g in
  let '(_, f1, _, f3, _) := first in
  let '(_, _, l2, _, l4) := last in
  (lit "@@ -" ++ _format_range_unified f1 l2 ++ lit " +"
   ++ _format_range_unified f3 l4 ++ lit " @@" ++ [LF])
  :: flat_map hunk_lines g.

(** difflib.unified_diff(a, b, fromfile, tofile) with the default n=3,
    lineterm and empty dates: the list of lines it yields. *)
Definition unified_diff (fromfile tofile : pystr) : list pystr :=
  match get_grouped_opcodes 3 with
  | [] => []
  | gs =>
      (lit "--- " ++ fromfile ++ [LF])
      :: (lit "+++ " ++ tofile ++ [LF])
      :: flat_map hunk_text gs
  end.

End SequenceMatcher.

End Difflib.

(* ===================================================================== *)
(** * Python runtime: pathlib (POSIX flavour)                             *)
(* ===================================================================== *)

Module Pathlib.
Import Py.

(** A pure path: its root (empty for a relative path) and its parts. *)
Record Path := MkPath {
  root : pystr;
  parts : list pystr
}.

Definition nonempty (s : pystr) : bool :=
  match s with [] => false | _ => true end.

(** The components of a path string: empty components and "." are dropped. *)
Definition parse_parts (s : pystr) : list pystr :=
  filter (fun x => nonempty x && negb (str_eqb x (lit "."))) (split (ch "/") s).

(** Exactly two leading slashes make the root "//", one or three and more
    make it "/". *)
Definition parse_root (s : pystr) : pystr :=
  match s with
  | 47%N :: 47%N :: 47%N :: _ => lit "/"
  | 47%N :: 47%N :: _ => lit "//"
  | 47%N :: _ => lit "/"
  | _ => []
  end.

(** Path(s) *)
Definition of_str (s : pystr) : Path := MkPath (parse_root s) (parse_parts s).

(** p.name: the last part, empty when there is none. *)
Definition name (p : Path) : pystr := last (parts p) [].

(** p / rel for a relative [rel]. *)
Definition joinpath (p : Path) (rel : pystr) : Path :=
  match parse_root rel with
  | [] => MkPath (root p) (parts p ++ parse_parts rel)
  | _ => of_str rel
  end.

Fixpoint is_prefix (a b : list pystr) : bool :=
  match a, b with
  | [], _ => true
  | x :: a', y :: b' => str_eqb x y && is_prefix a' b'
  | _ :: _, [] => false
  end.

(** p.relative_to(other) succeeds: [other] is [p] or one of its parents. *)
Definition is_relative_to (p other : Path) : bool :=
  str_eqb (root p) (root other) && is_prefix (parts other) (parts p).

(** p.with_suffix(p.suffix + extra) for a path that has a name: the name
    with [extra] appended. *)
Definition append_to_name (p : Path) (extra : pystr) : Path :=
  MkPath (root p) (removelast (parts p) ++ [name p ++ extra]).

Definition path_eqb (p q : Path) : bool :=
  str_eqb (root p) (root q)
  && Nat.eqb (List.length (parts p)) (List.length (parts q))
  && is_prefix (parts p) (parts q).

End Pathlib.

(* ===================================================================== *)
(** * shellgeist/diff/guards.py                                           *)
(* ===================================================================== *)

Module Guards.
Import Py.

Definition _TRIPLE_DQ : pystr := [DQ; DQ; DQ].
Definition _TRIPLE_SQ : pystr := [SQ; SQ; SQ].

Definition FUTURE : pystr := lit "from __future__ import".

Definition _has_control_chars (s : pystr) : bool :=
  existsb (fun c => (c <? 32)%N && negb (mem_char c [LF; CR; TAB])) s.

Definition is_future_line (ln : pystr) : bool := startswith (lstrip ln) FUTURE.

Definition _has_future_import (text : pystr) : bool :=
  existsb is_future_line (splitlines text).

Definition is_blank (s : pystr) : bool := str_eqb (strip s) [].

(** The first loop: blank lines and comments. *)
Fixpoint skip_blank_and_comments (lines : list pystr) : list pystr :=
  match lines with
  | [] => []
  | s :: r =>
      if is_blank s then skip_blank_and_comments r
      else if startswith (lstrip s) (lit "#") then skip_blank_and_comments r
      else lines
  end.

(** The loop that looks for the line closing a docstring: the lines after
    the first one that contains [q]. *)
Fixpoint skip_to_closing (q : pystr) (lines : list pystr) : list pystr :=
  match lines with
  | [] => []
  | s :: r => if contains s q then r else skip_to_closing q r
  end.

Definition skip_docstring (lines : list pystr) : list pystr :=
  match lines with
  | [] => []
  | s :: r =>
      let s0 := lstrip s in
      if startswith s0 _TRIPLE_DQ || startswith s0 _TRIPLE_SQ then
        let q := if startswith s0 _TRIPLE_DQ then _TRIPLE_DQ else _TRIPLE_SQ in
        if 2 <=? count s0 q then r
        else skip_to_closing q r
      else lines
  end.

Fixpoint skip_blank (lines : list pystr) : list pystr :=
  match lines with
  | [] => []
  | s :: r => if is_blank s then skip_blank r else lines
  end.

Definition _future_import_is_in_allowed_region (new : pystr) : bool :=
  let lines := splitlines new in
  match skip_blank (skip_docstring (skip_blank_and_comments lines)) with
  | [] => false
  | s :: _ => is_future_line s
  end.

Definition _guard_future_import (old new : pystr) : bool * pystr :=
  if negb (_has_future_import old) then (true, [])
  else if negb (_has_future_import new) then (false, lit "future_import_removed")
  else if negb (_future_import_is_in_allowed_region new) then (false, lit "future_import_moved")
  else (true, []).

(** The loop of _normalize_for_similarity over the right-stripped lines. *)
Fixpoint squeeze_blank (lines : list pystr) (blank_run : nat) : list pystr :=
  match lines with
  | [] => []
  | ln :: r =>
      if is_blank ln then
        if blank_run + 1 <=? 1 then [] :: squeeze_blank r (blank_run + 1)
        else squeeze_blank r (blank_run + 1)
      else ln :: squeeze_blank r 0
  end.

Definition _normalize_for_similarity (s : pystr) : pystr :=
  let s := replace (replace s [CR; LF] [LF]) [CR] [LF] in
  let lines := map rstrip (splitlines s) in
  strip (join [LF] (squeeze_blank lines 0)).

Definition _similarity_ratio (old new : pystr) : PyFloat.float :=
  let a := _normalize_for_similarity old in
  let b := _normalize_for_similarity new in
  Difflib.ratio (splitlines a) (splitlines b).

Definition keywords : list pystr :=
  [ lit "rewrite"; lit "refactor"; lit "reformat"; lit "format"; lit "overhaul";
    lit "replace"; lit "full"; lit "cleanup"; lit "clean up"; lit "modernize" ].

Section WithRuntime.
Context {RT : Runtime}.

Definition _allow_big_rewrite (instruction : pystr) : bool :=
  let s := lower instruction in
  existsb (fun k => contains s k) keywords.

Definition is_readme (relpath : pystr) : bool :=
  str_eqb (lower (Pathlib.name (Pathlib.of_str relpath))) (lit "readme.md").

Definition enforce_guards (relpath instruction old new : pystr) : bool * pystr :=
  if _has_control_chars new then (false, lit "guard: control_chars")
  else if str_eqb old new then (true, [])
  else
    let '(ok_fut, why_fut) := _guard_future_import old new in
    if negb ok_fut then (false, lit "guard: " ++ why_fut)
    else
      let ratio := _similarity_ratio old new in
      let is_readme := is_readme relpath in
      if (if is_readme && negb (_allow_big_rewrite instruction)
          then PyFloat.ltb ratio PyFloat.f_0_90 else false)
      then (false, lit "guard: README rewrite blocked")
      else
        let min_ratio := PyFloat.f_0_20 in
        if negb (_allow_big_rewrite instruction) && PyFloat.ltb ratio min_ratio
        then (false, lit "guard: rewrite too violent (similarity="
                     ++ PyFloat.format_2f ratio ++ lit ")")
        else (true, []).

End WithRuntime.

End Guards.

(* ===================================================================== *)
(** * Python runtime: json                                                *)
(* ===================================================================== *)

Module Json.
Import Py.

#[local] Set Warnings "-register-all".

(** The values json.loads builds.  A number keeps its text: the code only
    ever asks whether a value is a str or a dict.  A dict keeps its keys in
    insertion order, as Python does. *)
Inductive json :=
| JNull
| JBool (b : bool)
| JNum (text : pystr)
| JStr (s : pystr)
| JArr (items : list json)
| JObj (d : list (pystr * json)).

Definition dict := list (pystr * json).

(** d[key] = v: a key already present keeps its place. *)
Fixpoint dict_set (d : dict) (key : pystr) (v : json) : dict :=
  match d with
  | [] => [(key, v)]
  | (k, w) :: r => if str_eqb k key then (k, v) :: r else (k, w) :: dict_set r key v
  end.

(** d.get(key) *)
Fixpoint dict_get (d : dict) (key : pystr) : option json :=
  match d with
  | [] => None
  | (k, w) :: r => if str_eqb k key then Some w else dict_get r key
  end.

(** WHITESPACE = [ \t\n\r]* *)
Definition is_ws (c : char) : bool := mem_char c [SP; TAB; LF; CR].
Definition skip_ws (s : pystr) : pystr := drop_while is_ws s.

Definition is_digit09 (c : char) : bool := ((48 <=? c) && (c <=? 57))%N.
Definition is_digit19 (c : char) : bool := ((49 <=? c) && (c <=? 57))%N.

Definition hex_digit (c : char) : option N :=
  if ((48 <=? c) && (c <=? 57))%N then Some (c - 48)%N
  else if ((97 <=? c) && (c <=? 102))%N then Some (c - 87)%N
  else if ((65 <=? c) && (c <=? 70))%N then Some (c - 55)%N
  else None.

(** Four hex digits after backslash-u. *)
Definition hex4 (s : pystr) : option (N * pystr) :=
  match s with
  | a :: b :: c :: d :: r =>
      match hex_digit a, hex_digit b, hex_digit c, hex_digit d with
      | Some x, Some y, Some z, Some w => Some (4096 * x + 256 * y + 16 * z + w, r)%N
      | _, _, _, _ => None
      end
  | _ => None
  end.

(** scanstring(s, end, strict=True), from the character after the opening
    quote: the decoded string and the text after the closing quote. *)
Fixpoint scanstring (fuel : nat) (s : pystr) (acc : pystr) : option (pystr * pystr) :=
  match fuel with
  | O => None
  | S f =>
      match s with
      | [] => None                                   (* unterminated string *)
      | c :: r =>
          if char_eqb c DQ then Some (rev acc, r)
          else if char_eqb c BSL then
            match r with
            | [] => None
            | e :: r' =>
                if char_eqb e DQ then scanstring f r' (DQ :: acc)
                else if char_eqb e BSL then scanstring f r' (BSL :: acc)
                else if char_eqb e (ch "/") then scanstring f r' (ch "/" :: acc)
                else if char_eqb e (ch "b") then scanstring f r' (8%N :: acc)
                else if char_eqb e (ch "f") then scanstring f r' (12%N :: acc)
                else if char_eqb e (ch "n") then scanstring f r' (LF :: acc)
                else if char_eqb e (ch "r") then scanstring f r' (CR :: acc)
                else if char_eqb e (ch "t") then scanstring f r' (TAB :: acc)
                else if char_eqb e (ch "u") then
                  match hex4 r' with
                  | None => None
                  | Some (uni, r2) =>
                      if ((55296 <=? uni) && (uni <=? 56319))%N then
                        (* a high surrogate followed by an escaped low one *)
                        match r2 with
                        | 92%N :: 117%N :: r3 =>
                            match hex4 r3 with
                            | Some (uni2, r4) =>
                                if ((56320 <=? uni2) && (uni2 <=? 57343))%N
                                then scanstring f r4
                                       ((65536 + ((uni - 55296) * 1024 + (uni2 - 56320)))%N :: acc)
                                else scanstring f r2 (uni :: acc)
                            | None => scanstring f r2 (uni :: acc)
                            end
                        | _ => scanstring f r2 (uni :: acc)
                        end
                      else scanstring f r2 (uni :: acc)
                  end
                else None                            (* invalid escape *)
            end
          else if (c <? 32)%N then None              (* control character *)
          else scanstring f r (c :: acc)
      end
  end.

Fixpoint take_while (p : char -> bool) (s : pystr) : pystr * pystr :=
  match s with
  | c :: r =>
      if p c then let '(a, b) := take_while p r in (c :: a, b) else ([], s)
  | [] => ([], [])
  end.

(** NUMBER_RE, spaced out:
    ( -? (?: 0 | [1-9] [0-9]* ) ) ( \. [0-9]+ )? ( [eE] [-+]? [0-9]+ )? *)
Definition match_number (s : pystr) : option (pystr * pystr) :=
  let '(sign, s1) := match s with
                     | 45%N :: r => ([45%N], r)
                     | _ => ([], s)
                     end in
  let int_part :=
    match s1 with
    | c :: r =>
        if char_eqb c (ch "0") then Some ([c], r)
        else if is_digit19 c then
          let '(ds, r') := take_while is_digit09 r in Some (c :: ds, r')
        else None
    | [] => None
    end in
  match int_part with
  | None => None
  | Some (ip, s2) =>
      let '(frac, s3) :=
        match s2 with
        | 46%N :: r =>
            match take_while is_digit09 r with
            | ([], _) => ([], s2)
            | (ds, r') => (46%N :: ds, r')
            end
        | _ => ([], s2)
        end in
      let '(ex, s4) :=
        match s3 with
        | e :: r =>
            if mem_char e (lit "eE") then
              let '(sg, r1) :=
                match r with
                | x :: r' => if mem_char x (lit "-+") then ([x], r') else ([], r)
                | [] => ([], r)
                end in
              match take_while is_digit09 r1 with
              | ([], _) => ([], s3)
              | (ds, r2) => (e :: sg ++ ds, r2)
              end
            else ([], s3)
        | [] => ([], s3)
        end in
      Some (sign ++ ip ++ frac ++ ex, s4)
  end.

Section Containers.
(** scan_once for the values inside a container. *)
Variable scan : pystr -> option (json * pystr).

(** The loop of JSONObject, from the first key's opening quote on. *)
Fixpoint object_members (fuel : nat) (s : pystr) (pairs : dict) : option (json * pystr) :=
  match fuel with
  | O => None
  | S f =>
      match scanstring (S (List.length s)) s [] with
      | None => None
      | Some (key, s1) =>
          match skip_ws s1 with
          | 58%N :: s2 =>                                     (* : *)
              match scan (skip_ws s2) with
              | None => None
              | Some (value, s3) =>
                  let pairs' := dict_set pairs key value in
                  match skip_ws s3 with
                  | 125%N :: s4 => Some (JObj pairs', s4)      (* } *)
                  | 44%N :: s4 =>                             (* , *)
                      match skip_ws s4 with
                      | 34%N :: s5 => object_members f s5 pairs'
                      | _ => None
                      end
                  | _ => None
                  end
              end
          | _ => None
          end
      end
  end.

(** JSONObject, from the character after the brace. *)
Definition parse_object (s : pystr) : option (json * pystr) :=
  match skip_ws s with
  | 125%N :: r => Some (JObj [], r)
  | 34%N :: r => object_members (S (List.length r)) r []
  | _ => None
  end.

(** The loop of JSONArray. *)
Fixpoint array_items (fuel : nat) (s : pystr) (items : list json) : option (json * pystr) :=
  match fuel with
  | O => None
  | S f =>
      match scan s with
      | None => None
      | Some (value, s1) =>
          match skip_ws s1 with
          | 93%N :: s2 => Some (JArr (items ++ [value]), s2)   (* ] *)
          | 44%N :: s2 => array_items f (skip_ws s2) (items ++ [value])
          | _ => None
          end
      end
  end.

(** JSONArray, from the character after the bracket. *)
Definition parse_array (s : pystr) : option (json * pystr) :=
  match skip_ws s with
  | 93%N :: r => Some (JArr [], r)
  | r => array_items (S (List.length r)) r []
  end.

End Containers.

(** scan_once(s, idx) on the text from idx on: the value and the text after
    it; None when it raises.  [fuel] bounds the nesting. *)
Fixpoint scan_once (fuel : nat) (s : pystr) : option (json * pystr) :=
  match fuel with
  | O => None
  | S f =>
      match s with
      | [] => None
      | c :: r =>
          if char_eqb c DQ then
            match scanstring (S (List.length r)) r [] with
            | Some (str, r') => Some (JStr str, r')
            | None => None
            end
          else if char_eqb c (ch "{") then parse_object (scan_once f) r
          else if char_eqb c (ch "[") then parse_array (scan_once f) r
          else if startswith s (lit "null") then Some (JNull, skipn 4 s)
          else if startswith s (lit "true") then Some (JBool true, skipn 4 s)
          else if startswith s (lit "false") then Some (JBool false, skipn 5 s)
          else
            match match_number s with
            | Some (text, r') => Some (JNum text, r')
            | None =>
                if startswith s (lit "NaN") then Some (JNum (lit "NaN"), skipn 3 s)
                else if startswith s (lit "Infinity")
                then Some (JNum (lit "Infinity"), skipn 8 s)
                else if startswith s (lit "-Infinity")
                then Some (JNum (lit "-Infinity"), skipn 9 s)
                else None
            end
      end
  end.

(** JSONDecoder().raw_decode(s, idx): the value and the index of its end. *)
Definition raw_decode (s : pystr) (idx : nat) : option (json * nat) :=
  let tail := skipn idx s in
  match scan_once (S (List.length tail)) tail with
  | Some (v, r) => Some (v, List.length s - List.length r)
  | None => None
  end.

(** json.loads(s); None when it raises. *)
Definition loads (s : pystr) : option json :=
  if startswith s [65279%N] then None
  else
    let s0 := skip_ws s in
    match scan_once (S (List.length s0)) s0 with
    | Some (v, r) =>
        match skip_ws r with
        | [] => Some v
        | _ => None                                   (* extra data *)
        end
    | None => None
    end.

End Json.

(* ===================================================================== *)
(** * shellgeist/util_json.py                                             *)
(* ===================================================================== *)

Module UtilJson.
Import Py Re Json.

(** A letter of a pattern under re.IGNORECASE: both cases, and the two
    characters outside ASCII that fold to an ASCII letter. *)
Definition chr_ci (c : char) : regex :=
  Cls (fun x => char_eqb x c || char_eqb x (c - 32)%N
                || (char_eqb c (ch "s") && char_eqb x 383%N)
                || (char_eqb c (ch "k") && char_eqb x 8490%N)).

(** _FENCE_RE = ^\s*```(?:json)?\s*$ with re.IGNORECASE *)
Definition _FENCE_RE : regex :=
  seq [ Bol; Star ws; word (lit "```");
        opt (seq (map chr_ci (lit "json"))); Star ws; Eol ].

Definition ident_start (c : char) : bool :=
  in_range 65 90 c || in_range 97 122 c || char_eqb c (ch "_").
Definition ident_char (c : char) : bool :=
  ident_start c || in_range 48 57 c.

(** _UNQUOTED_KEY_RE, spaced out:  ( [{\s,] ) ( [A-Za-z_] [A-Za-z0-9_]* ) \s* : *)
Definition _UNQUOTED_KEY_RE : regex :=
  seq [ Grp 1 (Cls (fun c => char_eqb c (ch "{") || is_space c || char_eqb c (ch ",")));
        Grp 2 (Seq (Cls ident_start) (Star (Cls ident_char)));
        Star ws; chr (ch ":") ].

(** _SINGLE_QUOTE_KEY_RE = {\s*'([^']+)'\s*: *)
Definition _SINGLE_QUOTE_KEY_RE : regex :=
  seq [ chr (ch "{"); Star ws; chr SQ; Grp 1 (plus (none_of [SQ])); chr SQ;
        Star ws; chr (ch ":") ].

(** _CTRL_RE = [\x00-\x08\x0b\x0c\x0e-\x1f] *)
Definition _CTRL_RE : regex :=
  Cls (fun c => in_range 0 8 c || char_eqb c 11%N || char_eqb c 12%N || in_range 14 31 c).

(** The pattern of the last re.sub of _repair_common_llm_json, spaced out:
    : \s* ' ( (?: \\' | [^'] )* ) ' *)
Definition SQ_VALUE_RE : regex :=
  seq [ chr (ch ":"); Star ws; chr SQ;
        Grp 1 (Star (Alt (Seq (chr BSL) (chr SQ)) (none_of [SQ]))); chr SQ ].

Definition grp (n : nat) (m : mstate) : pystr :=
  match group n m with Some t => t | None => [] end.

Definition fence_match (line : pystr) : bool :=
  match rmatch _FENCE_RE line with Some _ => true | None => false end.

Definition _strip_code_fences (s : pystr) : pystr :=
  let s := strip s in
  match s with
  | [] => s
  | _ =>
      match splitlines s with
      | first :: lines =>
          if fence_match first then
            let lines :=
              match lines with
              | [] => lines
              | _ => if fence_match (last lines []) then removelast lines else lines
              end in
            strip (join [LF] lines)
          else s
      | [] => s
      end
  end.

Inductive want := WantObject | WantArray.

Definition _extract_first_json_value (raw : pystr) (w : want) : pystr :=
  let s := _strip_code_fences raw in
  let open_ch := match w with WantObject => ch "{" | WantArray => ch "[" end in
  let close_ch := match w with WantObject => ch "}" | WantArray => ch "]" end in
  match find s [open_ch] with
  | None => s
  | Some start =>
      match raw_decode s start with
      | Some (_, end_) => slice s start end_
      | None =>
          match rfind s [close_ch] with
          | Some end_ =>
              if start <? end_ then slice s start (end_ + 1) else skipn start s
          | None => skipn start s
          end
      end
  end.

Definition extract_json_object (raw : pystr) : pystr :=
  _extract_first_json_value raw WantObject.

Definition extract_json_array (raw : pystr) : pystr :=
  _extract_first_json_value raw WantArray.

(** The replacement function of the last re.sub. *)
Definition _sq_val (m : mstate) (_ : pystr) : pystr :=
  let inner := grp 1 m in
  let inner := replace inner [BSL; SQ] [SQ] in
  let inner := replace inner [DQ] [BSL; DQ] in
  lit ": \x22" ++ inner ++ [DQ].

Definition _repair_common_llm_json (s : pystr) : pystr :=
  let s := strip s in
  match s with
  | [] => s
  | _ =>
      let s := sub _CTRL_RE (fun _ _ => []) s in
      let s := sub _SINGLE_QUOTE_KEY_RE
                   (fun m _ => lit "{\x22" ++ grp 1 m ++ lit "\x22:") s in
      let s := sub _UNQUOTED_KEY_RE
                   (fun m _ => grp 1 m ++ [DQ] ++ grp 2 m ++ lit "\x22:") s in
      sub SQ_VALUE_RE _sq_val s
  end.

Inductive error :=
| JSONDecodeError
| ValueError (msg : pystr).

Section WithRuntime.
Context {RT : Runtime}.

Definition _unescape_if_looks_escaped (s : pystr) : pystr :=
  if contains s (lit "\\n") || contains s (lit "\\t")
     || contains s (lit "\\\x22") || contains s (lit "\\r")
  then match unicode_escape_decode s with
       | Some s' => s'
       | None => s
       end
  else s.

Definition _postprocess_obj (d : dict) : dict :=
  fold_left (fun d k =>
               match dict_get d k with
               | Some (JStr v) => dict_set d k (JStr (_unescape_if_looks_escaped v))
               | _ => d
               end)
            [lit "diff"; lit "text"; lit "content"] d.

Definition loads_obj (text : pystr) : dict + error :=
  let raw := _strip_code_fences text in
  let raw := sub _CTRL_RE (fun _ _ => []) raw in
  match loads raw with
  | Some (JObj v) => inl (_postprocess_obj v)
  | _ =>
      let frag := strip (extract_json_object raw) in
      let frag := sub _CTRL_RE (fun _ _ => []) frag in
      match loads frag with
      | Some (JObj v2) => inl (_postprocess_obj v2)
      | _ =>
          let repaired := _repair_common_llm_json frag in
          match loads repaired with
          | None => inr JSONDecodeError
          | Some (JObj v3) => inl (_postprocess_obj v3)
          | Some _ => inr (ValueError (lit "json_not_object"))
          end
      end
  end.

End WithRuntime.

End UtilJson.

(* ===================================================================== *)
(** * shellgeist/tools/coder.py                                           *)
(* ===================================================================== *)

Module Coder.
Import Py Re Json.

(** ** LLM string auto-unescape *)

Definition _maybe_unescape_llm_string (s : pystr) : pystr :=
  match s with
  | [] => s
  | _ =>
      if contains s (lit "\\n") && negb (contains s [LF]) then
        let s2 := s in
        let s2 := replace s2 (lit "\\r\\n") [LF] in
        let s2 := replace s2 (lit "\\n") [LF] in
        let s2 := replace s2 (lit "\\r") [CR] in
        let s2 := replace s2 (lit "\\t") [TAB] in
        let s2 := replace (replace s2 [BSL; DQ] [DQ]) [BSL; SQ] [SQ] in
        let s2 := replace s2 [BSL; BSL] [BSL] in
        s2
      else s
  end.

Definition _strip_fences (s : pystr) : pystr :=
  let s := strip s in
  match s with
  | [] => s
  | _ =>
      if startswith s (lit "```") then
        let lines := splitlines s in
        let lines :=
          match lines with
          | l0 :: r => if startswith (lstrip l0) (lit "```") then r else lines
          | [] => lines
          end in
        let lines :=
          match lines with
          | [] => lines
          | _ => if startswith (lstrip (last lines [])) (lit "```")
                 then removelast lines else lines
          end in
        strip (join [LF] lines)
      else s
  end.

(** ** Fulltext salvage *)

(** _CONTENT_FIELD_RE with re.DOTALL, spaced out; the quote is the double
    quote:  quote content quote \s* : \s* quote
            (?P<body> (?: \\. | [^quote\\] )* ) quote \s* [}\]]? \s* $ *)
Definition _CONTENT_FIELD_RE : regex :=
  seq [ word (lit "\x22content\x22"); Star ws; chr (ch ":"); Star ws; chr DQ;
        Grp 1 (Star (Alt (Seq (chr BSL) any_char) (none_of [DQ; BSL])));
        chr DQ; Star ws; opt (one_of (lit "}]")); Star ws; Eol ].

Definition _unescape_json_string_fragment (s : pystr) : pystr :=
  let s := replace s (lit "\\r\\n") [LF] in
  let s := replace s (lit "\\n") [LF] in
  let s := replace s (lit "\\r") [CR] in
  let s := replace s (lit "\\t") [TAB] in
  let s := replace s [BSL; DQ] [DQ] in
  let s := replace s (lit "\\/") (lit "/") in
  let s := replace s [BSL; BSL] [BSL] in
  s.

Definition _extract_fulltext_content_salvage (raw : pystr) : option pystr :=
  match raw with
  | [] => None
  | _ =>
      let txt := strip raw in
      match search _CONTENT_FIELD_RE txt with
      | Some (_, m) =>
          let body := match group 1 m with Some b => b | None => [] end in
          Some (_unescape_json_string_fragment body)
      | None =>
          let needle := lit "\x22content\x22: \x22" in
          match find txt needle with
          | Some j =>
              let frag := skipn (j + List.length needle) txt in
              match rfind frag [DQ] with
              | Some (S k) => Some (_unescape_json_string_fragment (firstn (S k) frag))
              | _ => None
              end
          | None => None
          end
      end
  end.

Definition closing_lines : list pystr :=
  [ lit "\x22"; lit "\x22}"; lit "\x22},"; lit "}"; lit "}," ].

(** The while loop that drops the closing lines of the envelope, on the
    reversed list of body lines. *)
Fixpoint drop_closing (rev_body : list pystr) : list pystr :=
  match rev_body with
  | [] => []
  | l :: r =>
      if existsb (str_eqb (strip l)) closing_lines then drop_closing r else rev_body
  end.

Definition _salvage_broken_content_envelope (raw : pystr) : option pystr :=
  match splitlines raw with
  | l0 :: l1 :: l2 :: rest =>
      if negb (str_eqb (strip l0) (lit "{")) then None
      else if negb (startswith (lstrip l1) (lit "\x22content\x22: \x22")) then None
      else
        let body := rev (drop_closing (rev (l2 :: rest))) in
        Some (lstrip_chars [LF] (join [LF] body))
  | _ => None
  end.

(** ** Diff normalization and salvage *)

(** _HUNK_INLINE_OP_RE, spaced out:  ^ ( @@ .* @@ ) \s+ ( [+\- ] .* ) $ *)
Definition _HUNK_INLINE_OP_RE : regex :=
  seq [ Bol; Grp 1 (seq [ word (lit "@@"); Star any_but_newline; word (lit "@@") ]);
        plus ws; Grp 2 (Seq (one_of (lit "+- ")) (Star any_but_newline)); Eol ].

Definition _NOISE_PREFIXES : list pystr :=
  [ lit "diff --git "; lit "index "; lit "--- "; lit "+++ " ].

(** The body of the for loop of _normalize_unified_diff: what one raw line
    adds to [out]. *)
Definition normalize_line (raw_line : pystr) : list pystr :=
  if startswith_any raw_line _NOISE_PREFIXES then []
  else
    match rmatch _HUNK_INLINE_OP_RE raw_line with
    | Some m =>
        [ match group 1 m with Some g => g | None => [] end;
          match group 2 m with Some g => g | None => [] end ]
    | None => [raw_line]
    end.

Definition _normalize_unified_diff (diff : pystr) : pystr :=
  let diff := replace (replace diff [CR; LF] [LF]) [CR] [LF] in
  let out := flat_map normalize_line (split LF diff) in
  let norm := join [LF] out in
  if negb (endswith norm [LF]) then norm ++ [LF] else norm.

Definition _extract_diff_fallback (raw : pystr) : option pystr :=
  match find raw (lit "@@") with
  | None => None
  | Some i =>
      let guess := _normalize_unified_diff (skipn i raw) in
      if contains guess (lit "@@") then Some guess else None
  end.

Definition _ensure_display_diff (path : pystr) (patch_hunks_only : pystr) : pystr :=
  let p := patch_hunks_only in
  if negb (contains p (lit "@@")) then p
  else if startswith (lstrip p) (lit "--- ") then
    (if endswith p [LF] then p else p ++ [LF])
  else
    let a := lit "--- a/" ++ path ++ [LF] in
    let b := lit "+++ b/" ++ path ++ [LF] in
    let out := a ++ b ++ p in
    if endswith out [LF] then out else out ++ [LF].

(** ** Empty file diff validator *)

(** The for loop of _validate_diff_for_empty_old: an early return on the
    left, the end of the loop with the two flags on the right. *)
Fixpoint validate_loop (lines : list pystr) (in_hunk saw_plus : bool)
  : (bool * pystr) + (bool * bool) :=
  match lines with
  | [] => inr (in_hunk, saw_plus)
  | ln :: r =>
      if startswith ln (lit "@@") then validate_loop r true saw_plus
      else if negb in_hunk then validate_loop r in_hunk saw_plus
      else if startswith ln [BSL] || str_eqb ln [] then validate_loop r in_hunk saw_plus
      else if startswith ln [SP] then inl (false, lit "context_lines")
      else if startswith ln (lit "-") then inl (false, lit "deletions")
      else if startswith ln (lit "+") then validate_loop r in_hunk true
      else inl (false, lit "invalid_line")
  end.

Definition _validate_diff_for_empty_old (diff : pystr) : bool * pystr :=
  match validate_loop (splitlines diff) false false with
  | inl r => r
  | inr (in_hunk, saw_plus) =>
      if in_hunk && negb saw_plus then (false, lit "empty_hunk")
      else if negb in_hunk then (false, lit "no_hunks")
      else (true, [])
  end.

(** ** Patch utils *)

Definition _make_patch_from_fulltext (path old new : pystr) : pystr :=
  concat (Difflib.unified_diff (splitlines_keepends old) (splitlines_keepends new)
            (path ++ lit " (old)") (path ++ lit " (new)")).

(** ** future-import guard *)

Definition _TRIPLE_DQ : pystr := [DQ; DQ; DQ].
Definition _TRIPLE_SQ : pystr := [SQ; SQ; SQ].
Definition _BOM_ZW : pystr := [65279%N; 8203%N].
Definition FUTURE : pystr := lit "from __future__ import".

Definition _strip_bom_zw (s : pystr) : pystr := lstrip_chars _BOM_ZW s.

Definition _is_effectively_blank (s : pystr) : bool :=
  str_eqb (strip (_strip_bom_zw s)) [].

(** A line that holds a future import, byte-order mark and zero-width
    space aside. *)
Definition is_future_line_bom (ln : pystr) : bool :=
  startswith (lstrip (_strip_bom_zw ln)) FUTURE.

(** The loop over blank lines and comments; the number of lines passed. *)
Fixpoint prelude_blank_comments (lines : list pystr) : nat :=
  match lines with
  | [] => 0
  | s :: r =>
      if _is_effectively_blank s then S (prelude_blank_comments r)
      else if startswith (lstrip (_strip_bom_zw s)) (lit "#") then S (prelude_blank_comments r)
      else 0
  end.

(** The loop that looks for the closing line of a docstring; the number of
    lines passed, the closing one included. *)
Fixpoint docstring_closing (q : pystr) (lines : list pystr) : nat :=
  match lines with
  | [] => 0
  | s :: r => if contains s q then 1 else S (docstring_closing q r)
  end.

(** The optional module docstring at the head of [lines]; the number of
    lines it takes. *)
Definition prelude_docstring (lines : list pystr) : nat :=
  match lines with
  | [] => 0
  | s :: r =>
      let s0 := lstrip (_strip_bom_zw s) in
      if startswith s0 _TRIPLE_DQ || startswith s0 _TRIPLE_SQ then
        let q := if startswith s0 _TRIPLE_DQ then _TRIPLE_DQ else _TRIPLE_SQ in
        if 2 <=? count s0 q then 1
        else 1 + docstring_closing q r
      else 0
  end.

(** The index i after blank lines, comments and the docstring. *)
Definition prelude_end (lines : list pystr) : nat :=
  let i := prelude_blank_comments lines in
  i + prelude_docstring (skipn i lines).

Fixpoint skip_effectively_blank (lines : list pystr) : list pystr :=
  match lines with
  | [] => []
  | s :: r => if _is_effectively_blank s then skip_effectively_blank r else lines
  end.

Definition _future_import_guard (old new : pystr) : bool * pystr :=
  let old_lines := splitlines old in
  if negb (existsb (fun l => startswith (lstrip l) FUTURE) old_lines) then (true, [])
  else
    let new_lines := splitlines new in
    if negb (existsb is_future_line_bom new_lines) then (false, lit "future_import_removed")
    else
      match skip_effectively_blank (skipn (prelude_end new_lines) new_lines) with
      | s :: _ =>
          if is_future_line_bom s then (true, []) else (false, lit "future_import_moved")
      | [] => (false, lit "future_import_moved")
      end.

Definition _autofix_future_import (old new : pystr) : pystr :=
  let old_lines := splitlines_keepends old in
  let old_future :=
    map (fun ln => lstrip (_strip_bom_zw ln)) (filter is_future_line_bom old_lines) in
  match old_future with
  | [] => new
  | _ =>
      let new_lines := splitlines_keepends new in
      match new_lines with
      | [] => new
      | _ =>
          let fut := filter is_future_line_bom new_lines in
          match fut with
          | [] =>
              let rest := new_lines in
              let i := prelude_end rest in
              let fixed := concat (firstn i rest ++ old_future ++ skipn i rest) in
              if fst (_future_import_guard old fixed) then fixed else new
          | _ =>
              let '(ok, why) := _future_import_guard old new in
              if ok then new
              else if negb (str_eqb why (lit "future_import_moved")) then new
              else
                let fut_lines := map (fun ln => lstrip (_strip_bom_zw ln)) fut in
                let rest := filter (fun ln => negb (is_future_line_bom ln)) new_lines in
                let i := prelude_end rest in
                let fixed := concat (firstn i rest ++ fut_lines ++ skipn i rest) in
                if fst (_future_import_guard old fixed) then fixed else new
          end
      end
  end.

(** ** Effects: exceptions, the file system, git and the model *)

Inductive exn :=
| ValueError (msg : pystr)
| OSError
| UnicodeEncodeError
| ModelCallError          (* get_client or the chat completion call raised *)
| CompileRaised.          (* compile raised something other than SyntaxError *)

Inductive outcome (A : Type) :=
| Return (a : A)
| Raised (e : exn).
Arguments Return {A} a.
Arguments Raised {A} e.

Definition bind {A B} (m : outcome A) (k : A -> outcome B) : outcome B :=
  match m with
  | Return a => k a
  | Raised e => Raised e
  end.

Notation "x <- m ;; k" := (bind m (fun x => k))
  (at level 61, m at next level, right associativity).
Notation "' p <- m ;; k" := (bind m (fun x => let 'p := x in k))
  (at level 61, p pattern, m at next level, right associativity).

Inductive node :=
| File (text : pystr)
| Directory.

(** What the code sees of the machine: the files by resolved path, symlink
    resolution, which paths can be written, and what git answers. *)
Record World := MkWorld {
  fs : Pathlib.Path -> option node;
  resolve : Pathlib.Path -> Pathlib.Path + exn;      (* Path.resolve() *)
  can_write : Pathlib.Path -> bool;
  git : Pathlib.Path -> list pystr -> outcome (Z * pystr)
}.

Definition exists_ (w : World) (p : Pathlib.Path) : bool :=
  match fs w p with Some _ => true | None => false end.

(** p.read_text(encoding="utf-8", errors="replace") *)
Definition read_text (w : World) (p : Pathlib.Path) : outcome pystr :=
  match fs w p with
  | Some (File t) => Return t
  | _ => Raised OSError
  end.

Definition set_file (w : World) (p : Pathlib.Path) (text : pystr) : World :=
  MkWorld (fun q => if Pathlib.path_eqb q p then Some (File text) else fs w q)
          (resolve w) (can_write w) (git w).

(** The dictionaries the entry points return. *)
Record result := MkResult {
  ok : bool;
  error : option pystr;
  detail : option pystr;
  patch : option pystr;
  file : option pystr;
  diff : option pystr;
  written : option bool;
  staged : option bool
}.

Definition failure (err : pystr) (det pat fil : option pystr) : result :=
  MkResult false (Some err) det pat fil None None None.

(** ** Path safety *)

(** root.resolve() is evaluated inside the try, so a ValueError it raises
    is reported as path_escape like the one of relative_to; whatever else
    resolve raises goes through. *)
Definition _resolve_repo_path (w : World) (root : Pathlib.Path) (rel : pystr)
  : outcome Pathlib.Path :=
  match rel with
  | [] => Raised (ValueError (lit "invalid_path"))
  | _ =>
      if startswith_any rel [lit "/"; lit "~"] then Raised (ValueError (lit "invalid_path"))
      else
        match resolve w (Pathlib.joinpath root rel) with
        | inr e => Raised e
        | inl p =>
            match resolve w root with
            | inr (ValueError _) => Raised (ValueError (lit "path_escape"))
            | inr e => Raised e
            | inl r =>
                if Pathlib.is_relative_to p r then Return p
                else Raised (ValueError (lit "path_escape"))
            end
        end
  end.

(** ** File I/O and git *)

Definition is_surrogate (c : char) : bool := ((55296 <=? c) && (c <=? 57343))%N.

(** The temporary file is created next to [path], written and renamed over
    it; whatever fails, [path] keeps its contents. *)
Definition _atomic_write_text (w : World) (path : Pathlib.Path) (content : pystr)
  : outcome World :=
  if negb (can_write w path) then Raised OSError
  else if existsb is_surrogate content then Raised UnicodeEncodeError
  else Return (set_file w path content).

Definition _backup_file (w : World) (path : Pathlib.Path) : World :=
  let bak := Pathlib.append_to_name path (lit ".shellgeist.bak") in
  match fs w path with
  | Some (File t) => if can_write w bak then set_file w bak t else w
  | _ => w
  end.

(** The out[:8000] of the entry points. *)
Definition GIT_OUTPUT_LIMIT : nat := 8 * 1000.

Definition _git (w : World) (root : Pathlib.Path) (args : list pystr)
  : outcome (Z * pystr) := git w root args.

Section WithRuntime.
Context {RT : Runtime}.

Definition _py_syntax_ok (path content : pystr) : outcome bool :=
  if negb (endswith path (lit ".py")) then Return true
  else match compile_exec content path with
       | Some b => Return b
       | None => Raised CompileRaised
       end.

(** ** Prompts *)

Definition future_hint : pystr :=
  lit "If the file contains `from __future__ import ...`, it MUST remain the first non-comment/non-docstring statement.\n"
  ++ lit "Do not add imports or code before it.\n".

Definition repair_line (repair : option pystr) : pystr :=
  match repair with
  | Some (c :: r) => lit "REPAIR: " ++ (c :: r) ++ [LF]
  | _ => []
  end.

Definition user_prompt (path instruction old : pystr) : pystr :=
  lit "FILE: " ++ path ++ lit "\nINSTRUCTION: " ++ instruction ++ lit "\nOLD:\n" ++ old.

Definition _build_prompts (path instruction old : pystr) (repair : option pystr)
  : pystr * pystr :=
  let empty_hint :=
    match old with
    | [] => lit "OLD IS EMPTY. Only + lines. No context lines.\n"
    | _ => []
    end in
  let system :=
    lit "Return JSON only: {\x22diff\x22: \x22<unified diff>\x22}\n"
    ++ lit "No markdown. No explanations.\n" ++ empty_hint ++ future_hint
    ++ repair_line repair in
  (system, user_prompt path instruction old).

Definition _build_fulltext_prompts (path instruction old : pystr) (repair : option pystr)
  : pystr * pystr :=
  let system :=
    lit "Return JSON only: {\x22content\x22: \x22<full new file>\x22}\n"
    ++ lit "No markdown. No explanations.\n" ++ future_hint ++ repair_line repair in
  (system, user_prompt path instruction old).

Definition _repair_hint_for_detail (detail : pystr) : pystr :=
  if contains detail (lit "rewrite too violent") then
    lit "rewrite_too_violent: Your previous output rewrote too much.\n"
    ++ lit "Generate a MINIMAL unified diff that changes ONLY what is necessary to satisfy the instruction.\n"
    ++ lit "Do NOT reformat. Do NOT reorder imports. Do NOT rename identifiers unless required.\n"
    ++ lit "Keep all unrelated lines EXACTLY identical.\n"
  else lit "guard_blocked: " ++ detail.

(** ** Model call *)

(** One answer of the model: from the system and the user prompt to the
    content of the first choice (None for a null content), or an exception.
    The driver is run against the list of the answers still to come. *)
Definition answer := pystr -> pystr -> outcome (option pystr).
Definition llm := list answer.

Definition _call_model (system user : pystr) (m : llm) : outcome (pystr * llm) :=
  match m with
  | [] => Raised ModelCallError
  | a :: rest =>
      content <- a system user ;;
      Return (strip (match content with Some c => c | None => [] end), rest)
  end.

(** ** Finalizer *)

Definition guard_blocked (det : pystr) (pat : option pystr) : result :=
  failure (lit "guard_blocked") (Some det) pat None.

Definition success (path pat : pystr) : result :=
  MkResult true None None (Some pat) (Some path)
           (Some (_ensure_display_diff path pat)) None None.

Definition _finalize_ok (path instruction old new patch : pystr) : outcome result :=
  let new2 := _autofix_future_import old new in
  syntax_ok <- _py_syntax_ok path new2 ;;
  if negb syntax_ok then
    let '(okf, whyf) := _future_import_guard old new2 in
    if negb okf then Return (guard_blocked whyf (Some patch))
    else Return (guard_blocked (lit "syntax_error_after_edit") (Some patch))
  else
    let '(ok, why) := Guards.enforce_guards path instruction old new2 in
    if negb ok then Return (guard_blocked why (Some patch))
    else if negb (str_eqb new2 new) then
      let patch2 := _make_patch_from_fulltext path old new2 in
      Return (success path patch2)
    else Return (success path patch).

(** ** Fulltext fallback *)

Definition nonblank (s : pystr) : bool := negb (str_eqb (strip s) []).

(** The new text the fallback takes from the raw answer. *)
Definition fulltext_of_raw (raw : pystr) : pystr :=
  let salvage :=
    match _extract_fulltext_content_salvage raw with
    | Some salv1 =>
        if nonblank salv1 then Some salv1 else None
    | None => None
    end in
  let from_exception :=
    match salvage with
    | Some salv1 => salv1
    | None =>
        match _salvage_broken_content_envelope raw with
        | Some salv2 => if nonblank salv2 then salv2 else _strip_fences raw
        | None => _strip_fences raw
        end
    end in
  match UtilJson.loads_obj raw with
  | inl data =>
      match dict_get data (lit "content") with
      | Some (JStr v) => v
      | _ => from_exception                  (* ValueError("missing_content") *)
      end
  | inr _ => from_exception
  end.

Definition _fulltext_fallback (path instruction old reason : pystr) (m : llm)
  : outcome (result * llm) :=
  let '(system, user) := _build_fulltext_prompts path instruction old (Some reason) in
  '(raw, m) <- _call_model system user m ;;
  let new := fulltext_of_raw raw in
  let new := _maybe_unescape_llm_string new in
  let new := _autofix_future_import old new in
  syntax_ok <- _py_syntax_ok path new ;;
  if negb syntax_ok then
    let '(okf, whyf) := _future_import_guard old new in
    if negb okf then Return (guard_blocked whyf None, m)
    else Return (guard_blocked (lit "syntax_error_after_edit") None, m)
  else
    let '(ok_future, why_future) := _future_import_guard old new in
    let patch := _make_patch_from_fulltext path old new in
    if negb ok_future then Return (guard_blocked why_future (Some patch), m)
    else
      r <- _finalize_ok path instruction old new patch ;;
      Return (r, m).

(** ** Main edit plan *)

(** The diff taken from the value under the key diff of a parsed answer:
    a value that is not a str normalizes to the empty string. *)
Definition diff_of_data (data : dict) : pystr :=
  match dict_get data (lit "diff") with
  | Some (JStr v) => _normalize_unified_diff (_maybe_unescape_llm_string v)
  | Some _ => []
  | None => _normalize_unified_diff (_maybe_unescape_llm_string [])
  end.

Definition truthy (o : option pystr) : option pystr :=
  match o with
  | Some (c :: r) => Some (c :: r)
  | _ => None
  end.

(** The diff of a main round: parse, salvage on an exception, salvage
    again when there is no hunk marker. *)
Definition round_diff (raw : pystr) : pystr :=
  let diff1 :=
    match UtilJson.loads_obj raw with
    | inl data => diff_of_data data
    | inr _ =>
        match truthy (_extract_diff_fallback raw) with
        | Some salvage => salvage
        | None => []
        end
    end in
  if negb (contains diff1 (lit "@@")) then
    match truthy (_extract_diff_fallback raw) with
    | Some salvage => salvage
    | None => diff1
    end
  else diff1.

(** The diff of a guard-repair call. *)
Definition repair_diff (raw : pystr) : pystr :=
  match UtilJson.loads_obj raw with
  | inl data => diff_of_data data
  | inr _ =>
      match truthy (_extract_diff_fallback raw) with
      | Some d => d
      | None => []
      end
  end.

(** What follows a successful application of the diff of a main round:
    finalize, and on a rejection one guard-repair call. *)
Definition finalize_with_repair (path instruction old new1 diff1 : pystr) (m : llm)
  : outcome (result * llm) :=
  out1 <- _finalize_ok path instruction old new1 diff1 ;;
  if ok out1 then Return (out1, m)
  else
    let detail1 := match detail out1 with Some d => d | None => [] end in
    let repair1 := _repair_hint_for_detail detail1 in
    let '(systemg, userg) := _build_prompts path instruction old (Some repair1) in
    '(rawg, m) <- _call_model systemg userg m ;;
    let diffg := repair_diff rawg in
    if contains diffg (lit "@@") then
      match Apply.apply_unified_diff old diffg with
      | Apply.Ok newg =>
          outg <- _finalize_ok path instruction old newg diffg ;;
          if ok outg then Return (outg, m) else Return (out1, m)
      | Apply.Raise _ => Return (out1, m)
      end
    else Return (out1, m).

Definition edit_plan_from (path instruction old : pystr) (m : llm)
  : outcome (result * llm) :=
  let '(system1, user1) := _build_prompts path instruction old None in
  '(raw1, m) <- _call_model system1 user1 m ;;
  let diff1 := round_diff raw1 in
  if negb (contains diff1 (lit "@@")) then
    _fulltext_fallback path instruction old (lit "missing_diff") m
  else
    let '(ok_empty, why_empty) :=
      match old with
      | [] => _validate_diff_for_empty_old diff1
      | _ => (true, [])
      end in
    if negb ok_empty then
      _fulltext_fallback path instruction old (lit "bad_diff_empty_old: " ++ why_empty) m
    else
      match Apply.apply_unified_diff old diff1 with
      | Apply.Ok new1 => finalize_with_repair path instruction old new1 diff1 m
      | Apply.Raise e =>
          let apply_err1 := Apply.str_of_error e in
          let '(system2, user2) :=
            _build_prompts path instruction old
              (Some (lit "patch_apply_failed: " ++ apply_err1)) in
          '(raw2, m) <- _call_model system2 user2 m ;;
          let diff2 := round_diff raw2 in
          if contains diff2 (lit "@@") then
            let '(ok_empty2, why_empty2) :=
              match old with
              | [] => _validate_diff_for_empty_old diff2
              | _ => (true, [])
              end in
            if negb ok_empty2 then
              _fulltext_fallback path instruction old
                (lit "bad_diff_empty_old: " ++ why_empty2) m
            else
              match Apply.apply_unified_diff old diff2 with
              | Apply.Ok new2 => finalize_with_repair path instruction old new2 diff2 m
              | Apply.Raise _ =>
                  _fulltext_fallback path instruction old (lit "patch_apply_failed twice") m
              end
          else
            _fulltext_fallback path instruction old (lit "patch_apply_failed twice") m
      end.

Definition edit_plan (w : World) (path instruction : pystr) (root : Pathlib.Path) (m : llm)
  : outcome (result * llm) :=
  file_path <- _resolve_repo_path w root path ;;
  if negb (exists_ w file_path)
  then Return (failure (lit "file_not_found") None None (Some path), m)
  else
    old <- read_text w file_path ;;
    edit_plan_from path instruction old m.

(** ** Apply edit *)

(** apply_edit(path, patch, root=root, instruction=..., stage=..., backup=...):
    what it returns or raises, and the world it leaves. *)
Definition apply_edit (w : World) (path patch : pystr) (root : Pathlib.Path)
  (instruction : pystr) (stage backup : bool) : outcome result * World :=
  match _resolve_repo_path w root path with
  | Raised e => (Raised e, w)
  | Return file_path =>
      if negb (exists_ w file_path)
      then (Return (failure (lit "file_not_found") None None (Some path)), w)
      else if negb (contains patch (lit "@@"))
      then (Return (failure (lit "invalid_patch") None None None), w)
      else
        match read_text w file_path with
        | Raised e => (Raised e, w)
        | Return old =>
            let patch := _normalize_unified_diff (_maybe_unescape_llm_string patch) in
            let '(ok_empty, why) :=
              match old with
              | [] => _validate_diff_for_empty_old patch
              | _ => (true, [])
              end in
            if negb ok_empty
            then (Return (failure (lit "bad_patch_empty_old") (Some why) None None), w)
            else
              match Apply.apply_unified_diff old patch with
              | Apply.Raise e =>
                  (Return (failure (lit "patch_apply_failed")
                             (Some (Apply.str_of_error e)) None None), w)
              | Apply.Ok new =>
                  let new := _autofix_future_import old new in
                  match _py_syntax_ok path new with
                  | Raised e => (Raised e, w)
                  | Return false =>
                      let '(okf, whyf) := _future_import_guard old new in
                      if negb okf then (Return (guard_blocked whyf None), w)
                      else (Return (guard_blocked (lit "syntax_error_after_edit") None), w)
                  | Return true =>
                      let instr := match instruction with
                                   | [] => lit "apply"
                                   | _ => instruction
                                   end in
                      let '(ok_guard, why_guard) :=
                        Guards.enforce_guards path instr old new in
                      if negb ok_guard then (Return (guard_blocked why_guard None), w)
                      else
                        let '(ok_future, why_future) := _future_import_guard old new in
                        if negb ok_future then (Return (guard_blocked why_future None), w)
                        else
                          let w1 := if backup then _backup_file w file_path else w in
                          match _atomic_write_text w1 file_path new with
                          | Raised e => (Raised e, w1)
                          | Return w2 =>
                              if stage then
                                match _git w2 root [lit "add"; lit "--"; path] with
                                | Raised e => (Raised e, w2)
                                | Return (rc, out) =>
                                    if negb (Z.eqb rc 0) then
                                      (Return (failure (lit "git_add_failed")
                                                 (Some (firstn GIT_OUTPUT_LIMIT out)) None None), w2)
                                    else
                                      (Return (MkResult true None None None (Some path)
                                                 None (Some true) (Some true)), w2)
                                end
                              else
                                (Return (MkResult true None None None (Some path)
                                           None (Some true) (Some false)), w2)
                          end
                  end
              end
        end
  end.

(** ** Full replace *)

(** apply_full_replace(path, new, root=root, instruction=..., stage=...,
    backup=...): what it returns or raises, and the world it leaves.  The
    patch it reports is built before the guards run. *)
Definition apply_full_replace (w : World) (path new : pystr) (root : Pathlib.Path)
  (instruction : pystr) (stage backup : bool) : outcome result * World :=
  match _resolve_repo_path w root path with
  | Raised e => (Raised e, w)
  | Return file_path =>
      if negb (exists_ w file_path)
      then (Return (failure (lit "file_not_found") None None (Some path)), w)
      else
        match read_text w file_path with
        | Raised e => (Raised e, w)
        | Return old =>
            let new := _maybe_unescape_llm_string new in
            let patch := _make_patch_from_fulltext path old new in
            let '(ok_future, why_future) := _future_import_guard old new in
            if negb ok_future then (Return (guard_blocked why_future (Some patch)), w)
            else
              match _py_syntax_ok path new with
              | Raised e => (Raised e, w)
              | Return false =>
                  (Return (guard_blocked (lit "syntax_error_after_edit") (Some patch)), w)
              | Return true =>
                  let '(ok_guard, why_guard) :=
                    Guards.enforce_guards path instruction old new in
                  if negb ok_guard then (Return (guard_blocked why_guard (Some patch)), w)
                  else
                    let w1 := if backup then _backup_file w file_path else w in
                    match _atomic_write_text w1 file_path new with
                    | Raised e => (Raised e, w1)
                    | Return w2 =>
                        if stage then
                          match _git w2 root [lit "add"; lit "--"; path] with
                          | Raised e => (Raised e, w2)
                          | Return (rc, out) =>
                              if negb (Z.eqb rc 0) then
                                (Return (failure (lit "git_add_failed")
                                           (Some (firstn GIT_OUTPUT_LIMIT out)) None None), w2)
                              else
                                (Return (MkResult true None None (Some patch) (Some path)
                                           None (Some true) (Some true)), w2)
                          end
                        else
                          (Return (MkResult true None None (Some patch) (Some path)
                                     None (Some true) (Some false)), w2)
                    end
              end
        end
  end.

End WithRuntime.

End Coder.

(* ===================================================================== *)
(** * shellgeist/safety.py                                                *)
(* ===================================================================== *)

Module Safety.
Import Py.

Definition BLOCKED_PATTERNS : list pystr :=
  [ lit "rm -rf"; lit "mkfs"; lit "dd if="; lit "passwd"; lit "visudo";
    lit ">/etc/sudoers"; lit ">>/etc/sudoers"; lit "useradd "; lit "userdel ";
    lit ":(){:|:&};:"; lit "chown -R /"; lit "chmod -R 7" ].

Section WithRuntime.
Context {RT : Runtime}.

Definition is_blocked (cmd : pystr) : bool :=
  let lower := lower cmd in
  existsb (fun p => contains lower p) BLOCKED_PATTERNS.

End WithRuntime.

End Safety.

(* ===================================================================== *)
(** * Vocabulary of the statements                                        *)
(* ===================================================================== *)

(** The hunk bodies of a diff as the empty-OLD validator reads them. *)
Module EmptyOld.
Import Py.







End EmptyOld.

(** Diffs that are already in the form the normalizer produces. *)
Module Canonical.
Import Py Re Coder.

(** A text whose only line boundary is the line feed. *)
Definition lf_only (s : pystr) : bool :=
  forallb (fun c => negb (is_linebreak c) || char_eqb c LF) s.

Definition is_noise (ln : pystr) : bool := startswith_any ln _NOISE_PREFIXES.
Definition not_noise (ln : pystr) : bool := negb (is_noise ln).

(** A hunk header followed on its line by white space and an operation. *)
Definition is_inline_op (ln : pystr) : bool :=
  match rmatch _HUNK_INLINE_OP_RE ln with Some _ => true | None => false end.

(** Noise lines stand before the first hunk header only. *)
Fixpoint noise_only_in_preamble (lines : list pystr) : bool :=
  match lines with
  | [] => true
  | ln :: r =>
      if startswith ln (lit "@@") then forallb not_noise r
      else noise_only_in_preamble r
  end.

(** A line without a line boundary inside. *)
Definition clean (l : pystr) : bool := forallb (fun c => negb (is_linebreak c)) l.

Definition add_lf (l : pystr) : pystr := l ++ [LF].

(** What splitlines(keepends=True) makes of the pieces of split on LF. *)
Definition keepends_of (L : list pystr) : list pystr :=
  map add_lf (removelast L) ++ match last L [] with [] => [] | l => [l] end.

End Canonical.

(** The relative paths the resolver refuses before it looks at the disk. *)
Module PathSafety.
Import Py.

Definition invalid_rel (rel : pystr) : bool :=
  match rel with
  | [] => true
  | _ => startswith rel (lit "/") || startswith rel (lit "~")
  end.

End PathSafety.

(** The inputs of the concrete statements. *)
Module Examples.
Import Py Coder.

Definition repo : Pathlib.Path := Pathlib.of_str (lit "/repo").

(** A working tree with one file, no symlinks, everything writable, and a
    git that succeeds. *)
Definition one_file_world (rel text : pystr) : World :=
  MkWorld
    (fun p => if Pathlib.path_eqb p (Pathlib.joinpath repo rel)
              then Some (File text) else None)
    (fun p => inl p)
    (fun _ => true)
    (fun _ _ => Return (0%Z, [])).

(** A module that starts with a future import. *)
Definition tool_old : pystr := lit "from __future__ import annotations\nx = 1\n".

(** The model answers with a diff that deletes the future import. *)
Definition drop_import_answer : answer :=
  fun _ _ => Return (Some (lit
    "{\x22diff\x22: \x22@@ -1,2 +1,1 @@\\n-from __future__ import annotations\\n x = 1\\n\x22}")).

(** A file whose last line has no line terminator, and a model that gives
    no diff and then the full new text. *)
Definition unterminated_old : pystr := lit "a = 1".
Definition no_diff_answer : answer :=
  fun _ _ => Return (Some (lit "I cannot produce a diff.")).
Definition full_text_answer : answer :=
  fun _ _ => Return (Some (lit "{\x22content\x22: \x22a = 2\\n\x22}")).

Definition boom_old : pystr := lit "a\nb\n".
Definition boom_diff : pystr := lit "@@ -1,2 +1,2 @@\n a\n-BOOM\n+b\n".

Definition hello_diff : pystr := lit "@@ -0,0 +1,1 @@\n+hello\n".
Definition hello : pystr := lit "hello\n".

Definition unquoted_key : pystr := lit "{diff: \x22hello\x22}".
Definition fenced : pystr := lit "```json\n{\x22diff\x22:\x22abc\x22}\n```".

(** A diff with file headers, and diffs the normalizer changes. *)
Definition headed_diff : pystr := lit "--- a/x\n+++ b/x\n@@ -0,0 +1 @@\n+hello\n".
Definition unterminated_diff : pystr := lit "@@ -0,0 +1 @@\n+foo".
Definition crlf_diff : pystr := lit "@@ -0,0 +1 @@\r\n+foo\r\n".
Definition dashes_old : pystr := lit "a\n-- x\n".
Definition dashes_diff : pystr := lit "@@ -1,2 +1,1 @@\n a\n--- x\n".
Definition spaced_header_old : pystr := lit "\nb\n".
Definition spaced_header_diff : pystr := lit "@@ -1 +1 @@  \n+x\n".

(** A Python module without future import, before and after an edit. *)
Definition plain_old : pystr := lit "import os\nx = 1\ny = 2\n".
Definition plain_new : pystr := lit "import os\nx = 1\ny = 3\n".

(** A README that shows a code sample, before and after the sample loses
    its first line. *)
Definition readme_head : pystr := lit "# Tool\n\nUsage:\n\n".
Definition readme_tail : pystr :=
  lit "    import tool\n    tool.run()\n\nSee the manual.\nLicense: MIT\n".
Definition readme_old : pystr :=
  readme_head ++ lit "    from __future__ import annotations\n" ++ readme_tail.
Definition readme_new : pystr := readme_head ++ readme_tail.

End Examples.

(** Invariants of the loops of SequenceMatcher. *)
Module MatcherInvariants.
Import Py Difflib.

(** A block lies in the window of the first sequence that starts at alo and
    ends at hi. *)
Definition within (alo hi : nat) (best : block) : Prop :=
  let '(besti, _, bestsize) := best in alo <= besti /\ besti + bestsize <= hi.

(** No run recorded in j2len is longer than [bound]. *)
Definition runs_bounded (bound : nat) (d : list (nat * nat)) : Prop :=
  forall key, dict_get d key <= bound.

(** The work still in the queue of get_matching_blocks: twice the lines of
    the first sequence in its windows, and one for each window. *)
Fixpoint work (queue : list (nat * nat * nat * nat)) : nat :=
  match queue with
  | [] => 0
  | (alo, ahi, _, _) :: q => 2 * (ahi - alo) + 1 + work q
  end.

End MatcherInvariants.

(** Where the patch of a result of the driver comes from. *)
Module PatchOrigin.
Import Py Coder.

(** The patch is the diff that was applied, with the new text left as it
    was by the autofix, or it is rebuilt from the texts by difflib. *)
Definition patch_origin {RT : Runtime} (path old : pystr) (r : result) : Prop :=
  (exists d new, patch r = Some d
                 /\ Apply.apply_unified_diff old d = Apply.Ok new
                 /\ _autofix_future_import old new = new)
  \/ (exists new, patch r = Some (_make_patch_from_fulltext path old new)).

End PatchOrigin.

(** ** Vocabulary of the further properties *)

Module ReSem.
Import Py Re.

(** Zero or more steps of a relation on matcher states. *)
Inductive star (R : mstate -> mstate -> Prop) : mstate -> mstate -> Prop :=
| star_refl : forall st, star R st st
| star_step : forall st mid st', R st mid -> star R mid st' -> star R st st'.

(** [reach r st st']: the expression [r] can take the matcher from [st] to
    [st'], whatever the alternatives and repetitions chosen. *)
Fixpoint reach (r : regex) (st st' : mstate) : Prop :=
  match r with
  | Eps => st' = st
  | Cls p =>
      exists c tl, rest st = c :: tl /\ p c = true
                   /\ st' = MState (S (pos st)) tl (groups st)
  | Seq a b => exists mid, reach a st mid /\ reach b mid st'
  | Alt a b => reach a st st' \/ reach b st st'
  | Star a => star (reach a) st st'
  | Grp n a =>
      exists st1, reach a st st1
                  /\ st' = set_group n (firstn (pos st1 - pos st) (rest st)) st1
  | Bol => pos st = 0 /\ st' = st
  | Eol => (rest st = [] \/ rest st = [LF]) /\ st' = st
  end.

(** The loop of a starred expression, by name. *)
Definition star_loop (ra : mstate -> (mstate -> option mstate) -> option mstate)
  (k : mstate -> option mstate) : nat -> mstate -> option mstate :=
  fix loop (fuel : nat) (st0 : mstate) {struct fuel} : option mstate :=
    match fuel with
    | O => k st0
    | S f =>
        match ra st0 (fun st1 =>
                if List.length (rest st1) <? List.length (rest st0)
                then loop f st1 else None) with
        | Some x => Some x
        | None => k st0
        end
    end.

End ReSem.

Module ApplyLoops.
Import Py Re Apply.

Section WithRuntime.
Context {RT : Runtime}.

(** The index a hunk header sends the cursor to: one less than the start
    of its old range, not below zero and not beyond the end. *)
Definition target_of (old_len : nat) (m : mstate) : nat :=
  let old_start :=
    match group 1 m with Some g => int_of_digits g | None => 0%N end in
  let target0 := Z.to_nat (Z.max 0 (Z.of_N old_start - 1)) in
  if old_len <? target0 then old_len else target0.

(** The loop over the body lines of a hunk, by name. *)
Definition body (old_lines : list pystr)
  : list pystr -> nat -> list pystr -> nat -> result pystr :=
  let old_len := List.length old_lines in
  fix body (ls : list pystr) (old_idx : nat) (out : list pystr)
    (hunk_lines : nat) {struct ls} : result pystr :=
    match ls with
    | [] =>
        if Nat.eqb hunk_lines 0 then Raise EmptyHunkBody
        else Ok (concat (out ++ skipn old_idx old_lines))
    | ln :: ls' =>
        if startswith ln (lit "@@") then
          if Nat.eqb hunk_lines 0 then Raise EmptyHunkBody
          else hunks old_lines ls old_idx out
        else if startswith ln [BSL] then body ls' old_idx out hunk_lines
        else if startswith ln [SP] then
          if old_len <=? old_idx then Raise ContextEOF
          else
            let expected := skipn 1 ln in
            let got := nth old_idx old_lines [] in
            if negb (str_eqb got expected) then Raise ContextMismatch
            else body ls' (S old_idx) (out ++ [got]) (S hunk_lines)
        else if startswith ln (lit "-") then
          if old_len <=? old_idx then Raise DeleteEOF
          else
            let expected := skipn 1 ln in
            let got := nth old_idx old_lines [] in
            if negb (str_eqb got expected) then Raise DeleteMismatch
            else body ls' (S old_idx) out (S hunk_lines)
        else if startswith ln (lit "+") then
          body ls' old_idx (out ++ [skipn 1 ln]) (S hunk_lines)
        else Raise (InvalidHunkLine ln)
    end.

End WithRuntime.
End ApplyLoops.

Module Lines.
Import Py.

(** A line as splitlines(keepends=True) gives it, against the same line
    without its terminator. *)
Definition line_rel (k l : pystr) : Prop :=
  exists t, k = l ++ t /\ forallb is_linebreak t = true.

End Lines.

Module Insertions.
Import Py Apply.

Definition is_plus (l : pystr) : bool := startswith l (lit "+").

(** The text of the insertion lines of a list of diff lines. *)
Definition inserted_of (lines : list pystr) : list pystr :=
  map (skipn 1) (filter is_plus lines).

(** The insertion lines of a diff, from its first hunk header on, without
    their sign. *)
Definition inserted (diff : pystr) : list pystr :=
  inserted_of (skip_to_first_hunk (splitlines_keepends diff)).

End Insertions.

Module PlainLines.
Import Py Coder.

(** A line that does not begin with a byte-order mark or a zero-width
    space. *)
Definition plain_head (l : pystr) : bool :=
  match l with
  | [] => true
  | c :: _ => negb (mem_char c _BOM_ZW)
  end.

(** A text none of whose lines begins with one. *)
Definition no_bom_lines (s : pystr) : bool := forallb plain_head (splitlines s).

End PlainLines.

Module Effects.
Import Py Coder.

(** The instruction apply_edit gives to the guards. *)
Definition guard_instruction (instruction : pystr) : pystr :=
  match instruction with
  | [] => lit "apply"
  | _ => instruction
  end.

(** The backup path of a file. *)
Definition backup_path (p : Pathlib.Path) : Pathlib.Path :=
  Pathlib.append_to_name p (lit ".shellgeist.bak").

(** The world after the optional backup of [p]. *)
Definition backed_up (w : World) (p : Pathlib.Path) (backup : bool) : World :=
  if backup then _backup_file w p else w.

(** [new] went through every check made before a write: the syntax check,
    the guards of guards.py and the future-import guard. *)
Definition accepted {RT : Runtime} (path instruction old new : pystr) : Prop :=
  _py_syntax_ok path new = Return true
  /\ fst (Guards.enforce_guards path instruction old new) = true
  /\ fst (_future_import_guard old new) = true.

(** The patch applies to the text of the file. *)
Definition edit_source {RT : Runtime} (w : World) (path patch : pystr)
  (root file_path : Pathlib.Path) (old applied : pystr) : Prop :=
  _resolve_repo_path w root path = Return file_path
  /\ read_text w file_path = Return old
  /\ Apply.apply_unified_diff old
       (_normalize_unified_diff (_maybe_unescape_llm_string patch))
     = Apply.Ok applied.

(** The world [w'] comes from [w] by a write of apply_edit: the patched
    text, after the autofix, was accepted, the backup was made if asked
    for, and the text was written unless the write failed. *)
Definition guarded_edit {RT : Runtime} (w : World) (path patch : pystr)
  (root : Pathlib.Path) (instruction : pystr) (backup : bool) (w' : World) : Prop :=
  exists file_path old applied,
    let new := _autofix_future_import old applied in
    edit_source w path patch root file_path old applied
    /\ accepted path (guard_instruction instruction) old new
    /\ (w' = backed_up w file_path backup
        \/ w' = set_file (backed_up w file_path backup) file_path new).


(** The same for apply_full_replace, whose new text is the one it is
    given, unescaped. *)
Definition guarded_replace {RT : Runtime} (w : World) (path text : pystr)
  (root : Pathlib.Path) (instruction : pystr) (backup : bool) (w' : World) : Prop :=
  exists file_path old,
    let new := _maybe_unescape_llm_string text in
    _resolve_repo_path w root path = Return file_path
    /\ read_text w file_path = Return old
    /\ accepted path instruction old new
    /\ (w' = backed_up w file_path backup
        \/ w' = set_file (backed_up w file_path backup) file_path new).


End Effects.

(** The inputs of the statements about the two entry points that write. *)
Module WriteExamples.
Import Py Coder Examples.

Definition notes_world : World := one_file_world (lit "notes.txt") boom_old.
Definition notes_path : Pathlib.Path := Pathlib.of_str (lit "/repo/notes.txt").
Definition good_patch : pystr := lit "@@ -1,2 +1,2 @@\n a\n-b\n+B\n".
Definition good_text : pystr := lit "a\nB\n".

(** The world after a write of [good_text] to notes.txt with a backup. *)
Definition notes_written : World :=
  set_file (Effects.backed_up notes_world notes_path true) notes_path good_text.

Definition edit_done : result :=
  MkResult true None None None (Some (lit "notes.txt")) None (Some true) (Some false).

Definition replace_done : result :=
  MkResult true None None
    (Some (_make_patch_from_fulltext (lit "notes.txt") boom_old good_text))
    (Some (lit "notes.txt")) None (Some true) (Some false).

End WriteExamples.

Module Payload.
Import Py Json.

(** The keys whose string values loads_obj unescapes. *)
Definition payload_keys : list pystr := [lit "diff"; lit "text"; lit "content"].

Definition is_payload_key (k : pystr) : bool := existsb (str_eqb k) payload_keys.

(** The body of the loop of _postprocess_obj, for one key. *)
Definition unescape_key {RT : Runtime} (d : dict) (k : pystr) : dict :=
  match dict_get d k with
  | Some (JStr v) => dict_set d k (JStr (UtilJson._unescape_if_looks_escaped v))
  | _ => d
  end.

End Payload.

Module ContextOnly.
Import Py.

(** A line that is neither an insertion nor a deletion. *)
Definition keeps (l : pystr) : bool :=
  negb (startswith l (lit "+")) && negb (startswith l (lit "-")).

End ContextOnly.

Module PlanResult.
Import Py Coder.

(** The three shapes of a result of edit_plan: a plan (the patch, and the
    diff that is its display form), a missing file, a text the guards
    blocked. *)
Definition is_plan (path : pystr) (r : result) : Prop :=
  ok r = true /\ error r = None /\ file r = Some path
  /\ exists p, patch r = Some p /\ diff r = Some (_ensure_display_diff path p).

Definition is_missing (path : pystr) (r : result) : Prop :=
  ok r = false /\ error r = Some (lit "file_not_found") /\ file r = Some path.

Definition is_blocked_edit (r : result) : Prop :=
  ok r = false /\ error r = Some (lit "guard_blocked")
  /\ exists why, detail r = Some why.

Definition plan_result (path : pystr) (r : result) : Prop :=
  is_plan path r \/ is_missing path r \/ is_blocked_edit r.

End PlanResult.

Module SelfMatch.
Import Py Difflib.

Section Runs.
(** A sequence matched against itself. *)
Variable a : list pystr.

(** The run of equal lines that are kept in b2j, ending at line i of the
    first copy and line j of the second: what find_longest_match records
    in j2len for row i. *)
Fixpoint run_at (i j : nat) {struct i} : nat :=
  if (j <? List.length a) && str_eqb (elt_b a j) (elt_a a i)
     && negb (is_popular a (elt_a a i))
  then S (match i, j with
          | S i', S j' => run_at i' j'
          | _, _ => 0
          end)
  else 0.

(** The run before (i, j): the value read from j2len at j - 1. *)
Definition run_before (i j : nat) : nat :=
  match i, j with
  | S i', S j' => run_at i' j'
  | _, _ => 0
  end.

(** What row i finds in j2len, the dictionary of row i - 1: no more than
    the runs before row i, and exactly the run on the diagonal. *)
Definition prev_ok (i : nat) (d : list (nat * nat)) : Prop :=
  (forall j1, Difflib.dict_get d j1 <= run_before i (S j1))
  /\ match i with
     | O => True
     | S i1 => Difflib.dict_get d i1 = run_at i1 i1
     end.

(** The best block so far lies on the diagonal and is as long as every
    diagonal run of the rows before i. *)
Definition best_ok (i : nat) (best : block) : Prop :=
  exists bi bs, best = (bi, bi, bs) /\ forall j, j < i -> run_at j j <= bs.

(** A line of b2j for row i: an index of a line equal to line i, which is
    not popular. *)
Definition hit (i j : nat) : Prop :=
  j < (List.length a) /\ str_eqb (elt_b a j) (elt_a a i) = true
  /\ is_popular a (elt_a a i) = false.

End Runs.
End SelfMatch.

Module NoBrace.
Import Py.




End NoBrace.

(** What a diff of two sequences of lines has to say about them. *)
Module Script.
Import Py Difflib.

Definition window := (nat * nat * nat * nat)%type.

(** The lines a block takes in the two sequences. *)
Definition span (blk : block) : window :=
  let '(i, j, k) := blk in (i, i + k, j, j + k).

(** The first window ends, in both sequences, where the second starts or
    before. *)
Definition before (u v : window) : Prop :=
  let '(_, a2, _, b2) := u in
  let '(a1, _, b1, _) := v in a2 <= a1 /\ b2 <= b1.

Definition apart (u v : window) : Prop := before u v \/ before v u.

(** The second window lies in the first. *)
Definition inside (w r : window) : Prop :=
  let '(a1, a2, b1, b2) := w in
  let '(c1, c2, d1, d2) := r in a1 <= c1 /\ c2 <= a2 /\ b1 <= d1 /\ d2 <= b2.

(** Two blocks that do not meet, one before the other. *)
Definition blocks_apart (x y : block) : Prop := apart (span x) (span y).

Section Seqs.
Variables a b : list pystr.

(** Lines i .. i+k of a are the lines j .. j+k of b. *)
Definition same (i j k : nat) : Prop :=
  i + k <= List.length a /\ j + k <= List.length b
  /\ forall t, t < k -> nth (i + t) a [] = nth (j + t) b [].

(** A block of equal lines inside a window. *)
Definition good (alo ahi blo bhi : nat) (blk : block) : Prop :=
  let '(i, j, k) := blk in
  alo <= i /\ i + k <= ahi /\ blo <= j /\ j + k <= bhi
  /\ forall t, t < k -> nth (i + t) a [] = nth (j + t) b [].

(** The runs j2len records before row i: each is a good block that ends in
    row i - 1, at the column of its key. *)
Definition runs_ok (alo ahi blo bhi i : nat) (d : list (nat * nat)) : Prop :=
  forall j1, dict_get d j1 = 0
    \/ exists bi bj, bi + dict_get d j1 = i /\ bj + dict_get d j1 = S j1
         /\ good alo ahi blo bhi (bi, bj, dict_get d j1).

Definition win_ok (w : window) : Prop :=
  let '(alo, ahi, blo, bhi) := w in
  alo <= ahi /\ ahi <= List.length a /\ blo <= bhi /\ bhi <= List.length b.

Definition blk_ok (blk : block) : Prop :=
  let '(i, j, k) := blk in 0 < k /\ same i j k.

(** Blocks of equal lines, one after the other in both sequences, from
    line i of a and line j of b on. *)
Fixpoint chain (i j : nat) (bl : list block) : Prop :=
  match bl with
  | [] => True
  | (bi, bj, k) :: r =>
      i <= bi /\ j <= bj /\ same bi bj k /\ chain (bi + k) (bj + k) r
  end.

(** An opcode says what it does: equal lines are equal, and no opcode is
    empty. *)
Definition op_ok (op : opcode) : Prop :=
  let '(t, i1, i2, j1, j2) := op in
  match t with
  | Equal => i1 < i2 /\ same i1 j1 (i2 - i1) /\ j2 = j1 + (i2 - i1)
  | Delete => i1 < i2 /\ i2 <= List.length a /\ j2 = j1 /\ j1 <= List.length b
  | Insert => i2 = i1 /\ i1 <= List.length a /\ j1 < j2 /\ j2 <= List.length b
  | Replace => i1 < i2 /\ i2 <= List.length a /\ j1 < j2 /\ j2 <= List.length b
  end.

(** Opcodes that follow each other without gap from (i, j) to (ie, je). *)
Fixpoint tiles (i j : nat) (ops : list opcode) (ie je : nat) : Prop :=
  match ops with
  | [] => i = ie /\ j = je
  | (t, i1, i2, j1, j2) :: r =>
      i1 = i /\ j1 = j /\ op_ok (t, i1, i2, j1, j2) /\ tiles i2 j2 r ie je
  end.

(** A group starts at the first line, or with lines of a. *)
Definition starts_ok (i : nat) (ops : list opcode) : Prop :=
  i = 0 \/ match ops with
           | (_, i1, i2, _, _) :: _ => i1 < i2
           | [] => True
           end.

(** Groups of opcodes with equal lines between them, before the first and
    after the last. *)
Fixpoint hunks_ok (i j : nat) (gs : list (list opcode)) : Prop :=
  match gs with
  | [] => exists k, same i j k /\ i + k = List.length a /\ j + k = List.length b
  | g :: r =>
      exists k i2 j2,
        same i j k /\ g <> [] /\ tiles (i + k) (j + k) g i2 j2
        /\ starts_ok (i + k) g /\ hunks_ok i2 j2 r
  end.

End Seqs.
End Script.

(** The text of a range in a hunk header: a number, or two with a comma. *)
Module Ranges.
Import Py.

Definition range_text (d : pystr) (o : option pystr) : pystr :=
  d ++ match o with Some e => ch "," :: e | None => [] end.

Definition range_groups (n : nat) (o : option pystr) : list (nat * pystr) :=
  match o with Some e => [(n, e)] | None => [] end.

Section WithRuntime.
Context {RT : Runtime}.

(** A text \d+ matches as a whole. *)
Definition digits (d : pystr) : Prop := d <> [] /\ forallb is_digit d = true.

Definition digits_opt (o : option pystr) : Prop :=
  match o with Some e => digits e | None => True end.

End WithRuntime.
End Ranges.

(** Texts whose last line is terminated, and lines that stay one line. *)
Module WholeLines.
Import Py.

(** The text is empty or its last character is a line boundary. *)
Fixpoint ends_with_break (s : pystr) : bool :=
  match s with
  | [] => true
  | [c] => is_linebreak c
  | _ :: r => ends_with_break r
  end.

(** No line boundary in the text. *)
Definition no_break (s : pystr) : bool := forallb (fun c => negb (is_linebreak c)) s.

(** What follows does not start with a line feed. *)
Definition no_lf_ahead (rest : pystr) : Prop :=
  match rest with
  | c :: _ => char_eqb c LF = false
  | [] => True
  end.

(** A line that splitlines(keepends=True) gives back as one line, whatever
    comes before it on the line and after it. *)
Definition whole (l : pystr) : Prop :=
  l <> [] /\
  forall cur rest, no_lf_ahead rest ->
    splitlines_keep_acc (l ++ rest) cur = (rev cur ++ l) :: splitlines_keep_acc rest [].

(** A line of a diff: whole, and not starting with a line feed. *)
Definition diff_line (l : pystr) : Prop := whole l /\ no_lf_ahead l.

End WholeLines.

(* ===================================================================== *)
(** * Facts about strings and lines                                       *)
(* ===================================================================== *)

Module PyFacts.
Import Py.

Lemma str_eqb_refl : forall a, str_eqb a a = true.
Proof.
  induction a as [|c a IH]; [reflexivity|].
  cbn [str_eqb]. unfold char_eqb. rewrite N.eqb_refl. exact IH.
Qed.

Lemma str_eqb_eq : forall a b, str_eqb a b = true <-> a = b.
Proof.
  induction a as [|x a IH]; destruct b as [|y b]; cbn [str_eqb];
    split; intros H; try congruence; try reflexivity.
  - apply andb_true_iff in H. destruct H as [Hc Hr].
    apply N.eqb_eq in Hc. apply IH in Hr. congruence.
  - inversion H; subst. apply (str_eqb_refl (y :: b)).
Qed.

Lemma str_eqb_neq : forall a b, a <> b -> str_eqb a b = false.
Proof.
  intros a b H. destruct (str_eqb a b) eqn:E; [|reflexivity].
  apply str_eqb_eq in E. congruence.
Qed.

Lemma startswith_nil : forall s, startswith s [] = true.
Proof. destruct s; reflexivity. Qed.

(** Two different characters cannot both be the head of a line. *)
Lemma startswith_two_heads : forall ln a b,
  a <> b -> startswith ln [a] = true -> startswith ln [b] = false.
Proof.
  intros [|c t] a b Hab H; [discriminate|].
  cbn [startswith] in *. unfold char_eqb in *.
  apply andb_true_iff in H. destruct H as [H _].
  apply N.eqb_eq in H. subst a.
  apply andb_false_iff. left. apply N.eqb_neq. congruence.
Qed.

Lemma rev_nil_inv : forall (cur : pystr), rev cur = [] -> cur = [].
Proof.
  intros [|x t] H; [reflexivity|].
  cbn [rev] in H. destruct (rev t); discriminate.
Qed.

Lemma forallb_rev : forall (A : Type) (p : A -> bool) l,
  forallb p (rev l) = forallb p l.
Proof.
  intros A p l. induction l as [|x r IH]; [reflexivity|].
  cbn [rev forallb]. rewrite forallb_app, IH. cbn [forallb].
  rewrite andb_true_r. apply andb_comm.
Qed.

Lemma filter_all : forall (A : Type) (p : A -> bool) l,
  forallb p l = true -> filter p l = l.
Proof.
  induction l as [|x r IH]; intros H; [reflexivity|].
  cbn [forallb] in H. apply andb_true_iff in H. destruct H as [Hx Hr].
  cbn [filter]. rewrite Hx, (IH Hr). reflexivity.
Qed.

(** [replace] leaves alone a text in which the first character of the
    pattern does not occur. *)
Lemma replace_absent_head : forall c old' new s,
  forallb (fun x => negb (char_eqb c x)) s = true ->
  replace s (c :: old') new = s.
Proof.
  intros c old' new s. unfold replace.
  induction s as [|x r IH]; intros H; [reflexivity|].
  cbn [forallb] in H. apply andb_true_iff in H. destruct H as [Hx Hr].
  cbn [replace_go startswith].
  apply negb_true_iff in Hx. rewrite Hx. cbn [andb].
  f_equal. apply IH. exact Hr.
Qed.

Lemma join_cons : forall sep p rest, rest <> [] ->
  join sep (p :: rest) = p ++ sep ++ join sep rest.
Proof. intros sep p [|q r] H; [congruence|reflexivity]. Qed.

Lemma split_acc_nonempty : forall sep s cur, split_acc sep s cur <> [].
Proof.
  induction s as [|c r IH]; intros cur; cbn [split_acc]; [discriminate|].
  destruct (char_eqb c sep); [discriminate|apply IH].
Qed.

Lemma lstrip_chars_keeps : forall cs s,
  match s with [] => True | c :: _ => mem_char c cs = false end ->
  lstrip_chars cs s = s.
Proof.
  intros cs [|c t] H; [reflexivity|].
  unfold lstrip_chars. cbn [drop_while]. rewrite H. reflexivity.
Qed.

End PyFacts.

(* ===================================================================== *)
(** * The loops of SequenceMatcher have the fuel they need                *)
(* ===================================================================== *)

Module DifflibFacts.
Import Py Difflib MatcherInvariants.

Section Blocks.
Variables a b : list pystr.

Lemma dict_get_cons : forall d j k key bound,
  runs_bounded bound d -> k <= bound -> dict_get ((j, k) :: d) key <= bound.
Proof.
  intros d j k key bound Hd Hk. cbn [dict_get]. destruct (Nat.eqb j key); auto.
Qed.

Lemma flm_inner_within : forall blo bhi alo i j2len js newj2len best,
  alo <= i ->
  runs_bounded (i - alo) j2len ->
  runs_bounded (S i - alo) newj2len ->
  within alo (S i) best ->
  let '(d, best') := flm_inner blo bhi i j2len js newj2len best in
  runs_bounded (S i - alo) d /\ within alo (S i) best'.
Proof.
  intros blo bhi alo i j2len js. induction js as [|j js IH]; intros newj2len best Hi Hj Hn Hb.
  - cbn [flm_inner]. auto.
  - cbn [flm_inner]. destruct (j <? blo); [apply IH; assumption|].
    destruct (bhi <=? j); [auto|].
    set (k := (match j with O => 0 | S j1 => dict_get j2len j1 end) + 1).
    assert (Hk : k <= S i - alo).
    { unfold k. destruct j as [|j1]; [lia|]. specialize (Hj j1). lia. }
    destruct best as [[besti bestj] bestsize].
    apply IH; try assumption.
    + intros key. apply dict_get_cons; assumption.
    + destruct (bestsize <? k); [|exact Hb].
      cbn. lia.
Qed.

Lemma flm_outer_within : forall blo bhi alo n i j2len best,
  alo <= i ->
  runs_bounded (i - alo) j2len ->
  within alo i best ->
  within alo (i + n) (flm_outer a b blo bhi i n j2len best).
Proof.
  intros blo bhi alo n. induction n as [|n IH]; intros i j2len best Hi Hj Hb.
  - cbn [flm_outer]. rewrite Nat.add_0_r. exact Hb.
  - cbn [flm_outer].
    assert (Hb' : within alo (S i) best).
    { destruct best as [[x y] z]. cbn in *. lia. }
    pose proof (@flm_inner_within blo bhi alo i j2len (b2j_get b (elt_a a i)) [] best Hi Hj
                  (fun _ => Nat.le_0_l _) Hb') as H.
    destruct (flm_inner blo bhi i j2len (b2j_get b (elt_a a i)) [] best) as [d best'].
    destruct H as [Hd Hw].
    replace (i + S n) with (S i + n) by lia.
    apply IH; [lia|exact Hd|exact Hw].
Qed.

Lemma extend_back_within : forall alo blo hi fuel best,
  within alo hi best -> within alo hi (extend_back a b alo blo fuel best).
Proof.
  intros alo blo hi fuel. induction fuel as [|f IH]; intros best H; [exact H|].
  cbn [extend_back]. destruct best as [[besti bestj] bestsize].
  destruct ((alo <? besti) && (blo <? bestj) && _) eqn:E; [|exact H].
  apply IH. apply andb_true_iff in E. destruct E as [E _].
  apply andb_true_iff in E. destruct E as [E _]. apply Nat.ltb_lt in E.
  cbn in *. lia.
Qed.

Lemma extend_forward_within : forall alo ahi bhi fuel best,
  within alo ahi best -> within alo ahi (extend_forward a b ahi bhi fuel best).
Proof.
  intros alo ahi bhi fuel. induction fuel as [|f IH]; intros best H; [exact H|].
  cbn [extend_forward]. destruct best as [[besti bestj] bestsize].
  destruct ((besti + bestsize <? ahi) && (bestj + bestsize <? bhi) && _) eqn:E; [|exact H].
  apply IH. apply andb_true_iff in E. destruct E as [E _].
  apply andb_true_iff in E. destruct E as [E _]. apply Nat.ltb_lt in E.
  cbn in *. lia.
Qed.

(** The block that find_longest_match returns is empty or lies in the
    window of [a] it was asked about. *)
Lemma find_longest_match_within : forall alo ahi blo bhi,
  let '(i, _, k) := find_longest_match a b alo ahi blo bhi in
  k = 0 \/ (alo <= i /\ i + k <= ahi).
Proof.
  intros alo ahi blo bhi. unfold find_longest_match.
  destruct (Nat.le_gt_cases alo ahi) as [Hle|Hgt].
  - set (best0 := flm_outer a b blo bhi alo (ahi - alo) [] (alo, blo, 0)).
    assert (H : within alo ahi
                  (extend_forward a b ahi bhi ahi
                     (extend_back a b alo blo (fst (fst best0)) best0))).
    { apply extend_forward_within, extend_back_within. unfold best0.
      replace ahi with (alo + (ahi - alo)) at 1 by lia.
      apply flm_outer_within; [lia|intros key; apply Nat.le_0_l|cbn; lia]. }
    destruct (extend_forward _ _ _ _ _ _) as [[i j] k]. right. exact H.
  - replace (ahi - alo) with 0 by lia. cbn [flm_outer].
    assert (Hb : forall fuel, extend_back a b alo blo fuel (alo, blo, 0) = (alo, blo, 0)).
    { intros [|f]; [reflexivity|]. cbn [extend_back]. rewrite Nat.ltb_irrefl. reflexivity. }
    cbn [fst]. rewrite Hb.
    assert (Hf : forall fuel, extend_forward a b ahi bhi fuel (alo, blo, 0) = (alo, blo, 0)).
    { intros [|f]; [reflexivity|]. cbn [extend_forward].
      replace (alo + 0 <? ahi) with false; [reflexivity|].
      symmetry. apply Nat.ltb_ge. lia. }
    rewrite Hf. left. reflexivity.
Qed.

(** The two extension loops have all the fuel they can use. *)
Lemma extend_back_fuel : forall alo blo fuel extra best,
  fst (fst best) <= fuel ->
  extend_back a b alo blo (fuel + extra) best = extend_back a b alo blo fuel best.
Proof.
  intros alo blo. induction fuel as [|f IH]; intros extra [[besti bestj] bestsize] H;
    cbn [fst] in H.
  - assert (besti = 0) as -> by lia.
    destruct extra; [reflexivity|]. cbn [Nat.add extend_back].
    replace (alo <? 0) with false by (symmetry; apply Nat.ltb_ge; lia). reflexivity.
  - cbn [Nat.add extend_back].
    destruct ((alo <? besti) && (blo <? bestj) && _); [|reflexivity].
    apply IH. cbn [fst]. lia.
Qed.

Lemma extend_forward_fuel : forall ahi bhi fuel extra best,
  ahi - (fst (fst best) + snd best) <= fuel ->
  extend_forward a b ahi bhi (fuel + extra) best = extend_forward a b ahi bhi fuel best.
Proof.
  intros ahi bhi. induction fuel as [|f IH]; intros extra [[besti bestj] bestsize] H;
    cbn [fst snd] in H.
  - destruct extra; [reflexivity|]. cbn [Nat.add extend_forward].
    replace (besti + bestsize <? ahi) with false by (symmetry; apply Nat.ltb_ge; lia).
    reflexivity.
  - cbn [Nat.add extend_forward].
    destruct ((besti + bestsize <? ahi) && (bestj + bestsize <? bhi) && _) eqn:E;
      [|reflexivity].
    apply IH. cbn [fst snd]. lia.
Qed.

(** With fuel for the work in the queue, more fuel changes nothing. *)
Lemma mb_loop_enough_fuel : forall fuel extra queue blocks,
  work queue <= fuel ->
  mb_loop a b (fuel + extra) queue blocks = mb_loop a b fuel queue blocks.
Proof.
  induction fuel as [|f IH]; intros extra queue blocks H.
  - destruct queue as [|[[[alo ahi] blo] bhi] q]; [|cbn [work] in H; lia].
    destruct extra; reflexivity.
  - destruct queue as [|[[[alo ahi] blo] bhi] q]; [reflexivity|].
    cbn [work] in H. cbn [Nat.add mb_loop].
    pose proof (find_longest_match_within alo ahi blo bhi) as Hw.
    destruct (find_longest_match a b alo ahi blo bhi) as [[i j] k].
    destruct (Nat.eqb k 0) eqn:Ek.
    + apply IH. lia.
    + apply Nat.eqb_neq in Ek. destruct Hw as [Hw|[Hlo Hhi]]; [congruence|].
      apply IH.
      destruct ((alo <? i) && (blo <? j)); destruct ((i + k <? ahi) && (j + k <? bhi));
        cbn [work]; lia.
Qed.

(** get_matching_blocks has all the fuel its loop can use. *)
Theorem get_matching_blocks_fuel : forall extra,
  mb_loop a b (2 * List.length a + 1 + extra) [(0, List.length a, 0, List.length b)] []
  = mb_loop a b (2 * List.length a + 1) [(0, List.length a, 0, List.length b)] [].
Proof.
  intros extra. apply mb_loop_enough_fuel. cbn [work]. lia.
Qed.

End Blocks.

End DifflibFacts.

(* ===================================================================== *)
(** * The normalizer on diffs in canonical form                           *)
(* ===================================================================== *)

Module NormalizeFacts.
Import Py PyFacts Coder Canonical.

Lemma lf_only_no_cr : forall s, lf_only s = true ->
  forallb (fun x => negb (char_eqb CR x)) s = true.
Proof.
  induction s as [|c r IH]; intros H; [reflexivity|].
  cbn [lf_only forallb] in *. cbv beta in H.
  apply andb_true_iff in H. destruct H as [Hc Hr].
  rewrite (IH Hr), andb_true_r.
  destruct (char_eqb CR c) eqn:E; [|reflexivity].
  unfold char_eqb in E. apply N.eqb_eq in E. subst c. discriminate Hc.
Qed.

(** The two replace calls of the normalizer do nothing without a CR. *)
Lemma normalize_replace_id : forall s, lf_only s = true ->
  replace (replace s [CR; LF] [LF]) [CR] [LF] = s.
Proof.
  intros s H. pose proof (lf_only_no_cr s H) as Hcr.
  rewrite (replace_absent_head CR [LF] [LF] s Hcr).
  apply replace_absent_head. exact Hcr.
Qed.

Lemma keepends_of_cons : forall x L, L <> [] ->
  keepends_of (x :: L) = add_lf x :: keepends_of L.
Proof.
  intros x [|y L'] HL; [congruence|]. reflexivity.
Qed.

(** splitlines(keepends=True) and split on LF cut a text whose only line
    boundary is LF at the same places. *)
Lemma splitlines_keep_split : forall s cur, lf_only s = true ->
  splitlines_keep_acc s cur = keepends_of (split_acc LF s cur).
Proof.
  induction s as [|c r IH]; intros cur H.
  - cbn [splitlines_keep_acc split_acc]. unfold keepends_of. cbn [removelast map last app].
    destruct cur as [|x t]; [reflexivity|].
    destruct (rev (x :: t)) eqn:E; [apply rev_nil_inv in E; discriminate|reflexivity].
  - cbn [lf_only forallb] in H. cbv beta in H.
    apply andb_true_iff in H. destruct H as [Hc Hr].
    cbn [splitlines_keep_acc split_acc].
    destruct (char_eqb c LF) eqn:E.
    + unfold char_eqb in E. apply N.eqb_eq in E. subst c.
      change (is_linebreak LF) with true. change (char_eqb LF CR) with false. cbn iota.
      rewrite keepends_of_cons by apply split_acc_nonempty.
      rewrite IH by exact Hr. reflexivity.
    + rewrite orb_false_r in Hc. apply negb_true_iff in Hc. rewrite Hc.
      apply IH. exact Hr.
Qed.

Lemma split_acc_clean : forall s cur, lf_only s = true -> clean cur = true ->
  forallb clean (split_acc LF s cur) = true.
Proof.
  induction s as [|c r IH]; intros cur H Hcur.
  - cbn [split_acc forallb]. unfold clean in *. rewrite forallb_rev, Hcur. reflexivity.
  - cbn [lf_only forallb] in H. cbv beta in H.
    apply andb_true_iff in H. destruct H as [Hc Hr].
    cbn [split_acc]. destruct (char_eqb c LF) eqn:E.
    + cbn [forallb]. rewrite (IH [] Hr eq_refl), andb_true_r.
      unfold clean in *. rewrite forallb_rev. exact Hcur.
    + apply IH; [exact Hr|]. rewrite orb_false_r in Hc.
      unfold clean in *. cbn [forallb]. rewrite Hc, Hcur. reflexivity.
Qed.

(** A line without boundary inside, followed by a line feed, is one line. *)
Lemma splitlines_keep_clean_line : forall l rest cur, clean l = true ->
  splitlines_keep_acc (l ++ LF :: rest) cur
  = (rev cur ++ l ++ [LF]) :: splitlines_keep_acc rest [].
Proof.
  induction l as [|c t IH]; intros rest cur H.
  - cbn [app splitlines_keep_acc].
    change (is_linebreak LF) with true. change (char_eqb LF CR) with false. cbn iota.
    cbn [rev]. reflexivity.
  - unfold clean in H. cbn [forallb] in H. apply andb_true_iff in H. destruct H as [Hc Ht].
    apply negb_true_iff in Hc.
    cbn [app splitlines_keep_acc]. rewrite Hc. rewrite (IH rest (c :: cur) Ht).
    cbn [rev]. rewrite <- !app_assoc. reflexivity.
Qed.

Lemma splitlines_keep_clean_lines : forall F, forallb clean F = true ->
  splitlines_keepends (concat (map add_lf F)) = map add_lf F.
Proof.
  unfold splitlines_keepends, concat.
  induction F as [|l r IH]; intros H; [reflexivity|].
  cbn [forallb] in H. apply andb_true_iff in H. destruct H as [Hl Hr].
  cbn [map List.concat]. unfold add_lf at 1. rewrite <- app_assoc. cbn [app].
  rewrite splitlines_keep_clean_line by exact Hl. cbn [rev app].
  rewrite (IH Hr). reflexivity.
Qed.

(** join on LF of lines followed by an empty piece. *)
Lemma join_lf_trailing : forall F, F <> [] ->
  join [LF] (F ++ [[]]) = concat (map add_lf F).
Proof.
  induction F as [|l r IH]; intros H; [congruence|].
  cbn [app]. rewrite join_cons by (destruct r; discriminate).
  unfold concat. cbn [map List.concat]. unfold add_lf at 1. rewrite <- app_assoc.
  f_equal. f_equal.
  destruct r as [|l2 r']; [reflexivity|].
  apply IH. discriminate.
Qed.

Lemma endswith_add_lf_lines : forall F, F <> [] ->
  endswith (concat (map add_lf F)) [LF] = true.
Proof.
  intros F H. destruct (exists_last H) as [F' [l ->]].
  unfold concat. rewrite map_app, concat_app. cbn [map List.concat].
  unfold add_lf at 2. rewrite app_nil_r, !app_assoc.
  unfold endswith. rewrite rev_app_distr. cbn [rev app startswith].
  unfold char_eqb. rewrite N.eqb_refl, startswith_nil. reflexivity.
Qed.

Lemma endswith_tail : forall c d r,
  endswith (c :: d :: r) [LF] = endswith (d :: r) [LF].
Proof.
  intros c d r. unfold endswith. cbn [rev].
  destruct (rev r ++ [d]) eqn:E; [destruct (rev r); discriminate|].
  cbn [app startswith]. rewrite !startswith_nil. reflexivity.
Qed.

(** The pieces of a text that ends with a line feed: the last one is empty. *)
Lemma split_acc_last_empty : forall s cur, endswith s [LF] = true ->
  last (split_acc LF s cur) [] = [].
Proof.
  induction s as [|c r IH]; intros cur H; [discriminate|].
  cbn [split_acc].
  destruct r as [|d r'].
  - unfold endswith in H. cbn [rev app startswith] in H.
    apply andb_true_iff in H. destruct H as [H _].
    unfold char_eqb in H. apply N.eqb_eq in H. subst c. reflexivity.
  - rewrite endswith_tail in H.
    destruct (char_eqb c LF); [|apply IH; exact H].
    pose proof (@split_acc_nonempty LF (d :: r') []) as Hne.
    specialize (IH [] H).
    destruct (split_acc LF (d :: r') []) eqn:E; [congruence|].
    exact IH.
Qed.

Lemma normalize_lines_filter : forall L,
  forallb (fun l => negb (is_inline_op l)) L = true ->
  flat_map normalize_line L = filter not_noise L.
Proof.
  induction L as [|l r IH]; intros H; [reflexivity|].
  cbn [forallb] in H. apply andb_true_iff in H. destruct H as [Hl Hr].
  cbn [flat_map filter]. rewrite (IH Hr).
  unfold normalize_line, not_noise, is_noise.
  destruct (startswith_any l _NOISE_PREFIXES); [reflexivity|].
  unfold is_inline_op in Hl. destruct (Re.rmatch _HUNK_INLINE_OP_RE l); [discriminate|].
  reflexivity.
Qed.

Lemma header_add_lf : forall l,
  startswith (add_lf l) (lit "@@") = startswith l (lit "@@").
Proof.
  intros [|a [|b t]]; try reflexivity.
  unfold add_lf. cbn [app lit startswith]. rewrite !startswith_nil. reflexivity.
Qed.

Lemma header_not_noise : forall l, startswith l (lit "@@") = true -> not_noise l = true.
Proof.
  intros [|a t] H; [discriminate|].
  cbn [startswith lit] in H. apply andb_true_iff in H. destruct H as [H _].
  unfold char_eqb in H. apply N.eqb_eq in H. subst a. reflexivity.
Qed.

(** Dropping noise lines that stand before the first hunk header does not
    change where the applier starts. *)
Lemma skip_filter_noise : forall X, noise_only_in_preamble X = true ->
  Apply.skip_to_first_hunk (map add_lf (filter not_noise X))
  = Apply.skip_to_first_hunk (map add_lf X).
Proof.
  induction X as [|l r IH]; intros H; [reflexivity|].
  cbn [noise_only_in_preamble] in H. cbn [filter map Apply.skip_to_first_hunk].
  rewrite header_add_lf.
  destruct (startswith l (lit "@@")) eqn:Hh.
  - rewrite (header_not_noise l Hh). cbn [map Apply.skip_to_first_hunk].
    rewrite header_add_lf, Hh. rewrite (filter_all not_noise r H). reflexivity.
  - destruct (not_noise l); [|apply IH; exact H].
    cbn [map Apply.skip_to_first_hunk]. rewrite header_add_lf, Hh. apply IH. exact H.
Qed.

Lemma noise_only_in_preamble_app : forall A B,
  noise_only_in_preamble (A ++ B) = true -> noise_only_in_preamble A = true.
Proof.
  induction A as [|l r IH]; intros B H; [reflexivity|].
  cbn [app noise_only_in_preamble] in *.
  destruct (startswith l (lit "@@")); [|eapply IH; exact H].
  rewrite forallb_app in H. apply andb_true_iff in H. tauto.
Qed.

Lemma filter_clean : forall (p : pystr -> bool) L,
  forallb clean L = true -> forallb clean (filter p L) = true.
Proof.
  induction L as [|x r IH]; intros H; [reflexivity|].
  cbn [forallb filter] in *. apply andb_true_iff in H. destruct H as [Hx Hr].
  destruct (p x); cbn [forallb]; rewrite ?Hx, (IH Hr); reflexivity.
Qed.

End NormalizeFacts.

(* ===================================================================== *)
(** * The empty-OLD validator, read off the hunk bodies                   *)
(* ===================================================================== *)

Module ValidatorFacts.
Import Py PyFacts Coder EmptyOld.







End ValidatorFacts.

(* ===================================================================== *)
(** * Facts about the guards                                              *)
(* ===================================================================== *)

Module GuardFacts.
Import Py PyFacts Guards.

(** Below 0.20 is below 0.90, whatever the float. *)
Lemma below_020_below_090 : forall r,
  PyFloat.ltb r PyFloat.f_0_20 = true -> PyFloat.ltb r PyFloat.f_0_90 = true.
Proof.
  intros r. unfold PyFloat.ltb, SFltb, PyFloat.f_0_20, PyFloat.f_0_90.
  destruct r as [s|s| |s m e]; cbn [SFcompare];
    [ destruct s; intros; congruence | destruct s; intros; congruence
    | intros; congruence | ].
  destruct s; [reflexivity|].
  destruct (Z.compare_spec e (-55)) as [E|E|E]; intros H.
  - subst e. reflexivity.
  - assert (e < -53)%Z as E2 by lia. apply Z.compare_lt_iff in E2. rewrite E2. reflexivity.
  - discriminate.
Qed.

(** The literals are the doubles nearest to 9/10 and 1/5. *)
Lemma literals_are_nearest :
  PyFloat.div (PyFloat.of_nat 9) (PyFloat.of_nat 10) = PyFloat.f_0_90
  /\ PyFloat.div (PyFloat.of_nat 1) (PyFloat.of_nat 5) = PyFloat.f_0_20
  /\ PyFloat.of_nat 1 = PyFloat.f_1_0 /\ PyFloat.of_nat 2 = PyFloat.f_2_0.
Proof. repeat split; vm_compute; reflexivity. Qed.

(** A line that holds a future import holds it too once a byte-order mark
    or a zero-width space is taken off its head: there is none. *)
Lemma future_line_bom : forall ln,
  is_future_line ln = true -> Coder.is_future_line_bom ln = true.
Proof.
  intros ln H. unfold Coder.is_future_line_bom, Coder._strip_bom_zw.
  rewrite lstrip_chars_keeps; [exact H|].
  destruct ln as [|c t]; [exact I|].
  unfold is_future_line, lstrip in H. cbn [drop_while] in H.
  destruct (is_space c) eqn:Hs.
  - destruct (mem_char c Coder._BOM_ZW) eqn:Hm; [|reflexivity].
    unfold mem_char, Coder._BOM_ZW in Hm. cbn [existsb] in Hm.
    rewrite orb_false_r in Hm. apply orb_true_iff in Hm.
    destruct Hm as [Hm|Hm]; unfold char_eqb in Hm; apply N.eqb_eq in Hm;
      subst c; discriminate.
  - cbn [startswith FUTURE lit] in H. apply andb_true_iff in H. destruct H as [H _].
    unfold char_eqb in H. apply N.eqb_eq in H. subst c. reflexivity.
Qed.

Lemma no_future_line_bom : forall lines,
  existsb Coder.is_future_line_bom lines = false -> existsb is_future_line lines = false.
Proof.
  induction lines as [|l r IH]; intros H; [reflexivity|].
  cbn [existsb] in *. apply orb_false_iff in H. destruct H as [Hl Hr].
  rewrite (IH Hr), orb_false_r.
  destruct (is_future_line l) eqn:E; [|reflexivity].
  apply future_line_bom in E. congruence.
Qed.

End GuardFacts.

(* ===================================================================== *)
(** * The edit driver and the patch it reports                            *)
(* ===================================================================== *)

Import Py.

Section DriverPatch.
Context {RT : Runtime}.
Import PyFacts Coder Examples PatchOrigin.

(** C1. The patch of a successful edit_plan is meant to apply to the
    original file and give the new contents.  Here the model's diff deletes
    the future import of bin/tool; _finalize_ok puts the import back through
    the autofix, which makes the new contents equal to the old ones, and
    rebuilds the patch with difflib, which yields nothing for equal texts.
    The driver returns ok:true with the empty patch, and the diff applier
    refuses the empty patch: no hunks found. *)
Theorem edit_plan_ok_patch_does_not_apply :
  edit_plan (one_file_world (lit "bin/tool") tool_old)
            (lit "bin/tool") (lit "drop the import") repo [drop_import_answer]
  = Return (success (lit "bin/tool") [], [])
  /\ ok (success (lit "bin/tool") []) = true
  /\ patch (success (lit "bin/tool") []) = Some []
  /\ Apply.apply_unified_diff tool_old [] = Apply.Raise Apply.NoHunksFound.
Proof. repeat split; vm_compute; reflexivity. Qed.

(** The same driver on a file whose last line has no terminator: the
    full-replace fallback builds its patch with difflib, whose lines are
    joined without a separator, so the deletion and the insertion run
    together and the reported patch does not apply. *)
Lemma edit_plan_fallback_patch_does_not_apply :
  exists r,
    edit_plan (one_file_world (lit "conf.ini") unterminated_old)
              (lit "conf.ini") (lit "replace 1 by 2") repo
              [no_diff_answer; full_text_answer]
    = Return (r, [])
    /\ ok r = true
    /\ patch r = Some (lit "--- conf.ini (old)\n+++ conf.ini (new)\n@@ -1 +1 @@\n-a = 1+a = 2\n")
    /\ Apply.apply_unified_diff unterminated_old
         (lit "--- conf.ini (old)\n+++ conf.ini (new)\n@@ -1 +1 @@\n-a = 1+a = 2\n")
       = Apply.Raise Apply.DeleteMismatch.
Proof. eexists. repeat split; vm_compute; reflexivity. Qed.

(** Every successful result of the driver has one of the two origins: on
    the first the reported patch does apply to the old text; the failures
    above are on the second. *)

Lemma finalize_ok_patch : forall path instruction old new p r,
  _finalize_ok path instruction old new p = Return r -> ok r = true ->
  (patch r = Some p /\ _autofix_future_import old new = new)
  \/ patch r = Some (_make_patch_from_fulltext path old (_autofix_future_import old new)).
Proof.
  intros path instruction old new p r H Hok. unfold _finalize_ok in H.
  destruct (_py_syntax_ok path (_autofix_future_import old new)) as [b|e]; [|discriminate].
  cbn [bind] in H. destruct b; cbn [negb] in H.
  - destruct (Guards.enforce_guards _ _ _ _) as [okg why]. destruct okg; cbn [negb] in H.
    + destruct (str_eqb (_autofix_future_import old new) new) eqn:E; cbn [negb] in H;
        inversion H; subst; cbn.
      * left. split; [reflexivity|]. apply str_eqb_eq. exact E.
      * right. reflexivity.
    + inversion H; subst. discriminate.
  - destruct (_future_import_guard _ _) as [okf whyf].
    destruct okf; cbn [negb] in H; inversion H; subst; discriminate.
Qed.

Lemma finalize_with_repair_origin : forall path instruction old new1 diff1 m r m',
  Apply.apply_unified_diff old diff1 = Apply.Ok new1 ->
  finalize_with_repair path instruction old new1 diff1 m = Return (r, m') ->
  ok r = true -> patch_origin path old r.
Proof.
  intros path instruction old new1 diff1 m r m' Happ H Hok.
  unfold finalize_with_repair in H.
  destruct (_finalize_ok path instruction old new1 diff1) as [out1|e] eqn:E1; [|discriminate].
  cbn [bind] in H. destruct (ok out1) eqn:Eok1.
  - inversion H; subst.
    destruct (finalize_ok_patch _ _ _ _ _ E1 Eok1) as [[Hp Ha]|Hp].
    + left. exists diff1, new1. auto.
    + right. eexists. exact Hp.
  - destruct (_build_prompts _ _ _ _) as [systemg userg].
    destruct (_call_model systemg userg m) as [[rawg m2]|e]; [|discriminate].
    cbn [bind] in H.
    destruct (contains (repair_diff rawg) (lit "@@")).
    + destruct (Apply.apply_unified_diff old (repair_diff rawg)) as [newg|e] eqn:Eg.
      * destruct (_finalize_ok path instruction old newg (repair_diff rawg)) as [outg|e] eqn:E2;
          [|discriminate].
        cbn [bind] in H. destruct (ok outg) eqn:Eokg; inversion H; subst; [|congruence].
        destruct (finalize_ok_patch _ _ _ _ _ E2 Eokg) as [[Hp Ha]|Hp].
        -- left. exists (repair_diff rawg), newg. auto.
        -- right. eexists. exact Hp.
      * inversion H; subst. congruence.
    + inversion H; subst. congruence.
Qed.

Lemma fulltext_fallback_origin : forall path instruction old reason m r m',
  _fulltext_fallback path instruction old reason m = Return (r, m') ->
  ok r = true -> patch_origin path old r.
Proof.
  intros path instruction old reason m r m' H Hok. unfold _fulltext_fallback in H.
  destruct (_build_fulltext_prompts _ _ _ _) as [system user].
  destruct (_call_model system user m) as [[raw m2]|e]; [|discriminate].
  cbn [bind] in H.
  set (new := _autofix_future_import old (_maybe_unescape_llm_string (fulltext_of_raw raw))) in *.
  destruct (_py_syntax_ok path new) as [b|e]; [|discriminate].
  cbn [bind] in H. destruct b; cbn [negb] in H.
  - destruct (_future_import_guard old new) as [okf whyf]. destruct okf; cbn [negb] in H.
    + destruct (_finalize_ok path instruction old new (_make_patch_from_fulltext path old new))
        as [r0|e] eqn:E; [|discriminate].
      cbn [bind] in H. inversion H; subst.
      destruct (finalize_ok_patch _ _ _ _ _ E Hok) as [[Hp Ha]|Hp]; right; eexists; exact Hp.
    + inversion H; subst. discriminate.
  - destruct (_future_import_guard old new) as [okf whyf].
    destruct okf; cbn [negb] in H; inversion H; subst; discriminate.
Qed.

Lemma edit_plan_patch_origin : forall path instruction old m r m',
  edit_plan_from path instruction old m = Return (r, m') ->
  ok r = true -> patch_origin path old r.
Proof.
  intros path instruction old m r m' H Hok. unfold edit_plan_from in H.
  destruct (_build_prompts path instruction old None) as [system1 user1].
  destruct (_call_model system1 user1 m) as [[raw1 m1]|e]; [|discriminate].
  cbn [bind] in H.
  destruct (contains (round_diff raw1) (lit "@@")); cbn [negb] in H;
    [|eapply fulltext_fallback_origin; eassumption].
  destruct (match old with [] => _ | _ => _ end) as [ok_empty why_empty].
  destruct ok_empty; cbn [negb] in H; [|eapply fulltext_fallback_origin; eassumption].
  destruct (Apply.apply_unified_diff old (round_diff raw1)) as [new1|e] eqn:E1.
  - eapply finalize_with_repair_origin; eassumption.
  - destruct (_build_prompts _ _ _ _) as [system2 user2].
    destruct (_call_model system2 user2 m1) as [[raw2 m2]|e2]; [|discriminate].
    cbn [bind] in H.
    destruct (contains (round_diff raw2) (lit "@@"));
      [|eapply fulltext_fallback_origin; eassumption].
    destruct (match old with [] => _ | _ => _ end) as [ok_empty2 why_empty2].
    destruct ok_empty2; cbn [negb] in H; [|eapply fulltext_fallback_origin; eassumption].
    destruct (Apply.apply_unified_diff old (round_diff raw2)) as [new2|e2] eqn:E2.
    + eapply finalize_with_repair_origin; eassumption.
    + eapply fulltext_fallback_origin; eassumption.
Qed.

End DriverPatch.

(* ===================================================================== *)
(** * The normalizer and the applier                                      *)
(* ===================================================================== *)

Section Normalize.
Context {RT : Runtime}.
Import PyFacts NormalizeFacts Coder Canonical.

(** C2, as amended.  For a diff whose only line boundary is LF, that ends
    with LF, in which no line is a hunk header followed by white space and
    an operation, and whose noise lines (diff --git, index, three dashes,
    three pluses) all stand before the first hunk header, applying the
    normalized diff has the same outcome as applying the diff itself: the
    same text or the same error. *)
Theorem normalize_preserves_application :
  forall old diff,
    lf_only diff = true ->
    endswith diff [LF] = true ->
    forallb (fun l => negb (is_inline_op l)) (split LF diff) = true ->
    noise_only_in_preamble (split LF diff) = true ->
    Apply.apply_unified_diff old (_normalize_unified_diff diff)
    = Apply.apply_unified_diff old diff.
Proof.
  intros old diff Hlf Hend Hinl Hnoise.
  set (L := split LF diff) in *.
  assert (HL : L = removelast L ++ [[]]).
  { rewrite <- (split_acc_last_empty diff [] Hend).
    apply app_removelast_last. apply split_acc_nonempty. }
  set (L0 := removelast L) in *.
  assert (Hclean : forallb clean L0 = true).
  { pose proof (split_acc_clean diff [] Hlf eq_refl) as Hc.
    change (split_acc LF diff []) with L in Hc.
    rewrite HL, forallb_app in Hc. apply andb_true_iff in Hc. tauto. }
  assert (Hlines : splitlines_keepends diff = map add_lf L0).
  { unfold splitlines_keepends. rewrite (splitlines_keep_split diff [] Hlf).
    unfold keepends_of. rewrite (split_acc_last_empty diff [] Hend).
    rewrite app_nil_r. reflexivity. }
  assert (Hnorm : splitlines_keepends (_normalize_unified_diff diff)
                  = match filter not_noise L0 with
                    | [] => [[LF]]
                    | F => map add_lf F
                    end).
  { unfold _normalize_unified_diff. rewrite (normalize_replace_id diff Hlf).
    fold L. rewrite (normalize_lines_filter L Hinl).
    rewrite HL, filter_app. change (filter not_noise [[]]) with [@nil char].
    destruct (filter not_noise L0) as [|f F] eqn:EF; [reflexivity|].
    rewrite join_lf_trailing by discriminate.
    rewrite endswith_add_lf_lines by discriminate. cbn [negb].
    apply splitlines_keep_clean_lines.
    rewrite <- EF. apply filter_clean. exact Hclean. }
  assert (Hskip : Apply.skip_to_first_hunk
                    (splitlines_keepends (_normalize_unified_diff diff))
                  = Apply.skip_to_first_hunk (splitlines_keepends diff)).
  { rewrite Hnorm, Hlines.
    rewrite <- (skip_filter_noise L0).
    - destruct (filter not_noise L0); reflexivity.
    - apply (noise_only_in_preamble_app L0 [[]]). rewrite <- HL. exact Hnoise. }
  unfold Apply.apply_unified_diff. rewrite Hskip. reflexivity.
Qed.

(** Four ways in which the normalizer changes what a diff does. *)

(** A last insertion without line terminator gains one. *)
Lemma normalize_terminates_last_line :
  Apply.apply_unified_diff [] Examples.unterminated_diff = Apply.Ok (lit "foo")
  /\ Apply.apply_unified_diff [] (_normalize_unified_diff Examples.unterminated_diff)
     = Apply.Ok (lit "foo\n").
Proof. split; vm_compute; reflexivity. Qed.

(** Inserted lines that end in CR LF end in LF afterwards. *)
Lemma normalize_rewrites_crlf :
  Apply.apply_unified_diff [] Examples.crlf_diff = Apply.Ok (lit "foo\r\n")
  /\ Apply.apply_unified_diff [] (_normalize_unified_diff Examples.crlf_diff)
     = Apply.Ok (lit "foo\n").
Proof. split; vm_compute; reflexivity. Qed.

(** The deletion of a line that starts with two dashes and a space reads as
    a file header and is dropped. *)
Lemma normalize_drops_dashed_deletion :
  Apply.apply_unified_diff Examples.dashes_old Examples.dashes_diff = Apply.Ok (lit "a\n")
  /\ Apply.apply_unified_diff Examples.dashes_old
       (_normalize_unified_diff Examples.dashes_diff)
     = Apply.Ok (lit "a\n-- x\n").
Proof. split; vm_compute; reflexivity. Qed.

(** Two spaces after a hunk header read as an inline context line. *)
Lemma normalize_splits_spaced_header :
  Apply.apply_unified_diff Examples.spaced_header_old Examples.spaced_header_diff
  = Apply.Ok (lit "x\n\nb\n")
  /\ Apply.apply_unified_diff Examples.spaced_header_old
       (_normalize_unified_diff Examples.spaced_header_diff)
     = Apply.Ok (lit "\nx\nb\n").
Proof. split; vm_compute; reflexivity. Qed.

End Normalize.

(** C2, as stated, fails: on the empty file, the diff whose last insertion has
    no line terminator applies to "foo", and its normal form applies to
    "foo" followed by a line feed.  Both succeed and the results differ,
    whatever the runtime. *)
Lemma normalize_changes_application :
  (forall RT : Py.Runtime,
     Apply.apply_unified_diff [] Examples.unterminated_diff = Apply.Ok (Py.lit "foo"))
  /\ (forall RT : Py.Runtime,
        Apply.apply_unified_diff [] (Coder._normalize_unified_diff Examples.unterminated_diff)
        = Apply.Ok (Py.lit "foo\n"))
  /\ Py.str_eqb (Py.lit "foo") (Py.lit "foo\n") = false.
Proof. repeat split; intros; vm_compute; reflexivity. Qed.

(** Witness of C2: a diff with file headers before its only hunk. *)
Lemma normalize_preserves_application_witness :
  Canonical.lf_only Examples.headed_diff = true
  /\ Py.endswith Examples.headed_diff [Py.LF] = true
  /\ forallb (fun l => negb (Canonical.is_inline_op l))
             (Py.split Py.LF Examples.headed_diff) = true
  /\ Canonical.noise_only_in_preamble (Py.split Py.LF Examples.headed_diff) = true
  /\ @Apply.apply_unified_diff Py.ascii_runtime []
       (Coder._normalize_unified_diff Examples.headed_diff)
     = @Apply.apply_unified_diff Py.ascii_runtime [] Examples.headed_diff.
Proof.
  assert (H1 : Canonical.lf_only Examples.headed_diff = true) by (vm_compute; reflexivity).
  assert (H2 : Py.endswith Examples.headed_diff [Py.LF] = true) by (vm_compute; reflexivity).
  assert (H3 : forallb (fun l => negb (Canonical.is_inline_op l))
                       (Py.split Py.LF Examples.headed_diff) = true)
    by (vm_compute; reflexivity).
  assert (H4 : Canonical.noise_only_in_preamble (Py.split Py.LF Examples.headed_diff) = true)
    by (vm_compute; reflexivity).
  refine (conj H1 (conj H2 (conj H3 (conj H4 _)))).
  exact (@normalize_preserves_application Py.ascii_runtime [] Examples.headed_diff
           H1 H2 H3 H4).
Defined.

(* ===================================================================== *)
(** * Concrete scenarios of the applier, the guards and the salvager      *)
(* ===================================================================== *)

Section Scenarios.
Context {RT : Runtime}.
Import Examples.

(** C3, as amended.  Applying the diff with the line -BOOM to the two
    lines a, b fails, and the error is the one of a deletion whose text
    differs from the file: "Patch delete mismatch".  The context line a
    before it matches. *)
Theorem boom_is_delete_mismatch :
  Apply.apply_unified_diff boom_old boom_diff = Apply.Raise Apply.DeleteMismatch
  /\ Apply.str_of_error Apply.DeleteMismatch = lit "Patch delete mismatch".
Proof. split; vm_compute; reflexivity. Qed.

(** apply_edit reports that failure as patch_apply_failed and leaves the
    file alone. *)
Lemma boom_apply_edit :
  Coder.apply_edit (one_file_world (lit "notes.txt") boom_old)
                   (lit "notes.txt") boom_diff repo (lit "apply") false true
  = (Coder.Return (Coder.failure (lit "patch_apply_failed")
                     (Some (lit "Patch delete mismatch")) None None),
     one_file_world (lit "notes.txt") boom_old).
Proof. vm_compute. reflexivity. Qed.

(** C8, as amended.  The diff that inserts the line hello applies to the
    empty text and gives that line.  The guards compare the empty text with
    the new one at similarity 0.00, so they accept the result exactly when
    the instruction holds one of the rewrite keywords; otherwise they reject
    it, as a README rewrite for a README and as a rewrite too violent for any
    other path. *)
Theorem insert_into_empty :
  forall relpath instruction,
    Apply.apply_unified_diff [] hello_diff = Apply.Ok hello
    /\ Guards.enforce_guards relpath instruction [] hello =
       if Guards._allow_big_rewrite instruction then (true, [])
       else if Guards.is_readme relpath
            then (false, lit "guard: README rewrite blocked")
            else (false, lit "guard: rewrite too violent (similarity=0.00)").
Proof.
  intros relpath instruction. split; [vm_compute; reflexivity|].
  unfold Guards.enforce_guards.
  change (Guards._has_control_chars hello) with false.
  change (str_eqb [] hello) with false.
  change (Guards._guard_future_import [] hello) with (true, @nil char).
  cbv iota beta zeta.
  change (Guards._similarity_ratio [] hello) with (S754_zero false).
  destruct (Guards._allow_big_rewrite instruction); cbn [negb andb].
  - rewrite andb_false_r. reflexivity.
  - rewrite andb_true_r. destruct (Guards.is_readme relpath); reflexivity.
Qed.

(** C9.  loads_obj repairs the unquoted key of {diff: "hello"} and strips
    the json fence around {"diff":"abc"}: in both cases it returns a mapping
    whose key diff holds the string. *)
Theorem loads_obj_salvage :
  UtilJson.loads_obj unquoted_key = inl [(lit "diff", Json.JStr (lit "hello"))]
  /\ Json.dict_get [(lit "diff", Json.JStr (lit "hello"))] (lit "diff")
     = Some (Json.JStr (lit "hello"))
  /\ UtilJson.loads_obj fenced = inl [(lit "diff", Json.JStr (lit "abc"))]
  /\ Json.dict_get [(lit "diff", Json.JStr (lit "abc"))] (lit "diff")
     = Some (Json.JStr (lit "abc")).
Proof. repeat split; vm_compute; reflexivity. Qed.

(** How the first input gets there: strict parsing fails, the fragment is
    the whole text, and the repair quotes the key. *)
Lemma unquoted_key_repair :
  Json.loads unquoted_key = None
  /\ UtilJson.extract_json_object unquoted_key = unquoted_key
  /\ UtilJson._repair_common_llm_json unquoted_key = lit "{\x22diff\x22: \x22hello\x22}".
Proof. repeat split; vm_compute; reflexivity. Qed.

Lemma fence_stripped :
  UtilJson._strip_code_fences fenced = lit "{\x22diff\x22:\x22abc\x22}".
Proof. vm_compute. reflexivity. Qed.

End Scenarios.

(** C3, as stated, fails: whatever the runtime, the error is the one of a
    deletion, and its message does not hold the words "context mismatch". *)
Lemma boom_is_not_context_mismatch :
  (forall RT : Runtime,
     Apply.apply_unified_diff Examples.boom_old Examples.boom_diff
     = Apply.Raise Apply.DeleteMismatch)
  /\ (forall RT : Runtime,
        contains (Apply.str_of_error Apply.DeleteMismatch) (lit "context mismatch") = false).
Proof. split; intros; vm_compute; reflexivity. Qed.

(** C8, as stated, fails: with the instruction "Add a greeting" the guards
    reject the inserted line, in notes.txt as a rewrite too violent and in
    README.md as a README rewrite. *)
Lemma insert_into_empty_rejected :
  (forall RT : Runtime,
     Guards.enforce_guards (lit "notes.txt") (lit "Add a greeting") [] Examples.hello
     = (false, lit "guard: rewrite too violent (similarity=0.00)"))
  /\ (forall RT : Runtime,
        Guards.enforce_guards (lit "README.md") (lit "Add a greeting") [] Examples.hello
        = (false, lit "guard: README rewrite blocked")).
Proof. split; intros; vm_compute; reflexivity. Qed.

(* ===================================================================== *)
(** * The path resolver                                                   *)
(* ===================================================================== *)

Section PathResolver.
Import Coder PathSafety.

(** C4.  Let p be the canonical form of root/rel and r the one of root.  The
    resolver raises invalid_path exactly when rel is empty or begins with a
    slash or a tilde; for any other rel it raises path_escape when p is not
    r or below r, and returns p when it is; so whatever it returns is p and
    lies under r.  Below is what Path.relative_to accepts: r itself or a
    path that has the parts of r as its first parts. *)
Theorem resolve_repo_path_spec :
  forall w root rel p r,
    resolve w (Pathlib.joinpath root rel) = inl p ->
    resolve w root = inl r ->
    (_resolve_repo_path w root rel = Raised (ValueError (lit "invalid_path"))
       <-> invalid_rel rel = true)
    /\ (invalid_rel rel = false -> Pathlib.is_relative_to p r = false ->
          _resolve_repo_path w root rel = Raised (ValueError (lit "path_escape")))
    /\ (invalid_rel rel = false -> Pathlib.is_relative_to p r = true ->
          _resolve_repo_path w root rel = Return p)
    /\ (forall q, _resolve_repo_path w root rel = Return q ->
          q = p /\ Pathlib.is_relative_to q r = true).
Proof.
  intros w root rel p r Hp Hr.
  unfold _resolve_repo_path, invalid_rel.
  destruct rel as [|c t].
  - repeat split; intros; try reflexivity; discriminate.
  - remember (c :: t) as rel eqn:Erel.
    cbn [startswith_any existsb]. rewrite orb_false_r.
    destruct (startswith rel (lit "/") || startswith rel (lit "~")) eqn:Einv.
    + repeat split; intros; try reflexivity; discriminate.
    + rewrite Hp, Hr.
      destruct (Pathlib.is_relative_to p r) eqn:Erel2.
      * repeat split; intros; try discriminate; try reflexivity; congruence.
      * repeat split; intros; try discriminate; try reflexivity.
Qed.

End PathResolver.

(** Witness of C4: src/app.py under /repo, in a tree without symlinks. *)
Lemma resolve_repo_path_witness :
  Coder.resolve (Examples.one_file_world (lit "src/app.py") [])
                (Pathlib.joinpath Examples.repo (lit "src/app.py"))
  = inl (Pathlib.of_str (lit "/repo/src/app.py"))
  /\ Coder.resolve (Examples.one_file_world (lit "src/app.py") []) Examples.repo
     = inl Examples.repo
  /\ PathSafety.invalid_rel (lit "src/app.py") = false
  /\ Pathlib.is_relative_to (Pathlib.of_str (lit "/repo/src/app.py")) Examples.repo = true
  /\ Coder._resolve_repo_path (Examples.one_file_world (lit "src/app.py") [])
       Examples.repo (lit "src/app.py")
     = Coder.Return (Pathlib.of_str (lit "/repo/src/app.py")).
Proof.
  assert (H1 : Coder.resolve (Examples.one_file_world (lit "src/app.py") [])
                 (Pathlib.joinpath Examples.repo (lit "src/app.py"))
               = inl (Pathlib.of_str (lit "/repo/src/app.py")))
    by (vm_compute; reflexivity).
  assert (H2 : Coder.resolve (Examples.one_file_world (lit "src/app.py") []) Examples.repo
               = inl Examples.repo) by reflexivity.
  assert (H3 : PathSafety.invalid_rel (lit "src/app.py") = false) by (vm_compute; reflexivity).
  assert (H4 : Pathlib.is_relative_to (Pathlib.of_str (lit "/repo/src/app.py")) Examples.repo
               = true) by (vm_compute; reflexivity).
  refine (conj H1 (conj H2 (conj H3 (conj H4 _)))).
  exact (proj1 (proj2 (proj2 (resolve_repo_path_spec _ _ _ H1 H2))) H3 H4).
Defined.

(** The resolver at work: a path that climbs out of the root, and the two
    shapes it refuses at once. *)
Lemma resolve_repo_path_examples :
  Coder._resolve_repo_path (Examples.one_file_world (lit "a") []) Examples.repo (lit "/etc/passwd")
  = Coder.Raised (Coder.ValueError (lit "invalid_path"))
  /\ Coder._resolve_repo_path (Examples.one_file_world (lit "a") []) Examples.repo (lit "~/x")
     = Coder.Raised (Coder.ValueError (lit "invalid_path"))
  /\ Coder._resolve_repo_path (Examples.one_file_world (lit "a") []) Examples.repo []
     = Coder.Raised (Coder.ValueError (lit "invalid_path"))
  /\ Coder._resolve_repo_path
       (Coder.MkWorld (fun _ => None)
          (fun p => if Pathlib.path_eqb p (Pathlib.of_str (lit "/repo/link"))
                    then inl (Pathlib.of_str (lit "/etc")) else inl p)
          (fun _ => true) (fun _ _ => Coder.Return (0%Z, [])))
       Examples.repo (lit "link")
     = Coder.Raised (Coder.ValueError (lit "path_escape")).
Proof. repeat split; vm_compute; reflexivity. Qed.

(* ===================================================================== *)
(** * The future-import guard                                             *)
(* ===================================================================== *)

Section FutureGuard.
Import PyFacts GuardFacts Guards.

(** C5, as amended.  The future-import guard applies exactly when the old
    text has a line whose first token after white space is the future
    import; the path and its suffix play no part.  When it applies and the
    new text has no such line, it rejects with future_import_removed; the
    guard of coder.py does so when the new text has no such line even with a
    byte-order mark or zero-width space taken off the head of its lines. *)
Theorem future_import_guard_applies :
  forall old new,
    (_has_future_import old = false ->
       _guard_future_import old new = (true, [])
       /\ Coder._future_import_guard old new = (true, []))
    /\ (_has_future_import old = true ->
          (_has_future_import new = false ->
             _guard_future_import old new = (false, lit "future_import_removed"))
          /\ (existsb Coder.is_future_line_bom (splitlines new) = false ->
                Coder._future_import_guard old new = (false, lit "future_import_removed")
                /\ _guard_future_import old new = (false, lit "future_import_removed"))).
Proof.
  intros old new. split.
  - intros H. unfold _guard_future_import, Coder._future_import_guard.
    rewrite H. unfold _has_future_import, is_future_line in H.
    change Coder.FUTURE with FUTURE. rewrite H. split; reflexivity.
  - intros H. split; intros Hn.
    + unfold _guard_future_import. rewrite H, Hn. reflexivity.
    + split.
      * unfold Coder._future_import_guard.
        unfold _has_future_import, is_future_line in H.
        change Coder.FUTURE with FUTURE. rewrite H, Hn. reflexivity.
      * unfold _guard_future_import. rewrite H.
        unfold _has_future_import. rewrite (no_future_line_bom _ Hn). reflexivity.
Qed.

End FutureGuard.

(** Witness of C5: the module loses its future import. *)
Lemma future_import_guard_witness :
  Guards._has_future_import Examples.tool_old = true
  /\ existsb Coder.is_future_line_bom (splitlines (lit "x = 1\n")) = false
  /\ Coder._future_import_guard Examples.tool_old (lit "x = 1\n")
     = (false, lit "future_import_removed")
  /\ Guards._guard_future_import Examples.tool_old (lit "x = 1\n")
     = (false, lit "future_import_removed").
Proof.
  assert (H1 : Guards._has_future_import Examples.tool_old = true) by (vm_compute; reflexivity).
  assert (H2 : existsb Coder.is_future_line_bom (splitlines (lit "x = 1\n")) = false)
    by (vm_compute; reflexivity).
  refine (conj H1 (conj H2 _)).
  exact (proj2 (proj2 (future_import_guard_applies Examples.tool_old (lit "x = 1\n")) H1) H2).
Defined.

(** C5, as stated, fails: pkg/mod.py has the suffix .py, its old text has no
    future import and neither has the new one, and both guards and
    enforce_guards accept the edit. *)
Lemma py_suffix_does_not_trigger_guard :
  endswith (lit "pkg/mod.py") (lit ".py") = true
  /\ Guards._has_future_import Examples.plain_new = false
  /\ Guards._guard_future_import Examples.plain_old Examples.plain_new = (true, [])
  /\ Coder._future_import_guard Examples.plain_old Examples.plain_new = (true, [])
  /\ (forall RT : Runtime,
        Guards.enforce_guards (lit "pkg/mod.py") (lit "set y to 3")
          Examples.plain_old Examples.plain_new = (true, [])).
Proof. repeat split; intros; vm_compute; reflexivity. Qed.

(* ===================================================================== *)
(** * The README guard                                                    *)
(* ===================================================================== *)

Section Readme.
Context {RT : Runtime}.
Import PyFacts GuardFacts Guards.

(** C6, as amended.  For a path whose name is readme.md in any case, an
    instruction without rewrite keyword, and old and new texts that differ,
    with no banned control character in the new one and with the
    future-import guard satisfied: enforce_guards rejects exactly when the
    similarity ratio is below 0.90, with the detail
    "guard: README rewrite blocked", and accepts otherwise. *)
Theorem readme_rewrite_guard :
  forall relpath instruction old new,
    is_readme relpath = true ->
    old <> new ->
    _has_control_chars new = false ->
    _allow_big_rewrite instruction = false ->
    fst (_guard_future_import old new) = true ->
    enforce_guards relpath instruction old new =
    if PyFloat.ltb (_similarity_ratio old new) PyFloat.f_0_90
    then (false, lit "guard: README rewrite blocked")
    else (true, []).
Proof.
  intros relpath instruction old new Hreadme Hneq Hctl Hallow Hfut.
  unfold enforce_guards. rewrite Hctl, (str_eqb_neq Hneq).
  destruct (_guard_future_import old new) as [okf whyf]. cbn [fst] in Hfut. subst okf.
  cbn [negb]. rewrite Hreadme, Hallow. cbn [negb andb].
  destruct (PyFloat.ltb (_similarity_ratio old new) PyFloat.f_0_90) eqn:E; [reflexivity|].
  destruct (PyFloat.ltb (_similarity_ratio old new) PyFloat.f_0_20) eqn:E2; [|reflexivity].
  apply below_020_below_090 in E2. congruence.
Qed.

End Readme.

(** Witness of C6: a README of two lines replaced by two other lines. *)
Lemma readme_rewrite_guard_witness :
  @Guards.is_readme ascii_runtime (lit "docs/ReadMe.MD") = true
  /\ lit "alpha\nbeta\n" <> lit "gamma\ndelta\n"
  /\ Guards._has_control_chars (lit "gamma\ndelta\n") = false
  /\ @Guards._allow_big_rewrite ascii_runtime (lit "Add heading") = false
  /\ fst (Guards._guard_future_import (lit "alpha\nbeta\n") (lit "gamma\ndelta\n")) = true
  /\ @Guards.enforce_guards ascii_runtime (lit "docs/ReadMe.MD") (lit "Add heading")
       (lit "alpha\nbeta\n") (lit "gamma\ndelta\n")
     = if PyFloat.ltb (Guards._similarity_ratio (lit "alpha\nbeta\n") (lit "gamma\ndelta\n"))
                      PyFloat.f_0_90
       then (false, lit "guard: README rewrite blocked")
       else (true, []).
Proof.
  assert (H1 : @Guards.is_readme ascii_runtime (lit "docs/ReadMe.MD") = true)
    by (vm_compute; reflexivity).
  assert (H2 : lit "alpha\nbeta\n" <> lit "gamma\ndelta\n") by (vm_compute; discriminate).
  assert (H3 : Guards._has_control_chars (lit "gamma\ndelta\n") = false)
    by (vm_compute; reflexivity).
  assert (H4 : @Guards._allow_big_rewrite ascii_runtime (lit "Add heading") = false)
    by (vm_compute; reflexivity).
  assert (H5 : fst (Guards._guard_future_import (lit "alpha\nbeta\n") (lit "gamma\ndelta\n"))
               = true) by (vm_compute; reflexivity).
  refine (conj H1 (conj H2 (conj H3 (conj H4 (conj H5 _))))).
  exact (@readme_rewrite_guard ascii_runtime _ _ _ _ H1 H2 H3 H4 H5).
Defined.

(** The two sides of the threshold: no line in common gives 0, below 0.90;
    9 lines kept of 9 and 10 give 18/19, not below. *)
Lemma readme_threshold_examples :
  (forall RT : Runtime,
     Guards.enforce_guards (lit "README.md") (lit "Add heading")
       (lit "alpha\nbeta\n") (lit "gamma\ndelta\n")
     = (false, lit "guard: README rewrite blocked"))
  /\ (forall RT : Runtime,
        Guards.enforce_guards (lit "README.md") (lit "Add heading")
          Examples.readme_new (Examples.readme_new ++ lit "Thanks.\n")
        = (true, [])).
Proof. split; intros; vm_compute; reflexivity. Qed.

(** C6, as stated, fails: the README loses the future import of its code
    sample.  The path is README.md, the instruction has no keyword, the texts
    differ, the new one has no control character and the ratio is 18/19, not
    below 0.90; enforce_guards rejects all the same, and the detail is the
    one of the future-import guard. *)
Lemma readme_rejected_above_threshold :
  PyFloat.ltb (Guards._similarity_ratio Examples.readme_old Examples.readme_new)
              PyFloat.f_0_90 = false
  /\ Guards._has_control_chars Examples.readme_new = false
  /\ str_eqb Examples.readme_old Examples.readme_new = false
  /\ (forall RT : Runtime, Guards.is_readme (lit "README.md") = true)
  /\ (forall RT : Runtime, Guards._allow_big_rewrite (lit "Shorten the sample") = false)
  /\ (forall RT : Runtime,
        Guards.enforce_guards (lit "README.md") (lit "Shorten the sample")
          Examples.readme_old Examples.readme_new
        = (false, lit "guard: future_import_removed")).
Proof. repeat split; intros; vm_compute; reflexivity. Qed.

(* ===================================================================== *)
(** * The empty-OLD validator and apply_edit                              *)
(* ===================================================================== *)

Section EmptyOldValidator.
Context {RT : Runtime}.
Import PyFacts ValidatorFacts Coder EmptyOld.


(** C10.  When apply_edit returns a result with ok:false whose error is not
    git_add_failed, it has returned before the backup and the write: the
    world it leaves is the one it found, and so are the contents of the
    target file. *)
Theorem apply_edit_failure_leaves_world :
  forall w path patch root instruction stage backup r w',
    apply_edit w path patch root instruction stage backup = (Return r, w') ->
    ok r = false ->
    error r <> Some (lit "git_add_failed") ->
    w' = w /\ forall p, fs w' p = fs w p.
Proof.
  intros w path patch root instruction stage backup r w' H Hok Herr.
  assert (Hw : w' = w); [|subst w'; split; reflexivity].
  unfold apply_edit in H.
  repeat match type of H with
         | (match ?x with _ => _ end) = _ => destruct x eqn:?
         | (if ?x then _ else _) = _ => destruct x eqn:?
         | (let '(_, _) := ?x in _) = _ => destruct x eqn:?
         end;
    try (inversion H; subst; cbn in *; try congruence; reflexivity).
Qed.

End EmptyOldValidator.


(** Witness of C10: the patch with the line -BOOM fails on notes.txt, and
    the tree is the one before the call. *)
Lemma apply_edit_failure_witness :
  @Coder.apply_edit ascii_runtime (Examples.one_file_world (lit "notes.txt") Examples.boom_old)
     (lit "notes.txt") Examples.boom_diff Examples.repo (lit "apply") false true
  = (Coder.Return (Coder.failure (lit "patch_apply_failed")
                     (Some (lit "Patch delete mismatch")) None None),
     Examples.one_file_world (lit "notes.txt") Examples.boom_old)
  /\ Coder.ok (Coder.failure (lit "patch_apply_failed")
                 (Some (lit "Patch delete mismatch")) None None) = false
  /\ Coder.error (Coder.failure (lit "patch_apply_failed")
                    (Some (lit "Patch delete mismatch")) None None)
     <> Some (lit "git_add_failed")
  /\ (forall p, Coder.fs (Examples.one_file_world (lit "notes.txt") Examples.boom_old) p
                = Coder.fs (Examples.one_file_world (lit "notes.txt") Examples.boom_old) p).
Proof.
  assert (H1 : @Coder.apply_edit ascii_runtime
                 (Examples.one_file_world (lit "notes.txt") Examples.boom_old)
                 (lit "notes.txt") Examples.boom_diff Examples.repo (lit "apply") false true
               = (Coder.Return (Coder.failure (lit "patch_apply_failed")
                                  (Some (lit "Patch delete mismatch")) None None),
                  Examples.one_file_world (lit "notes.txt") Examples.boom_old))
    by (vm_compute; reflexivity).
  assert (H2 : Coder.ok (Coder.failure (lit "patch_apply_failed")
                           (Some (lit "Patch delete mismatch")) None None) = false)
    by reflexivity.
  assert (H3 : Coder.error (Coder.failure (lit "patch_apply_failed")
                              (Some (lit "Patch delete mismatch")) None None)
               <> Some (lit "git_add_failed")) by (vm_compute; discriminate).
  refine (conj H1 (conj H2 (conj H3 _))).
  exact (proj2 (@apply_edit_failure_leaves_world ascii_runtime _ _ _ _ _ _ _ _ _ H1 H2 H3)).
Defined.

(** A successful apply_edit, for comparison: the file is written and its
    former contents are in the backup beside it. *)
Lemma apply_edit_success_writes :
  forall RT : Runtime,
    let w := Examples.one_file_world (lit "notes.txt") Examples.boom_old in
    let '(r, w') := Coder.apply_edit w (lit "notes.txt")
                      (lit "@@ -1,2 +1,2 @@\n a\n-b\n+B\n")
                      Examples.repo (lit "apply") false true in
    r = Coder.Return (Coder.MkResult true None None None (Some (lit "notes.txt"))
                        None (Some true) (Some false))
    /\ Coder.fs w' (Pathlib.of_str (lit "/repo/notes.txt")) = Some (Coder.File (lit "a\nB\n"))
    /\ Coder.fs w' (Pathlib.of_str (lit "/repo/notes.txt.shellgeist.bak"))
       = Some (Coder.File Examples.boom_old).
Proof. intros RT. vm_compute. repeat split; reflexivity. Qed.

(* ===================================================================== *)
(** * Further properties of the code                                     *)
(* ===================================================================== *)

Module ReFacts.
Import Py Re ReSem.

Lemma run_sound : forall r st k x,
  run r st k = Some x -> exists st', reach r st st' /\ k st' = Some x.
Proof.
  induction r as [|p|a IHa b IHb|a IHa b IHb|a IHa|n a IHa| |]; intros st k x H.
  all: try (cbn [run] in H).
  - exists st. split; [reflexivity|exact H].
  - destruct (rest st) as [|c tl] eqn:E; [discriminate|].
    destruct (p c) eqn:Ep; [|discriminate].
    eexists. split; [|exact H]. cbn. exists c, tl. auto.
  - apply IHa in H. destruct H as [mid [Ha H]]. apply IHb in H. destruct H as [st' [Hb H]].
    exists st'. split; [|exact H]. cbn. exists mid. auto.
  - destruct (run a st k) eqn:E.
    + inversion H; subst. apply IHa in E. destruct E as [st' [Ha E]].
      exists st'. split; [left; exact Ha|exact E].
    + apply IHb in H. destruct H as [st' [Hb H]].
      exists st'. split; [right; exact Hb|exact H].
  - assert (Hloop : forall fuel st0, star_loop (run a) k fuel st0 = Some x ->
                       exists st', star (reach a) st0 st' /\ k st' = Some x).
    { induction fuel as [|f IHf]; intros st0 H0; cbn [star_loop] in H0.
      - exists st0. split; [apply star_refl|exact H0].
      - match type of H0 with
        | match ?e with _ => _ end = _ => destruct e eqn:E
        end.
        + inversion H0; subst. apply IHa in E. destruct E as [st1 [Ha E]].
          destruct (List.length (rest st1) <? List.length (rest st0)); [|discriminate].
          apply IHf in E. destruct E as [st' [Hs E]].
          exists st'. split; [|exact E]. eapply star_step; eassumption.
        + exists st0. split; [apply star_refl|exact H0]. }
    apply (Hloop (S (List.length (rest st))) st). exact H.
  - apply IHa in H. destruct H as [st1 [Ha H]].
    eexists. split; [|exact H]. cbn. exists st1. auto.
  - destruct (Nat.eqb (pos st) 0) eqn:E; [|discriminate].
    exists st. split; [|exact H]. cbn. apply Nat.eqb_eq in E. auto.
  - exists st. cbn.
    destruct (rest st) as [|c [|d tl]] eqn:E; try discriminate.
    + auto.
    + destruct (char_eqb c LF) eqn:Ec; [|discriminate].
      apply N.eqb_eq in Ec. subst c. auto.
Qed.

End ReFacts.

Module ReFacts2.
Import Py Re ReSem ReFacts PyFacts.

(** What a run of single characters consumes. *)
Lemma star_cls : forall p st st',
  star (reach (Cls p)) st st' ->
  exists pre, rest st = pre ++ rest st' /\ forallb p pre = true
              /\ pos st' = pos st + List.length pre /\ groups st' = groups st.
Proof.
  intros p st st' H. induction H as [st|st mid st' Hstep _ IH].
  - exists []. cbn. rewrite Nat.add_0_r. auto.
  - destruct IH as [pre [Hr [Hp [Hpos Hg]]]].
    cbn in Hstep. destruct Hstep as [c [tl [Hrest [Hc ->]]]]. cbn in *.
    exists (c :: pre). cbn. rewrite Hrest, Hr, Hc, Hp. repeat split; [lia|exact Hg].
Qed.

Lemma reach_cls : forall p st st',
  reach (Cls p) st st' ->
  exists c, rest st = c :: rest st' /\ p c = true
            /\ pos st' = S (pos st) /\ groups st' = groups st.
Proof.
  intros p st st' [c [tl [Hr [Hp ->]]]]. exists c. cbn. auto.
Qed.

Lemma reach_word : forall w st st',
  reach (word w) st st' ->
  rest st = w ++ rest st' /\ pos st' = pos st + List.length w /\ groups st' = groups st.
Proof.
  unfold word. induction w as [|c w IH]; intros st st' H.
  - cbn in H. subst. cbn. rewrite Nat.add_0_r. auto.
  - destruct w as [|d w'].
    + cbn in H. destruct H as [x [tl [Hr [Hx ->]]]]. cbn.
      apply N.eqb_eq in Hx. subst x. rewrite Hr. repeat split. lia.
    + change (seq (map chr (c :: d :: w'))) with (Seq (chr c) (seq (map chr (d :: w')))) in H.
      cbn [reach] in H. destruct H as [mid [Hc Hw]].
      apply IH in Hw. destruct Hw as [Hr [Hp Hg]].
      apply reach_cls in Hc. destruct Hc as [x [Hrx [Hx [Hpx Hgx]]]].
      apply N.eqb_eq in Hx. subst x.
      rewrite Hrx, Hr. cbn [app List.length] in *. repeat split; [lia|congruence].
Qed.

End ReFacts2.

Module InlineOp.
Import Py Re ReSem ReFacts ReFacts2 PyFacts Coder.

(** A line that _HUNK_INLINE_OP_RE matches: the header, the white space
    after it, the operation, and the line feed that $ lets through. *)
Lemma inline_op_match : forall line m,
  rmatch _HUNK_INLINE_OP_RE line = Some m ->
  exists mid w c tail eol,
    line = (lit "@@" ++ mid ++ lit "@@") ++ w ++ (c :: tail) ++ eol
    /\ group 1 m = Some (lit "@@" ++ mid ++ lit "@@")
    /\ group 2 m = Some (c :: tail)
    /\ w <> [] /\ forallb is_space w = true
    /\ mem_char c (lit "+- ") = true
    /\ (eol = [] \/ eol = [LF]).
Proof.
  intros line m H. unfold rmatch in H. apply run_sound in H.
  destruct H as [st' [H Hm]]. inversion Hm; subst st'; clear Hm.
  unfold _HUNK_INLINE_OP_RE in H. cbn [seq reach] in H.
  destruct H as [s1 [[_ ->] [s2 [[s3 [H1 ->]] [s4 [Hws [s5 [[s6 [H2 ->]] [Heol ->]]]]]]]]].
  (* group 1 *)
  destruct H1 as [a1 [Hw1 [a2 [Hst1 Hw2]]]].
  apply reach_word in Hw1. destruct Hw1 as [Hr1 [Hp1 Hg1]].
  apply star_cls in Hst1. destruct Hst1 as [mid [Hr2 [_ [Hp2 Hg2]]]].
  apply reach_word in Hw2. destruct Hw2 as [Hr3 [Hp3 Hg3]].
  (* white space *)
  destruct Hws as [b1 [Hc Hst]].
  apply reach_cls in Hc. destruct Hc as [x [Hrx [Hx [Hpx Hgx]]]].
  apply star_cls in Hst. destruct Hst as [w [Hrw [Hw [Hpw Hgw]]]].
  (* group 2 *)
  destruct H2 as [c1 [Hc2 Hst2]].
  apply reach_cls in Hc2. destruct Hc2 as [c [Hrc [Hcc [Hpc Hgc]]]].
  apply star_cls in Hst2. destruct Hst2 as [tail [Hrt [_ [Hpt Hgt]]]].
  cbn [rest pos groups set_group] in *.
  exists mid, (x :: w), c, tail, (rest s6).
  assert (Hline : line = (lit "@@" ++ mid ++ lit "@@") ++ (x :: w) ++ (c :: tail) ++ rest s6).
  { rewrite Hr1, Hr2, Hr3, Hrx, Hrw, Hrc, Hrt. rewrite <- !app_assoc. reflexivity. }
  split; [exact Hline|].
  split.
  { unfold group. cbn [groups set_group lookup_group Nat.eqb].
    rewrite Hgt, Hgc, Hgw, Hgx. cbn [lookup_group Nat.eqb].
    f_equal. rewrite Hline at 1.
    replace (pos s3 - 0) with (List.length (lit "@@" ++ mid ++ lit "@@")).
    - rewrite firstn_app, Nat.sub_diag, firstn_all. cbn [firstn]. apply app_nil_r.
    - rewrite !length_app. lia. }
  split.
  { unfold group. cbn [groups set_group lookup_group Nat.eqb].
    f_equal. rewrite Hrc, Hrt.
    replace (pos s6 - pos s4) with (List.length (c :: tail)) by (cbn [List.length]; lia).
    change (c :: tail ++ rest s6) with ((c :: tail) ++ rest s6).
    rewrite firstn_app, Nat.sub_diag, firstn_all. cbn [firstn]. apply app_nil_r. }
  split; [discriminate|].
  split; [cbn [forallb]; rewrite Hx, Hw; reflexivity|].
  split; [exact Hcc|].
  destruct Heol as [E|E]; rewrite E; auto.
Qed.

End InlineOp.

Module StrFacts.
Import Py PyFacts.

Lemma startswith_app : forall s t p, startswith s p = true -> startswith (s ++ t) p = true.
Proof.
  induction s as [|c s IH]; intros t p H; destruct p as [|x p]; cbn in *; try reflexivity;
    try discriminate.
  - destruct t; reflexivity.
  - apply andb_true_iff in H. destruct H as [Hc Hr]. rewrite Hc. cbn. apply IH. exact Hr.
Qed.

Lemma startswith_self_app : forall p t, startswith (p ++ t) p = true.
Proof.
  induction p as [|c p IH]; intros t; cbn.
  - destruct t; reflexivity.
  - unfold char_eqb. rewrite N.eqb_refl. cbn. apply IH.
Qed.

Lemma startswith_inv : forall s p, startswith s p = true -> exists t, s = p ++ t.
Proof.
  induction s as [|c s IH]; intros [|x p] H; cbn in H; try discriminate.
  - exists []. reflexivity.
  - exists (c :: s). reflexivity.
  - apply andb_true_iff in H. destruct H as [Hc Hr]. apply N.eqb_eq in Hc. subst x.
    destruct (IH p Hr) as [t ->]. exists t. reflexivity.
Qed.

Lemma contains_of_startswith : forall s p, startswith s p = true -> contains s p = true.
Proof. intros [|c s] p H; cbn [contains]; rewrite H; reflexivity. Qed.

Lemma endswith_snoc : forall s c, endswith (s ++ [c]) [c] = true.
Proof.
  intros s c. unfold endswith. rewrite rev_app_distr. cbn.
  unfold char_eqb. rewrite N.eqb_refl. destruct (rev s); reflexivity.
Qed.

(** find gives the index of an occurrence. *)
Lemma find_from_some : forall s p i j,
  find_from s p i = Some j -> i <= j /\ startswith (skipn (j - i) s) p = true.
Proof.
  induction s as [|c s IH]; intros p i j H; cbn [find_from] in H.
  - destruct (startswith [] p) eqn:E; [|discriminate]. inversion H; subst.
    rewrite Nat.sub_diag. cbn [skipn]. auto.
  - destruct (startswith (c :: s) p) eqn:E.
    + inversion H; subst. rewrite Nat.sub_diag. cbn [skipn]. auto.
    + apply IH in H. destruct H as [Hle Hs]. split; [lia|].
      replace (j - i) with (S (j - S i)) by lia. exact Hs.
Qed.

Lemma find_some : forall s p j,
  find s p = Some j -> startswith (skipn j s) p = true.
Proof.
  intros s p j H. apply find_from_some in H. rewrite Nat.sub_0_r in H. tauto.
Qed.

Lemma find_from_none : forall s p i, find_from s p i = None -> contains s p = false.
Proof.
  induction s as [|c s IH]; intros p i H; cbn [find_from] in H; cbn [contains].
  - destruct (startswith [] p); [discriminate|reflexivity].
  - destruct (startswith (c :: s) p); [discriminate|]. cbn. eapply IH. exact H.
Qed.

Lemma find_from_contains : forall s p i j, find_from s p i = Some j -> contains s p = true.
Proof.
  induction s as [|c s IH]; intros p i j H; cbn [find_from] in H; cbn [contains].
  - destruct (startswith [] p); [reflexivity|discriminate].
  - destruct (startswith (c :: s) p); [reflexivity|]. cbn. eapply IH. exact H.
Qed.

(** The pieces of split: the first one begins with what was accumulated. *)
Lemma split_acc_head : forall sep s cur,
  exists p rest, split_acc sep s cur = (rev cur ++ p) :: rest.
Proof.
  induction s as [|c s IH]; intros cur; cbn [split_acc].
  - exists [], []. rewrite app_nil_r. reflexivity.
  - destruct (char_eqb c sep).
    + exists [], (split_acc sep s []). rewrite app_nil_r. reflexivity.
    + destruct (IH (c :: cur)) as [p [rest E]]. rewrite E. cbn [rev].
      exists (c :: p), rest. rewrite <- app_assoc. reflexivity.
Qed.

Lemma split_acc_forall : forall (P : char -> bool) sep s cur,
  forallb P s = true -> forallb P cur = true ->
  forallb (forallb P) (split_acc sep s cur) = true.
Proof.
  induction s as [|c s IH]; intros cur Hs Hc; cbn [split_acc].
  - cbn. rewrite forallb_rev, Hc. reflexivity.
  - cbn in Hs. apply andb_true_iff in Hs. destruct Hs as [Hx Hs].
    destruct (char_eqb c sep).
    + cbn [forallb]. rewrite forallb_rev, Hc. cbn. apply IH; auto.
    + apply IH; [exact Hs|]. cbn. rewrite Hx, Hc. reflexivity.
Qed.

Lemma join_forall : forall (P : char -> bool) sep parts,
  forallb P sep = true -> forallb (forallb P) parts = true ->
  forallb P (join sep parts) = true.
Proof.
  induction parts as [|p parts IH]; intros Hsep H; [reflexivity|].
  cbn [forallb] in H. apply andb_true_iff in H. destruct H as [Hp Hr].
  destruct parts as [|q parts]; [exact Hp|].
  change (join sep (p :: q :: parts)) with (p ++ sep ++ join sep (q :: parts)).
  rewrite !forallb_app, Hp, Hsep. cbn. apply IH; auto.
Qed.

Lemma join_head : forall sep p rest, exists t, join sep (p :: rest) = p ++ t.
Proof.
  intros sep p [|q r].
  - exists []. cbn. rewrite app_nil_r. reflexivity.
  - eexists. reflexivity.
Qed.

(** After replacing every CR there is no CR left. *)
Lemma replace_cr_go : forall s skip,
  forallb (fun c => negb (char_eqb c CR)) (replace_go [CR] [LF] s skip) = true.
Proof.
  induction s as [|c s IH]; intros skip.
  - destruct skip; reflexivity.
  - destruct skip as [|n]; cbn [replace_go]; [|apply IH].
    assert (Hsw : startswith (c :: s) [CR] = char_eqb CR c).
    { cbn [startswith]. rewrite startswith_nil. apply andb_true_r. }
    rewrite Hsw. destruct (char_eqb CR c) eqn:E.
    + cbn [List.length pred app forallb]. rewrite IH. reflexivity.
    + cbn [forallb]. rewrite IH. unfold char_eqb in *. rewrite (N.eqb_sym c CR), E.
      reflexivity.
Qed.

Lemma replace_head_other : forall c s old new,
  startswith (c :: s) old = false ->
  replace (c :: s) old new = c :: replace s old new.
Proof. intros c s old new H. unfold replace. cbn [replace_go]. rewrite H. reflexivity. Qed.

End StrFacts.

Module NormalizerShapeFacts.
Import Py PyFacts StrFacts Re Coder InlineOp.

Lemma forallb_app_l : forall (P : char -> bool) a b,
  forallb P (a ++ b) = true -> forallb P a = true.
Proof. intros P a b H. rewrite forallb_app in H. apply andb_true_iff in H. tauto. Qed.

Lemma forallb_app_r : forall (P : char -> bool) a b,
  forallb P (a ++ b) = true -> forallb P b = true.
Proof. intros P a b H. rewrite forallb_app in H. apply andb_true_iff in H. tauto. Qed.

(** The lines the normalizer emits for a line are made of its characters. *)
Lemma normalize_line_forall : forall (P : char -> bool) line,
  forallb P line = true -> forallb (forallb P) (normalize_line line) = true.
Proof.
  intros P line H. unfold normalize_line.
  destruct (startswith_any line _NOISE_PREFIXES); [reflexivity|].
  destruct (rmatch _HUNK_INLINE_OP_RE line) as [m|] eqn:E.
  - destruct (inline_op_match _ E) as [mid [w [c [tail [eol [Hl [G1 [G2 _]]]]]]]].
    rewrite G1, G2. rewrite Hl in H.
    pose proof (forallb_app_l _ _ _ H) as H1.
    apply forallb_app_r, forallb_app_r in H. apply forallb_app_l in H.
    set (g1 := lit "@@" ++ mid ++ lit "@@") in *. set (g2 := c :: tail) in *.
    change (forallb P g1 && (forallb P g2 && true) = true).
    rewrite H1, H. reflexivity.
  - cbn. rewrite H. reflexivity.
Qed.

Lemma flat_map_forall : forall (P : char -> bool) (f : pystr -> list pystr) L,
  (forall l, forallb P l = true -> forallb (forallb P) (f l) = true) ->
  forallb (forallb P) L = true -> forallb (forallb P) (flat_map f L) = true.
Proof.
  intros P f. induction L as [|l L IH]; intros Hf H; [reflexivity|].
  cbn [forallb] in H. apply andb_true_iff in H. destruct H as [Hl HL].
  change (flat_map f (l :: L)) with (f l ++ flat_map f L).
  rewrite forallb_app. apply andb_true_iff. split; [apply Hf; exact Hl|apply IH; auto].
Qed.

(** A line that begins with the hunk marker is kept, whole or split, and
    what is kept of it begins with the marker. *)
Lemma normalize_line_header : forall line,
  startswith line (lit "@@") = true ->
  exists h rest, normalize_line line = h :: rest /\ startswith h (lit "@@") = true.
Proof.
  intros line H. unfold normalize_line.
  destruct (startswith_inv _ _ H) as [t ->].
  change (startswith_any (lit "@@" ++ t) _NOISE_PREFIXES) with false.
  destruct (rmatch _HUNK_INLINE_OP_RE (lit "@@" ++ t)) as [m|] eqn:E.
  - destruct (inline_op_match _ E) as [mid [w [c [tail [eol [Hl [G1 [G2 _]]]]]]]].
    rewrite G1, G2. eexists. eexists. split; [reflexivity|]. apply startswith_self_app.
  - eexists. eexists. split; [reflexivity|exact H].
Qed.

Lemma replace_keeps_header : forall s,
  startswith s (lit "@@") = true ->
  startswith (replace (replace s [CR; LF] [LF]) [CR] [LF]) (lit "@@") = true.
Proof.
  intros s H. destruct (startswith_inv _ _ H) as [t ->].
  change (lit "@@" ++ t) with (ch "@" :: ch "@" :: t).
  rewrite (@replace_head_other (ch "@") (ch "@" :: t)) by reflexivity.
  rewrite (@replace_head_other (ch "@") t) by reflexivity.
  rewrite (@replace_head_other (ch "@")) by reflexivity.
  rewrite (@replace_head_other (ch "@")) by reflexivity.
  apply (startswith_self_app (lit "@@")).
Qed.

Lemma normalize_keeps_header : forall s,
  startswith s (lit "@@") = true ->
  startswith (_normalize_unified_diff s) (lit "@@") = true.
Proof.
  intros s H. unfold _normalize_unified_diff.
  apply replace_keeps_header in H.
  destruct (startswith_inv _ _ H) as [t Ht]. rewrite Ht.
  unfold split. change (lit "@@" ++ t) with (ch "@" :: ch "@" :: t).
  cbn [split_acc]. change (char_eqb (ch "@") LF) with false. cbn iota.
  destruct (split_acc_head LF t [ch "@"; ch "@"]) as [p [rest E]]. rewrite E.
  cbn [flat_map rev app].
  destruct (@normalize_line_header (ch "@" :: ch "@" :: p)
              (startswith_self_app (lit "@@") p)) as [h [r [En Hh]]].
  rewrite En. cbn [app].
  destruct (join_head [LF] h (r ++ flat_map normalize_line rest)) as [u Eu]. rewrite Eu.
  destruct (negb (endswith (h ++ u) [LF])).
  - rewrite <- app_assoc. apply startswith_app. exact Hh.
  - apply startswith_app. exact Hh.
Qed.

End NormalizerShapeFacts.

Section NormalizerShape.
Import PyFacts StrFacts Coder NormalizerShapeFacts.

(** X3. The normalized diff always ends with a line feed and holds no carriage
    return. *)
Theorem normalize_output_shape : forall diff,
  endswith (_normalize_unified_diff diff) [LF] = true
  /\ forallb (fun c => negb (char_eqb c CR)) (_normalize_unified_diff diff) = true.
Proof.
  intros diff. unfold _normalize_unified_diff.
  set (d := replace (replace diff [CR; LF] [LF]) [CR] [LF]).
  set (norm := join [LF] (flat_map normalize_line (split LF d))).
  assert (Hn : forallb (fun c => negb (char_eqb c CR)) norm = true).
  { apply join_forall; [reflexivity|].
    apply flat_map_forall; [apply normalize_line_forall|].
    apply split_acc_forall; [apply replace_cr_go|reflexivity]. }
  destruct (endswith norm [LF]) eqn:E; cbn [negb].
  - auto.
  - split; [apply endswith_snoc|]. rewrite forallb_app, Hn. reflexivity.
Qed.

(** X4. The salvage of a diff from a raw answer succeeds exactly when the answer
    holds the hunk marker: it is the normal form of the answer from the
    first marker on, and the test made on that normal form never fails. *)
Theorem extract_diff_fallback_spec : forall raw,
  _extract_diff_fallback raw
  = match find raw (lit "@@") with
    | None => None
    | Some i => Some (_normalize_unified_diff (skipn i raw))
    end.
Proof.
  intros raw. unfold _extract_diff_fallback.
  destruct (find raw (lit "@@")) as [i|] eqn:E; [|reflexivity].
  apply find_some in E. apply normalize_keeps_header in E.
  rewrite (contains_of_startswith _ _ E). reflexivity.
Qed.

End NormalizerShape.

Module DisplayFacts.
Import Py PyFacts StrFacts Coder.

Lemma contains_app_l : forall s t p, contains s p = true -> contains (s ++ t) p = true.
Proof.
  induction s as [|c s IH]; intros t p H.
  - cbn [contains] in H. rewrite orb_false_r in H.
    apply contains_of_startswith. apply (startswith_app [] t p H).
  - cbn [contains app] in *. apply orb_true_iff in H. destruct H as [H|H].
    + change (c :: s ++ t) with ((c :: s) ++ t). rewrite (startswith_app _ t _ H). reflexivity.
    + rewrite (IH t p H). apply orb_true_r.
Qed.

Lemma contains_app_r : forall s t p, contains t p = true -> contains (s ++ t) p = true.
Proof.
  induction s as [|c s IH]; intros t p H; [exact H|].
  cbn [contains app]. rewrite (IH t p H). apply orb_true_r.
Qed.

Lemma lstrip_app : forall s t, lstrip s <> [] -> lstrip (s ++ t) = lstrip s ++ t.
Proof.
  unfold lstrip. induction s as [|c s IH]; intros t H; [cbn in H; congruence|].
  cbn [drop_while app] in *. destruct (is_space c); [apply IH; exact H|reflexivity].
Qed.

Lemma endswith_app : forall s t p, endswith t p = true -> endswith (s ++ t) p = true.
Proof.
  intros s t p H. unfold endswith in *. rewrite rev_app_distr. apply startswith_app. exact H.
Qed.

Lemma terminated : forall s, endswith (if endswith s [LF] then s else s ++ [LF]) [LF] = true.
Proof. intros s. destruct (endswith s [LF]) eqn:E; [exact E|apply endswith_snoc]. Qed.

End DisplayFacts.

Section DisplayDiff.
Context {RT : Runtime}.
Import PyFacts StrFacts NormalizeFacts Coder Canonical DisplayFacts.

(** X5. The display helper adds file headers once: applied to its own result it
    changes nothing. *)
Theorem ensure_display_diff_idempotent : forall path p,
  _ensure_display_diff path (_ensure_display_diff path p) = _ensure_display_diff path p.
Proof.
  intros path p.
  assert (Hfix : forall r, contains r (lit "@@") = true ->
                           startswith (lstrip r) (lit "--- ") = true ->
                           endswith r [LF] = true ->
                           _ensure_display_diff path r = r).
  { intros r Hc Hs He. unfold _ensure_display_diff. rewrite Hc, Hs, He. reflexivity. }
  destruct (contains p (lit "@@")) eqn:Ec.
  2:{ assert (E : _ensure_display_diff path p = p)
        by (unfold _ensure_display_diff; rewrite Ec; reflexivity).
      rewrite E. exact E. }
  destruct (startswith (lstrip p) (lit "--- ")) eqn:Es.
  - assert (Hne : lstrip p <> []) by (destruct (lstrip p); discriminate).
    set (r := if endswith p [LF] then p else p ++ [LF]).
    assert (E : _ensure_display_diff path p = r)
      by (unfold _ensure_display_diff; rewrite Ec, Es; reflexivity).
    rewrite E. apply Hfix.
    + unfold r. destruct (endswith p [LF]); [exact Ec|apply contains_app_l; exact Ec].
    + unfold r. destruct (endswith p [LF]); [exact Es|].
      rewrite lstrip_app by exact Hne. apply startswith_app. exact Es.
    + apply terminated.
  - set (out := (lit "--- a/" ++ path ++ [LF]) ++ (lit "+++ b/" ++ path ++ [LF]) ++ p).
    set (r := if endswith out [LF] then out else out ++ [LF]).
    assert (E : _ensure_display_diff path p = r)
      by (unfold _ensure_display_diff; rewrite Ec, Es; reflexivity).
    rewrite E. apply Hfix.
    + assert (contains out (lit "@@") = true)
        by (unfold out; apply contains_app_r, contains_app_r; exact Ec).
      unfold r. destruct (endswith out [LF]); [assumption|apply contains_app_l; assumption].
    + assert (Ho : exists t, r = lit "--- " ++ t).
      { unfold r, out. destruct (endswith _ [LF]); eexists;
          rewrite <- ?app_assoc; reflexivity. }
      destruct Ho as [t ->]. apply (startswith_self_app (lit "--- ")).
    + apply terminated.
Qed.

(** X6. For a path without line boundary and a patch that ends with a line
    feed, the display form of the patch applies as the patch does: same
    text, or same error. *)
Theorem display_diff_applies_alike : forall old path p,
  clean path = true ->
  endswith p [LF] = true ->
  Apply.apply_unified_diff old (_ensure_display_diff path p)
  = Apply.apply_unified_diff old p.
Proof.
  intros old path p Hpath Hend. unfold _ensure_display_diff.
  destruct (contains p (lit "@@")); cbn [negb]; [|reflexivity].
  destruct (startswith (lstrip p) (lit "--- ")); [rewrite Hend; reflexivity|].
  assert (He : endswith ((lit "--- a/" ++ path ++ [LF]) ++ (lit "+++ b/" ++ path ++ [LF]) ++ p)
                        [LF] = true)
    by (apply endswith_app, endswith_app; exact Hend).
  rewrite He.
  unfold Apply.apply_unified_diff.
  assert (Hl : splitlines_keepends
                 ((lit "--- a/" ++ path ++ [LF]) ++ (lit "+++ b/" ++ path ++ [LF]) ++ p)
               = (lit "--- a/" ++ path ++ [LF]) :: (lit "+++ b/" ++ path ++ [LF])
                 :: splitlines_keepends p).
  { unfold splitlines_keepends.
    assert (Hc : forall pre, clean pre = true -> clean (pre ++ path) = true).
    { intros pre Hp. unfold clean in *. rewrite forallb_app, Hp, Hpath. reflexivity. }
    replace ((lit "--- a/" ++ path ++ [LF]) ++ (lit "+++ b/" ++ path ++ [LF]) ++ p)
      with ((lit "--- a/" ++ path) ++ LF :: ((lit "+++ b/" ++ path) ++ LF :: p))
      by (rewrite <- !app_assoc; reflexivity).
    rewrite splitlines_keep_clean_line by (apply Hc; reflexivity).
    rewrite splitlines_keep_clean_line by (apply Hc; reflexivity).
    cbn [rev app]. rewrite <- !app_assoc. reflexivity. }
  rewrite Hl. reflexivity.
Qed.

End DisplayDiff.

(** A patch for notes.txt and its display form. *)
Lemma display_diff_applies_alike_witness :
  Canonical.clean (lit "notes.txt") = true
  /\ endswith Examples.boom_diff [LF] = true
  /\ @Apply.apply_unified_diff ascii_runtime Examples.boom_old
       (Coder._ensure_display_diff (lit "notes.txt") Examples.boom_diff)
     = @Apply.apply_unified_diff ascii_runtime Examples.boom_old Examples.boom_diff.
Proof.
  assert (H1 : Canonical.clean (lit "notes.txt") = true) by (vm_compute; reflexivity).
  assert (H2 : endswith Examples.boom_diff [LF] = true) by (vm_compute; reflexivity).
  refine (conj H1 (conj H2 _)).
  exact (@display_diff_applies_alike ascii_runtime Examples.boom_old (lit "notes.txt")
           Examples.boom_diff H1 H2).
Defined.

Module ApplyFacts.
Import Py Re Apply ApplyLoops PyFacts.

Section WithRuntime.
Context {RT : Runtime}.

Lemma hunks_nil : forall old_lines old_idx out,
  hunks old_lines [] old_idx out = Ok (concat (out ++ skipn old_idx old_lines)).
Proof. reflexivity. Qed.

Lemma hunks_cons : forall old_lines header after old_idx out,
  hunks old_lines (header :: after) old_idx out
  = if negb (startswith header (lit "@@")) then Raise (ExpectedHunkHeader header)
    else
      match rmatch _HUNK_RE (strip header) with
      | None => Raise (InvalidHunkHeader (strip header))
      | Some m =>
          let target := target_of (List.length old_lines) m in
          if target <? old_idx then Raise TargetBeforeCurrentIndex
          else body old_lines after target (out ++ slice old_lines old_idx target) 0
      end.
Proof. reflexivity. Qed.

Lemma body_nil : forall old_lines old_idx out hunk_lines,
  body old_lines [] old_idx out hunk_lines
  = if Nat.eqb hunk_lines 0 then Raise EmptyHunkBody
    else Ok (concat (out ++ skipn old_idx old_lines)).
Proof. reflexivity. Qed.

Lemma body_cons : forall old_lines ln ls' old_idx out hunk_lines,
  body old_lines (ln :: ls') old_idx out hunk_lines
  = if startswith ln (lit "@@") then
      if Nat.eqb hunk_lines 0 then Raise EmptyHunkBody
      else hunks old_lines (ln :: ls') old_idx out
    else if startswith ln [BSL] then body old_lines ls' old_idx out hunk_lines
    else if startswith ln [SP] then
      if List.length old_lines <=? old_idx then Raise ContextEOF
      else
        if negb (str_eqb (nth old_idx old_lines []) (skipn 1 ln)) then Raise ContextMismatch
        else body old_lines ls' (S old_idx) (out ++ [nth old_idx old_lines []]) (S hunk_lines)
    else if startswith ln (lit "-") then
      if List.length old_lines <=? old_idx then Raise DeleteEOF
      else
        if negb (str_eqb (nth old_idx old_lines []) (skipn 1 ln)) then Raise DeleteMismatch
        else body old_lines ls' (S old_idx) out (S hunk_lines)
    else if startswith ln (lit "+") then
      body old_lines ls' old_idx (out ++ [skipn 1 ln]) (S hunk_lines)
    else Raise (InvalidHunkLine ln).
Proof. reflexivity. Qed.

End WithRuntime.
End ApplyFacts.

Module LinesFacts.
Import Py PyFacts StrFacts Lines.

Lemma lines_rel_len : forall n s cur, List.length s <= n ->
  Forall2 line_rel (splitlines_keep_acc s cur) (splitlines_acc s cur).
Proof.
  induction n as [|n IH]; intros s cur Hn.
  - destruct s; [|cbn in Hn; lia]. cbn.
    destruct cur; [constructor|]. constructor; [|constructor].
    exists []. rewrite app_nil_r. auto.
  - destruct s as [|c s]; cbn [splitlines_keep_acc splitlines_acc].
    + destruct cur; [constructor|]. constructor; [|constructor].
      exists []. rewrite app_nil_r. auto.
    + cbn [List.length] in Hn.
      destruct (is_linebreak c) eqn:Ec; [|apply IH; lia].
      destruct (char_eqb c CR) eqn:Ecr.
      * destruct s as [|d s'].
        -- constructor; [|constructor]. exists [c]. cbn. rewrite Ec. auto.
        -- cbn [List.length] in Hn. destruct (char_eqb d LF) eqn:Ed.
           ++ constructor; [|apply IH; lia].
              exists [c; d]. cbn [rev]. rewrite <- !app_assoc. cbn.
              apply N.eqb_eq in Ed. subst d. rewrite Ec. auto.
           ++ constructor; [|apply IH; cbn; lia]. exists [c]. cbn. rewrite Ec. auto.
      * constructor; [|apply IH; lia]. exists [c]. cbn. rewrite Ec. auto.
Qed.

Lemma lines_rel_acc : forall s cur,
  Forall2 line_rel (splitlines_keep_acc s cur) (splitlines_acc s cur).
Proof. intros s cur. apply (@lines_rel_len (List.length s)). lia. Qed.

Lemma lines_rel : forall s, Forall2 line_rel (splitlines_keepends s) (splitlines s).
Proof. intros s. apply lines_rel_acc. Qed.

(** A prefix without line boundary is a prefix of the line with or without
    its terminator. *)
Lemma startswith_rel : forall k l p,
  line_rel k l -> forallb (fun c => negb (is_linebreak c)) p = true ->
  startswith k p = startswith l p.
Proof.
  intros k l p [t [-> Ht]]. revert p. induction l as [|c l IH]; intros p Hp.
  - cbn [app]. destruct p as [|x p]; [destruct t; reflexivity|].
    destruct t as [|y t]; [reflexivity|]. cbn in *.
    apply andb_true_iff in Hp. destruct Hp as [Hx _].
    apply andb_true_iff in Ht. destruct Ht as [Hy _].
    destruct (char_eqb x y) eqn:E; [|reflexivity].
    apply N.eqb_eq in E. subst y. rewrite Hy in Hx. discriminate.
  - destruct p as [|x p]; [reflexivity|]. cbn in *.
    apply andb_true_iff in Hp. destruct Hp as [_ Hp]. rewrite (IH p Hp). reflexivity.
Qed.

End LinesFacts.

Module ApplyFacts2.
Import Py Re Apply ApplyLoops ApplyFacts PyFacts StrFacts.

Section WithRuntime.
Context {RT : Runtime}.

Lemma skip_nil_iff : forall L,
  skip_to_first_hunk L = [] <-> existsb (fun l => startswith l (lit "@@")) L = false.
Proof.
  induction L as [|l L IH]; cbn [skip_to_first_hunk existsb]; [tauto|].
  destruct (startswith l (lit "@@")); cbn [orb]; [|exact IH].
  split; discriminate.
Qed.

(** Once a hunk header is found, the error is never the one of a patch
    without hunks. *)
Lemma loops_not_no_hunks : forall old_lines n,
  (forall ls old_idx out, List.length ls <= n ->
     hunks old_lines ls old_idx out <> Raise NoHunksFound)
  /\ (forall ls old_idx out hl, List.length ls <= n ->
        body old_lines ls old_idx out hl <> Raise NoHunksFound).
Proof.
  intros old_lines. induction n as [|n [IHh IHb]].
  - split; intros [|l ls]; intros; cbn [List.length] in *; try lia.
    + rewrite hunks_nil. discriminate.
    + rewrite body_nil. destruct (Nat.eqb hl 0); discriminate.
  - assert (Hh : forall ls old_idx out, List.length ls <= S n ->
                 hunks old_lines ls old_idx out <> Raise NoHunksFound).
    { intros [|h after] old_idx out Hl; [rewrite hunks_nil; discriminate|].
      cbn [List.length] in Hl. rewrite hunks_cons.
      destruct (negb (startswith h (lit "@@"))); [discriminate|].
      destruct (rmatch _HUNK_RE (strip h)) as [m|]; [|discriminate].
      cbv zeta. destruct (_ <? old_idx); [discriminate|]. apply IHb. lia. }
    split; [exact Hh|].
    intros [|ln ls'] old_idx out hl Hl.
    + rewrite body_nil. destruct (Nat.eqb hl 0); discriminate.
    + rewrite body_cons. cbn [List.length] in Hl.
      destruct (startswith ln (lit "@@")).
      { destruct (Nat.eqb hl 0); [discriminate|]. apply Hh. cbn [List.length]. lia. }
      destruct (startswith ln [BSL]); [apply IHb; lia|].
      destruct (startswith ln [SP]).
      { destruct (_ <=? old_idx); [discriminate|].
        destruct (negb _); [discriminate|]. apply IHb. lia. }
      destruct (startswith ln (lit "-")).
      { destruct (_ <=? old_idx); [discriminate|].
        destruct (negb _); [discriminate|]. apply IHb. lia. }
      destruct (startswith ln (lit "+")); [apply IHb; lia|discriminate].
Qed.

End WithRuntime.
End ApplyFacts2.

Section NoHunks.
Context {RT : Runtime}.
Import Apply ApplyFacts2.

(** X1. apply_unified_diff raises "Invalid patch: no hunks found" exactly when
    no line of the diff begins with the hunk marker, whatever the old text. *)
Theorem no_hunks_found_iff : forall old diff,
  apply_unified_diff old diff = Raise NoHunksFound
  <-> existsb (fun l => startswith l (lit "@@")) (splitlines_keepends diff) = false.
Proof.
  intros old diff. unfold apply_unified_diff.
  rewrite <- skip_nil_iff.
  destruct (skip_to_first_hunk (splitlines_keepends diff)) as [|l ls] eqn:E.
  - tauto.
  - split; [|discriminate]. intros H. exfalso.
    destruct (loops_not_no_hunks (_split_lines_keepends old) (List.length (l :: ls)))
      as [Hh _].
    apply (Hh (l :: ls) 0 [] (le_n _)). exact H.
Qed.

End NoHunks.

Module EmptyOldFacts.
Import Py Re Apply ApplyLoops ApplyFacts PyFacts StrFacts Lines LinesFacts Coder Insertions.

Section WithRuntime.
Context {RT : Runtime}.

Lemma target_of_empty : forall m, target_of 0 m = 0.
Proof.
  intros m. unfold target_of. cbv zeta.
  destruct (Z.to_nat _) as [|t]; reflexivity.
Qed.

Lemma header_not_plus : forall l, startswith l (lit "@@") = true -> is_plus l = false.
Proof.
  intros l H. destruct (startswith_inv _ _ H) as [t ->]. reflexivity.
Qed.

(** The two loops on the empty text against the loop of the validator. *)
Lemma loops_on_empty : forall n,
  (forall ls ls' out sp new, List.length ls <= n -> Forall2 line_rel ls ls' ->
     ls <> [] -> hunks [] ls 0 out = Ok new ->
     validate_loop ls' true sp = inr (true, true)
     /\ new = concat (out ++ inserted_of ls))
  /\ (forall ls ls' out hl sp new, List.length ls <= n -> Forall2 line_rel ls ls' ->
        (hl <> 0 -> sp = true) -> body [] ls 0 out hl = Ok new ->
        validate_loop ls' true sp = inr (true, true)
        /\ new = concat (out ++ inserted_of ls)).
Proof.
  assert (Hb0 : forall out hl sp new, (hl <> 0 -> sp = true) ->
            body [] [] 0 out hl = Ok new ->
            validate_loop [] true sp = inr (true, true)
            /\ new = concat (out ++ inserted_of [])).
  { intros out hl sp new Hsp H. rewrite body_nil in H.
    destruct (Nat.eqb hl 0) eqn:E; [discriminate|]. apply Nat.eqb_neq in E.
    rewrite (Hsp E). inversion H; subst. split; reflexivity. }
  induction n as [|n [IHh IHb]].
  - split.
    + intros [|l ls] ls' out sp new Hl _ Hne _; [congruence|cbn in Hl; lia].
    + intros [|l ls] ls' out hl sp new Hl Hrel Hsp H; [|cbn in Hl; lia].
      inversion Hrel; subst. eapply Hb0; eassumption.
  - assert (Hh : forall ls ls' out sp new, List.length ls <= S n -> Forall2 line_rel ls ls' ->
                 ls <> [] -> hunks [] ls 0 out = Ok new ->
                 validate_loop ls' true sp = inr (true, true)
                 /\ new = concat (out ++ inserted_of ls)).
    { intros [|h after] ls' out sp new Hl Hrel Hne H; [congruence|].
      inversion Hrel as [|? h' ? after' Hr Hrest]; subst.
      cbn [List.length] in Hl. rewrite hunks_cons in H.
      destruct (startswith h (lit "@@")) eqn:Eh; cbn [negb] in H; [|discriminate].
      destruct (rmatch _HUNK_RE (strip h)) as [m|]; [|discriminate].
      cbv zeta in H. cbn [List.length] in H. rewrite target_of_empty in H.
      cbn [Nat.ltb Nat.leb] in H. unfold slice in H. cbn [skipn firstn Nat.sub] in H.
      rewrite app_nil_r in H.
      cbn [validate_loop]. rewrite <- (startswith_rel (lit "@@") Hr eq_refl), Eh.
      unfold inserted_of. cbn [filter]. rewrite (header_not_plus _ Eh).
      apply (IHb after after' out 0 sp new); [lia|exact Hrest|congruence|exact H]. }
    split; [exact Hh|].
    intros [|ln ls1] ls' out hl sp new Hl Hrel Hsp H.
    { inversion Hrel; subst. eapply Hb0; eassumption. }
    inversion Hrel as [|? ln' ? ls1' Hr Hrest]; subst.
    cbn [List.length] in Hl. rewrite body_cons in H.
    destruct (startswith ln (lit "@@")) eqn:Eh.
    { destruct (Nat.eqb hl 0); [discriminate|].
      apply (Hh (ln :: ls1) (ln' :: ls1') out sp new); auto. discriminate. }
    destruct (startswith ln [BSL]) eqn:Eb.
    { cbn [validate_loop].
      rewrite <- (startswith_rel (lit "@@") Hr eq_refl), Eh. cbn [negb].
      rewrite <- (startswith_rel [BSL] Hr eq_refl), Eb. cbn [orb].
      assert (Hp : is_plus ln = false)
        by (apply (@startswith_two_heads ln BSL (ch "+")); [discriminate|exact Eb]).
      unfold inserted_of. cbn [filter]. rewrite Hp.
      apply (IHb ls1 ls1' out hl sp new); auto. lia. }
    destruct (startswith ln [SP]) eqn:Es; [discriminate|].
    destruct (startswith ln (lit "-")) eqn:Em; [discriminate|].
    destruct (startswith ln (lit "+")) eqn:Ep; [|discriminate].
    cbn [validate_loop].
    rewrite <- (startswith_rel (lit "@@") Hr eq_refl), Eh. cbn [negb].
    rewrite <- (startswith_rel [BSL] Hr eq_refl), Eb.
    rewrite <- (startswith_rel [SP] Hr eq_refl), Es.
    rewrite <- (startswith_rel (lit "-") Hr eq_refl), Em.
    pose proof (startswith_rel (lit "+") Hr eq_refl) as Ep'. rewrite Ep in Ep'.
    rewrite <- Ep'.
    assert (Hne : str_eqb ln' [] = false) by (destruct ln'; [discriminate|reflexivity]).
    rewrite Hne. cbn [orb].
    unfold inserted_of. cbn [filter]. change (is_plus ln) with (startswith ln (lit "+")).
    rewrite Ep. cbn [map].
    destruct (IHb ls1 ls1' (out ++ [skipn 1 ln]) (S hl) true new) as [Hv Hnew];
      [lia|exact Hrest|reflexivity|exact H|].
    split; [exact Hv|]. rewrite Hnew. rewrite <- app_assoc. reflexivity.
Qed.

(** The validator passes the lines before the first header as the applier
    skips them. *)
Lemma validate_preamble : forall K L h after,
  Forall2 line_rel K L -> skip_to_first_hunk K = h :: after ->
  exists L', Forall2 line_rel (h :: after) L'
             /\ validate_loop L false false = validate_loop L' false false.
Proof.
  induction K as [|k K IH]; intros L h after Hrel Hs; [discriminate|].
  inversion Hrel as [|? l ? L0 Hr Hrest]; subst. cbn [skip_to_first_hunk] in Hs.
  destruct (startswith k (lit "@@")) eqn:Ek.
  - inversion Hs; subst. exists (l :: L0). split; [exact Hrel|reflexivity].
  - destruct (IH L0 h after Hrest Hs) as [L' [HL' Hv]]. exists L'. split; [exact HL'|].
    cbn [validate_loop]. rewrite <- (startswith_rel (lit "@@") Hr eq_refl), Ek.
    exact Hv.
Qed.

End WithRuntime.
End EmptyOldFacts.

Section ApplyOnEmpty.
Context {RT : Runtime}.
Import Apply Coder Insertions Lines LinesFacts EmptyOldFacts.

(** X2. A diff that applies to the empty text passes the empty-OLD validator,
    and the text it gives is made of its insertion lines, in order. *)
Theorem apply_on_empty_old : forall diff new,
  apply_unified_diff [] diff = Ok new ->
  _validate_diff_for_empty_old diff = (true, [])
  /\ new = concat (inserted diff).
Proof.
  intros diff new H. unfold apply_unified_diff in H. unfold inserted.
  change (_split_lines_keepends []) with (@nil pystr) in H.
  destruct (skip_to_first_hunk (splitlines_keepends diff)) as [|h after] eqn:E;
    [discriminate|].
  destruct (validate_preamble (lines_rel diff) E) as [L' [Hrel Hv]].
  destruct (loops_on_empty (List.length (h :: after))) as [Hh _].
  destruct (Hh (h :: after) L' [] false new (le_n _) Hrel) as [Hval Hnew];
    [discriminate|exact H|].
  split; [|exact Hnew].
  unfold _validate_diff_for_empty_old. rewrite Hv.
  assert (Hstart : validate_loop L' false false = validate_loop L' true false).
  { inversion Hrel as [|? h' ? after' Hr Hrest]; subst. cbn [validate_loop].
    assert (Eh : startswith h (lit "@@") = true).
    { destruct (splitlines_keepends diff) as [|k K]; [discriminate|].
      clear -E. revert E. generalize (k :: K). induction l as [|x l IH]; [discriminate|].
      cbn [skip_to_first_hunk]. destruct (startswith x (lit "@@")) eqn:Ex.
      - intros E. inversion E; subst. exact Ex.
      - exact IH. }
    rewrite <- (startswith_rel (lit "@@") Hr eq_refl), Eh. reflexivity. }
  rewrite Hstart, Hval. reflexivity.
Qed.

End ApplyOnEmpty.

Lemma apply_on_empty_old_witness :
  @Apply.apply_unified_diff ascii_runtime [] Examples.hello_diff = Apply.Ok Examples.hello
  /\ Coder._validate_diff_for_empty_old Examples.hello_diff = (true, [])
  /\ Examples.hello = concat (Insertions.inserted Examples.hello_diff).
Proof.
  assert (H : @Apply.apply_unified_diff ascii_runtime [] Examples.hello_diff
              = Apply.Ok Examples.hello) by (vm_compute; reflexivity).
  exact (conj H (@apply_on_empty_old ascii_runtime Examples.hello_diff Examples.hello H)).
Defined.

Module TwoGuardsFacts.
Import Py PyFacts Coder PlainLines.

Lemma strip_bom_plain : forall l, plain_head l = true -> _strip_bom_zw l = l.
Proof.
  intros l H. unfold _strip_bom_zw. apply lstrip_chars_keeps.
  destruct l as [|c t]; [exact I|]. cbn in H. apply negb_true_iff in H. exact H.
Qed.

Lemma future_line_plain : forall l, plain_head l = true ->
  is_future_line_bom l = Guards.is_future_line l.
Proof. intros l H. unfold is_future_line_bom. rewrite strip_bom_plain by exact H. reflexivity. Qed.

Lemma blank_plain : forall l, plain_head l = true ->
  _is_effectively_blank l = Guards.is_blank l.
Proof. intros l H. unfold _is_effectively_blank. rewrite strip_bom_plain by exact H. reflexivity. Qed.

Lemma forallb_skipn : forall (A : Type) (P : A -> bool) n l,
  forallb P l = true -> forallb P (skipn n l) = true.
Proof.
  induction n as [|n IH]; intros l H; [exact H|].
  destruct l as [|x l]; [reflexivity|].
  cbn in *. apply andb_true_iff in H. apply IH. tauto.
Qed.

Lemma exists_future_plain : forall L, forallb plain_head L = true ->
  existsb is_future_line_bom L = existsb Guards.is_future_line L.
Proof.
  induction L as [|l L IH]; intros H; [reflexivity|].
  cbn in *. apply andb_true_iff in H. destruct H as [Hl HL].
  rewrite (future_line_plain _ Hl), (IH HL). reflexivity.
Qed.

Lemma blank_comments_plain : forall L, forallb plain_head L = true ->
  skipn (prelude_blank_comments L) L = Guards.skip_blank_and_comments L.
Proof.
  induction L as [|l L IH]; intros H; [reflexivity|].
  cbn [forallb] in H. apply andb_true_iff in H. destruct H as [Hl HL].
  cbn [prelude_blank_comments Guards.skip_blank_and_comments].
  rewrite (blank_plain _ Hl), (strip_bom_plain _ Hl).
  destruct (Guards.is_blank l); [apply IH; exact HL|].
  destruct (startswith (lstrip l) (lit "#")); [apply IH; exact HL|reflexivity].
Qed.

Lemma closing_skip : forall q L,
  skipn (docstring_closing q L) L = Guards.skip_to_closing q L.
Proof.
  induction L as [|l L IH]; [reflexivity|].
  cbn [docstring_closing Guards.skip_to_closing].
  destruct (contains l q); [reflexivity|exact IH].
Qed.

Lemma docstring_plain : forall L, forallb plain_head L = true ->
  skipn (prelude_docstring L) L = Guards.skip_docstring L.
Proof.
  intros [|l L] H; [reflexivity|].
  cbn [forallb] in H. apply andb_true_iff in H. destruct H as [Hl HL].
  unfold prelude_docstring, Guards.skip_docstring.
  rewrite (strip_bom_plain _ Hl).
  change Guards._TRIPLE_DQ with _TRIPLE_DQ. change Guards._TRIPLE_SQ with _TRIPLE_SQ.
  destruct (startswith (lstrip l) _TRIPLE_DQ || startswith (lstrip l) _TRIPLE_SQ);
    [|reflexivity].
  destruct (2 <=? count (lstrip l) _); [reflexivity|].
  cbn [Nat.add skipn]. apply closing_skip.
Qed.

Lemma blank_skip_plain : forall L, forallb plain_head L = true ->
  skip_effectively_blank L = Guards.skip_blank L.
Proof.
  induction L as [|l L IH]; intros H; [reflexivity|].
  cbn [forallb] in H. apply andb_true_iff in H. destruct H as [Hl HL].
  cbn [skip_effectively_blank Guards.skip_blank]. rewrite (blank_plain _ Hl).
  destruct (Guards.is_blank l); [apply IH; exact HL|reflexivity].
Qed.

Lemma region_plain : forall L, forallb plain_head L = true ->
  skip_effectively_blank (skipn (prelude_end L) L)
  = Guards.skip_blank (Guards.skip_docstring (Guards.skip_blank_and_comments L))
  /\ forallb plain_head (skip_effectively_blank (skipn (prelude_end L) L)) = true.
Proof.
  intros L H. unfold prelude_end.
  rewrite Nat.add_comm, <- skipn_skipn.
  assert (H1 : forallb plain_head (skipn (prelude_blank_comments L) L) = true)
    by (apply forallb_skipn; exact H).
  assert (H2 : forallb plain_head
                 (skipn (prelude_docstring (skipn (prelude_blank_comments L) L))
                        (skipn (prelude_blank_comments L) L)) = true)
    by (apply forallb_skipn; exact H1).
  rewrite (blank_skip_plain _ H2).
  rewrite (docstring_plain _ H1) in *. rewrite (blank_comments_plain _ H) in *.
  split; [reflexivity|].
  clear -H2. revert H2.
  generalize (Guards.skip_docstring (Guards.skip_blank_and_comments L)).
  induction l as [|x l IH]; intros H; [reflexivity|].
  cbn [Guards.skip_blank]. destruct (Guards.is_blank x); [|exact H].
  apply IH. cbn in H. apply andb_true_iff in H. tauto.
Qed.

End TwoGuardsFacts.

Section TwoGuards.
Import PyFacts Coder PlainLines TwoGuardsFacts.

(** X7. The two future-import guards, the one of guards.py and the one of
    coder.py, give the same verdict and the same reason on every new text
    none of whose lines begins with a byte-order mark or a zero-width
    space. *)
Theorem future_guards_agree : forall old new,
  no_bom_lines new = true ->
  Guards._guard_future_import old new = _future_import_guard old new.
Proof.
  intros old new H. unfold no_bom_lines in H.
  unfold Guards._guard_future_import, _future_import_guard,
    Guards._has_future_import, Guards._future_import_is_in_allowed_region.
  change (existsb Guards.is_future_line (splitlines old))
    with (existsb (fun l => startswith (lstrip l) FUTURE) (splitlines old)).
  destruct (existsb (fun l => startswith (lstrip l) FUTURE) (splitlines old));
    cbn [negb]; [|reflexivity].
  rewrite (exists_future_plain _ H).
  destruct (existsb Guards.is_future_line (splitlines new)); cbn [negb]; [|reflexivity].
  destruct (region_plain _ H) as [Hr Hp]. rewrite <- Hr.
  destruct (skip_effectively_blank _) as [|s rest]; [reflexivity|].
  cbn [forallb] in Hp. apply andb_true_iff in Hp. destruct Hp as [Hs _].
  rewrite (future_line_plain _ Hs).
  destruct (Guards.is_future_line s); reflexivity.
Qed.

End TwoGuards.

(** A module whose future import is pushed below an ordinary import. *)
Lemma future_guards_agree_witness :
  PlainLines.no_bom_lines (lit "import os\nfrom __future__ import annotations\n") = true
  /\ Guards._guard_future_import Examples.tool_old
       (lit "import os\nfrom __future__ import annotations\n")
     = Coder._future_import_guard Examples.tool_old
         (lit "import os\nfrom __future__ import annotations\n").
Proof.
  assert (H : PlainLines.no_bom_lines (lit "import os\nfrom __future__ import annotations\n")
              = true) by (vm_compute; reflexivity).
  exact (conj H (future_guards_agree Examples.tool_old _ H)).
Defined.

Module AutofixFacts.
Import Py PyFacts StrFacts Lines LinesFacts Coder.

Lemma drop_while_app : forall p l t,
  drop_while p (l ++ t)
  = match drop_while p l with
    | [] => drop_while p t
    | r => r ++ t
    end.
Proof.
  induction l as [|c l IH]; intros t; [reflexivity|].
  cbn [app drop_while]. destruct (p c); [apply IH|reflexivity].
Qed.

Lemma drop_while_all : forall p t, forallb p t = true -> drop_while p t = [].
Proof.
  induction t as [|c t IH]; intros H; [reflexivity|].
  cbn in *. apply andb_true_iff in H. destruct H as [Hc Ht]. rewrite Hc. apply IH. exact Ht.
Qed.

Lemma linebreak_is_space : forall c, is_linebreak c = true -> is_space c = true.
Proof.
  intros c H. unfold is_linebreak in H. unfold is_space.
  repeat (apply orb_true_iff in H; destruct H as [H|H]);
    try (apply andb_true_iff in H; destruct H as [H1 H2];
         apply N.leb_le in H1; apply N.leb_le in H2);
    try (apply N.eqb_eq in H; subst c; reflexivity).
  - assert (E : ((9 <=? c) && (c <=? 13) = true)%N)
      by (apply andb_true_iff; split; apply N.leb_le; lia).
    rewrite E. reflexivity.
  - assert (E : ((28 <=? c) && (c <=? 32) = true)%N)
      by (apply andb_true_iff; split; apply N.leb_le; lia).
    rewrite E. rewrite orb_true_r. reflexivity.
Qed.

Lemma linebreak_not_bom : forall c, is_linebreak c = true -> mem_char c _BOM_ZW = false.
Proof.
  intros c H. unfold mem_char, _BOM_ZW. cbn [existsb]. rewrite orb_false_r.
  apply orb_false_iff. split; apply N.eqb_neq; intros ->; discriminate.
Qed.

Lemma linebreaks_spaces : forall t, forallb is_linebreak t = true -> forallb is_space t = true.
Proof.
  induction t as [|c t IH]; intros H; [reflexivity|].
  cbn in *. apply andb_true_iff in H. destruct H as [Hc Ht].
  rewrite (linebreak_is_space _ Hc). apply IH. exact Ht.
Qed.

(** Whether a line holds a future import does not depend on its
    terminator. *)
Lemma future_line_rel : forall k l, line_rel k l ->
  is_future_line_bom k = is_future_line_bom l.
Proof.
  intros k l [t [-> Ht]]. unfold is_future_line_bom, _strip_bom_zw, lstrip_chars, lstrip.
  rewrite drop_while_app.
  destruct (drop_while (fun c => mem_char c _BOM_ZW) l) as [|c r] eqn:El.
  - assert (Hd : drop_while (fun c => mem_char c _BOM_ZW) t = t).
    { destruct t as [|y t']; [reflexivity|]. cbn [forallb] in Ht. cbn [drop_while].
      apply andb_true_iff in Ht. destruct Ht as [Hy _].
      rewrite (linebreak_not_bom _ Hy). reflexivity. }
    rewrite Hd, (drop_while_all _ _ (linebreaks_spaces _ Ht)). reflexivity.
  - rewrite drop_while_app.
    destruct (drop_while is_space (c :: r)) as [|d r'] eqn:Er.
    + rewrite (drop_while_all _ _ (linebreaks_spaces _ Ht)). reflexivity.
    + apply startswith_rel; [|reflexivity]. exists t. auto.
Qed.

Lemma exists_future_rel : forall K L, Forall2 line_rel K L ->
  existsb is_future_line_bom K = existsb is_future_line_bom L.
Proof.
  intros K L H. induction H as [|k l K L Hr _ IH]; [reflexivity|].
  cbn [existsb]. rewrite (future_line_rel Hr), IH. reflexivity.
Qed.

Lemma filter_nil_exists : forall (A : Type) (P : A -> bool) l,
  filter P l = [] -> existsb P l = false.
Proof.
  induction l as [|x l IH]; intros H; [reflexivity|].
  cbn in *. destruct (P x); [discriminate|]. apply IH. exact H.
Qed.

End AutofixFacts.

Section Autofix.
Import PyFacts Coder Lines LinesFacts AutofixFacts.

(** X8. The autofix leaves alone a new text that holds a future import and
    that the future-import guard accepts. *)
Theorem autofix_keeps_accepted : forall old new,
  fst (_future_import_guard old new) = true ->
  existsb is_future_line_bom (splitlines new) = true ->
  _autofix_future_import old new = new.
Proof.
  intros old new Hok Hfut. unfold _autofix_future_import.
  destruct (map _ (filter is_future_line_bom (splitlines_keepends old))); [reflexivity|].
  destruct (splitlines_keepends new) as [|k K] eqn:EK; [reflexivity|].
  destruct (filter is_future_line_bom (k :: K)) eqn:Ef.
  - apply filter_nil_exists in Ef.
    rewrite <- EK, (exists_future_rel (lines_rel new)) in Ef. congruence.
  - destruct (_future_import_guard old new) as [ok why]. cbn [fst] in Hok. subst ok.
    reflexivity.
Qed.

End Autofix.

(** A module whose future import stays first. *)
Lemma autofix_keeps_accepted_witness :
  fst (Coder._future_import_guard Examples.tool_old
         (lit "from __future__ import annotations\nx = 2\n")) = true
  /\ existsb Coder.is_future_line_bom
       (splitlines (lit "from __future__ import annotations\nx = 2\n")) = true
  /\ Coder._autofix_future_import Examples.tool_old
       (lit "from __future__ import annotations\nx = 2\n")
     = lit "from __future__ import annotations\nx = 2\n".
Proof.
  assert (H1 : fst (Coder._future_import_guard Examples.tool_old
                      (lit "from __future__ import annotations\nx = 2\n")) = true)
    by (vm_compute; reflexivity).
  assert (H2 : existsb Coder.is_future_line_bom
                 (splitlines (lit "from __future__ import annotations\nx = 2\n")) = true)
    by (vm_compute; reflexivity).
  exact (conj H1 (conj H2 (autofix_keeps_accepted _ _ H1 H2))).
Defined.

Module DriverFacts.
Import Py PyFacts Coder.

Section WithRuntime.
Context {RT : Runtime}.

Lemma call_model_consumes : forall system user m raw m',
  _call_model system user m = Return (raw, m') -> exists a, m = a :: m'.
Proof.
  intros system user [|a rest] raw m' H; cbn in H; [discriminate|].
  destruct (a system user); cbn in H; [|discriminate].
  inversion H; subst. exists a. reflexivity.
Qed.

Lemma fulltext_fallback_consumes : forall path instruction old reason m r m',
  _fulltext_fallback path instruction old reason m = Return (r, m') ->
  exists a, m = a :: m'.
Proof.
  intros path instruction old reason m r m' H. unfold _fulltext_fallback in H.
  destruct (_build_fulltext_prompts _ _ _ _) as [system user].
  destruct (_call_model system user m) as [[raw m2]|e] eqn:Ec; [|discriminate].
  apply call_model_consumes in Ec. destruct Ec as [a ->]. exists a.
  cbn [bind] in H.
  repeat match type of H with
         | bind ?x _ = _ => destruct x; cbn [bind] in H; [|discriminate]
         | (if ?x then _ else _) = _ => destruct x
         | (let '(_, _) := ?x in _) = _ => destruct x
         end; inversion H; reflexivity.
Qed.

Lemma finalize_with_repair_consumes : forall path instruction old new1 diff1 m r m',
  finalize_with_repair path instruction old new1 diff1 m = Return (r, m') ->
  m = m' \/ exists a, m = a :: m'.
Proof.
  intros path instruction old new1 diff1 m r m' H. unfold finalize_with_repair in H.
  destruct (_finalize_ok path instruction old new1 diff1) as [out1|e]; [|discriminate].
  cbn [bind] in H. destruct (ok out1).
  - inversion H; subst. left. reflexivity.
  - destruct (_build_prompts _ _ _ _) as [systemg userg].
    destruct (_call_model systemg userg m) as [[rawg m2]|e] eqn:Ec; [|discriminate].
    apply call_model_consumes in Ec. destruct Ec as [a ->]. right. exists a.
    cbn [bind] in H.
    repeat match type of H with
           | bind ?x _ = _ => destruct x; cbn [bind] in H; [|discriminate]
           | (if ?x then _ else _) = _ => destruct x
           | (match ?x with _ => _ end) = _ => destruct x
           end; inversion H; reflexivity.
Qed.

End WithRuntime.
End DriverFacts.

Section DriverCalls.
Context {RT : Runtime}.
Import PyFacts Coder DriverFacts.

(** X9. edit_plan asks the model at most three times, and takes its answers in
    order: what it leaves is the list of answers without its first one, two
    or three.  When the file is missing it asks nothing. *)
Theorem edit_plan_calls : forall w path instruction root m r m',
  edit_plan w path instruction root m = Return (r, m') ->
  exists used, m = used ++ m' /\ List.length used <= 3
               /\ (used = [] -> error r = Some (lit "file_not_found")).
Proof.
  intros w path instruction root m r m' H. unfold edit_plan in H.
  destruct (_resolve_repo_path w root path) as [fp|e]; [|discriminate].
  cbn [bind] in H. destruct (exists_ w fp); cbn [negb] in H.
  2:{ inversion H; subst. exists []. repeat split. cbn. lia. }
  destruct (read_text w fp) as [old|e]; [|discriminate]. cbn [bind] in H.
  unfold edit_plan_from in H.
  destruct (_build_prompts path instruction old None) as [system1 user1].
  destruct (_call_model system1 user1 m) as [[raw1 m1]|e] eqn:Ec1; [|discriminate].
  apply call_model_consumes in Ec1. destruct Ec1 as [a1 ->]. cbn [bind] in H.
  assert (Hfb : forall reason m0, _fulltext_fallback path instruction old reason m0 = Return (r, m') ->
                   exists a, m0 = a :: m')
    by (intros; eapply fulltext_fallback_consumes; eassumption).
  assert (Hfr : forall new1 diff1 m0,
                   finalize_with_repair path instruction old new1 diff1 m0 = Return (r, m') ->
                   m0 = m' \/ exists a, m0 = a :: m')
    by (intros; eapply finalize_with_repair_consumes; eassumption).
  assert (One : forall m0, (exists a, m0 = a :: m') ->
                  exists used, a1 :: m0 = used ++ m' /\ List.length used <= 3
                               /\ (used = [] -> error r = Some (lit "file_not_found"))).
  { intros m0 [a ->]. exists [a1; a]. repeat split; [cbn; lia|discriminate]. }
  assert (Opt : forall m0, (m0 = m' \/ exists a, m0 = a :: m') ->
                  exists used, a1 :: m0 = used ++ m' /\ List.length used <= 3
                               /\ (used = [] -> error r = Some (lit "file_not_found"))).
  { intros m0 [->|[a ->]].
    - exists [a1]. repeat split; [cbn; lia|discriminate].
    - exists [a1; a]. repeat split; [cbn; lia|discriminate]. }
  destruct (contains (round_diff raw1) (lit "@@")); cbn [negb] in H;
    [|apply One; eapply Hfb; exact H].
  destruct (match old with [] => _ | _ => _ end) as [ok_empty why_empty].
  destruct ok_empty; cbn [negb] in H; [|apply One; eapply Hfb; exact H].
  destruct (Apply.apply_unified_diff old (round_diff raw1)) as [new1|e1].
  { apply Opt. eapply Hfr. exact H. }
  destruct (_build_prompts _ _ _ _) as [system2 user2].
  destruct (_call_model system2 user2 m1) as [[raw2 m2]|e2] eqn:Ec2; [|discriminate].
  apply call_model_consumes in Ec2. destruct Ec2 as [a2 ->]. cbn [bind] in H.
  assert (One2 : forall m0, (exists a, m0 = a :: m') ->
                  exists used, a1 :: a2 :: m0 = used ++ m' /\ List.length used <= 3
                               /\ (used = [] -> error r = Some (lit "file_not_found"))).
  { intros m0 [a ->]. exists [a1; a2; a]. repeat split; [cbn; lia|discriminate]. }
  assert (Opt2 : forall m0, (m0 = m' \/ exists a, m0 = a :: m') ->
                  exists used, a1 :: a2 :: m0 = used ++ m' /\ List.length used <= 3
                               /\ (used = [] -> error r = Some (lit "file_not_found"))).
  { intros m0 [->|[a ->]].
    - exists [a1; a2]. repeat split; [cbn; lia|discriminate].
    - exists [a1; a2; a]. repeat split; [cbn; lia|discriminate]. }
  destruct (contains (round_diff raw2) (lit "@@")); [|apply One2; eapply Hfb; exact H].
  destruct (match old with [] => _ | _ => _ end) as [ok_empty2 why_empty2].
  destruct ok_empty2; cbn [negb] in H; [|apply One2; eapply Hfb; exact H].
  destruct (Apply.apply_unified_diff old (round_diff raw2)) as [new2|e2].
  - apply Opt2. eapply Hfr. exact H.
  - apply One2. eapply Hfb. exact H.
Qed.

End DriverCalls.

(** The run of the driver in which the model's diff deletes the future
    import: one answer is used. *)
Lemma edit_plan_calls_witness :
  @Coder.edit_plan ascii_runtime (Examples.one_file_world (lit "bin/tool") Examples.tool_old)
     (lit "bin/tool") (lit "drop the import") Examples.repo
     [Examples.drop_import_answer; Examples.no_diff_answer]
  = Coder.Return (Coder.success (lit "bin/tool") [], [Examples.no_diff_answer])
  /\ exists used,
       [Examples.drop_import_answer; Examples.no_diff_answer]
       = used ++ [Examples.no_diff_answer]
       /\ List.length used <= 3
       /\ (used = [] -> Coder.error (Coder.success (lit "bin/tool") [])
                        = Some (lit "file_not_found")).
Proof.
  assert (H : @Coder.edit_plan ascii_runtime
                (Examples.one_file_world (lit "bin/tool") Examples.tool_old)
                (lit "bin/tool") (lit "drop the import") Examples.repo
                [Examples.drop_import_answer; Examples.no_diff_answer]
              = Coder.Return (Coder.success (lit "bin/tool") [], [Examples.no_diff_answer]))
    by (vm_compute; reflexivity).
  exact (conj H (@edit_plan_calls ascii_runtime _ _ _ _ _ _ _ H)).
Defined.

Module EffectFacts.
Import Py PyFacts Coder Effects.



Lemma str_eqb_longer : forall a b, b <> [] -> str_eqb (a ++ b) a = false.
Proof.
  induction a as [|x a IH]; intros b Hb.
  - destruct b; [congruence|reflexivity].
  - cbn. rewrite (IH b Hb). apply andb_false_r.
Qed.

Lemma is_prefix_last_longer : forall pre n extra, extra <> [] ->
  Pathlib.is_prefix (pre ++ [n ++ extra]) (pre ++ [n]) = false.
Proof.
  induction pre as [|x pre IH]; intros n extra He.
  - cbn. rewrite (str_eqb_longer n He). reflexivity.
  - cbn. rewrite (IH n extra He). apply andb_false_r.
Qed.

Lemma str_eqb_shorter : forall a b, b <> [] -> str_eqb a (a ++ b) = false.
Proof.
  induction a as [|x a IH]; intros b Hb.
  - destruct b; [congruence|reflexivity].
  - cbn. rewrite (IH b Hb). apply andb_false_r.
Qed.

Lemma is_prefix_last_shorter : forall pre n extra, extra <> [] ->
  Pathlib.is_prefix (pre ++ [n]) (pre ++ [n ++ extra]) = false.
Proof.
  induction pre as [|x pre IH]; intros n extra He.
  - cbn. rewrite (str_eqb_shorter n He). reflexivity.
  - cbn. rewrite (IH n extra He). apply andb_false_r.
Qed.

(** The backup of a file is never the file itself. *)
Lemma backup_path_differs : forall p,
  Pathlib.path_eqb (backup_path p) p = false
  /\ Pathlib.path_eqb p (backup_path p) = false.
Proof.
  intros [r ps]. unfold backup_path, Pathlib.append_to_name, Pathlib.path_eqb, Pathlib.name.
  cbn [Pathlib.root Pathlib.parts].
  destruct ps as [|x ps] using rev_ind.
  - cbn. rewrite !andb_false_r. split; reflexivity.
  - rewrite removelast_last, last_last. split.
    + rewrite is_prefix_last_longer by discriminate. apply andb_false_r.
    + rewrite is_prefix_last_shorter by discriminate. apply andb_false_r.
Qed.


Lemma set_file_other : forall w p q text, Pathlib.path_eqb q p = false ->
  fs (set_file w p text) q = fs w q.
Proof. intros w p q text H. unfold set_file. cbn [fs]. rewrite H. reflexivity. Qed.

Lemma set_file_can_write : forall w p text q,
  can_write (set_file w p text) q = can_write w q.
Proof. reflexivity. Qed.

(** The backup leaves the file it copies as it is. *)
Lemma backup_keeps_file : forall w p, fs (_backup_file w p) p = fs w p.
Proof.
  intros w p. unfold _backup_file.
  destruct (fs w p) as [[t|]|] eqn:E; try exact E.
  destruct (can_write w _); [|exact E].
  rewrite set_file_other; [exact E|]. apply (backup_path_differs p).
Qed.


Lemma atomic_write_result : forall w p text w',
  _atomic_write_text w p text = Return w' -> w' = set_file w p text.
Proof.
  intros w p text w' H. unfold _atomic_write_text in H.
  destruct (negb (can_write w p)); [discriminate|].
  destruct (existsb is_surrogate text); [discriminate|]. inversion H. reflexivity.
Qed.


End EffectFacts.

Section EntryPoints.
Context {RT : Runtime}.
Import PyFacts Coder Effects EffectFacts.

Ltac split_run H :=
  repeat match type of H with
         | (match ?x with _ => _ end) = _ => destruct x eqn:?
         | (if ?x then _ else _) = _ => destruct x eqn:?
         | (let '(_, _) := ?x in _) = _ => destruct x eqn:?
         end.

(** X10. Whatever apply_edit returns or raises, it leaves the world as it found
    it unless the patch applied to the file's text and the result, after
    the autofix, went through the syntax check and both guards; the world is
    then the one after the optional backup, with the new text written to
    the file unless the write failed. *)
Theorem apply_edit_effect :
  forall w path patch root instruction stage backup out w',
    apply_edit w path patch root instruction stage backup = (out, w') ->
    w' = w \/ guarded_edit w path patch root instruction backup w'.
Proof.
  intros w path patch root instruction stage backup out w' H.
  unfold guarded_edit, edit_source. unfold apply_edit in H.
  destruct (_resolve_repo_path w root path) as [fp|e] eqn:Er;
    [|inversion H; left; reflexivity].
  destruct (negb (exists_ w fp)); [inversion H; left; reflexivity|].
  destruct (negb (contains patch (lit "@@"))); [inversion H; left; reflexivity|].
  destruct (read_text w fp) as [old|e] eqn:Eo; [|inversion H; left; reflexivity].
  destruct (match old with [] => _ | _ => _ end) as [ok_empty why].
  destruct (negb ok_empty); [inversion H; left; reflexivity|].
  destruct (Apply.apply_unified_diff old _) as [applied|e] eqn:Ea;
    [|inversion H; left; reflexivity].
  set (new := _autofix_future_import old applied) in *.
  destruct (_py_syntax_ok path new) as [[|]|e] eqn:Es.
  2:{ destruct (_future_import_guard old new) as [okf whyf].
      destruct (negb okf); inversion H; left; reflexivity. }
  2:{ inversion H; left; reflexivity. }
  fold (guard_instruction instruction) in H.
  destruct (Guards.enforce_guards path (guard_instruction instruction) old new)
    as [okg whyg] eqn:Eg.
  destruct okg; cbn [negb] in H; [|inversion H; left; reflexivity].
  destruct (_future_import_guard old new) as [okf whyf] eqn:Ef.
  destruct okf; cbn [negb] in H; [|inversion H; left; reflexivity].
  fold (backed_up w fp backup) in H.
  right. exists fp, old, applied. cbv zeta. fold new.
  split; [repeat split; first [exact Er|exact Eo|exact Ea|reflexivity]|].
  split; [unfold accepted; rewrite Eg, Ef; auto|].
  destruct (_atomic_write_text (backed_up w fp backup) fp new) as [w2|e] eqn:Ew.
  - apply atomic_write_result in Ew. subst w2. right.
    split_run H; inversion H; reflexivity.
  - left. inversion H. reflexivity.
Qed.


(** X12. Whatever apply_full_replace returns or raises, it leaves the world as
    it found it unless the new text, unescaped, went through the
    future-import guard, the syntax check and the guards of guards.py; the
    world is then the one after the optional backup, with the new text
    written to the file unless the write failed. *)
Theorem apply_full_replace_effect :
  forall w path text root instruction stage backup out w',
    apply_full_replace w path text root instruction stage backup = (out, w') ->
    w' = w \/ guarded_replace w path text root instruction backup w'.
Proof.
  intros w path text root instruction stage backup out w' H.
  unfold guarded_replace. unfold apply_full_replace in H.
  destruct (_resolve_repo_path w root path) as [fp|e] eqn:Er;
    [|inversion H; left; reflexivity].
  destruct (negb (exists_ w fp)); [inversion H; left; reflexivity|].
  destruct (read_text w fp) as [old|e] eqn:Eo; [|inversion H; left; reflexivity].
  set (new := _maybe_unescape_llm_string text) in *.
  destruct (_future_import_guard old new) as [okf whyf] eqn:Ef.
  destruct okf; cbn [negb] in H; [|inversion H; left; reflexivity].
  destruct (_py_syntax_ok path new) as [[|]|e] eqn:Es;
    [|inversion H; left; reflexivity|inversion H; left; reflexivity].
  destruct (Guards.enforce_guards path instruction old new) as [okg whyg] eqn:Eg.
  destruct okg; cbn [negb] in H; [|inversion H; left; reflexivity].
  fold (backed_up w fp backup) in H.
  right. exists fp, old. cbv zeta. fold new.
  split; [first [exact Er|reflexivity]|]. split; [first [exact Eo|reflexivity]|].
  split; [unfold accepted; rewrite Eg, Ef; auto|].
  destruct (_atomic_write_text (backed_up w fp backup) fp new) as [w2|e] eqn:Ew.
  - apply atomic_write_result in Ew. subst w2. right.
    split_run H; inversion H; reflexivity.
  - left. inversion H. reflexivity.
Qed.


End EntryPoints.

Lemma apply_edit_effect_witness :
  @Coder.apply_edit ascii_runtime WriteExamples.notes_world (lit "notes.txt")
     WriteExamples.good_patch Examples.repo (lit "apply") false true
  = (Coder.Return WriteExamples.edit_done, WriteExamples.notes_written)
  /\ (WriteExamples.notes_written = WriteExamples.notes_world
      \/ @Effects.guarded_edit ascii_runtime WriteExamples.notes_world (lit "notes.txt")
           WriteExamples.good_patch Examples.repo (lit "apply") true
           WriteExamples.notes_written).
Proof.
  assert (H : @Coder.apply_edit ascii_runtime WriteExamples.notes_world (lit "notes.txt")
                WriteExamples.good_patch Examples.repo (lit "apply") false true
              = (Coder.Return WriteExamples.edit_done, WriteExamples.notes_written))
    by (vm_compute; reflexivity).
  exact (conj H (@apply_edit_effect ascii_runtime _ _ _ _ _ _ _ _ _ H)).
Defined.


Lemma apply_full_replace_effect_witness :
  @Coder.apply_full_replace ascii_runtime WriteExamples.notes_world (lit "notes.txt")
     WriteExamples.good_text Examples.repo (lit "full_replace") false true
  = (Coder.Return WriteExamples.replace_done, WriteExamples.notes_written)
  /\ (WriteExamples.notes_written = WriteExamples.notes_world
      \/ @Effects.guarded_replace ascii_runtime WriteExamples.notes_world (lit "notes.txt")
           WriteExamples.good_text Examples.repo (lit "full_replace") true
           WriteExamples.notes_written).
Proof.
  assert (H : @Coder.apply_full_replace ascii_runtime WriteExamples.notes_world
                (lit "notes.txt") WriteExamples.good_text Examples.repo
                (lit "full_replace") false true
              = (Coder.Return WriteExamples.replace_done, WriteExamples.notes_written))
    by (vm_compute; reflexivity).
  exact (conj H (@apply_full_replace_effect ascii_runtime _ _ _ _ _ _ _ _ _ H)).
Defined.


Module SafetyFacts.
Import Py PyFacts StrFacts DisplayFacts Safety.

Lemma startswith_chars : forall s p c, startswith s p = true -> In c p -> In c s.
Proof.
  induction s as [|x s IH]; intros [|y p] c H Hin; cbn in *; try contradiction;
    try discriminate.
  apply andb_true_iff in H. destruct H as [Hxy Hr]. apply N.eqb_eq in Hxy. subst y.
  destruct Hin as [->|Hin]; [left; reflexivity|right; eapply IH; eassumption].
Qed.

(** Every character of a substring is a character of the string. *)
Lemma contains_chars : forall s p c, contains s p = true -> In c p -> In c s.
Proof.
  induction s as [|x s IH]; intros p c H Hin; cbn [contains] in H.
  - rewrite orb_false_r in H. eapply startswith_chars; eassumption.
  - apply orb_true_iff in H. destruct H as [H|H].
    + eapply startswith_chars; eassumption.
    + right. eapply IH; eassumption.
Qed.

(** Lowering a character never gives a capital letter of ASCII. *)
Lemma lower_char_not_capital : forall x c,
  (65 <= c <= 90)%N -> ascii_lower_char x <> c.
Proof.
  intros x c Hc. unfold ascii_lower_char.
  destruct ((65 <=? x) && (x <=? 90))%N eqn:E.
  - apply andb_true_iff in E. destruct E as [E1 E2].
    apply N.leb_le in E1. apply N.leb_le in E2. lia.
  - intros ->. apply andb_false_iff in E.
    destruct E as [E|E]; apply N.leb_gt in E; lia.
Qed.

Lemma lowered_has_no_capital : forall s p c,
  (65 <= c <= 90)%N -> In c p -> contains (map ascii_lower_char s) p = false.
Proof.
  intros s p c Hc Hin. destruct (contains _ p) eqn:E; [|reflexivity]. exfalso.
  pose proof (contains_chars _ _ c E Hin) as H. apply in_map_iff in H.
  destruct H as [x [Hx _]]. exact (lower_char_not_capital x Hc Hx).
Qed.

Section WithRuntime.
Context {RT : Runtime}.

Lemma lower_ascii : forall s, forallb is_ascii s = true -> lower s = map ascii_lower_char s.
Proof. intros s H. unfold lower. rewrite H. reflexivity. Qed.

End WithRuntime.
End SafetyFacts.

Section Blocked.
Context {RT : Runtime}.
Import PyFacts StrFacts DisplayFacts Safety SafetyFacts.

(** X14. The two patterns written with a capital R are compared with the
    lowered command, so they never match: on a command of ASCII characters
    is_blocked answers as the first ten patterns do. *)
Theorem capital_patterns_never_match : forall cmd,
  forallb is_ascii cmd = true ->
  contains (lower cmd) (lit "chown -R /") = false
  /\ contains (lower cmd) (lit "chmod -R 7") = false
  /\ is_blocked cmd
     = existsb (fun p => contains (lower cmd) p) (firstn 10 BLOCKED_PATTERNS).
Proof.
  intros cmd H. rewrite (lower_ascii _ H).
  assert (H1 : contains (map ascii_lower_char cmd) (lit "chown -R /") = false).
  { apply (@lowered_has_no_capital cmd _ (ch "R")); [cbn; lia|].
    cbn. tauto. }
  assert (H2 : contains (map ascii_lower_char cmd) (lit "chmod -R 7") = false).
  { apply (@lowered_has_no_capital cmd _ (ch "R")); [cbn; lia|].
    cbn. tauto. }
  split; [exact H1|]. split; [exact H2|].
  unfold is_blocked. rewrite (lower_ascii _ H).
  unfold BLOCKED_PATTERNS. cbn [existsb firstn]. rewrite H1, H2.
  rewrite !orb_false_r. reflexivity.
Qed.

(** X15. A blocked command of ASCII characters stays blocked with more ASCII
    text before and after it. *)
Theorem is_blocked_in_context : forall before cmd after,
  forallb is_ascii before = true ->
  forallb is_ascii cmd = true ->
  forallb is_ascii after = true ->
  is_blocked cmd = true ->
  is_blocked (before ++ cmd ++ after) = true.
Proof.
  intros before cmd after Hb Hc Ha H. unfold is_blocked in *.
  rewrite lower_ascii in H by exact Hc.
  rewrite lower_ascii by (rewrite !forallb_app, Hb, Hc, Ha; reflexivity).
  rewrite !map_app.
  apply existsb_exists in H. destruct H as [p [Hin Hp]].
  apply existsb_exists. exists p. split; [exact Hin|].
  apply contains_app_r, contains_app_l. exact Hp.
Qed.

End Blocked.

(** A recursive chmod goes through. *)
Lemma capital_patterns_never_match_witness :
  forallb is_ascii (lit "chmod -R 777 /") = true
  /\ contains (@lower ascii_runtime (lit "chmod -R 777 /")) (lit "chown -R /") = false
  /\ contains (@lower ascii_runtime (lit "chmod -R 777 /")) (lit "chmod -R 7") = false
  /\ @Safety.is_blocked ascii_runtime (lit "chmod -R 777 /")
     = existsb (fun p => contains (@lower ascii_runtime (lit "chmod -R 777 /")) p)
         (firstn 10 Safety.BLOCKED_PATTERNS).
Proof.
  assert (H : forallb is_ascii (lit "chmod -R 777 /") = true) by (vm_compute; reflexivity).
  exact (conj H (@capital_patterns_never_match ascii_runtime _ H)).
Defined.

Lemma recursive_chmod_not_blocked :
  forall RT : Runtime, Safety.is_blocked (lit "chmod -R 777 /") = false.
Proof. intros RT. vm_compute. reflexivity. Qed.

Lemma is_blocked_in_context_witness :
  forallb is_ascii (lit "sudo ") = true
  /\ forallb is_ascii (lit "rm -rf /") = true
  /\ forallb is_ascii (lit " --no-preserve-root") = true
  /\ @Safety.is_blocked ascii_runtime (lit "rm -rf /") = true
  /\ @Safety.is_blocked ascii_runtime
       (lit "sudo " ++ lit "rm -rf /" ++ lit " --no-preserve-root") = true.
Proof.
  assert (H1 : forallb is_ascii (lit "sudo ") = true) by (vm_compute; reflexivity).
  assert (H2 : forallb is_ascii (lit "rm -rf /") = true) by (vm_compute; reflexivity).
  assert (H3 : forallb is_ascii (lit " --no-preserve-root") = true)
    by (vm_compute; reflexivity).
  assert (H4 : @Safety.is_blocked ascii_runtime (lit "rm -rf /") = true)
    by (vm_compute; reflexivity).
  exact (conj H1 (conj H2 (conj H3 (conj H4
           (@is_blocked_in_context ascii_runtime _ _ _ H1 H2 H3 H4))))).
Defined.

Module DictFacts.
Import Py PyFacts Json.

Lemma str_eqb_sym : forall a b, str_eqb a b = str_eqb b a.
Proof.
  induction a as [|x a IH]; intros [|y b]; cbn; try reflexivity.
  unfold char_eqb. rewrite N.eqb_sym, IH. reflexivity.
Qed.

Lemma str_eqb_trans_false : forall a b c,
  str_eqb a b = true -> str_eqb a c = str_eqb b c.
Proof. intros a b c H. apply str_eqb_eq in H. subst. reflexivity. Qed.

(** Lookup after an assignment. *)
Lemma dict_get_set : forall d k v k',
  dict_get (dict_set d k v) k' = if str_eqb k k' then Some v else dict_get d k'.
Proof.
  induction d as [|[k0 w] d IH]; intros k v k'; cbn [dict_set dict_get].
  - reflexivity.
  - destruct (str_eqb k0 k) eqn:E.
    + cbn [dict_get]. apply str_eqb_eq in E. subst k0. destruct (str_eqb k k'); reflexivity.
    + cbn [dict_get]. rewrite IH.
      destruct (str_eqb k0 k') eqn:E2; [|reflexivity].
      apply str_eqb_eq in E2. subst k'. rewrite str_eqb_sym, E. reflexivity.
Qed.

(** An assignment to a key that is present keeps the keys and their order. *)
Lemma dict_set_keys : forall d k v, dict_get d k <> None ->
  map fst (dict_set d k v) = map fst d.
Proof.
  induction d as [|[k0 w] d IH]; intros k v H; cbn [dict_set dict_get] in *; [congruence|].
  destruct (str_eqb k0 k); [reflexivity|]. cbn [map fst]. rewrite IH by exact H. reflexivity.
Qed.

Section WithRuntime.
Context {RT : Runtime}.
Import UtilJson Payload.

Lemma unescape_key_keys : forall d k, map fst (unescape_key d k) = map fst d.
Proof.
  intros d k. unfold unescape_key.
  destruct (dict_get d k) as [[| | |v| |]|] eqn:E; try reflexivity.
  apply dict_set_keys. congruence.
Qed.

Lemma unescape_key_get : forall d k k',
  dict_get (unescape_key d k) k'
  = if str_eqb k k'
    then match dict_get d k' with
         | Some (JStr v) => Some (JStr (_unescape_if_looks_escaped v))
         | other => other
         end
    else dict_get d k'.
Proof.
  intros d k k'. unfold unescape_key.
  destruct (str_eqb k k') eqn:E.
  - apply str_eqb_eq in E. subst k'.
    destruct (dict_get d k) as [[| | |v| |]|] eqn:Eg; rewrite ?Eg; try reflexivity.
    rewrite dict_get_set, str_eqb_refl. reflexivity.
  - destruct (dict_get d k) as [[| | |v| |]|] eqn:Eg; try reflexivity.
    rewrite dict_get_set, E. reflexivity.
Qed.

End WithRuntime.

End DictFacts.

Section Postprocess.
Context {RT : Runtime}.
Import PyFacts Json UtilJson Payload DictFacts.

(** X16. _postprocess_obj keeps the keys of the object and their order, and
    changes no value but the string values under diff, text and content,
    which it replaces by their unescaped form. *)
Theorem postprocess_obj_spec : forall d,
  map fst (_postprocess_obj d) = map fst d
  /\ forall k,
       dict_get (_postprocess_obj d) k
       = match dict_get d k with
         | Some (JStr v) =>
             if is_payload_key k then Some (JStr (_unescape_if_looks_escaped v))
             else Some (JStr v)
         | other => other
         end.
Proof.
  intros d.
  change (_postprocess_obj d)
    with (unescape_key (unescape_key (unescape_key d (lit "diff")) (lit "text"))
            (lit "content")).
  split; [rewrite !unescape_key_keys; reflexivity|].
  intros k. rewrite !unescape_key_get. unfold is_payload_key, payload_keys. cbn [existsb].
  rewrite (str_eqb_sym k (lit "diff")), (str_eqb_sym k (lit "text")),
    (str_eqb_sym k (lit "content")).
  destruct (str_eqb (lit "content") k) eqn:Ec.
  - apply str_eqb_eq in Ec. subst k.
    change (str_eqb (lit "text") (lit "content")) with false.
    change (str_eqb (lit "diff") (lit "content")) with false.
    cbn [orb]. destruct (dict_get d (lit "content")) as [[| | |v| |]|]; reflexivity.
  - destruct (str_eqb (lit "text") k) eqn:Et.
    + apply str_eqb_eq in Et. subst k.
      change (str_eqb (lit "diff") (lit "text")) with false.
      cbn [orb]. destruct (dict_get d (lit "text")) as [[| | |v| |]|]; reflexivity.
    + destruct (str_eqb (lit "diff") k) eqn:Ed; cbn [orb];
        destruct (dict_get d k) as [[| | |v| |]|]; reflexivity.
Qed.

End Postprocess.

Section ControlChars.
Context {RT : Runtime}.
Import PyFacts Guards.

(** X17. enforce_guards answers with the control-character reason exactly when
    the new text holds a control character other than tab, line feed and
    carriage return: the check comes first, before the test for an edit
    that changes nothing, and no instruction lifts it. *)
Theorem control_chars_checked_first : forall relpath instruction old new,
  enforce_guards relpath instruction old new = (false, lit "guard: control_chars")
  <-> _has_control_chars new = true.
Proof.
  intros relpath instruction old new. unfold enforce_guards.
  destruct (_has_control_chars new); [split; reflexivity|].
  split; [|discriminate]. intros H. exfalso.
  destruct (str_eqb old new); [discriminate|].
  unfold _guard_future_import in H.
  destruct (negb (_has_future_import old)); cbn [negb] in H.
  2:{ destruct (negb (_has_future_import new)); cbn [negb] in H; [discriminate|].
      destruct (negb (_future_import_is_in_allowed_region new)); cbn [negb] in H;
        [discriminate|].
      destruct (if is_readme relpath && negb (_allow_big_rewrite instruction) then _ else _);
        [discriminate|].
      destruct (negb (_allow_big_rewrite instruction) && _); discriminate. }
  destruct (if is_readme relpath && negb (_allow_big_rewrite instruction) then _ else _);
    [discriminate|].
  destruct (negb (_allow_big_rewrite instruction) && _); discriminate.
Qed.

End ControlChars.

Module ReSuffixFacts.
Import Py Re ReSem ReFacts.

(** What is left to match is an end of what was there before. *)
Lemma reach_suffix : forall r st st',
  reach r st st' ->
  exists pre, rest st = pre ++ rest st' /\ pos st' = pos st + List.length pre.
Proof.
  induction r as [|p|a IHa b IHb|a IHa b IHb|a IHa|n a IHa| |]; intros st st' H;
    cbn [reach] in H.
  - subst. exists []. cbn. auto.
  - destruct H as [c [tl [Hr [_ ->]]]]. exists [c]. cbn. rewrite Hr. split; [reflexivity|lia].
  - destruct H as [mid [Ha Hb]]. apply IHa in Ha. apply IHb in Hb.
    destruct Ha as [p1 [R1 P1]]. destruct Hb as [p2 [R2 P2]].
    exists (p1 ++ p2). rewrite R1, R2, <- app_assoc, length_app. split; [reflexivity|lia].
  - destruct H as [H|H]; [apply IHa|apply IHb]; exact H.
  - induction H as [s|s mid s' Hstep _ IH].
    + exists []. cbn. auto.
    + apply IHa in Hstep. destruct Hstep as [p1 [R1 P1]]. destruct IH as [p2 [R2 P2]].
      exists (p1 ++ p2). rewrite R1, R2, <- app_assoc, length_app. split; [reflexivity|lia].
  - destruct H as [st1 [Ha ->]]. apply IHa in Ha. destruct Ha as [p1 [R1 P1]].
    exists p1. cbn. auto.
  - destruct H as [_ ->]. exists []. cbn. auto.
  - destruct H as [_ ->]. exists []. cbn. auto.
Qed.

End ReSuffixFacts.

Module HeaderFacts.
Import Py Re ReSem ReFacts ReFacts2 ReSuffixFacts PyFacts StrFacts DisplayFacts Apply.

Lemma drop_while_head : forall p s c r, drop_while p s = c :: r -> p c = false.
Proof.
  induction s as [|x s IH]; intros c r H; cbn in H; [discriminate|].
  destruct (p x) eqn:E; [eapply IH; exact H|]. inversion H; subst. exact E.
Qed.

(** A stripped text does not end with white space. *)
Lemma strip_last : forall s x c, strip s = x ++ [c] -> is_space c = false.
Proof.
  intros s x c H. unfold strip, rstrip in H.
  apply (f_equal (@rev char)) in H. rewrite rev_involutive, rev_app_distr in H.
  cbn in H. eapply drop_while_head. exact H.
Qed.

Section WithRuntime.
Context {RT : Runtime}.

(** A header that _HUNK_RE matches ends, once stripped, with the marker. *)
Lemma hunk_re_ends_with_marker : forall h m,
  rmatch _HUNK_RE (strip h) = Some m -> endswith (strip h) (lit "@@") = true.
Proof.
  intros h m H. unfold rmatch in H. apply run_sound in H.
  destruct H as [st' [H Hm]]. clear Hm.
  unfold _HUNK_RE in H.
  set (front := [ Bol; word (lit "@@"); plus ws; chr (ch "-"); Grp 1 (plus digit);
                  opt (Seq (chr (ch ",")) (Grp 2 (plus digit)));
                  plus ws; chr (ch "+"); Grp 3 (plus digit);
                  opt (Seq (chr (ch ",")) (Grp 4 (plus digit)));
                  plus ws ]) in *.
  assert (Hsplit : forall rs tl st st', reach (seq (rs ++ tl)) st st' -> tl <> [] ->
            exists mid, reach (seq rs) st mid /\ reach (seq tl) mid st').
  { clear. induction rs as [|r rs IH]; intros tl st st' H Htl.
    - exists st. split; [reflexivity|exact H].
    - destruct rs as [|r2 rs2].
      + destruct tl as [|t tl']; [congruence|].
        cbn [app seq reach] in H. destruct H as [mid [Hr Ht]]. exists mid. auto.
      + change (seq ((r :: r2 :: rs2) ++ tl)) with (Seq r (seq ((r2 :: rs2) ++ tl))) in H.
        cbn [reach] in H. destruct H as [m1 [Hr Hrest]].
        destruct (IH tl m1 st' Hrest Htl) as [mid [H1 H2]].
        exists mid. split; [|exact H2].
        change (seq (r :: r2 :: rs2)) with (Seq r (seq (r2 :: rs2))). cbn [reach].
        exists m1. auto. }
  apply (Hsplit front [word (lit "@@"); Eol]) in H; [|discriminate].
  destruct H as [mid [Hfront Htail]].
  apply reach_suffix in Hfront. destruct Hfront as [pre [Hpre _]].
  cbn [seq reach] in Htail. destruct Htail as [st1 [Hw [Heol ->]]].
  apply reach_word in Hw. destruct Hw as [Hr _].
  cbn [rest] in Hpre. rewrite Hr in Hpre.
  destruct Heol as [E|E]; rewrite E in Hpre.
  - rewrite Hpre, app_nil_r. apply endswith_app. reflexivity.
  - exfalso. rewrite app_assoc in Hpre.
    pose proof (strip_last _ _ _ Hpre) as Hs. discriminate.
Qed.

Lemma skip_head_is_header : forall L h rest,
  skip_to_first_hunk L = h :: rest -> startswith h (lit "@@") = true.
Proof.
  induction L as [|x L IH]; intros h rest H; [discriminate|].
  cbn [skip_to_first_hunk] in H. destruct (startswith x (lit "@@")) eqn:E.
  - inversion H; subst. exact E.
  - eapply IH. exact H.
Qed.

End WithRuntime.
End HeaderFacts.

Module IdentityFacts.
Import Py Re PyFacts StrFacts Apply ApplyLoops ApplyFacts ContextOnly.

(** The lines of a text, put together again, are the text. *)
Lemma concat_keepends_len : forall n s cur, List.length s <= n ->
  concat (splitlines_keep_acc s cur) = rev cur ++ s.
Proof.
  unfold concat.
  induction n as [|n IH]; intros s cur Hn.
  - destruct s; [|cbn in Hn; lia]. cbn.
    destruct cur; [reflexivity|]. cbn [List.concat]. rewrite !app_nil_r. reflexivity.
  - destruct s as [|c s]; cbn [splitlines_keep_acc].
    + destruct cur; [reflexivity|]. cbn [List.concat]. rewrite !app_nil_r. reflexivity.
    + cbn [List.length] in Hn.
      assert (Hone : List.concat (rev (c :: cur) :: splitlines_keep_acc s [])
                     = rev cur ++ c :: s).
      { cbn [List.concat rev]. rewrite IH by lia. cbn [rev app].
        rewrite <- app_assoc. reflexivity. }
      destruct (is_linebreak c); [|rewrite IH by lia; cbn [rev]; rewrite <- app_assoc; reflexivity].
      destruct (char_eqb c CR); [|exact Hone].
      destruct s as [|d s']; [cbn [List.concat rev]; rewrite app_nil_r; reflexivity|].
      destruct (char_eqb d LF); [|exact Hone].
      cbn [List.concat rev]. cbn [List.length] in Hn. rewrite IH by lia. cbn [rev app].
      rewrite <- !app_assoc. reflexivity.
Qed.

Lemma concat_keepends : forall s, concat (splitlines_keepends s) = s.
Proof. intros s. apply (@concat_keepends_len (List.length s)). lia. Qed.

Lemma skipn_nth : forall (l : list pystr) i, i < List.length l ->
  skipn i l = nth i l [] :: skipn (S i) l.
Proof.
  induction l as [|x l IH]; intros i H; [cbn in H; lia|].
  destruct i as [|i]; [reflexivity|]. cbn [List.length] in H.
  cbn [skipn nth]. apply IH. lia.
Qed.

Lemma slice_skipn : forall (l : list pystr) i j, i <= j ->
  slice l i j ++ skipn j l = skipn i l.
Proof.
  intros l i j H. unfold slice.
  replace (skipn j l) with (skipn (j - i) (skipn i l))
    by (rewrite skipn_skipn; f_equal; lia).
  apply firstn_skipn.
Qed.

Section WithRuntime.
Context {RT : Runtime}.

Lemma target_of_le : forall len m, target_of len m <= len.
Proof.
  intros len m. unfold target_of. cbv zeta.
  destruct (len <? Z.to_nat _) eqn:E; [lia|]. apply Nat.ltb_ge in E. exact E.
Qed.

(** Without insertion and deletion the two loops give the old lines back. *)
Lemma loops_keep : forall old_lines n,
  (forall ls old_idx out new, List.length ls <= n -> forallb keeps ls = true ->
     out ++ skipn old_idx old_lines = old_lines ->
     hunks old_lines ls old_idx out = Ok new -> new = concat old_lines)
  /\ (forall ls old_idx out hl new, List.length ls <= n -> forallb keeps ls = true ->
        out ++ skipn old_idx old_lines = old_lines ->
        body old_lines ls old_idx out hl = Ok new -> new = concat old_lines).
Proof.
  intros old_lines.
  assert (Hb0 : forall old_idx out hl new,
            out ++ skipn old_idx old_lines = old_lines ->
            body old_lines [] old_idx out hl = Ok new -> new = concat old_lines).
  { intros old_idx out hl new Hinv H. rewrite body_nil in H.
    destruct (Nat.eqb hl 0); [discriminate|]. inversion H. rewrite Hinv. reflexivity. }
  induction n as [|n [IHh IHb]].
  - split.
    + intros [|l ls] old_idx out new Hl _ Hinv H; [|cbn in Hl; lia].
      rewrite hunks_nil in H. inversion H. rewrite Hinv. reflexivity.
    + intros [|l ls] old_idx out hl new Hl _ Hinv H; [|cbn in Hl; lia].
      eapply Hb0; eassumption.
  - assert (Hh : forall ls old_idx out new, List.length ls <= S n ->
                 forallb keeps ls = true ->
                 out ++ skipn old_idx old_lines = old_lines ->
                 hunks old_lines ls old_idx out = Ok new -> new = concat old_lines).
    { intros [|h after] old_idx out new Hl Hk Hinv H.
      { rewrite hunks_nil in H. inversion H. rewrite Hinv. reflexivity. }
      cbn [List.length] in Hl. cbn [forallb] in Hk. apply andb_true_iff in Hk.
      rewrite hunks_cons in H.
      destruct (negb (startswith h (lit "@@"))); [discriminate|].
      destruct (rmatch _HUNK_RE (strip h)) as [m|]; [|discriminate].
      cbv zeta in H.
      destruct (target_of (List.length old_lines) m <? old_idx) eqn:Et; [discriminate|].
      apply Nat.ltb_ge in Et.
      apply (IHb after (target_of (List.length old_lines) m)
               (out ++ slice old_lines old_idx (target_of (List.length old_lines) m)) 0 new);
        [lia|tauto| |exact H].
      rewrite <- app_assoc, slice_skipn by exact Et. exact Hinv. }
    split; [exact Hh|].
    intros [|ln ls'] old_idx out hl new Hl Hk Hinv H; [eapply Hb0; eassumption|].
    cbn [List.length] in Hl. pose proof Hk as Hk0.
    cbn [forallb] in Hk. apply andb_true_iff in Hk. destruct Hk as [Hln Hk].
    unfold keeps in Hln. apply andb_true_iff in Hln. destruct Hln as [Hp Hm].
    apply negb_true_iff in Hp. apply negb_true_iff in Hm.
    rewrite body_cons in H.
    destruct (startswith ln (lit "@@")).
    { destruct (Nat.eqb hl 0); [discriminate|].
      apply (Hh (ln :: ls') old_idx out new); auto. }
    destruct (startswith ln [BSL]); [apply (IHb ls' old_idx out hl new); auto; lia|].
    destruct (startswith ln [SP]).
    { destruct (List.length old_lines <=? old_idx) eqn:El; [discriminate|].
      apply Nat.leb_gt in El.
      destruct (negb _); [discriminate|].
      apply (IHb ls' (S old_idx) (out ++ [nth old_idx old_lines []]) (S hl) new);
        [lia|exact Hk| |exact H].
      rewrite <- app_assoc. cbn [app]. rewrite <- skipn_nth by exact El. exact Hinv. }
    rewrite Hm, Hp in H. discriminate.
Qed.

End WithRuntime.
End IdentityFacts.

Section Headers.
Context {RT : Runtime}.
Import Re PyFacts StrFacts Apply ApplyFacts HeaderFacts IdentityFacts ContextOnly.

(** X18. A first hunk header that does not end with the marker once stripped,
    as the headers of git that carry a section heading, is refused:
    apply_unified_diff raises "Invalid hunk header". *)
Theorem header_must_end_with_marker : forall old diff h rest,
  skip_to_first_hunk (splitlines_keepends diff) = h :: rest ->
  endswith (strip h) (lit "@@") = false ->
  apply_unified_diff old diff = Raise (InvalidHunkHeader (strip h)).
Proof.
  intros old diff h rest Hs He. unfold apply_unified_diff. rewrite Hs.
  rewrite hunks_cons. rewrite (skip_head_is_header _ Hs). cbn [negb].
  destruct (rmatch _HUNK_RE (strip h)) as [m|] eqn:E; [|reflexivity].
  apply hunk_re_ends_with_marker in E. congruence.
Qed.

(** X19. A diff that applies and has neither insertion nor deletion line from
    its first hunk header on leaves the text as it was. *)
Theorem context_only_is_identity : forall old diff new,
  apply_unified_diff old diff = Ok new ->
  forallb keeps (skip_to_first_hunk (splitlines_keepends diff)) = true ->
  new = old.
Proof.
  intros old diff new H Hk. unfold apply_unified_diff in H.
  destruct (skip_to_first_hunk (splitlines_keepends diff)) as [|h rest] eqn:E;
    [discriminate|].
  destruct (loops_keep (_split_lines_keepends old) (List.length (h :: rest))) as [Hh _].
  rewrite (Hh (h :: rest) 0 [] new (le_n _) Hk eq_refl H).
  apply concat_keepends.
Qed.

End Headers.

(** A header as git writes it for a change inside a function. *)
Lemma header_must_end_with_marker_witness :
  Apply.skip_to_first_hunk
    (splitlines_keepends (lit "@@ -1,2 +1,2 @@ def run():\n a\n-b\n+B\n"))
  = [lit "@@ -1,2 +1,2 @@ def run():\n"; lit " a\n"; lit "-b\n"; lit "+B\n"]
  /\ endswith (strip (lit "@@ -1,2 +1,2 @@ def run():\n")) (lit "@@") = false
  /\ @Apply.apply_unified_diff ascii_runtime Examples.boom_old
       (lit "@@ -1,2 +1,2 @@ def run():\n a\n-b\n+B\n")
     = Apply.Raise (Apply.InvalidHunkHeader (strip (lit "@@ -1,2 +1,2 @@ def run():\n"))).
Proof.
  assert (H1 : Apply.skip_to_first_hunk
                 (splitlines_keepends (lit "@@ -1,2 +1,2 @@ def run():\n a\n-b\n+B\n"))
               = [lit "@@ -1,2 +1,2 @@ def run():\n"; lit " a\n"; lit "-b\n"; lit "+B\n"])
    by (vm_compute; reflexivity).
  assert (H2 : endswith (strip (lit "@@ -1,2 +1,2 @@ def run():\n")) (lit "@@") = false)
    by (vm_compute; reflexivity).
  exact (conj H1 (conj H2
           (@header_must_end_with_marker ascii_runtime Examples.boom_old _ _ _ H1 H2))).
Defined.

(** A hunk of two context lines. *)
Lemma context_only_is_identity_witness :
  @Apply.apply_unified_diff ascii_runtime Examples.boom_old (lit "@@ -1,2 +1,2 @@\n a\n b\n")
  = Apply.Ok Examples.boom_old
  /\ forallb ContextOnly.keeps
       (Apply.skip_to_first_hunk
          (splitlines_keepends (lit "@@ -1,2 +1,2 @@\n a\n b\n"))) = true
  /\ Examples.boom_old = Examples.boom_old.
Proof.
  assert (H1 : @Apply.apply_unified_diff ascii_runtime Examples.boom_old
                 (lit "@@ -1,2 +1,2 @@\n a\n b\n") = Apply.Ok Examples.boom_old)
    by (vm_compute; reflexivity).
  assert (H2 : forallb ContextOnly.keeps
                 (Apply.skip_to_first_hunk
                    (splitlines_keepends (lit "@@ -1,2 +1,2 @@\n a\n b\n")))
               = true) by (vm_compute; reflexivity).
  exact (conj H1 (conj H2 (@context_only_is_identity ascii_runtime _ _ _ H1 H2))).
Defined.

Module PlanResultFacts.
Import Py PyFacts Coder PlanResult.

Section WithRuntime.
Context {RT : Runtime}.

Lemma success_is_plan : forall path p, is_plan path (success path p).
Proof. intros path p. repeat split. exists p. split; reflexivity. Qed.

Lemma guard_blocked_is_blocked : forall det pat, is_blocked_edit (guard_blocked det pat).
Proof. intros det pat. repeat split. exists det. reflexivity. Qed.

Lemma finalize_ok_shape : forall path instruction old new p r,
  _finalize_ok path instruction old new p = Return r ->
  is_plan path r \/ is_blocked_edit r.
Proof.
  intros path instruction old new p r H. unfold _finalize_ok in H.
  destruct (_py_syntax_ok path _) as [b|e]; [|discriminate]. cbn [bind] in H.
  destruct b; cbn [negb] in H.
  - destruct (Guards.enforce_guards _ _ _ _) as [okg why].
    destruct okg; cbn [negb] in H.
    + destruct (negb (str_eqb _ new)); inversion H; left; apply success_is_plan.
    + inversion H. right. apply guard_blocked_is_blocked.
  - destruct (_future_import_guard _ _) as [okf whyf].
    destruct (negb okf); inversion H; right; apply guard_blocked_is_blocked.
Qed.

Lemma fulltext_fallback_shape : forall path instruction old reason m r m',
  _fulltext_fallback path instruction old reason m = Return (r, m') ->
  is_plan path r \/ is_blocked_edit r.
Proof.
  intros path instruction old reason m r m' H. unfold _fulltext_fallback in H.
  destruct (_build_fulltext_prompts _ _ _ _) as [system user].
  destruct (_call_model system user m) as [[raw m2]|e]; [|discriminate].
  cbn [bind] in H.
  set (new := _autofix_future_import old (_maybe_unescape_llm_string (fulltext_of_raw raw))) in *.
  destruct (_py_syntax_ok path new) as [b|e]; [|discriminate]. cbn [bind] in H.
  destruct b; cbn [negb] in H.
  - destruct (_future_import_guard old new) as [okf whyf]. destruct okf; cbn [negb] in H.
    + destruct (_finalize_ok path instruction old new _) as [r0|e] eqn:E; [|discriminate].
      cbn [bind] in H. inversion H; subst. eapply finalize_ok_shape. exact E.
    + inversion H. right. apply guard_blocked_is_blocked.
  - destruct (_future_import_guard old new) as [okf whyf].
    destruct (negb okf); inversion H; right; apply guard_blocked_is_blocked.
Qed.

Lemma finalize_with_repair_shape : forall path instruction old new1 diff1 m r m',
  finalize_with_repair path instruction old new1 diff1 m = Return (r, m') ->
  is_plan path r \/ is_blocked_edit r.
Proof.
  intros path instruction old new1 diff1 m r m' H. unfold finalize_with_repair in H.
  destruct (_finalize_ok path instruction old new1 diff1) as [out1|e] eqn:E1; [|discriminate].
  cbn [bind] in H. pose proof (finalize_ok_shape _ _ _ _ _ E1) as S1.
  destruct (ok out1); [inversion H; subst; exact S1|].
  destruct (_build_prompts _ _ _ _) as [systemg userg].
  destruct (_call_model systemg userg m) as [[rawg m2]|e]; [|discriminate].
  cbn [bind] in H.
  destruct (contains (repair_diff rawg) (lit "@@")); [|inversion H; subst; exact S1].
  destruct (Apply.apply_unified_diff old (repair_diff rawg)) as [newg|e];
    [|inversion H; subst; exact S1].
  destruct (_finalize_ok path instruction old newg (repair_diff rawg)) as [outg|e] eqn:E2;
    [|discriminate].
  cbn [bind] in H. pose proof (finalize_ok_shape _ _ _ _ _ E2) as S2.
  destruct (ok outg); inversion H; subst; assumption.
Qed.

End WithRuntime.
End PlanResultFacts.

Section PlanShape.
Context {RT : Runtime}.
Import PyFacts Coder PlanResult PlanResultFacts.

(** X20. A result that edit_plan returns is a plan, with ok:true, the file, a
    patch and the display form of that patch as diff; or it reports the
    missing file; or it reports guard_blocked with a detail.  A patch that
    fails to apply and an answer that is no JSON are never reported: they
    lead to another call or to the fallback. *)
Theorem edit_plan_result_shape : forall w path instruction root m r m',
  edit_plan w path instruction root m = Return (r, m') -> plan_result path r.
Proof.
  intros w path instruction root m r m' H. unfold plan_result. unfold edit_plan in H.
  destruct (_resolve_repo_path w root path) as [fp|e]; [|discriminate].
  cbn [bind] in H. destruct (exists_ w fp); cbn [negb] in H.
  2:{ inversion H; subst. right. left. repeat split. }
  destruct (read_text w fp) as [old|e]; [|discriminate]. cbn [bind] in H.
  assert (Hgoal : is_plan path r \/ is_blocked_edit r); [|tauto].
  unfold edit_plan_from in H.
  destruct (_build_prompts path instruction old None) as [system1 user1].
  destruct (_call_model system1 user1 m) as [[raw1 m1]|e]; [|discriminate].
  cbn [bind] in H.
  destruct (contains (round_diff raw1) (lit "@@")); cbn [negb] in H;
    [|eapply fulltext_fallback_shape; exact H].
  destruct (match old with [] => _ | _ => _ end) as [ok_empty why_empty].
  destruct ok_empty; cbn [negb] in H; [|eapply fulltext_fallback_shape; exact H].
  destruct (Apply.apply_unified_diff old (round_diff raw1)) as [new1|e1];
    [eapply finalize_with_repair_shape; exact H|].
  destruct (_build_prompts _ _ _ _) as [system2 user2].
  destruct (_call_model system2 user2 m1) as [[raw2 m2]|e2]; [|discriminate].
  cbn [bind] in H.
  destruct (contains (round_diff raw2) (lit "@@"));
    [|eapply fulltext_fallback_shape; exact H].
  destruct (match old with [] => _ | _ => _ end) as [ok_empty2 why_empty2].
  destruct ok_empty2; cbn [negb] in H; [|eapply fulltext_fallback_shape; exact H].
  destruct (Apply.apply_unified_diff old (round_diff raw2)) as [new2|e2];
    [eapply finalize_with_repair_shape; exact H|eapply fulltext_fallback_shape; exact H].
Qed.

End PlanShape.

(** The run on a file whose last line has no terminator: the first answer
    gives no diff, the second the full text. *)
Lemma edit_plan_result_shape_witness :
  exists r,
    @Coder.edit_plan ascii_runtime
       (Examples.one_file_world (lit "conf.ini") Examples.unterminated_old)
       (lit "conf.ini") (lit "replace 1 by 2") Examples.repo
       [Examples.no_diff_answer; Examples.full_text_answer]
    = Coder.Return (r, [])
    /\ PlanResult.plan_result (lit "conf.ini") r.
Proof.
  eexists.
  assert (H : @Coder.edit_plan ascii_runtime
                (Examples.one_file_world (lit "conf.ini") Examples.unterminated_old)
                (lit "conf.ini") (lit "replace 1 by 2") Examples.repo
                [Examples.no_diff_answer; Examples.full_text_answer]
              = Coder.Return (_, [])) by (vm_compute; reflexivity).
  exact (conj H (@edit_plan_result_shape ascii_runtime _ _ _ _ _ _ _ H)).
Defined.

Module SelfMatchFacts.
Import Py PyFacts Difflib SelfMatch.

Section Runs.
Variable a : list pystr.

Lemma run_at_unfold : forall i j,
  run_at a i j
  = if (j <? (List.length a)) && str_eqb (elt_b a j) (elt_a a i) && negb (is_popular a (elt_a a i))
    then S (run_before a i j) else 0.
Proof. intros [|i] j; reflexivity. Qed.

(** Off the diagonal a run is no longer than the diagonal run of its
    column, and no longer than the one of its row. *)
Lemma run_le_diag : forall i j, i < (List.length a) -> j < (List.length a) ->
  run_at a i j <= run_at a j j /\ run_at a i j <= run_at a i i.
Proof.
  induction i as [|i IH]; intros j Hi Hj.
  - rewrite !(run_at_unfold 0). rewrite (run_at_unfold j j).
    destruct ((j <? (List.length a)) && str_eqb (elt_b a j) (elt_a a 0)
              && negb (is_popular a (elt_a a 0))) eqn:E; [|split; lia].
    apply andb_true_iff in E. destruct E as [E Hp].
    apply andb_true_iff in E. destruct E as [Hlt He].
    apply str_eqb_eq in He. unfold elt_b, elt_a in *.
    rewrite Hlt, str_eqb_refl, He, Hp. cbn [andb].
    assert (H0 : (0 <? (List.length a)) = true) by (apply Nat.ltb_lt; lia).
    rewrite H0, str_eqb_refl. cbn [andb]. unfold run_before.
    split; [destruct j; lia|lia].
  - rewrite (run_at_unfold (S i) j), (run_at_unfold j j), (run_at_unfold (S i) (S i)).
    destruct ((j <? (List.length a)) && str_eqb (elt_b a j) (elt_a a (S i))
              && negb (is_popular a (elt_a a (S i)))) eqn:E; [|split; lia].
    apply andb_true_iff in E. destruct E as [E Hp].
    apply andb_true_iff in E. destruct E as [Hlt He].
    apply str_eqb_eq in He. unfold elt_b, elt_a in *.
    rewrite Hlt, str_eqb_refl, He, Hp. cbn [andb].
    assert (H0 : (S i <? (List.length a)) = true) by (apply Nat.ltb_lt; lia).
    rewrite H0, str_eqb_refl. cbn [andb]. unfold run_before.
    destruct j as [|j]; [split; lia|].
    destruct (IH j) as [H1 H2]; [lia|lia|]. split; lia.
Qed.

(** The indices of a line: increasing, and those of the lines equal to it. *)
Lemma indices_from_spec : forall elt l j0 j,
  In j (indices_from elt l j0)
  <-> j0 <= j /\ j < j0 + List.length l /\ str_eqb (nth (j - j0) l []) elt = true.
Proof.
  intros elt. induction l as [|x l IH]; intros j0 j; cbn [indices_from List.length].
  - split; [contradiction|lia].
  - destruct (str_eqb x elt) eqn:E.
    + cbn [In]. rewrite IH. split.
      * intros [<-|[H1 [H2 H3]]].
        -- rewrite Nat.sub_diag. cbn [nth]. repeat split; [lia|lia|exact E].
        -- repeat split; [lia|lia|].
           replace (j - j0) with (S (j - S j0)) by lia. exact H3.
      * intros [H1 [H2 H3]]. destruct (Nat.eq_dec j0 j) as [->|Hne]; [left; reflexivity|].
        right. repeat split; [lia|lia|].
        replace (j - j0) with (S (j - S j0)) in H3 by lia. exact H3.
    + rewrite IH. split.
      * intros [H1 [H2 H3]]. repeat split; [lia|lia|].
        replace (j - j0) with (S (j - S j0)) by lia. exact H3.
      * intros [H1 [H2 H3]].
        destruct (Nat.eq_dec j0 j) as [->|Hne].
        -- rewrite Nat.sub_diag in H3. cbn [nth] in H3. congruence.
        -- repeat split; [lia|lia|].
           replace (j - j0) with (S (j - S j0)) in H3 by lia. exact H3.
Qed.

(** The indices of a line split around one of them. *)
Lemma indices_from_split : forall elt l j0 i,
  In i (indices_from elt l j0) ->
  exists js1 js2, indices_from elt l j0 = js1 ++ i :: js2
                  /\ Forall (fun j => j < i) js1 /\ Forall (fun j => i < j) js2.
Proof.
  intros elt. induction l as [|x l IH]; intros j0 i Hin; cbn [indices_from] in *;
    [contradiction|].
  assert (Hgt : forall j, In j (indices_from elt l (S j0)) -> j0 < j).
  { intros j Hj. apply indices_from_spec in Hj. lia. }
  destruct (str_eqb x elt).
  - destruct Hin as [<-|Hin].
    + exists [], (indices_from elt l (S j0)). repeat split; [constructor|].
      apply Forall_forall. exact Hgt.
    + destruct (IH (S j0) i Hin) as [js1 [js2 [E [H1 H2]]]].
      exists (j0 :: js1), js2. rewrite E. repeat split; [|exact H2].
      constructor; [apply Hgt; exact Hin|exact H1].
  - apply IH. exact Hin.
Qed.

Lemma hit_run : forall i j, hit a i j -> run_at a i j = S (run_before a i j).
Proof.
  intros i j [H1 [H2 H3]]. rewrite run_at_unfold.
  apply Nat.ltb_lt in H1. rewrite H1, H2, H3. reflexivity.
Qed.

Lemma read_prev : forall i d j, prev_ok a i d ->
  (match j with O => 0 | S j1 => Difflib.dict_get d j1 end) <= run_before a i j.
Proof.
  intros i d [|j1] [H _]; [lia|apply H].
Qed.

Lemma flm_inner_app : forall blo bhi i d js1 js2 nd best,
  Forall (fun j => j < bhi) js1 ->
  flm_inner blo bhi i d (js1 ++ js2) nd best
  = let '(nd1, b1) := flm_inner blo bhi i d js1 nd best in
    flm_inner blo bhi i d js2 nd1 b1.
Proof.
  intros blo bhi i d js1 js2. induction js1 as [|j js1 IH]; intros nd best H.
  - reflexivity.
  - inversion H as [|? ? Hj Hrest]; subst. cbn [app flm_inner].
    destruct (j <? blo); [apply IH; exact Hrest|].
    replace (bhi <=? j) with false by (symmetry; apply Nat.leb_gt; exact Hj).
    destruct best as [[bi bj] bs]. apply IH. exact Hrest.
Qed.

(** The lines of a row that do not beat the best block leave it alone. *)
Lemma flm_inner_quiet : forall i d js nd bi bj bs,
  prev_ok a i d ->
  Forall (fun j => hit a i j /\ j <> i /\ run_at a i j <= bs) js ->
  (forall j, Difflib.dict_get nd j <= run_at a i j) ->
  exists nd', flm_inner 0 (List.length a) i d js nd (bi, bj, bs) = (nd', (bi, bj, bs))
              /\ (forall j, Difflib.dict_get nd' j <= run_at a i j)
              /\ Difflib.dict_get nd' i = Difflib.dict_get nd i.
Proof.
  intros i d js. induction js as [|j js IH]; intros nd bi bj bs Hd Hjs Hnd.
  - exists nd. cbn [flm_inner]. auto.
  - inversion Hjs as [|? ? [Hhit [Hne Hle]] Hrest]; subst. cbn [flm_inner].
    change (j <? 0) with false. cbv iota.
    destruct Hhit as [Hlt Hrest'].
    replace ((List.length a) <=? j) with false by (symmetry; apply Nat.leb_gt; exact Hlt).
    set (k := (match j with O => 0 | S j1 => Difflib.dict_get d j1 end) + 1).
    assert (Hk : k <= run_at a i j).
    { unfold k. rewrite (hit_run (conj Hlt Hrest')).
      pose proof (read_prev j Hd). lia. }
    replace (bs <? k) with false by (symmetry; apply Nat.ltb_ge; lia).
    destruct (IH ((j, k) :: nd) bi bj bs Hd Hrest) as [nd' [E [Hu Hi]]].
    + intros key. cbn [Difflib.dict_get]. destruct (Nat.eqb j key) eqn:Ej; [|apply Hnd].
      apply Nat.eqb_eq in Ej. subst key. exact Hk.
    + exists nd'. split; [exact E|]. split; [exact Hu|].
      rewrite Hi. cbn [Difflib.dict_get].
      replace (Nat.eqb j i) with false by (symmetry; apply Nat.eqb_neq; exact Hne).
      reflexivity.
Qed.

(** One row of find_longest_match on the whole of both copies. *)
Lemma flm_row : forall i d best,
  i < (List.length a) -> prev_ok a i d -> best_ok a i best ->
  exists d' best', flm_inner 0 (List.length a) i d (b2j_get a (elt_a a i)) [] best = (d', best')
                   /\ prev_ok a (S i) d' /\ best_ok a (S i) best'.
Proof.
  intros i d best Hi Hd [bi [bs [-> Hdom]]]. unfold b2j_get.
  destruct (is_popular a (elt_a a i)) eqn:Ep.
  - exists [], (bi, bi, bs). cbn [flm_inner]. split; [reflexivity|].
    assert (Hz : forall j, run_at a i j = 0).
    { intros j. rewrite run_at_unfold, Ep. rewrite andb_false_r. reflexivity. }
    split.
    + split; [intros j1; cbn; lia|]. cbn. rewrite Hz. reflexivity.
    + exists bi, bs. split; [reflexivity|]. intros j Hj.
      destruct (Nat.eq_dec j i) as [->|Hne]; [rewrite Hz; lia|apply Hdom; lia].
  - assert (Hin : In i (indices_from (elt_a a i) a 0)).
    { apply indices_from_spec. repeat split; [lia|cbn; lia|].
      rewrite Nat.sub_0_r. apply str_eqb_refl. }
    destruct (indices_from_split _ _ _ _ Hin) as [js1 [js2 [E [H1 H2]]]].
    assert (Hhit : forall j, In j (indices_from (elt_a a i) a 0) -> hit a i j).
    { intros j Hj. apply indices_from_spec in Hj. destruct Hj as [_ [Hlt He]].
      rewrite Nat.sub_0_r in He. cbn in Hlt. repeat split; assumption. }
    rewrite E.
    (* the lines before the diagonal *)
    assert (Hq1 : Forall (fun j => hit a i j /\ j <> i /\ run_at a i j <= bs) js1).
    { apply Forall_forall. intros j Hj.
      assert (Hji : j < i) by (rewrite Forall_forall in H1; apply H1; exact Hj).
      assert (Hh : hit a i j) by (apply Hhit; rewrite E; apply in_or_app; left; exact Hj).
      split; [exact Hh|]. split; [lia|].
      destruct (@run_le_diag i j Hi (proj1 Hh)) as [Hc _].
      specialize (Hdom j Hji). lia. }
    rewrite flm_inner_app
      by (apply Forall_forall; intros j Hj; rewrite Forall_forall in H1;
          specialize (H1 j Hj); lia).
    destruct (@flm_inner_quiet i d js1 [] bi bi bs Hd Hq1) as [nd1 [E1 [Hu1 Hi1]]];
      [intros j; cbn; lia|].
    rewrite E1. cbn [Difflib.dict_get] in Hi1.
    (* the diagonal *)
    cbn [flm_inner]. change (i <? 0) with false. cbv iota.
    replace ((List.length a) <=? i) with false by (symmetry; apply Nat.leb_gt; exact Hi).
    set (k := (match i with O => 0 | S i1 => Difflib.dict_get d i1 end) + 1).
    assert (Hk : k = run_at a i i).
    { unfold k. rewrite (hit_run (Hhit i Hin)). unfold run_before.
      destruct Hd as [_ Hdiag]. destruct i as [|i1]; [reflexivity|]. rewrite Hdiag. lia. }
    set (best2 := if bs <? k then (i + 1 - k, i + 1 - k, k) else (bi, bi, bs)).
    assert (Hb2 : exists b2 s2, best2 = (b2, b2, s2) /\ k <= s2
                                /\ forall j, j < i -> run_at a j j <= s2).
    { unfold best2. destruct (bs <? k) eqn:Eb.
      - apply Nat.ltb_lt in Eb. exists (i + 1 - k), k. repeat split; [lia|].
        intros j Hj. specialize (Hdom j Hj). lia.
      - apply Nat.ltb_ge in Eb. exists bi, bs. repeat split; [lia|exact Hdom]. }
    destruct Hb2 as [b2 [s2 [Eb2 [Hks2 Hdom2]]]]. rewrite Eb2.
    (* the lines after the diagonal *)
    assert (Hq2 : Forall (fun j => hit a i j /\ j <> i /\ run_at a i j <= s2) js2).
    { apply Forall_forall. intros j Hj.
      assert (Hji : i < j) by (rewrite Forall_forall in H2; apply H2; exact Hj).
      assert (Hh : hit a i j)
        by (apply Hhit; rewrite E; apply in_or_app; right; right; exact Hj).
      split; [exact Hh|]. split; [lia|].
      destruct (@run_le_diag i j Hi (proj1 Hh)) as [_ Hr]. lia. }
    destruct (@flm_inner_quiet i d js2 ((i, k) :: nd1) b2 b2 s2 Hd Hq2) as [nd3 [E3 [Hu3 Hi3]]].
    { intros key. cbn [Difflib.dict_get]. destruct (Nat.eqb i key) eqn:Ei; [|apply Hu1].
      apply Nat.eqb_eq in Ei. subst key. lia. }
    exists nd3, (b2, b2, s2). split; [exact E3|]. split.
    + split; [intros j1; apply Hu3|].
      rewrite Hi3. cbn [Difflib.dict_get]. rewrite Nat.eqb_refl. exact Hk.
    + exists b2, s2. split; [reflexivity|]. intros j Hj.
      destruct (Nat.eq_dec j i) as [->|Hne]; [lia|apply Hdom2; lia].
Qed.

Lemma flm_rows : forall n i d best,
  i + n <= (List.length a) -> prev_ok a i d -> best_ok a i best ->
  best_ok a (i + n) (flm_outer a a 0 (List.length a) i n d best).
Proof.
  induction n as [|n IH]; intros i d best Hn Hd Hb.
  - rewrite Nat.add_0_r. exact Hb.
  - cbn [flm_outer].
    destruct (@flm_row i d best) as [d' [best' [E [Hd' Hb']]]]; [lia|exact Hd|exact Hb|].
    rewrite E. replace (i + S n) with (S i + n) by lia. apply IH; [lia|exact Hd'|exact Hb'].
Qed.

Lemma extend_back_diag : forall fuel bi bs, bi <= fuel ->
  extend_back a a 0 0 fuel (bi, bi, bs) = (0, 0, bi + bs).
Proof.
  induction fuel as [|f IH]; intros bi bs H.
  - assert (bi = 0) as -> by lia. reflexivity.
  - cbn [extend_back]. destruct bi as [|b1].
    + reflexivity.
    + change (0 <? S b1) with true. cbn [andb].
      unfold elt_a, elt_b. rewrite str_eqb_refl.
      replace (S b1 - 1) with b1 by lia. rewrite IH by lia. f_equal. lia.
Qed.

Lemma extend_forward_diag : forall fuel bs, bs <= (List.length a) -> (List.length a) - bs <= fuel ->
  extend_forward a a (List.length a) (List.length a) fuel (0, 0, bs) = (0, 0, (List.length a)).
Proof.
  induction fuel as [|f IH]; intros bs Hle H.
  - assert (bs = (List.length a)) as -> by lia. reflexivity.
  - cbn [extend_forward]. cbn [Nat.add].
    destruct (bs <? (List.length a)) eqn:E.
    + cbn [andb]. unfold elt_a, elt_b. rewrite str_eqb_refl.
      apply Nat.ltb_lt in E. apply IH; lia.
    + apply Nat.ltb_ge in E. cbn [andb]. f_equal. lia.
Qed.

(** On a sequence and itself, the longest match is the whole sequence. *)
Lemma find_longest_match_self :
  find_longest_match a a 0 (List.length a) 0 (List.length a) = (0, 0, (List.length a)).
Proof.
  unfold find_longest_match. rewrite Nat.sub_0_r.
  pose proof (@flm_rows (List.length a) 0 [] (0, 0, 0)) as H.
  destruct H as [bi [bs [E _]]].
  - lia.
  - split; [intros j1; cbn; lia|exact I].
  - exists 0, 0. split; [reflexivity|]. intros j Hj. lia.
  - cbn [Nat.add] in E.
    pose proof (@DifflibFacts.flm_outer_within a a 0 (List.length a) 0 (List.length a) 0 [] (0, 0, 0)) as W.
    cbn [Nat.add] in W. rewrite E in W.
    assert (Hw : 0 <= bi /\ bi + bs <= (List.length a)).
    { apply W; [lia|intros key; cbn; lia|cbn; lia]. }
    rewrite E. cbn [fst]. rewrite extend_back_diag by lia.
    apply extend_forward_diag; lia.
Qed.

End Runs.
End SelfMatchFacts.

Module SelfDiffFacts.
Import Py PyFacts Difflib SelfMatch SelfMatchFacts.

Section Self.
Variable a : list pystr.

Lemma matching_blocks_self :
  get_matching_blocks a a
  = match a with
    | [] => [(0, 0, 0)]
    | _ => [(0, 0, List.length a); (List.length a, List.length a, 0)]
    end.
Proof.
  unfold get_matching_blocks. cbv zeta.
  replace (2 * List.length a + 1) with (S (2 * List.length a)) by lia.
  cbn [mb_loop]. rewrite find_longest_match_self.
  destruct a as [|x r] eqn:Ea.
  - destruct (2 * List.length (@nil pystr)); reflexivity.
  - rewrite <- Ea. assert (Hl : List.length a = S (List.length r)) by (rewrite Ea; reflexivity).
    rewrite Hl. cbn [Nat.eqb]. change (0 <? 0) with false. cbn [andb].
    rewrite Nat.add_0_l, Nat.ltb_irrefl. cbn [andb].
    destruct (2 * S (List.length r)); cbn [mb_loop app];
      cbn [sort_blocks fold_right insert_sorted collapse Nat.add Nat.eqb andb app];
      reflexivity.
Qed.

Lemma opcodes_self :
  get_opcodes a a
  = match a with
    | [] => []
    | _ => [(Equal, 0, List.length a, 0, List.length a)]
    end.
Proof.
  unfold get_opcodes. rewrite matching_blocks_self.
  destruct a as [|x r]; [reflexivity|].
  cbn [opcodes_go List.length]. change (0 <? 0) with false. cbn [andb Nat.eqb Nat.add app].
  rewrite Nat.ltb_irrefl. cbn [andb]. reflexivity.
Qed.

Lemma one_equal_no_group : forall i1 i2 j1 j2, i2 - i1 <= 6 ->
  group_loop 3 [(Equal, i1, i2, j1, j2)] [] = [].
Proof.
  intros i1 i2 j1 j2 H. cbn [group_loop is_equal_tag andb].
  replace (3 + 3 <? i2 - i1) with false by (symmetry; apply Nat.ltb_ge; lia).
  reflexivity.
Qed.

(** A sequence against itself has no group of changes. *)
Lemma grouped_opcodes_self : get_grouped_opcodes a a 3 = [].
Proof.
  unfold get_grouped_opcodes. rewrite opcodes_self.
  destruct a as [|x r].
  - cbn [fix_first fix_last]. apply one_equal_no_group. lia.
  - cbn [fix_first fix_last]. apply one_equal_no_group. lia.
Qed.

Lemma unified_diff_self : forall fromfile tofile, unified_diff a a fromfile tofile = [].
Proof. intros. unfold unified_diff. rewrite grouped_opcodes_self. reflexivity. Qed.

End Self.
End SelfDiffFacts.

Module FloatFacts.
Import PyFloat.

Lemma iter_pos_nat : forall (A : Type) (f : A -> A) p x,
  iter_pos f p x = Nat.iter (Pos.to_nat p) f x.
Proof.
  intros A f. induction p as [p IH|p IH|]; intros x; cbn [iter_pos].
  - rewrite !IH. rewrite Pos2Nat.inj_xI.
    replace (S (2 * Pos.to_nat p)) with (Pos.to_nat p + (Pos.to_nat p + 1)) by lia.
    rewrite !Nat.iter_add. cbn [Nat.iter nat_rect]. reflexivity.
  - rewrite !IH. rewrite Pos2Nat.inj_xO.
    replace (2 * Pos.to_nat p) with (Pos.to_nat p + Pos.to_nat p) by lia.
    rewrite Nat.iter_add. reflexivity.
  - reflexivity.
Qed.

(** A right shift by fewer places than the mantissa has digits leaves a
    positive mantissa. *)
Lemma shr_steps_positive : forall n m r s,
  n < Pos.to_nat (digits2_pos m) ->
  exists m' r' s',
    Nat.iter n shr_1 (Build_shr_record (Zpos m) r s) = Build_shr_record (Zpos m') r' s'
    /\ Pos.to_nat (digits2_pos m') = Pos.to_nat (digits2_pos m) - n.
Proof.
  induction n as [|n IH]; intros m r s H.
  - exists m, r, s. cbn. split; [reflexivity|lia].
  - destruct (IH m r s) as [m1 [r1 [s1 [E D]]]]; [lia|].
    change (Nat.iter (S n) shr_1 (Build_shr_record (Zpos m) r s))
      with (shr_1 (Nat.iter n shr_1 (Build_shr_record (Zpos m) r s))).
    rewrite E.
    destruct m1 as [p|p|]; cbn [digits2_pos] in D; cbn [shr_1].
    + eexists _, _, _. split; [reflexivity|]. rewrite Pos2Nat.inj_succ in D. lia.
    + eexists _, _, _. split; [reflexivity|]. rewrite Pos2Nat.inj_succ in D. lia.
    + change (Pos.to_nat 1) with 1 in D. lia.
Qed.

Lemma shr_positive : forall m r s e n,
  (n < Zpos (digits2_pos m))%Z ->
  exists m' r' s',
    shr (Build_shr_record (Zpos m) r s) e n
    = (Build_shr_record (Zpos m') r' s', (e + Z.max 0 n)%Z).
Proof.
  intros m r s e n H. unfold shr. destruct n as [|p|p].
  - exists m, r, s. f_equal; lia.
  - rewrite iter_pos_nat.
    destruct (@shr_steps_positive (Pos.to_nat p) m r s) as [m' [r' [s' [E _]]]]; [lia|].
    rewrite E. exists m', r', s'. f_equal; lia.
  - exists m, r, s. f_equal; lia.
Qed.

Lemma round_even_positive : forall m l, exists m', round_nearest_even (Zpos m) l = Zpos m'.
Proof.
  intros m l. unfold round_nearest_even.
  destruct l as [|[| |]]; try (eexists; reflexivity).
  destruct (Z.even (Zpos m)); eexists; reflexivity.
Qed.

(** Rounding a positive mantissa whose exponent is not below the least
    one gives a positive double or the positive infinity. *)
Lemma round_aux_positive : forall m e l,
  (-1074 <= e)%Z ->
  (exists m' e', binary_round_aux prec emax false (Zpos m) e l = S754_finite false m' e')
  \/ binary_round_aux prec emax false (Zpos m) e l = S754_infinity false.
Proof.
  intros m e l He. unfold binary_round_aux, shr_fexp.
  assert (Hn : forall d x, (-1074 <= x)%Z ->
            (fexp prec emax (Zpos d + x) - x < Zpos d)%Z).
  { intros d x Hx. unfold fexp, emin, prec, emax. lia. }
  assert (Hrec : forall mm ll, exists r s, shr_record_of_loc (Zpos mm) ll
                                           = Build_shr_record (Zpos mm) r s).
  { intros mm ll. destruct ll as [|[| |]]; eexists _, _; reflexivity. }
  destruct (Hrec m l) as [r [s ->]]. cbn [Zdigits2].
  destruct (@shr_positive m r s e _ (Hn (digits2_pos m) e He)) as [m1 [r1 [s1 E1]]].
  rewrite E1. cbn [shr_m].
  destruct (round_even_positive m1 (loc_of_shr_record (Build_shr_record (Zpos m1) r1 s1)))
    as [m2 E2].
  rewrite E2. cbn [shr_record_of_loc Zdigits2].
  set (e1 := (e + Z.max 0 (fexp prec emax (Zpos (digits2_pos m) + e) - e))%Z).
  assert (He1 : (-1074 <= e1)%Z) by (unfold e1; lia).
  destruct (@shr_positive m2 false false e1 _ (Hn (digits2_pos m2) e1 He1)) as [m3 [r3 [s3 E3]]].
  rewrite E3. cbn [shr_m].
  destruct (Z.leb _ _); [left; eexists _, _; reflexivity|right; reflexivity].
Qed.

(** float(n) of a positive int is a positive double or infinity. *)
Lemma of_nat_positive : forall n, 0 < n ->
  (exists m e, of_nat n = S754_finite false m e) \/ of_nat n = S754_infinity false.
Proof.
  intros n Hn. unfold of_nat, binary_normalize.
  destruct (Z.of_nat n) as [|p|p] eqn:E; [lia| |lia].
  unfold binary_round, shl_align.
  destruct (fexp prec emax (Zpos (digits2_pos p) + 0) - 0)%Z as [|d|d] eqn:Ed;
    try (apply round_aux_positive; lia).
  apply round_aux_positive. unfold fexp, emin, prec, emax. lia.
Qed.

(** Zero matches out of a positive number of lines: the ratio is zero. *)
Lemma zero_ratio : forall n, 0 < n ->
  div (mul f_2_0 (of_nat 0)) (of_nat n) = S754_zero false.
Proof.
  intros n Hn. destruct (of_nat_positive Hn) as [[m [e ->]]| ->]; reflexivity.
Qed.

End FloatFacts.

Module EmptyFileFacts.
Import Py PyFacts Difflib Guards FloatFacts.

Lemma splitlines_acc_nonempty : forall s cur,
  s <> [] \/ cur <> [] -> splitlines_acc s cur <> [].
Proof.
  induction s as [|c s IH]; intros cur H; cbn [splitlines_acc].
  - destruct cur; [destruct H; congruence|discriminate].
  - destruct (is_linebreak c).
    + destruct (char_eqb c CR); [|discriminate].
      destruct s as [|d s']; [discriminate|].
      destruct (char_eqb d LF); discriminate.
    + apply IH. right. discriminate.
Qed.

(** Nothing matches the empty sequence: the ratio is zero. *)
Lemma ratio_nil : forall b, b <> [] -> ratio [] b = S754_zero false.
Proof.
  intros b Hb. unfold ratio, get_matching_blocks. cbv zeta.
  cbn [List.length Nat.mul Nat.add mb_loop].
  unfold find_longest_match. cbn [Nat.sub flm_outer fst extend_back extend_forward].
  cbn [Nat.eqb mb_loop sort_blocks fold_right collapse app fold_left].
  unfold _calculate_ratio. cbn [Nat.add].
  destruct b as [|x r]; [congruence|]. cbn [List.length Nat.eqb].
  apply zero_ratio. lia.
Qed.

End EmptyFileFacts.

Section EmptyFile.
Context {RT : Runtime}.
Import PyFacts Guards EmptyFileFacts.

(** X22. A new text for an empty file, without control character and not blank,
    is turned away by enforce_guards whenever the instruction carries none
    of the rewrite keywords: the similarity with the empty text is zero.
    The reason is the one of the README for a README, and "rewrite too
    violent (similarity=0.00)" for any other file. *)
Theorem empty_file_edit_rejected : forall relpath instruction new,
  _has_control_chars new = false ->
  str_eqb (_normalize_for_similarity new) [] = false ->
  _allow_big_rewrite instruction = false ->
  enforce_guards relpath instruction [] new
  = (false, if is_readme relpath then lit "guard: README rewrite blocked"
            else lit "guard: rewrite too violent (similarity=0.00)").
Proof.
  intros relpath instruction new Hc Hn Hk. unfold enforce_guards. rewrite Hc.
  assert (Hne : str_eqb [] new = false).
  { destruct new; [discriminate Hn|reflexivity]. }
  rewrite Hne.
  change (_guard_future_import [] new) with (true, @nil char). cbv iota. cbn [negb].
  assert (Hr : _similarity_ratio [] new = S754_zero false).
  { unfold _similarity_ratio. apply ratio_nil.
    apply splitlines_acc_nonempty. left. intros E. rewrite E in Hn. discriminate. }
  rewrite Hr, Hk. cbn [negb andb]. rewrite andb_true_r.
  destruct (is_readme relpath); reflexivity.
Qed.

End EmptyFile.

(** The greeting of the insertion scenario, with the default instruction of
    apply_edit. *)
Lemma empty_file_edit_rejected_witness :
  Guards._has_control_chars Examples.hello = false
  /\ str_eqb (Guards._normalize_for_similarity Examples.hello) [] = false
  /\ @Guards._allow_big_rewrite ascii_runtime (lit "apply") = false
  /\ @Guards.enforce_guards ascii_runtime (lit "new.txt") (lit "apply") [] Examples.hello
     = (false, if @Guards.is_readme ascii_runtime (lit "new.txt")
               then lit "guard: README rewrite blocked"
               else lit "guard: rewrite too violent (similarity=0.00)").
Proof.
  assert (H1 : Guards._has_control_chars Examples.hello = false) by (vm_compute; reflexivity).
  assert (H2 : str_eqb (Guards._normalize_for_similarity Examples.hello) [] = false)
    by (vm_compute; reflexivity).
  assert (H3 : @Guards._allow_big_rewrite ascii_runtime (lit "apply") = false)
    by (vm_compute; reflexivity).
  exact (conj H1 (conj H2 (conj H3
           (@empty_file_edit_rejected ascii_runtime (lit "new.txt") _ _ H1 H2 H3)))).
Defined.

Module CharFacts.
Import Py PyFacts StrFacts Re ReSem ReFacts ReSuffixFacts NoBrace.

Section Pred.
Variable P : char -> bool.













End Pred.
End CharFacts.

Module NoBraceFacts.
Import Py PyFacts StrFacts Re ReSem ReFacts CharFacts Json UtilJson NoBrace.










End NoBraceFacts.

Section NoObject.
Context {RT : Runtime}.
Import PyFacts StrFacts CharFacts Json UtilJson NoBrace NoBraceFacts.


End NoObject.


(** The blocks of SequenceMatcher are blocks of equal lines. *)
Module MatchFacts.
Import Py PyFacts Difflib Script.

Section Seqs.
Variables a b : list pystr.

Lemma indices_from_line : forall elt l j0 j,
  In j (indices_from elt l j0) -> j0 <= j /\ nth (j - j0) l [] = elt.
Proof.
  intros elt. induction l as [|x r IH]; intros j0 j H; [contradiction|].
  cbn [indices_from] in H. destruct (str_eqb x elt) eqn:E.
  - destruct H as [H|H].
    + subst j. split; [lia|]. rewrite Nat.sub_diag. apply str_eqb_eq in E. exact E.
    + apply IH in H. destruct H as [H1 H2]. split; [lia|].
      replace (j - j0) with (S (j - S j0)) by lia. exact H2.
  - apply IH in H. destruct H as [H1 H2]. split; [lia|].
    replace (j - j0) with (S (j - S j0)) by lia. exact H2.
Qed.

Lemma b2j_get_spec : forall elt j, In j (b2j_get b elt) -> nth j b [] = elt.
Proof.
  intros elt j H. unfold b2j_get in H. destruct (is_popular b elt); [contradiction|].
  apply indices_from_line in H. destruct H as [_ H]. rewrite Nat.sub_0_r in H. exact H.
Qed.

Lemma flm_inner_good : forall alo ahi blo bhi i d,
  alo <= i -> i < ahi -> forall js nd best,
  (forall j, In j js -> nth j b [] = nth i a []) ->
  runs_ok a b alo ahi blo bhi i d ->
  runs_ok a b alo ahi blo bhi (S i) nd ->
  good a b alo ahi blo bhi best ->
  runs_ok a b alo ahi blo bhi (S i) (fst (flm_inner blo bhi i d js nd best))
  /\ good a b alo ahi blo bhi (snd (flm_inner blo bhi i d js nd best)).
Proof.
  intros alo ahi blo bhi i d Hlo Hhi.
  induction js as [|j js IH]; intros nd best Hjs Hd Hn Hb.
  - cbn [flm_inner fst snd]. auto.
  - cbn [flm_inner]. destruct (j <? blo) eqn:E1.
    { apply IH; auto. intros j' Hj'. apply Hjs. right. exact Hj'. }
    destruct (bhi <=? j) eqn:E2; [cbn [fst snd]; auto|].
    apply Nat.ltb_ge in E1. apply Nat.leb_gt in E2.
    set (prev := match j with O => 0 | S j1 => dict_get d j1 end).
    assert (Hnew : exists bi bj, bi + (prev + 1) = S i /\ bj + (prev + 1) = S j
                      /\ good a b alo ahi blo bhi (bi, bj, prev + 1)).
    { assert (Heq : nth i a [] = nth j b []) by (symmetry; apply Hjs; left; reflexivity).
      assert (H0 : prev = 0 \/ exists bi bj, bi + prev = i /\ bj + prev = j
                                   /\ good a b alo ahi blo bhi (bi, bj, prev)).
      { unfold prev. destruct j as [|j1]; [left; reflexivity|]. apply Hd. }
      destruct H0 as [H0|[bi [bj [H1 [H2 H3]]]]].
      - exists i, j. rewrite H0. repeat split; try lia.
        intros t Ht. replace t with 0 by lia. rewrite !Nat.add_0_r. exact Heq.
      - exists bi, bj. destruct H3 as [G1 [G2 [G3 [G4 G5]]]].
        repeat split; try lia.
        intros t Ht. destruct (Nat.eq_dec t prev) as [->|Hne].
        + rewrite H1, H2. exact Heq.
        + apply G5. lia. }
    destruct Hnew as [bi [bj [N1 [N2 N3]]]].
    destruct best as [[besti bestj] bestsize].
    apply IH.
    + intros j' Hj'. apply Hjs. right. exact Hj'.
    + exact Hd.
    + intros key. cbn [dict_get]. destruct (Nat.eqb j key) eqn:Ek; [|apply Hn].
      apply Nat.eqb_eq in Ek. subst key. right. exists bi, bj. auto.
    + destruct (bestsize <? prev + 1); [|exact Hb].
      replace (i + 1 - (prev + 1)) with bi by lia.
      replace (j + 1 - (prev + 1)) with bj by lia. exact N3.
Qed.

Lemma runs_ok_nil : forall alo ahi blo bhi i, runs_ok a b alo ahi blo bhi i [].
Proof. intros alo ahi blo bhi i j1. left. reflexivity. Qed.

Lemma flm_outer_good : forall alo ahi blo bhi n i d best,
  alo <= i -> i + n <= ahi ->
  runs_ok a b alo ahi blo bhi i d ->
  good a b alo ahi blo bhi best ->
  good a b alo ahi blo bhi (flm_outer a b blo bhi i n d best).
Proof.
  intros alo ahi blo bhi. induction n as [|n IH]; intros i d best Hlo Hhi Hd Hb.
  - exact Hb.
  - cbn [flm_outer].
    pose proof (@flm_inner_good alo ahi blo bhi i d Hlo ltac:(lia)
                  (b2j_get b (elt_a a i)) [] best (fun j H => b2j_get_spec _ _ H) Hd
                  (runs_ok_nil _ _ _ _ _) Hb) as H.
    destruct (flm_inner blo bhi i d (b2j_get b (elt_a a i)) [] best) as [d' best'].
    cbn [fst snd] in H. destruct H as [H1 H2].
    apply IH; [lia|lia|exact H1|exact H2].
Qed.

Lemma extend_back_good : forall alo ahi blo bhi fuel best,
  good a b alo ahi blo bhi best ->
  good a b alo ahi blo bhi (extend_back a b alo blo fuel best).
Proof.
  intros alo ahi blo bhi. induction fuel as [|f IH]; intros best H; [exact H|].
  cbn [extend_back]. destruct best as [[besti bestj] bestsize].
  destruct ((alo <? besti) && (blo <? bestj)
            && str_eqb (elt_a a (besti - 1)) (elt_b b (bestj - 1))) eqn:E; [|exact H].
  apply andb_true_iff in E. destruct E as [E E3].
  apply andb_true_iff in E. destruct E as [E1 E2].
  apply Nat.ltb_lt in E1. apply Nat.ltb_lt in E2. apply str_eqb_eq in E3.
  unfold elt_a, elt_b in E3.
  apply IH. destruct H as [G1 [G2 [G3 [G4 G5]]]].
  unfold good. repeat split; try lia.
  intros t Ht. destruct t as [|t].
  - rewrite !Nat.add_0_r. exact E3.
  - replace (besti - 1 + S t) with (besti + t) by lia.
    replace (bestj - 1 + S t) with (bestj + t) by lia. apply G5. lia.
Qed.

Lemma extend_forward_good : forall alo ahi blo bhi fuel best,
  good a b alo ahi blo bhi best ->
  good a b alo ahi blo bhi (extend_forward a b ahi bhi fuel best).
Proof.
  intros alo ahi blo bhi. induction fuel as [|f IH]; intros best H; [exact H|].
  cbn [extend_forward]. destruct best as [[besti bestj] bestsize].
  destruct ((besti + bestsize <? ahi) && (bestj + bestsize <? bhi)
            && str_eqb (elt_a a (besti + bestsize)) (elt_b b (bestj + bestsize))) eqn:E;
    [|exact H].
  apply andb_true_iff in E. destruct E as [E E3].
  apply andb_true_iff in E. destruct E as [E1 E2].
  apply Nat.ltb_lt in E1. apply Nat.ltb_lt in E2. apply str_eqb_eq in E3.
  unfold elt_a, elt_b in E3.
  apply IH. destruct H as [G1 [G2 [G3 [G4 G5]]]].
  unfold good. repeat split; try lia.
  intros t Ht. destruct (Nat.eq_dec t bestsize) as [->|Hne]; [exact E3|].
  apply G5. lia.
Qed.

(** The block find_longest_match returns lies in the window it was given
    and is made of equal lines. *)
Lemma find_longest_match_good : forall alo ahi blo bhi,
  alo <= ahi -> blo <= bhi ->
  good a b alo ahi blo bhi (find_longest_match a b alo ahi blo bhi).
Proof.
  intros alo ahi blo bhi Ha Hb. unfold find_longest_match.
  apply extend_forward_good, extend_back_good, flm_outer_good;
    [lia|lia|apply runs_ok_nil|].
  unfold good. repeat split; try lia.
Qed.

End Seqs.
End MatchFacts.

(** From the work list of get_matching_blocks to the opcodes. *)
Module BlockFacts.
Import Py PyFacts Difflib Script MatchFacts.

Ltac windows :=
  unfold blocks_apart, apart, before, inside, span, win_ok in *;
  repeat match goal with
         | w : window |- _ => destruct w as [[[? ?] ?] ?]
         | x : block |- _ => destruct x as [[? ?] ?]
         end.

Lemma apart_inside_l : forall w r x, inside w r -> apart w x -> apart r x.
Proof. intros. windows. lia. Qed.

Lemma apart_inside_r : forall w r x, inside w r -> apart x w -> apart x r.
Proof. intros. windows. lia. Qed.

Lemma FOP_snoc : forall (A : Type) (R : A -> A -> Prop) l x,
  ForallOrdPairs R l -> Forall (fun y => R y x) l -> ForallOrdPairs R (l ++ [x]).
Proof.
  intros A R l x H. induction H as [|y l Hy Hl IH]; intros Hx.
  - cbn. constructor; constructor.
  - cbn [app]. inversion Hx; subst. constructor.
    + apply Forall_app. split; [exact Hy|]. constructor; [assumption|constructor].
    + apply IH. assumption.
Qed.

Section Seqs.
Variables a b : list pystr.

Lemma good_same : forall alo ahi blo bhi i j k,
  good a b alo ahi blo bhi (i, j, k) ->
  ahi <= List.length a -> bhi <= List.length b -> same a b i j k.
Proof.
  intros alo ahi blo bhi i j k [G1 [G2 [G3 [G4 G5]]]] Ha Hb.
  unfold same. repeat split; try lia. exact G5.
Qed.

(** Every block the work loop records is a block of equal lines, and no two
    of them meet: each came from a window of its own. *)
Lemma mb_loop_inv : forall fuel queue blocks,
  Forall (win_ok a b) queue ->
  Forall (blk_ok a b) blocks ->
  ForallOrdPairs blocks_apart blocks ->
  Forall (fun w => Forall (fun x => apart (span x) w) blocks) queue ->
  ForallOrdPairs apart queue ->
  Forall (blk_ok a b) (mb_loop a b fuel queue blocks)
  /\ ForallOrdPairs blocks_apart (mb_loop a b fuel queue blocks).
Proof.
  induction fuel as [|f IH]; intros queue blocks Hw Hb Hbb Hwb Hww; [cbn; auto|].
  destruct queue as [|[[[alo ahi] blo] bhi] q]; [cbn; auto|].
  cbn [mb_loop].
  inversion Hw as [|? ? Hw0 Hwq]; subst.
  inversion Hwb as [|? ? Hwb0 Hwbq]; subst.
  inversion Hww as [|? ? Hww0 Hwwq]; subst.
  destruct Hw0 as [W1 [W2 [W3 W4]]].
  pose proof (@find_longest_match_good a b alo ahi blo bhi W1 W3) as Hg.
  destruct (find_longest_match a b alo ahi blo bhi) as [[i j] k].
  destruct (Nat.eqb k 0) eqn:Ek; [apply IH; assumption|].
  apply Nat.eqb_neq in Ek.
  pose proof (good_same Hg W2 W4) as Hs.
  destruct Hg as [G1 [G2 [G3 [G4 G5]]]].
  assert (Hin : inside (alo, ahi, blo, bhi) (span (i, j, k))) by (cbn; lia).
  assert (Hnew : Forall (fun y => blocks_apart y (i, j, k)) blocks).
  { eapply Forall_impl; [|exact Hwb0]. intros x Hx. unfold blocks_apart.
    eapply apart_inside_r; [exact Hin|exact Hx]. }
  assert (Hq : Forall (fun w => Forall (fun x => apart (span x) w) (blocks ++ [(i, j, k)])) q).
  { apply Forall_forall. intros w Hwin. apply Forall_app. split.
    - rewrite Forall_forall in Hwbq. apply Hwbq. exact Hwin.
    - constructor; [|constructor]. rewrite Forall_forall in Hww0.
      eapply apart_inside_l; [exact Hin|]. apply Hww0. exact Hwin. }
  assert (Hsub : forall w, inside (alo, ahi, blo, bhi) w -> apart (span (i, j, k)) w ->
            Forall (fun x => apart (span x) w) (blocks ++ [(i, j, k)])
            /\ Forall (apart w) q).
  { intros w Hi Ha. split.
    - apply Forall_app. split.
      + eapply Forall_impl; [|exact Hwb0]. intros x Hx.
        eapply apart_inside_r; [exact Hi|exact Hx].
      + constructor; [exact Ha|constructor].
    - eapply Forall_impl; [|exact Hww0]. intros x Hx.
      eapply apart_inside_l; [exact Hi|exact Hx]. }
  apply IH.
  - assert (V1 : win_ok a b (alo, i, blo, j)) by (cbn; lia).
    assert (V2 : win_ok a b (i + k, ahi, j + k, bhi)) by (cbn; lia).
    destruct ((alo <? i) && (blo <? j)); destruct ((i + k <? ahi) && (j + k <? bhi));
      repeat (apply Forall_cons; [assumption|]); assumption.
  - apply Forall_app. split; [exact Hb|]. constructor; [|constructor].
    cbn. split; [lia|exact Hs].
  - apply FOP_snoc; assumption.
  - destruct (Hsub (alo, i, blo, j)) as [S1 S2]; [cbn; lia|right; cbn; lia|].
    destruct (Hsub (i + k, ahi, j + k, bhi)) as [S3 S4]; [cbn; lia|left; cbn; lia|].
    destruct ((alo <? i) && (blo <? j)); destruct ((i + k <? ahi) && (j + k <? bhi));
      repeat (apply Forall_cons; [assumption|]); assumption.
  - destruct (Hsub (alo, i, blo, j)) as [S1 S2]; [cbn; lia|right; cbn; lia|].
    destruct (Hsub (i + k, ahi, j + k, bhi)) as [S3 S4]; [cbn; lia|left; cbn; lia|].
    assert (S5 : apart (i + k, ahi, j + k, bhi) (alo, i, blo, j)) by (right; cbn; lia).
    destruct ((alo <? i) && (blo <? j)); destruct ((i + k <? ahi) && (j + k <? bhi));
      repeat (apply FOP_cons; [repeat (apply Forall_cons; [assumption|]); assumption|]);
      assumption.
Qed.

Lemma insert_sorted_Forall : forall (P : block -> Prop) x l,
  P x -> Forall P l -> Forall P (insert_sorted x l).
Proof.
  intros P x l Hx H. induction H as [|y l Hy Hl IH]; cbn [insert_sorted].
  - constructor; [exact Hx|constructor].
  - destruct (block_leb x y); constructor; auto.
Qed.

Lemma sort_blocks_Forall : forall (P : block -> Prop) l,
  Forall P l -> Forall P (sort_blocks l).
Proof.
  intros P l H. induction H as [|x l Hx Hl IH]; [constructor|].
  cbn [sort_blocks fold_right]. apply insert_sorted_Forall; assumption.
Qed.

(** A block that meets none of a chain takes its place in it. *)
Lemma insert_chain : forall x l i j,
  blk_ok a b x -> Forall (blk_ok a b) l -> Forall (blocks_apart x) l ->
  chain a b i j l -> i <= fst (fst x) -> j <= snd (fst x) ->
  chain a b i j (insert_sorted x l).
Proof.
  intros [[xi xj] xk] l. induction l as [|[[yi yj] yk] r IH]; intros i j Hx Hl Ha Hc Hi Hj;
    cbn [fst snd] in Hi, Hj; destruct Hx as [Hk Hs].
  - cbn. auto.
  - inversion Hl as [|? ? Hy Hlr]; subst. destruct Hy as [Hyk Hys].
    inversion Ha as [|? ? Hay Har]; subst.
    cbn [chain] in Hc. destruct Hc as [C1 [C2 [C3 C4]]].
    cbn [insert_sorted block_leb].
    destruct Hay as [Hb|Hb]; unfold before, span in Hb.
    + replace (xi <? yi) with true by (symmetry; apply Nat.ltb_lt; lia).
      cbn [orb]. cbn [chain].
      refine (conj _ (conj _ (conj Hs (conj _ (conj _ (conj Hys C4)))))); lia.
    + replace (xi <? yi) with false by (symmetry; apply Nat.ltb_ge; lia).
      replace (Nat.eqb xi yi) with false by (symmetry; apply Nat.eqb_neq; lia).
      cbn [orb andb]. cbn [chain].
      refine (conj C1 (conj C2 (conj Hys _))).
      apply IH; try assumption; cbn [fst snd]; try lia. split; assumption.
Qed.

Lemma sort_blocks_chain : forall l,
  Forall (blk_ok a b) l -> ForallOrdPairs blocks_apart l ->
  chain a b 0 0 (sort_blocks l).
Proof.
  intros l Hl H. induction H as [|x l Hx Hp IH]; [exact I|].
  inversion Hl; subst. cbn [sort_blocks fold_right].
  apply insert_chain; try assumption; try lia.
  - apply sort_blocks_Forall. assumption.
  - apply sort_blocks_Forall. assumption.
  - apply IH. assumption.
Qed.

Lemma same_join : forall i j k1 k2,
  same a b i j k1 -> same a b (i + k1) (j + k1) k2 -> same a b i j (k1 + k2).
Proof.
  intros i j k1 k2 [A1 [A2 A3]] [B1 [B2 B3]]. unfold same. repeat split; try lia.
  intros t Ht. destruct (Nat.lt_ge_cases t k1) as [Hlt|Hge]; [apply A3; exact Hlt|].
  replace (i + t) with (i + k1 + (t - k1)) by lia.
  replace (j + t) with (j + k1 + (t - k1)) by lia. apply B3. lia.
Qed.

Lemma collapse_chain : forall l i1 j1 k1 i j,
  i <= i1 -> j <= j1 -> same a b i1 j1 k1 -> chain a b (i1 + k1) (j1 + k1) l ->
  chain a b i j (collapse (i1, j1, k1) l).
Proof.
  induction l as [|[[i2 j2] k2] r IH]; intros i1 j1 k1 i j Hi Hj Hs Hc.
  - cbn [collapse]. destruct (Nat.eqb k1 0); cbn; auto.
  - cbn [chain] in Hc. destruct Hc as [C1 [C2 [C3 C4]]]. cbn [collapse].
    destruct (Nat.eqb (i1 + k1) i2 && Nat.eqb (j1 + k1) j2) eqn:E.
    + apply andb_true_iff in E. destruct E as [E1 E2].
      apply Nat.eqb_eq in E1. apply Nat.eqb_eq in E2. subst i2 j2.
      apply IH; try assumption.
      * apply same_join; assumption.
      * rewrite !Nat.add_assoc. exact C4.
    + destruct (Nat.eqb k1 0).
      * cbn [app]. apply IH; try assumption; lia.
      * cbn [app chain]. refine (conj Hi (conj Hj (conj Hs _))).
        apply IH; try assumption; lia.
Qed.

Lemma chain_snoc : forall l i j,
  i <= List.length a -> j <= List.length b -> chain a b i j l ->
  chain a b i j (l ++ [(List.length a, List.length b, 0)]).
Proof.
  induction l as [|[[bi bj] k] r IH]; intros i j Hi Hj Hc.
  - cbn. unfold same. repeat split; try lia.
  - cbn [chain] in Hc. destruct Hc as [C1 [C2 [C3 C4]]]. cbn [app chain].
    refine (conj C1 (conj C2 (conj C3 _))).
    destruct C3 as [S1 [S2 _]]. apply IH; try assumption; lia.
Qed.

(** The matching blocks are blocks of equal lines in increasing order, up
    to the sentinel. *)
Lemma matching_blocks_chain : exists l,
  get_matching_blocks a b = l ++ [(List.length a, List.length b, 0)]
  /\ chain a b 0 0 (get_matching_blocks a b).
Proof.
  unfold get_matching_blocks. cbv zeta.
  set (blocks := mb_loop a b _ _ _).
  exists (collapse (0, 0, 0) (sort_blocks blocks)). split; [reflexivity|].
  destruct (@mb_loop_inv (2 * List.length a + 1) [(0, List.length a, 0, List.length b)] [])
    as [H1 H2].
  - constructor; [cbn; lia|constructor].
  - constructor.
  - constructor.
  - constructor; constructor.
  - constructor; constructor.
  - apply chain_snoc; try lia. apply collapse_chain; try lia.
    + unfold same. repeat split; try lia.
    + apply sort_blocks_chain; assumption.
Qed.

Lemma opcodes_go_tiles : forall l i j,
  chain a b i j (l ++ [(List.length a, List.length b, 0)]) ->
  tiles a b i j (opcodes_go i j (l ++ [(List.length a, List.length b, 0)]))
        (List.length a) (List.length b).
Proof.
  induction l as [|[[bi bj] k] r IH]; intros i j Hc.
  - cbn [app chain] in Hc. destruct Hc as [C1 [C2 [C3 _]]]. cbn [app opcodes_go Nat.eqb].
    destruct (Nat.ltb_spec i (List.length a)) as [E1|E1];
      destruct (Nat.ltb_spec j (List.length b)) as [E2|E2];
      cbn [andb app tiles op_ok]; repeat split; lia.
  - cbn [app chain] in Hc. destruct Hc as [C1 [C2 [C3 C4]]]. cbn [app opcodes_go].
    specialize (IH _ _ C4).
    assert (Hsame : tiles a b bi bj
              ((if Nat.eqb k 0 then [] else [(Equal, bi, bi + k, bj, bj + k)])
               ++ opcodes_go (bi + k) (bj + k) (r ++ [(List.length a, List.length b, 0)]))
              (List.length a) (List.length b)).
    { destruct (Nat.eqb k 0) eqn:Ek.
      - apply Nat.eqb_eq in Ek. subst k. rewrite !Nat.add_0_r in *. exact IH.
      - apply Nat.eqb_neq in Ek. cbn [app tiles op_ok].
        replace (bi + k - bi) with k by lia.
        refine (conj eq_refl (conj eq_refl (conj (conj _ (conj C3 eq_refl)) IH))). lia. }
    destruct C3 as [S1 [S2 S3]].
    destruct (Nat.ltb_spec i bi) as [E1|E1]; destruct (Nat.ltb_spec j bj) as [E2|E2];
      cbn [andb app tiles op_ok].
    + refine (conj eq_refl (conj eq_refl (conj _ Hsame))). lia.
    + replace j with bj in * by lia.
      refine (conj eq_refl (conj eq_refl (conj _ Hsame))). lia.
    + replace i with bi in * by lia.
      refine (conj eq_refl (conj eq_refl (conj _ Hsame))). lia.
    + replace i with bi by lia. replace j with bj by lia. exact Hsame.
Qed.

(** The opcodes cover both sequences without gap. *)
Lemma get_opcodes_tiles :
  tiles a b 0 0 (get_opcodes a b) (List.length a) (List.length b).
Proof.
  unfold get_opcodes. destruct matching_blocks_chain as [l [E H]].
  rewrite E in *. apply opcodes_go_tiles. exact H.
Qed.

End Seqs.
End BlockFacts.

(** The groups of get_grouped_opcodes. *)
Module GroupFacts.
Import Py PyFacts Difflib Script MatchFacts BlockFacts.

Section Seqs.
Variables a b : list pystr.

Lemma same_part : forall i j k d k',
  same a b i j k -> d + k' <= k -> same a b (i + d) (j + d) k'.
Proof.
  intros i j k d k' [S1 [S2 S3]] H. unfold same. repeat split; try lia.
  intros t Ht. rewrite <- !Nat.add_assoc. apply S3. lia.
Qed.

Lemma same_zero : forall i j,
  i <= List.length a -> j <= List.length b -> same a b i j 0.
Proof. intros i j Hi Hj. unfold same. repeat split; try lia. Qed.

Lemma tiles_app : forall l1 l2 i j im jm ie je,
  tiles a b i j l1 im jm -> tiles a b im jm l2 ie je -> tiles a b i j (l1 ++ l2) ie je.
Proof.
  induction l1 as [|[[[[t i1] i2] j1] j2] r IH]; intros l2 i j im jm ie je H1 H2.
  - cbn [tiles] in H1. destruct H1; subst. exact H2.
  - cbn [tiles] in H1. destruct H1 as [E1 [E2 [Ho Hr]]]. cbn [app tiles].
    refine (conj E1 (conj E2 (conj Ho _))). eapply IH; eassumption.
Qed.

Lemma starts_ok_app : forall i g r, g <> [] -> starts_ok i (g ++ r) -> starts_ok i g.
Proof. intros i [|op g] r Hg H; [congruence|exact H]. Qed.

Lemma starts_ok_grow : forall i g op r, starts_ok i (g ++ op :: r) -> starts_ok i ((g ++ [op]) ++ r).
Proof. intros i g op r H. rewrite <- app_assoc. exact H. Qed.

(** The loop of get_grouped_opcodes, from any state it can be in. *)
Lemma group_loop_ok : forall n codes grp i0 j0 k i j ie je ke,
  0 < n ->
  same a b i0 j0 k ->
  tiles a b (i0 + k) (j0 + k) grp i j ->
  starts_ok (i0 + k) (grp ++ codes) ->
  tiles a b i j codes ie je ->
  same a b ie je ke -> ie + ke = List.length a -> je + ke = List.length b ->
  hunks_ok a b i0 j0 (group_loop n codes grp).
Proof.
  intros n. induction codes as [|[[[[t i1] i2] j1] j2] r IH];
    intros grp i0 j0 k i j ie je ke Hn Hk Hg Hs Hc He Ha Hb.
  - cbn [tiles] in Hc. destruct Hc; subst ie je. rewrite app_nil_r in Hs.
    assert (Hone : hunks_ok a b i0 j0 [grp] \/ grp = []).
    { destruct grp as [|op g]; [right; reflexivity|left].
      cbn [hunks_ok]. exists k, i, j.
      refine (conj Hk (conj _ (conj Hg (conj Hs _)))); [discriminate|].
      exists ke. auto. }
    assert (Hnone : (grp = [] \/ exists x1 x2 y1 y2, grp = [(Equal, x1, x2, y1, y2)]) ->
                    hunks_ok a b i0 j0 []).
    { intros [->|[x1 [x2 [y1 [y2 ->]]]]]; cbn [hunks_ok].
      - cbn [tiles] in Hg. destruct Hg; subst i j. exists (k + ke).
        split; [apply same_join; assumption|lia].
      - cbn [tiles op_ok] in Hg. destruct Hg as [E1 [E2 [[O1 [O2 O3]] [E3 E4]]]].
        subst x1 y1 i j. exists (k + ((x2 - (i0 + k)) + ke)).
        split; [|lia]. apply same_join; [exact Hk|]. apply same_join; [exact O2|].
        replace (i0 + k + (x2 - (i0 + k))) with x2 by lia.
        rewrite <- O3. exact He. }
    cbn [group_loop].
    destruct grp as [|[[[[t x1] x2] y1] y2] [|op2 g]].
    + apply Hnone. left. reflexivity.
    + destruct t; try (destruct Hone as [H|H]; [exact H|discriminate]).
      apply Hnone. right. repeat eexists.
    + destruct t; destruct Hone as [H|H]; try exact H; discriminate.
  - cbn [tiles] in Hc. destruct Hc as [E1 [E2 [Ho Hr]]]. subst i1 j1.
    cbn [group_loop].
    destruct (is_equal_tag t && (n + n <? i2 - i)) eqn:E.
    + apply andb_true_iff in E. destruct E as [Et E]. apply Nat.ltb_lt in E.
      destruct t; try discriminate. cbn [op_ok] in Ho. destruct Ho as [O1 [O2 O3]].
      replace (Nat.min i2 (i + n)) with (i + n) by lia.
      replace (Nat.min j2 (j + n)) with (j + n) by lia.
      replace (Nat.max i (i2 - n)) with (i2 - n) by lia.
      replace (Nat.max j (j2 - n)) with (j2 - n) by lia.
      cbn [hunks_ok]. exists k, (i + n), (j + n).
      refine (conj Hk (conj _ (conj _ (conj _ _)))).
      * intros H. apply app_eq_nil in H. destruct H; discriminate.
      * eapply tiles_app; [exact Hg|]. cbn [tiles op_ok].
        replace (i + n - i) with n by lia.
        refine (conj eq_refl (conj eq_refl (conj (conj _ (conj _ eq_refl)) (conj eq_refl eq_refl)))).
        -- lia.
        -- pose proof (@same_part i j (i2 - i) 0 n O2) as H.
           rewrite !Nat.add_0_r in H. apply H. lia.
      * destruct grp as [|op g]; [|exact Hs].
        cbn [app]. destruct Hs as [Hs|Hs]; [left; exact Hs|right; lia].
      * assert (Hmid : same a b (i + n) (j + n) (i2 - n - (i + n))).
        { apply (@same_part i j (i2 - i) n); [exact O2|lia]. }
        apply (IH [(Equal, i2 - n, i2, j2 - n, j2)] (i + n) (j + n) (i2 - n - (i + n))
                 i2 j2 ie je ke Hn Hmid); try assumption.
        -- replace (i + n + (i2 - n - (i + n))) with (i2 - n) by lia.
           replace (j + n + (i2 - n - (i + n))) with (j2 - n) by lia.
           cbn [tiles op_ok].
           refine (conj eq_refl (conj eq_refl (conj (conj _ (conj _ _)) (conj eq_refl eq_refl)))).
           ++ lia.
           ++ replace (i2 - (i2 - n)) with n by lia.
              pose proof (@same_part i j (i2 - i) (i2 - n - i) n O2) as H.
              replace (i + (i2 - n - i)) with (i2 - n) in H by lia.
              replace (j + (i2 - n - i)) with (j2 - n) in H by lia.
              apply H. lia.
           ++ lia.
        -- right. cbn [app]. lia.
    + apply (IH (grp ++ [(t, i, i2, j, j2)]) i0 j0 k i2 j2 ie je ke Hn Hk); try assumption.
      * eapply tiles_app; [exact Hg|]. cbn [tiles].
        refine (conj eq_refl (conj eq_refl (conj Ho (conj eq_refl eq_refl)))).
      * apply starts_ok_grow. exact Hs.
Qed.

Lemma fix_first_ok : forall n codes ie je,
  0 < n -> tiles a b 0 0 codes ie je ->
  exists k, same a b 0 0 k /\ tiles a b k k (fix_first n codes) ie je
            /\ starts_ok k (fix_first n codes).
Proof.
  intros n codes ie je Hn H.
  assert (Hplain : exists k, same a b 0 0 k /\ tiles a b k k codes ie je /\ starts_ok k codes).
  { exists 0. refine (conj _ (conj H _)); [apply same_zero; lia|left; reflexivity]. }
  destruct codes as [|[[[[t i1] i2] j1] j2] r]; [exact Hplain|].
  destruct t; try exact Hplain.
  cbn [fix_first]. cbn [tiles op_ok] in H. destruct H as [E1 [E2 [[O1 [O2 O3]] Hr]]].
  subst i1 j1. rewrite Nat.sub_0_r in *. rewrite !Nat.max_0_l. cbn [Nat.add] in O3. subst j2.
  exists (i2 - n). split; [|split].
  - pose proof (@same_part 0 0 i2 0 (i2 - n) O2) as H. apply H. lia.
  - cbn [tiles op_ok].
    refine (conj eq_refl (conj eq_refl (conj (conj _ (conj _ _)) Hr))); try lia.
    pose proof (@same_part 0 0 i2 (i2 - n) (i2 - (i2 - n)) O2) as H. apply H. lia.
  - right. lia.
Qed.

Lemma fix_last_ok : forall n codes i j ie je,
  0 < n -> tiles a b i j codes ie je ->
  ie = List.length a -> je = List.length b ->
  exists ie' je' ke, tiles a b i j (fix_last n codes) ie' je'
    /\ same a b ie' je' ke /\ ie' + ke = List.length a /\ je' + ke = List.length b.
Proof.
  intros n. induction codes as [|[[[[t i1] i2] j1] j2] r IH]; intros i j ie je Hn H Ha Hb.
  - exists ie, je, 0. cbn [tiles] in H. destruct H; subst i j.
    refine (conj _ (conj _ (conj _ _))); try lia.
    + cbn. auto.
    + apply same_zero; lia.
  - cbn [tiles] in H. destruct H as [E1 [E2 [Ho Hr]]]. subst i1 j1.
    assert (Hkeep : r <> [] \/ t <> Equal ->
              exists ie' je' ke,
                tiles a b i j ((t, i, i2, j, j2) :: fix_last n r) ie' je'
                /\ same a b ie' je' ke /\ ie' + ke = List.length a
                /\ je' + ke = List.length b).
    { intros _. destruct (IH i2 j2 ie je Hn Hr Ha Hb) as [ie' [je' [ke [T [S [A B]]]]]].
      exists ie', je', ke. cbn [tiles]. auto. }
    destruct r as [|op r'].
    + destruct t; try (cbn [fix_last]; apply Hkeep; right; discriminate).
      cbn [fix_last]. cbn [tiles] in Hr. destruct Hr; subst ie je.
      cbn [op_ok] in Ho. destruct Ho as [O1 [O2 O3]].
      exists (Nat.min i2 (i + n)), (Nat.min j2 (j + n)), (i2 - Nat.min i2 (i + n)).
      cbn [tiles op_ok].
      refine (conj (conj eq_refl (conj eq_refl (conj (conj _ (conj _ _)) (conj eq_refl eq_refl))))
                   (conj _ (conj _ _))); try lia.
      * pose proof (@same_part i j (i2 - i) 0 (Nat.min i2 (i + n) - i) O2) as H.
        rewrite !Nat.add_0_r in H. apply H. lia.
      * pose proof (@same_part i j (i2 - i) (Nat.min i2 (i + n) - i)
                      (i2 - Nat.min i2 (i + n)) O2) as H.
        replace (i + (Nat.min i2 (i + n) - i)) with (Nat.min i2 (i + n)) in H by lia.
        replace (j + (Nat.min i2 (i + n) - i)) with (Nat.min j2 (j + n)) in H by lia.
        apply H. lia.
    + destruct t; cbn [fix_last]; apply Hkeep; left; discriminate.
Qed.

Lemma fix_last_starts : forall n codes i, 0 < n ->
  starts_ok i codes -> starts_ok i (fix_last n codes).
Proof.
  intros n codes i Hn [H|H]; [left; exact H|]. right.
  destruct codes as [|[[[[t i1] i2] j1] j2] [|op r]]; [exact I| |destruct t; exact H].
  destruct t; try exact H. cbn [fix_last]. lia.
Qed.

(** The groups of a diff with three lines of context: between two groups,
    before the first and after the last, the two sequences have the same
    lines. *)
Lemma grouped_opcodes_ok : hunks_ok a b 0 0 (get_grouped_opcodes a b 3).
Proof.
  unfold get_grouped_opcodes. pose proof (get_opcodes_tiles a b) as H.
  destruct (get_opcodes a b) as [|op r] eqn:E.
  - cbn [tiles] in H. destruct H as [Ha Hb].
    cbn. exists 0. split; [apply same_zero; lia|lia].
  - destruct (@fix_first_ok 3 (op :: r) _ _ ltac:(lia) H) as [k [Hk [T S]]].
    destruct (@fix_last_ok 3 _ _ _ _ _ ltac:(lia) T eq_refl eq_refl)
      as [ie' [je' [ke [T' [Se [A B]]]]]].
    apply (@group_loop_ok 3 (fix_last 3 (fix_first 3 (op :: r))) [] 0 0 k k k ie' je' ke);
      try assumption; try lia.
    + cbn. auto.
    + cbn [app]. apply fix_last_starts; [lia|exact S].
Qed.

Lemma same_all : forall k, same a b 0 0 k -> k = List.length a -> k = List.length b -> a = b.
Proof.
  intros k [_ [_ H]] Ha Hb. apply (nth_ext a b [] []); [lia|].
  intros n Hn. apply (H n). lia.
Qed.

(** No group: the two sequences are the same. *)
Lemma no_group_same : get_grouped_opcodes a b 3 = [] -> a = b.
Proof.
  intros E. pose proof grouped_opcodes_ok as H. rewrite E in H.
  destruct H as [k [S [A B]]]. apply (@same_all k); [exact S|lia|lia].
Qed.

End Seqs.
End GroupFacts.

(** str(n) and int(s) *)
Module NumberFacts.
Import Py PyFacts.

Lemma digit_chars : forall d : Decimal.uint,
  map N_of_ascii (list_ascii_of_string (NilEmpty.string_of_uint d))
  = match d with
    | Decimal.Nil => []
    | Decimal.D0 r => 48%N :: map N_of_ascii (list_ascii_of_string (NilEmpty.string_of_uint r))
    | Decimal.D1 r => 49%N :: map N_of_ascii (list_ascii_of_string (NilEmpty.string_of_uint r))
    | Decimal.D2 r => 50%N :: map N_of_ascii (list_ascii_of_string (NilEmpty.string_of_uint r))
    | Decimal.D3 r => 51%N :: map N_of_ascii (list_ascii_of_string (NilEmpty.string_of_uint r))
    | Decimal.D4 r => 52%N :: map N_of_ascii (list_ascii_of_string (NilEmpty.string_of_uint r))
    | Decimal.D5 r => 53%N :: map N_of_ascii (list_ascii_of_string (NilEmpty.string_of_uint r))
    | Decimal.D6 r => 54%N :: map N_of_ascii (list_ascii_of_string (NilEmpty.string_of_uint r))
    | Decimal.D7 r => 55%N :: map N_of_ascii (list_ascii_of_string (NilEmpty.string_of_uint r))
    | Decimal.D8 r => 56%N :: map N_of_ascii (list_ascii_of_string (NilEmpty.string_of_uint r))
    | Decimal.D9 r => 57%N :: map N_of_ascii (list_ascii_of_string (NilEmpty.string_of_uint r))
    end.
Proof. destruct d; reflexivity. Qed.

Section WithRuntime.
Context {RT : Runtime}.

(** Reading the digits of a numeral after the digits read so far. *)
(** Reading the digits of a numeral after the digits read so far. *)
Lemma read_after : forall (d : Decimal.uint) (p : positive),
  fold_left (fun acc c => match decimal_value c with
                          | Some v => (10 * acc + v)%N
                          | None => acc
                          end)
            (map N_of_ascii (list_ascii_of_string (NilEmpty.string_of_uint d))) (Npos p)
  = Npos (Pos.of_uint_acc d p).
Proof.
  induction d as [|d IH|d IH|d IH|d IH|d IH|d IH|d IH|d IH|d IH|d IH]; intros p;
    rewrite digit_chars; [reflexivity|..];
    cbn [fold_left Pos.of_uint_acc];
    match goal with
    | |- fold_left _ _ ?x = Npos (Pos.of_uint_acc _ ?q) =>
        replace x with (Npos q); [apply IH|]
    end;
    match goal with
    | |- context [decimal_value ?c] =>
        let v := eval vm_compute in (decimal_value c) in
        change (decimal_value c) with v
    end; cbv iota; lia.
Qed.

Lemma read_numeral : forall d : Decimal.uint,
  fold_left (fun acc c => match decimal_value c with
                          | Some v => (10 * acc + v)%N
                          | None => acc
                          end)
            (map N_of_ascii (list_ascii_of_string (NilEmpty.string_of_uint d))) 0%N
  = N.of_uint d.
Proof.
  induction d as [|d IH|d IH|d IH|d IH|d IH|d IH|d IH|d IH|d IH|d IH];
    rewrite digit_chars; [reflexivity|exact IH|..];
    cbn [fold_left]; apply (read_after d).
Qed.

(** int(str(n)) is n. *)
Lemma int_of_str : forall n, int_of_digits (str_of_N n) = n.
Proof.
  intros n. unfold int_of_digits, str_of_N. rewrite read_numeral.
  apply DecimalN.Unsigned.of_to.
Qed.

Lemma numeral_digits : forall d : Decimal.uint,
  forallb is_digit (map N_of_ascii (list_ascii_of_string (NilEmpty.string_of_uint d))) = true.
Proof.
  induction d as [|d IH|d IH|d IH|d IH|d IH|d IH|d IH|d IH|d IH|d IH];
    rewrite digit_chars; [reflexivity|..]; cbn [forallb]; rewrite IH; reflexivity.
Qed.

Lemma numeral_forall : forall (P : char -> bool) (d : Decimal.uint),
  forallb P (lit "0123456789") = true ->
  forallb P (map N_of_ascii (list_ascii_of_string (NilEmpty.string_of_uint d))) = true.
Proof.
  intros P d H. cbn in H. repeat (apply andb_true_iff in H; destruct H as [? H]).
  induction d as [|d IH|d IH|d IH|d IH|d IH|d IH|d IH|d IH|d IH|d IH];
    rewrite digit_chars; [reflexivity|..]; cbn [forallb]; rewrite IH;
    apply andb_true_iff; split; try reflexivity; assumption.
Qed.

Lemma str_of_N_forall : forall (P : char -> bool) n,
  forallb P (lit "0123456789") = true -> forallb P (str_of_N n) = true.
Proof. intros P n H. apply numeral_forall. exact H. Qed.

Lemma str_of_N_digits : forall n, forallb is_digit (str_of_N n) = true.
Proof. intros n. apply numeral_digits. Qed.

Lemma str_of_N_nonempty : forall n, str_of_N n <> [].
Proof.
  intros n E. pose proof (int_of_str n) as H. rewrite E in H. cbn in H. subst n.
  discriminate E.
Qed.

End WithRuntime.
End NumberFacts.

(** _HUNK_RE matches the headers difflib writes. *)
Module HunkHeaderFacts.
Import Py PyFacts Re ReSem Apply ApplyLoops NumberFacts Ranges.

Section WithRuntime.
Context {RT : Runtime}.

Lemma seq_intro : forall a b st k x,
  run a st (fun st1 => run b st1 k) = Some x -> run (Seq a b) st k = Some x.
Proof. intros a b st k x H. exact H. Qed.

Lemma bol_intro : forall r g k x,
  k (MState 0 r g) = Some x -> run Bol (MState 0 r g) k = Some x.
Proof. intros r g k x H. exact H. Qed.

Lemma eol_intro : forall p g k x,
  k (MState p [] g) = Some x -> run Eol (MState p [] g) k = Some x.
Proof. intros p g k x H. exact H. Qed.

Lemma cls_intro : forall (P : char -> bool) c r p g k x,
  P c = true -> k (MState (S p) r g) = Some x ->
  run (Cls P) (MState p (c :: r) g) k = Some x.
Proof. intros P c r p g k x Hc H. cbn [run rest pos groups]. rewrite Hc. exact H. Qed.

Lemma star_loop_S : forall ra k f st0,
  star_loop ra k (S f) st0
  = match ra st0 (fun st1 =>
            if List.length (rest st1) <? List.length (rest st0)
            then star_loop ra k f st1 else None) with
    | Some x => Some x
    | None => k st0
    end.
Proof. reflexivity. Qed.

(** A greedy star over a class takes every character of the class, when
    what follows matches from there. *)
Lemma star_loop_cls : forall (P : char -> bool) r g k x,
  match r with [] => True | c :: _ => P c = false end ->
  forall ds fuel p,
    forallb P ds = true -> List.length ds < fuel ->
    k (MState (p + List.length ds) r g) = Some x ->
    star_loop (run (Cls P)) k fuel (MState p (ds ++ r) g) = Some x.
Proof.
  intros P r g k x Hr. induction ds as [|d ds IH]; intros fuel p Hd Hf Hk.
  - destruct fuel as [|f]; [cbn in Hf; lia|]. rewrite star_loop_S. cbn [app].
    cbn [List.length] in Hk. rewrite Nat.add_0_r in Hk.
    assert (Hnone : forall K, run (Cls P) (MState p r g) K = None).
    { intros K. cbn [run rest]. destruct r as [|c r']; [reflexivity|]. rewrite Hr. reflexivity. }
    rewrite Hnone. exact Hk.
  - destruct fuel as [|f]; [cbn in Hf; lia|]. rewrite star_loop_S. cbn [app].
    cbn [forallb] in Hd. apply andb_true_iff in Hd. destruct Hd as [Hd Hds].
    set (L := star_loop (run (Cls P)) k f).
    cbn [run rest pos groups]. rewrite Hd.
    replace (List.length (ds ++ r) <? List.length (d :: ds ++ r)) with true
      by (symmetry; apply Nat.ltb_lt; cbn [List.length]; lia).
    subst L. rewrite (IH f (S p)); [reflexivity|exact Hds|cbn [List.length] in Hf; lia|].
    cbn [List.length] in Hk. replace (S p + List.length ds) with (p + S (List.length ds)) by lia.
    exact Hk.
Qed.

Lemma star_intro : forall (P : char -> bool) ds r p g k x,
  forallb P ds = true ->
  match r with [] => True | c :: _ => P c = false end ->
  k (MState (p + List.length ds) r g) = Some x ->
  run (Star (Cls P)) (MState p (ds ++ r) g) k = Some x.
Proof.
  intros P ds r p g k x Hd Hr Hk.
  change (run (Star (Cls P)) (MState p (ds ++ r) g) k)
    with (star_loop (run (Cls P)) k (S (List.length (ds ++ r))) (MState p (ds ++ r) g)).
  apply star_loop_cls; try assumption. rewrite length_app. lia.
Qed.

Lemma plus_intro : forall (P : char -> bool) d r p g k x,
  d <> [] -> forallb P d = true ->
  match r with [] => True | c :: _ => P c = false end ->
  k (MState (p + List.length d) r g) = Some x ->
  run (plus (Cls P)) (MState p (d ++ r) g) k = Some x.
Proof.
  intros P [|c ds] r p g k x Hn Hd Hr Hk; [congruence|].
  cbn [forallb] in Hd. apply andb_true_iff in Hd. destruct Hd as [Hc Hds].
  unfold plus. apply seq_intro. cbn [app]. apply cls_intro; [exact Hc|].
  apply star_intro; try assumption.
  cbn [List.length] in Hk. replace (S p + List.length ds) with (p + S (List.length ds)) by lia.
  exact Hk.
Qed.

Lemma grp_digits_intro : forall n d r p g k x,
  digits d ->
  match r with [] => True | c :: _ => is_digit c = false end ->
  k (MState (p + List.length d) r ((n, d) :: g)) = Some x ->
  run (Grp n (plus digit)) (MState p (d ++ r) g) k = Some x.
Proof.
  intros n d r p g k x [Hn Hd] Hr Hk. cbn [run]. unfold digit.
  apply plus_intro; try assumption.
  unfold set_group. cbn [pos rest groups].
  replace (p + List.length d - p) with (List.length d) by lia.
  rewrite firstn_app, Nat.sub_diag, firstn_all, firstn_O, app_nil_r. exact Hk.
Qed.

(** A range, then whatever is not a digit nor a comma. *)
Lemma range_intro : forall n1 n2 d o c r p g k x,
  digits d -> digits_opt o ->
  is_digit c = false -> char_eqb (ch ",") c = false ->
  k (MState (p + List.length (range_text d o)) (c :: r)
       (range_groups n2 o ++ (n1, d) :: g)) = Some x ->
  run (Grp n1 (plus digit)) (MState p (range_text d o ++ c :: r) g)
      (fun st1 => run (opt (Seq (chr (ch ",")) (Grp n2 (plus digit)))) st1 k) = Some x.
Proof.
  intros n1 n2 d o c r p g k x Hd Ho Hc Hcomma Hk. unfold range_text in *.
  rewrite <- app_assoc. destruct o as [e|]; cbn [range_groups app] in *.
  - apply grp_digits_intro; [exact Hd|reflexivity|].
    unfold opt. cbn [run]. fold (run (Grp n2 (plus digit))).
    assert (H : run (chr (ch ",")) (MState (p + List.length d) (ch "," :: e ++ c :: r) ((n1, d) :: g))
                  (fun st1 => run (Grp n2 (plus digit)) st1 k) = Some x).
    { apply cls_intro; [reflexivity|]. apply grp_digits_intro; [exact Ho|exact Hc|].
      rewrite length_app in Hk. cbn [List.length] in Hk.
      replace (S (p + List.length d) + List.length e)
        with (p + (List.length d + S (List.length e))) by lia.
      exact Hk. }
    cbn [run] in H. cbn [run]. rewrite H. reflexivity.
  - rewrite app_nil_r in Hk. apply grp_digits_intro; [exact Hd|exact Hc|].
    unfold opt. cbn [run rest]. unfold chr at 1. cbn [run rest]. rewrite Hcomma. exact Hk.
Qed.

Lemma range_seq_intro : forall n1 n2 rest_re d o c r p g k x,
  digits d -> digits_opt o ->
  is_digit c = false -> char_eqb (ch ",") c = false ->
  run rest_re (MState (p + List.length (range_text d o)) (c :: r)
                 (range_groups n2 o ++ (n1, d) :: g)) k = Some x ->
  run (Seq (Grp n1 (plus digit))
           (Seq (opt (Seq (chr (ch ",")) (Grp n2 (plus digit)))) rest_re))
      (MState p (range_text d o ++ c :: r) g) k = Some x.
Proof.
  intros n1 n2 rest_re d o c r p g k x Hd Ho Hc Hcomma Hk.
  apply seq_intro.
  exact (@range_intro n1 n2 d o c r p g (fun st2 => run rest_re st2 k) x Hd Ho Hc Hcomma Hk).
Qed.

(** _HUNK_RE matches a header made of two ranges, and its first group is
    the first number. *)
Lemma hunk_header_matches : forall d1 o1 d3 o3,
  digits d1 -> digits_opt o1 -> digits d3 -> digits_opt o3 ->
  exists m,
    rmatch _HUNK_RE (lit "@@ -" ++ range_text d1 o1 ++ lit " +" ++ range_text d3 o3 ++ lit " @@")
    = Some m
    /\ group 1 m = Some d1.
Proof.
  intros d1 o1 d3 o3 H1 Ho1 H3 Ho3. eexists. split.
  - unfold rmatch, _HUNK_RE. cbn [seq].
    change (lit "@@ -") with [64; 64; 32; 45]%N.
    change (lit " +") with [32; 43]%N.
    change (lit " @@") with [32; 64; 64]%N.
    change (word (lit "@@")) with (Seq (chr 64%N) (chr 64%N)).
    change (ch "-") with 45%N. change (ch "+") with 43%N.
    cbn [app].
    apply seq_intro. apply bol_intro.
    apply seq_intro. apply seq_intro.
    apply cls_intro; [reflexivity|]. apply cls_intro; [reflexivity|].
    apply seq_intro. apply (@plus_intro is_space [32%N]); [discriminate|reflexivity|reflexivity|].
    apply seq_intro. apply cls_intro; [reflexivity|].
    apply range_seq_intro; [exact H1|exact Ho1|reflexivity|reflexivity|].
    apply seq_intro. apply (@plus_intro is_space [32%N]); [discriminate|reflexivity|reflexivity|].
    apply seq_intro. apply cls_intro; [reflexivity|].
    apply range_seq_intro; [exact H3|exact Ho3|reflexivity|reflexivity|].
    apply seq_intro. apply (@plus_intro is_space [32%N]); [discriminate|reflexivity|reflexivity|].
    apply seq_intro.
    apply cls_intro; [reflexivity|]. apply cls_intro; [reflexivity|].
    apply eol_intro. reflexivity.
  - destruct o1, o3; reflexivity.
Qed.

End WithRuntime.
End HunkHeaderFacts.

Module WholeFacts.
Import Py PyFacts WholeLines.

Lemma keep_acc_plain : forall body t cur,
  no_break body = true ->
  splitlines_keep_acc (body ++ t) cur = splitlines_keep_acc t (rev body ++ cur).
Proof.
  induction body as [|c body IH]; intros t cur H; [reflexivity|].
  cbn [no_break forallb] in H. apply andb_true_iff in H. destruct H as [Hc Hb].
  apply negb_true_iff in Hc. cbn [app splitlines_keep_acc]. rewrite Hc.
  rewrite IH by exact Hb. cbn [rev]. rewrite <- app_assoc. reflexivity.
Qed.

(** A body without boundary and one boundary other than CR. *)
Lemma whole_break : forall body c,
  no_break body = true -> is_linebreak c = true -> char_eqb c CR = false ->
  whole (body ++ [c]).
Proof.
  intros body c Hb Hc Hcr. split; [destruct body; discriminate|].
  intros cur rest _. rewrite <- app_assoc. rewrite keep_acc_plain by exact Hb.
  cbn [app splitlines_keep_acc]. rewrite Hc, Hcr.
  cbn [rev]. rewrite rev_app_distr, rev_involutive, <- app_assoc. reflexivity.
Qed.

Lemma whole_crlf : forall body, no_break body = true -> whole (body ++ [CR; LF]).
Proof.
  intros body Hb. split; [destruct body; discriminate|].
  intros cur rest _. rewrite <- app_assoc. rewrite keep_acc_plain by exact Hb.
  cbn [app splitlines_keep_acc]. change (is_linebreak CR) with true.
  change (char_eqb CR CR) with true. change (char_eqb LF LF) with true. cbv iota.
  cbn [rev]. rewrite rev_app_distr, rev_involutive, <- !app_assoc. reflexivity.
Qed.

Lemma whole_cr : forall body, no_break body = true -> whole (body ++ [CR]).
Proof.
  intros body Hb. split; [destruct body; discriminate|].
  intros cur rest Hr. rewrite <- app_assoc. rewrite keep_acc_plain by exact Hb.
  cbn [app splitlines_keep_acc]. change (is_linebreak CR) with true.
  change (char_eqb CR CR) with true. cbv iota.
  assert (E : rev (CR :: rev body ++ cur) = rev cur ++ body ++ [CR]).
  { cbn [rev]. rewrite rev_app_distr, rev_involutive, <- app_assoc. reflexivity. }
  destruct rest as [|d r]; [rewrite E; reflexivity|].
  cbn in Hr. rewrite Hr, E. reflexivity.
Qed.

(** A character that is no boundary, put before a whole line. *)
Lemma whole_cons : forall p l, is_linebreak p = false -> whole l -> whole (p :: l).
Proof.
  intros p l Hp [Hn H]. split; [discriminate|].
  intros cur rest Hr. cbn [app splitlines_keep_acc]. rewrite Hp.
  rewrite H by exact Hr. cbn [rev]. rewrite <- app_assoc. reflexivity.
Qed.

Lemma ends_with_break_cons : forall c r, r <> [] ->
  ends_with_break (c :: r) = ends_with_break r.
Proof. intros c [|d r] H; [congruence|reflexivity]. Qed.

(** The first line of a text whose last line is terminated. *)
Lemma first_line : forall s, s <> [] -> ends_with_break s = true ->
  exists l s', s = l ++ s' /\ whole l /\ ends_with_break s' = true
    /\ forall cur, splitlines_keep_acc s cur = (rev cur ++ l) :: splitlines_keep_acc s' [].
Proof.
  induction s as [|c r IH]; intros Hn He; [congruence|].
  assert (Hr : r = [] \/ (r <> [] /\ ends_with_break r = true)).
  { destruct r as [|d r']; [left; reflexivity|right]. split; [discriminate|].
    rewrite ends_with_break_cons in He by discriminate. exact He. }
  destruct (is_linebreak c) eqn:Hc.
  - destruct (char_eqb c CR) eqn:Hcr.
    + apply N.eqb_eq in Hcr. subst c. destruct r as [|d r'].
      * exists [CR], [].
        refine (conj eq_refl (conj (@whole_cr [] eq_refl) (conj eq_refl _))).
        intros cur. cbn [splitlines_keep_acc]. change (is_linebreak CR) with true.
        change (char_eqb CR CR) with true. cbv iota. cbn [rev]. reflexivity.
      * destruct Hr as [Hr|[_ Hr]]; [discriminate|].
        destruct (char_eqb d LF) eqn:Hd.
        -- apply N.eqb_eq in Hd. subst d. exists [CR; LF], r'.
           refine (conj eq_refl (conj (@whole_crlf [] eq_refl) (conj _ _))).
           ++ destruct r' as [|e r'']; [reflexivity|].
              rewrite ends_with_break_cons in Hr by discriminate. exact Hr.
           ++ intros cur. cbn [splitlines_keep_acc]. change (is_linebreak CR) with true.
              change (char_eqb CR CR) with true. change (char_eqb LF LF) with true. cbv iota.
              cbn [rev]. rewrite <- !app_assoc. reflexivity.
        -- exists [CR], (d :: r').
           refine (conj eq_refl (conj (@whole_cr [] eq_refl) (conj Hr _))).
           intros cur. cbn [splitlines_keep_acc]. change (is_linebreak CR) with true.
           change (char_eqb CR CR) with true. cbv iota. rewrite Hd. cbn [rev]. reflexivity.
    + exists [c], r.
      refine (conj eq_refl (conj (@whole_break [] c eq_refl Hc Hcr) (conj _ _))).
      * destruct Hr as [->|[_ Hr]]; [reflexivity|exact Hr].
      * intros cur. cbn [splitlines_keep_acc]. rewrite Hc, Hcr. cbn [rev]. reflexivity.
  - destruct Hr as [->|[Hrn Hr]]; [cbn in He; congruence|].
    destruct (IH Hrn Hr) as [l [s' [E [Hw [He' Hs]]]]].
    exists (c :: l), s'.
    refine (conj _ (conj (@whole_cons c l Hc Hw) (conj He' _))).
    + cbn [app]. rewrite E. reflexivity.
    + intros cur. cbn [splitlines_keep_acc]. rewrite Hc, Hs. cbn [rev].
      rewrite <- app_assoc. reflexivity.
Qed.

(** The lines of a text whose last line is terminated are whole lines. *)
Lemma lines_whole_len : forall n s, List.length s <= n -> ends_with_break s = true ->
  Forall whole (splitlines_keepends s).
Proof.
  induction n as [|n IH]; intros s Hn He.
  - destruct s; [constructor|cbn in Hn; lia].
  - destruct s as [|c r]; [constructor|].
    destruct (@first_line (c :: r)) as [l [s' [E [Hw [He' Hs]]]]]; [discriminate|exact He|].
    unfold splitlines_keepends. rewrite Hs. cbn [rev app]. constructor; [exact Hw|].
    apply IH; [|exact He'].
    assert (Hl : l <> []) by exact (proj1 Hw).
    apply (f_equal (@List.length char)) in E. rewrite length_app in E.
    destruct l; [congruence|]. cbn [List.length] in *. lia.
Qed.

Lemma lines_whole : forall s, ends_with_break s = true ->
  Forall whole (splitlines_keepends s).
Proof. intros s. apply (@lines_whole_len (List.length s)). lia. Qed.

(** Lines of a diff, put together and split again, are the same lines. *)
Lemma diff_lines_split : forall L,
  Forall diff_line L -> splitlines_keepends (concat L) = L.
Proof.
  unfold splitlines_keepends, concat.
  induction L as [|l L IH]; intros H; [reflexivity|].
  inversion H as [|? ? [Hw Hl] HL]; subst. cbn [List.concat].
  destruct Hw as [Hn Hw]. rewrite Hw.
  - cbn [rev app]. rewrite IH by exact HL. reflexivity.
  - destruct L as [|l2 L']; [exact I|].
    inversion HL as [|? ? [[Hn2 _] Hl2] _]; subst.
    destruct l2 as [|c l2]; [congruence|]. exact Hl2.
Qed.

Lemma Forall_firstn : forall (A : Type) (P : A -> Prop) n l,
  Forall P l -> Forall P (firstn n l).
Proof.
  intros A P. induction n as [|n IH]; intros l H; [constructor|].
  destruct H; [constructor|]. cbn [firstn]. constructor; auto.
Qed.

Lemma Forall_skipn : forall (A : Type) (P : A -> Prop) n l,
  Forall P l -> Forall P (skipn n l).
Proof.
  intros A P. induction n as [|n IH]; intros l H; [exact H|].
  destruct H; [constructor|]. cbn [skipn]. auto.
Qed.

Lemma Forall_slice : forall (A : Type) (P : A -> Prop) (l : list A) i j,
  Forall P l -> Forall P (slice l i j).
Proof. intros. unfold slice. apply Forall_firstn, Forall_skipn. assumption. Qed.

(** Lines of a text behind a prefix character are lines of a diff. *)
Lemma prefixed_lines : forall p ls,
  is_linebreak p = false -> Forall whole ls ->
  Forall diff_line (map (fun line => p :: line) ls).
Proof.
  intros p ls Hp H. induction H as [|l ls Hl Hls IH]; [constructor|].
  cbn [map]. constructor; [|exact IH]. split; [apply whole_cons; assumption|].
  cbn. destruct (char_eqb p LF) eqn:E; [|reflexivity].
  apply N.eqb_eq in E. subst p. discriminate Hp.
Qed.

End WholeFacts.

(** apply_unified_diff on the lines of a hunk that difflib wrote. *)
Module ReplayFacts.
Import Py PyFacts Re Difflib Apply ApplyLoops ApplyFacts IdentityFacts.
Import Script GroupFacts NumberFacts Ranges HunkHeaderFacts WholeLines WholeFacts.

Lemma startswith_head : forall c s, startswith (c :: s) [c] = true.
Proof. intros c s. cbn [startswith]. unfold char_eqb. rewrite N.eqb_refl. apply startswith_nil. Qed.

Lemma slice_nil : forall (l : list pystr) i, slice l i i = [].
Proof. intros l i. unfold slice. rewrite Nat.sub_diag. reflexivity. Qed.

Lemma slice_cons : forall (l : list pystr) i j, i < j -> i < List.length l ->
  slice l i j = nth i l [] :: slice l (S i) j.
Proof.
  intros l i j Hij Hi. unfold slice. rewrite (skipn_nth l Hi).
  replace (j - i) with (S (j - S i)) by lia. reflexivity.
Qed.

Lemma slice_app : forall (l : list pystr) i j k, i <= j -> j <= k ->
  slice l i j ++ slice l j k = slice l i k.
Proof.
  intros l i j k Hij Hjk. unfold slice.
  replace (skipn j l) with (skipn (j - i) (skipn i l))
    by (rewrite skipn_skipn; f_equal; lia).
  replace (k - i) with ((j - i) + (k - j)) by lia.
  generalize (skipn i l) as m. generalize (j - i) as n. generalize (k - j) as q.
  intros q n. induction n as [|n IH]; intros m; [reflexivity|].
  destruct m as [|x m]; [cbn; rewrite firstn_nil; reflexivity|].
  cbn [firstn skipn Nat.add app]. rewrite IH. reflexivity.
Qed.

Lemma slice_length : forall (l : list pystr) i j, j <= List.length l ->
  List.length (slice l i j) = j - i.
Proof. intros l i j H. unfold slice. rewrite length_firstn, length_skipn. lia. Qed.

Section Seqs.
Variables a b : list pystr.

Lemma same_slice : forall i j k, same a b i j k -> slice a i (i + k) = slice b j (j + k).
Proof.
  intros i j k [S1 [S2 S3]]. apply (nth_ext _ _ [] []).
  - rewrite !slice_length by lia. lia.
  - intros t Ht. rewrite slice_length in Ht by lia. unfold slice.
    rewrite !nth_firstn, !nth_skipn.
    replace (i + k - i) with k by lia. replace (j + k - j) with k by lia.
    destruct (t <? k); [apply S3; lia|reflexivity].
Qed.

Lemma same_skipn : forall i j k, same a b i j k ->
  i + k = List.length a -> j + k = List.length b -> skipn i a = skipn j b.
Proof.
  intros i j k [S1 [S2 S3]] Ha Hb. apply (nth_ext _ _ [] []).
  - rewrite !length_skipn. lia.
  - intros t Ht. rewrite length_skipn in Ht. rewrite !nth_skipn. apply S3. lia.
Qed.

Lemma tiles_mono : forall g i j ie je, tiles a b i j g ie je -> i <= ie /\ j <= je.
Proof.
  induction g as [|[[[[t i1] i2] j1] j2] r IH]; intros i j ie je H; cbn [tiles] in H.
  - lia.
  - destruct H as [E1 [E2 [Ho Hr]]]. subst. apply IH in Hr.
    destruct t; cbn [op_ok] in Ho; lia.
Qed.

Lemma tiles_last : forall g i j ie je d,
  g <> [] -> tiles a b i j g ie je ->
  exists t' x' y', last g d = (t', x', ie, y', je).
Proof.
  induction g as [|[[[[t i1] i2] j1] j2] r IH]; intros i j ie je d Hn H; [congruence|].
  cbn [tiles] in H. destruct H as [E1 [E2 [Ho Hr]]]. subst i1 j1.
  destruct r as [|op r'].
  - cbn [tiles] in Hr. destruct Hr; subst. cbn. repeat eexists.
  - destruct (IH i2 j2 ie je d ltac:(discriminate) Hr) as [t' [x' [y' Hl]]].
    exists t', x', y'.
    change (last ((t, i, i2, j, j2) :: op :: r') d) with (last (op :: r') d). exact Hl.
Qed.

(** The first opcode of a group starts where the group starts, the last
    ends where it ends. *)
Lemma tiles_first_last : forall g i j ie je,
  g <> [] -> tiles a b i j g ie je ->
  exists t x y t' x' y',
    first_last g = ((t, i, x, j, y), (t', x', ie, y', je)).
Proof.
  intros g i j ie je Hn H. unfold first_last.
  destruct (@tiles_last g i j ie je (Equal, 0, 0, 0, 0) Hn H) as [t' [x' [y' Hl]]].
  rewrite Hl. destruct g as [|[[[[t i1] i2] j1] j2] r]; [congruence|].
  cbn [tiles] in H. destruct H as [E1 [E2 _]]. subst. cbn [hd]. repeat eexists.
Qed.

Section WithRuntime.
Context {RT : Runtime}.

Lemma body_ctx_line : forall ls i out n, i < List.length a ->
  body a ((SP :: nth i a []) :: ls) i out n
  = body a ls (S i) (out ++ [nth i a []]) (S n).
Proof.
  intros ls i out n Hi. rewrite body_cons.
  rewrite (eq_refl : startswith (SP :: nth i a []) (lit "@@") = false).
  rewrite (eq_refl : startswith (SP :: nth i a []) [BSL] = false).
  rewrite (startswith_head SP (nth i a [])). cbv iota.
  replace (List.length a <=? i) with false by (symmetry; apply Nat.leb_gt; exact Hi).
  cbn [skipn]. rewrite str_eqb_refl. reflexivity.
Qed.

Lemma body_del_line : forall ls i out n, i < List.length a ->
  body a ((ch "-" :: nth i a []) :: ls) i out n = body a ls (S i) out (S n).
Proof.
  intros ls i out n Hi. rewrite body_cons.
  rewrite (eq_refl : startswith (ch "-" :: nth i a []) (lit "@@") = false).
  rewrite (eq_refl : startswith (ch "-" :: nth i a []) [BSL] = false).
  rewrite (eq_refl : startswith (ch "-" :: nth i a []) [SP] = false).
  rewrite (startswith_head (ch "-") (nth i a []) : startswith (ch "-" :: nth i a []) (lit "-") = true). cbv iota.
  replace (List.length a <=? i) with false by (symmetry; apply Nat.leb_gt; exact Hi).
  cbn [skipn]. rewrite str_eqb_refl. reflexivity.
Qed.

Lemma body_add_line : forall ls x i out n,
  body a ((ch "+" :: x) :: ls) i out n = body a ls i (out ++ [x]) (S n).
Proof.
  intros ls x i out n. rewrite body_cons.
  rewrite (eq_refl : startswith (ch "+" :: x) (lit "@@") = false).
  rewrite (eq_refl : startswith (ch "+" :: x) [BSL] = false).
  rewrite (eq_refl : startswith (ch "+" :: x) [SP] = false).
  rewrite (eq_refl : startswith (ch "+" :: x) (lit "-") = false).
  rewrite (startswith_head (ch "+") x : startswith (ch "+" :: x) (lit "+") = true). cbv iota.
  reflexivity.
Qed.

(** Context lines take the cursor along and copy the lines. *)
Lemma body_context : forall k i out n REST, i + k <= List.length a ->
  body a (map (fun line => SP :: line) (slice a i (i + k)) ++ REST) i out n
  = body a REST (i + k) (out ++ slice a i (i + k)) (n + k).
Proof.
  induction k as [|k IH]; intros i out n REST H.
  - rewrite !Nat.add_0_r, slice_nil, app_nil_r. reflexivity.
  - rewrite slice_cons by lia. cbn [map app]. rewrite body_ctx_line by lia.
    replace (i + S k) with (S i + k) by lia. rewrite IH by lia.
    rewrite <- app_assoc. cbn [app]. f_equal. lia.
Qed.

(** Deletion lines take the cursor along and copy nothing. *)
Lemma body_delete : forall k i out n REST, i + k <= List.length a ->
  body a (map (fun line => ch "-" :: line) (slice a i (i + k)) ++ REST) i out n
  = body a REST (i + k) out (n + k).
Proof.
  induction k as [|k IH]; intros i out n REST H.
  - rewrite !Nat.add_0_r, slice_nil. reflexivity.
  - rewrite slice_cons by lia. cbn [map app]. rewrite body_del_line by lia.
    replace (i + S k) with (S i + k) by lia. rewrite IH by lia. f_equal. lia.
Qed.

(** Insertion lines leave the cursor and add their lines. *)
Lemma body_insert : forall ls i out n REST,
  body a (map (fun line => ch "+" :: line) ls ++ REST) i out n
  = body a REST i (out ++ ls) (n + List.length ls).
Proof.
  induction ls as [|x ls IH]; intros i out n REST.
  - rewrite app_nil_r, Nat.add_0_r. reflexivity.
  - cbn [map app]. rewrite body_add_line, IH. rewrite <- app_assoc. cbn [app List.length].
    f_equal. lia.
Qed.

(** The lines of one opcode. *)
Lemma body_op : forall op i j i2 j2 out n REST,
  tiles a b i j [op] i2 j2 ->
  exists m, 0 < m /\
    body a (hunk_lines a b op ++ REST) i out n
    = body a REST i2 (out ++ slice b j j2) (n + m).
Proof.
  intros [[[[t i1] x2] j1] y2] i j i2 j2 out n REST H.
  cbn [tiles] in H. destruct H as [E1 [E2 [Ho [E3 E4]]]]. subst i1 j1 x2 y2.
  destruct t; cbn [op_ok] in Ho; cbn [hunk_lines].
  - (* replace *)
    destruct Ho as [O1 [O2 [O3 O4]]]. exists ((i2 - i) + (j2 - j)). split; [lia|].
    rewrite <- app_assoc.
    replace i2 with (i + (i2 - i)) at 1 2 by lia. rewrite body_delete by lia.
    rewrite body_insert. rewrite slice_length by lia.
    replace (i + (i2 - i)) with i2 by lia. f_equal. lia.
  - (* delete *)
    destruct Ho as [O1 [O2 [O3 O4]]]. subst j2. exists (i2 - i). split; [lia|].
    replace i2 with (i + (i2 - i)) at 1 2 by lia. rewrite body_delete by lia.
    rewrite slice_nil, app_nil_r. replace (i + (i2 - i)) with i2 by lia. reflexivity.
  - (* insert *)
    destruct Ho as [O1 [O2 [O3 O4]]]. subst i2. exists (j2 - j). split; [lia|].
    rewrite body_insert, slice_length by lia. reflexivity.
  - (* equal *)
    destruct Ho as [O1 [O2 O3]]. exists (i2 - i). split; [lia|].
    pose proof (same_slice O2) as Es.
    replace (i + (i2 - i)) with i2 in Es by lia. rewrite <- O3 in Es.
    replace i2 with (i + (i2 - i)) at 1 2 by lia.
    destruct O2 as [S1 _]. rewrite body_context by lia.
    replace (i + (i2 - i)) with i2 by lia. rewrite Es. reflexivity.
Qed.

(** The lines of a group. *)
Lemma body_ops : forall g i j ie je out n REST,
  tiles a b i j g ie je ->
  exists m, (g <> [] -> 0 < m) /\
    body a (flat_map (hunk_lines a b) g ++ REST) i out n
    = body a REST ie (out ++ slice b j je) (n + m).
Proof.
  induction g as [|op r IH]; intros i j ie je out n REST H.
  - cbn [tiles] in H. destruct H; subst. exists 0. split; [congruence|].
    cbn [flat_map app]. rewrite slice_nil, app_nil_r, Nat.add_0_r. reflexivity.
  - destruct op as [[[[t i1] i2] j1] j2].
    assert (H1 : tiles a b i j [(t, i1, i2, j1, j2)] i2 j2).
    { cbn [tiles] in *. destruct H as [E1 [E2 [Ho _]]]. auto. }
    assert (H2 : tiles a b i2 j2 r ie je).
    { cbn [tiles] in H. tauto. }
    cbn [flat_map]. rewrite <- app_assoc.
    destruct (@body_op _ _ _ _ _ out n (flat_map (hunk_lines a b) r ++ REST) H1)
      as [m1 [Hm1 E1]].
    destruct (IH _ _ _ _ (out ++ slice b j j2) (n + m1) REST H2) as [m2 [_ E2]].
    exists (m1 + m2). split; [lia|]. rewrite E1, E2.
    rewrite <- app_assoc. rewrite slice_app.
    + f_equal. lia.
    + apply tiles_mono in H1. lia.
    + apply tiles_mono in H2. lia.
Qed.

End WithRuntime.
End Seqs.
End ReplayFacts.

(** The hunks difflib writes, read by apply_unified_diff. *)
Module RoundTripFacts.
Import Py PyFacts StrFacts Re Difflib Apply ApplyLoops ApplyFacts IdentityFacts.
Import Script GroupFacts NumberFacts Ranges HunkHeaderFacts WholeLines WholeFacts ReplayFacts.

Section WithRuntime.
Context {RT : Runtime}.

Lemma str_of_nat_digits : forall n, digits (str_of_nat n).
Proof. intros n. split; [apply str_of_N_nonempty|apply str_of_N_digits]. Qed.

(** A range as difflib formats it: the number apply_unified_diff reads is
    the start for an empty range, and one more otherwise. *)
Lemma format_range_shape : forall start stop,
  exists o,
    _format_range_unified start stop
    = range_text (str_of_nat (if Nat.eqb (stop - start) 0 then start else start + 1)) o
    /\ digits_opt o
    /\ match o with Some e => no_break e = true | None => True end.
Proof.
  intros start stop. unfold _format_range_unified.
  destruct (Nat.eqb (stop - start) 1) eqn:E1.
  - apply Nat.eqb_eq in E1. rewrite E1. cbn [Nat.eqb]. exists None.
    unfold range_text. rewrite app_nil_r. split; [reflexivity|split; exact I].
  - exists (Some (str_of_nat (stop - start))). split; [|split].
    + destruct (Nat.eqb (stop - start) 0); [|reflexivity].
      replace (start + 1 - 1) with start by lia. reflexivity.
    + apply str_of_nat_digits.
    + apply str_of_N_forall. reflexivity.
Qed.

Lemma range_no_break : forall n o,
  match o with Some e => no_break e = true | None => True end ->
  no_break (range_text (str_of_nat n) o) = true.
Proof.
  intros n o Ho. unfold range_text, no_break, str_of_nat. rewrite forallb_app.
  rewrite (@str_of_N_forall (fun c => negb (is_linebreak c))) by reflexivity.
  destruct o as [e|]; [|reflexivity]. cbn [forallb andb]. exact Ho.
Qed.

Lemma rstrip_keep : forall X c, is_space c = false -> rstrip (X ++ [c; LF]) = X ++ [c].
Proof.
  intros X c Hc. unfold rstrip. rewrite rev_app_distr. cbn [rev app drop_while].
  rewrite (eq_refl : is_space LF = true), Hc. cbn [rev].
  rewrite rev_involutive. reflexivity.
Qed.

(** A hunk header of difflib, as apply_unified_diff sees it. *)
Lemma header_read : forall len i1 i2 j1 j2,
  let header := lit "@@ -" ++ _format_range_unified i1 i2 ++ lit " +"
                ++ _format_range_unified j1 j2 ++ lit " @@" ++ [LF] in
  startswith header (lit "@@") = true
  /\ whole header /\ no_lf_ahead header
  /\ exists m, rmatch _HUNK_RE (strip header) = Some m
       /\ target_of len m
          = Nat.min len ((if Nat.eqb (i2 - i1) 0 then i1 else i1 + 1) - 1).
Proof.
  intros len i1 i2 j1 j2 header.
  destruct (format_range_shape i1 i2) as [o1 [E1 [D1 B1]]].
  destruct (format_range_shape j1 j2) as [o3 [E3 [D3 B3]]].
  set (v1 := if Nat.eqb (i2 - i1) 0 then i1 else i1 + 1) in *.
  set (v3 := if Nat.eqb (j2 - j1) 0 then j1 else j1 + 1) in *.
  assert (Eh : header = (lit "@@ -" ++ range_text (str_of_nat v1) o1 ++ lit " +"
                         ++ range_text (str_of_nat v3) o3 ++ lit " @@") ++ [LF]).
  { unfold header. rewrite E1, E3. rewrite <- !app_assoc. reflexivity. }
  assert (Hnb : no_break (lit "@@ -" ++ range_text (str_of_nat v1) o1 ++ lit " +"
                          ++ range_text (str_of_nat v3) o3 ++ lit " @@") = true).
  { unfold no_break. rewrite !forallb_app.
    fold (no_break (range_text (str_of_nat v1) o1)).
    fold (no_break (range_text (str_of_nat v3) o3)).
    rewrite !range_no_break by assumption. reflexivity. }
  split; [|split; [|split]].
  - rewrite Eh. rewrite <- !app_assoc. reflexivity.
  - rewrite Eh. apply whole_break; [exact Hnb|reflexivity|reflexivity].
  - rewrite Eh. rewrite <- !app_assoc. reflexivity.
  - destruct (@hunk_header_matches _ (str_of_nat v1) o1 (str_of_nat v3) o3
                (str_of_nat_digits v1) D1 (str_of_nat_digits v3) D3) as [m [Hm Hg]].
    exists m. split.
    + rewrite <- Hm. f_equal. rewrite Eh. unfold strip.
      assert (Hl : forall X, lstrip (lit "@@ -" ++ X) = lit "@@ -" ++ X) by reflexivity.
      rewrite <- app_assoc, Hl.
      replace (lit "@@ -" ++ (range_text (str_of_nat v1) o1 ++ lit " +"
                 ++ range_text (str_of_nat v3) o3 ++ lit " @@") ++ [LF])
        with ((lit "@@ -" ++ range_text (str_of_nat v1) o1 ++ lit " +"
                 ++ range_text (str_of_nat v3) o3 ++ lit " @") ++ [ch "@"; LF])
        by (rewrite <- !app_assoc; reflexivity).
      rewrite rstrip_keep by reflexivity. rewrite <- !app_assoc. reflexivity.
    + unfold target_of. rewrite Hg. unfold str_of_nat. rewrite int_of_str.
      replace (Z.to_nat (Z.max 0 (Z.of_N (N.of_nat v1) - 1))) with (v1 - 1) by lia.
      destruct (Nat.ltb_spec len (v1 - 1)); lia.
Qed.

End WithRuntime.
End RoundTripFacts.

Module PatchReplay.
Import Py PyFacts StrFacts Re Difflib Apply ApplyLoops ApplyFacts IdentityFacts.
Import Script GroupFacts NumberFacts Ranges HunkHeaderFacts WholeLines WholeFacts ReplayFacts.
Import RoundTripFacts.

Section Seqs.
Variables a b : list pystr.

Section WithRuntime.
Context {RT : Runtime}.

(** The text of a hunk: its header and the lines of its opcodes. *)
Lemma hunk_text_shape : forall g i j ie je,
  g <> [] -> tiles a b i j g ie je ->
  hunk_text a b g
  = (lit "@@ -" ++ _format_range_unified i ie ++ lit " +"
     ++ _format_range_unified j je ++ lit " @@" ++ [LF])
    :: flat_map (hunk_lines a b) g.
Proof.
  intros g i j ie je Hn H.
  destruct (@tiles_first_last a b g i j ie je Hn H)
    as [t [x [y [t' [x' [y' Hfl]]]]]].
  unfold hunk_text. rewrite Hfl. reflexivity.
Qed.

Lemma hunk_text_head : forall g, exists h rest,
  hunk_text a b g = h :: rest /\ startswith h (lit "@@") = true.
Proof.
  intros g. unfold hunk_text.
  destruct (first_last g) as [[[[[t1 f1] f2] f3] f4] [[[[t2 l1] l2] l3] l4]].
  eexists. eexists. split; [reflexivity|].
  destruct (@header_read RT 0 f1 l2 f3 l4) as [H _]. exact H.
Qed.

(** After the lines of a hunk, the next header or the end. *)
Lemma body_to_hunks : forall gs i out n,
  body a (flat_map (hunk_text a b) gs) i out (S n)
  = hunks a (flat_map (hunk_text a b) gs) i out.
Proof.
  intros [|g gs] i out n; [reflexivity|].
  cbn [flat_map]. destruct (hunk_text_head g) as [h [rest [E Hs]]].
  rewrite E. cbn [app]. rewrite body_cons, Hs. reflexivity.
Qed.

Lemma group_has_old_lines : forall g i j ie je,
  g <> [] -> tiles a b i j g ie je -> starts_ok i g -> i = 0 \/ i < ie.
Proof.
  intros [|[[[[t i1] i2] j1] j2] r] i j ie je Hn H Hs; [congruence|].
  destruct Hs as [Hs|Hs]; [left; exact Hs|right].
  cbn [tiles] in H. destruct H as [E1 [E2 [_ Hr]]]. subst.
  apply tiles_mono in Hr. lia.
Qed.

(** apply_unified_diff, run on the hunks of the groups, copies what lies
    between them from the old lines and ends with the new lines. *)
Lemma hunks_replay : forall gs i j out,
  hunks_ok a b i j gs ->
  hunks a (flat_map (hunk_text a b) gs) i out = Ok (concat (out ++ skipn j b)).
Proof.
  induction gs as [|g gs IH]; intros i j out H.
  - cbn [hunks_ok] in H. destruct H as [k [Hk [Ha Hb]]].
    cbn [flat_map]. rewrite hunks_nil. rewrite (@same_skipn a b i j k Hk Ha Hb). reflexivity.
  - cbn [hunks_ok] in H. destruct H as [k [i2 [j2 [Hk [Hn [Ht [Hs Hr]]]]]]].
    cbn [flat_map]. rewrite (@hunk_text_shape g _ _ _ _ Hn Ht). cbn [app].
    destruct (@header_read RT (List.length a) (i + k) i2 (j + k) j2) as [H1 [_ [_ [m [Hm Htg]]]]].
    rewrite hunks_cons, H1, Hm. cbv zeta. cbn [negb].
    assert (Etarget : target_of (List.length a) m = i + k).
    { rewrite Htg. destruct Hk as [K1 _].
      destruct (@group_has_old_lines g _ _ _ _ Hn Ht Hs) as [H0|Hlt].
      - pose proof (@tiles_mono a b g _ _ _ _ Ht) as Hmono.
        destruct (Nat.eqb (i2 - (i + k)) 0); lia.
      - replace (Nat.eqb (i2 - (i + k)) 0) with false
          by (symmetry; apply Nat.eqb_neq; lia). lia. }
    rewrite Etarget. replace (i + k <? i) with false by (symmetry; apply Nat.ltb_ge; lia).
    destruct (@body_ops a b RT g _ _ _ _ (out ++ slice a i (i + k)) 0
                (flat_map (hunk_text a b) gs) Ht) as [n [Hpos E]].
    rewrite E. specialize (Hpos Hn). destruct n as [|n]; [lia|].
    cbn [Nat.add]. rewrite body_to_hunks, (IH _ _ _ Hr).
    rewrite (@same_slice a b i j k Hk). f_equal. f_equal.
    rewrite <- !app_assoc. f_equal.
    pose proof (@tiles_mono a b g _ _ _ _ Ht) as Hmono.
    rewrite app_assoc, slice_app by lia. apply slice_skipn. lia.
Qed.

(** The lines of the hunks are lines of a diff. *)
Lemma hunk_lines_diff : forall op,
  Forall whole a -> Forall whole b -> Forall diff_line (hunk_lines a b op).
Proof.
  intros [[[[t i1] i2] j1] j2] Ha Hb.
  destruct t; cbn [hunk_lines]; try apply Forall_app; try split;
    apply prefixed_lines; try reflexivity; apply Forall_slice; assumption.
Qed.

Lemma hunk_text_diff : forall g,
  Forall whole a -> Forall whole b -> Forall diff_line (hunk_text a b g).
Proof.
  intros g Ha Hb. unfold hunk_text.
  destruct (first_last g) as [[[[[t1 f1] f2] f3] f4] [[[[t2 l1] l2] l3] l4]].
  constructor.
  - destruct (@header_read RT 0 f1 l2 f3 l4) as [_ [Hw [Hl _]]]. split; assumption.
  - apply Forall_flat_map. apply Forall_forall. intros op _.
    apply hunk_lines_diff; assumption.
Qed.

End WithRuntime.
End Seqs.
End PatchReplay.

Section RoundTrip.
Context {RT : Runtime}.
Import PyFacts StrFacts Difflib Apply ApplyFacts IdentityFacts Coder.
Import Script GroupFacts WholeLines WholeFacts PatchReplay.

(** X24. The patch _make_patch_from_fulltext builds for two different texts
    whose last lines are terminated, under a path without line boundary,
    is a patch apply_unified_diff accepts on the old text, and the result
    is the new text. *)
Theorem fulltext_patch_round_trip : forall path old new,
  no_break path = true ->
  ends_with_break old = true ->
  ends_with_break new = true ->
  old <> new ->
  apply_unified_diff old (_make_patch_from_fulltext path old new) = Ok new.
Proof.
  intros path old new Hp Ho Hn Hne.
  unfold _make_patch_from_fulltext, unified_diff.
  set (a := splitlines_keepends old). set (b := splitlines_keepends new).
  pose proof (grouped_opcodes_ok a b) as Hg.
  destruct (get_grouped_opcodes a b 3) as [|g gs] eqn:E.
  - exfalso. apply Hne. apply no_group_same in E.
    rewrite <- (concat_keepends old), <- (concat_keepends new).
    fold a. fold b. rewrite E. reflexivity.
  - assert (Ha : Forall whole a) by (apply lines_whole; exact Ho).
    assert (Hb : Forall whole b) by (apply lines_whole; exact Hn).
    assert (Hhead : forall (tag suffix : pystr),
              no_break tag = true -> no_break suffix = true ->
              whole (tag ++ (path ++ suffix) ++ [LF])).
    { intros tag suffix Ht Hs.
      replace (tag ++ (path ++ suffix) ++ [LF]) with ((tag ++ path ++ suffix) ++ [LF])
        by (rewrite <- !app_assoc; reflexivity).
      apply whole_break; [|reflexivity|reflexivity].
      unfold no_break in *. rewrite !forallb_app, Ht, Hp, Hs. reflexivity. }
    set (F := flat_map (hunk_text a b) (g :: gs)).
    assert (HF : exists h rest, F = h :: rest /\ startswith h (lit "@@") = true).
    { unfold F. cbn [flat_map]. destruct (@hunk_text_head a b RT g) as [h [rest [Eh Hs]]].
      rewrite Eh. cbn [app]. eauto. }
    assert (HL : Forall diff_line
                   ((lit "--- " ++ (path ++ lit " (old)") ++ [LF])
                    :: (lit "+++ " ++ (path ++ lit " (new)") ++ [LF]) :: F)).
    { constructor; [split; [apply Hhead; reflexivity|reflexivity]|].
      constructor; [split; [apply Hhead; reflexivity|reflexivity]|].
      unfold F. apply Forall_flat_map. apply Forall_forall. intros x _.
      apply hunk_text_diff; assumption. }
    unfold apply_unified_diff, _split_lines_keepends. fold a.
    rewrite (diff_lines_split HL).
    cbn [skip_to_first_hunk].
    rewrite (eq_refl : startswith (lit "--- " ++ (path ++ lit " (old)") ++ [LF]) (lit "@@")
                       = false).
    rewrite (eq_refl : startswith (lit "+++ " ++ (path ++ lit " (new)") ++ [LF]) (lit "@@")
                       = false).
    destruct HF as [h [rest [EF Hs]]].
    assert (Hrun : hunks a F 0 [] = Ok new).
    { unfold F. rewrite (@hunks_replay a b RT (g :: gs) 0 0 [] Hg).
      cbn [app skipn]. unfold b. rewrite concat_keepends. reflexivity. }
    rewrite EF in *. cbn [skip_to_first_hunk]. rewrite Hs. exact Hrun.
Qed.

End RoundTrip.

(** A file of two lines whose second line changes. *)
Lemma fulltext_patch_round_trip_witness :
  WholeLines.no_break (lit "notes.txt") = true
  /\ WholeLines.ends_with_break (lit "alpha\nbeta\n") = true
  /\ WholeLines.ends_with_break (lit "alpha\ngamma\n") = true
  /\ lit "alpha\nbeta\n" <> lit "alpha\ngamma\n"
  /\ @Apply.apply_unified_diff ascii_runtime (lit "alpha\nbeta\n")
       (Coder._make_patch_from_fulltext (lit "notes.txt") (lit "alpha\nbeta\n")
          (lit "alpha\ngamma\n"))
     = Apply.Ok (lit "alpha\ngamma\n").
Proof.
  assert (H1 : WholeLines.no_break (lit "notes.txt") = true) by (vm_compute; reflexivity).
  assert (H2 : WholeLines.ends_with_break (lit "alpha\nbeta\n") = true)
    by (vm_compute; reflexivity).
  assert (H3 : WholeLines.ends_with_break (lit "alpha\ngamma\n") = true)
    by (vm_compute; reflexivity).
  assert (H4 : lit "alpha\nbeta\n" <> lit "alpha\ngamma\n") by (vm_compute; discriminate).
  exact (conj H1 (conj H2 (conj H3 (conj H4
           (@fulltext_patch_round_trip ascii_runtime _ _ _ H1 H2 H3 H4))))).
Defined.

Section SelfPatch.
Context {RT : Runtime}.
Import PyFacts Difflib Coder Apply IdentityFacts SelfDiffFacts GroupFacts.

(** X21. The patch _make_patch_from_fulltext builds is empty exactly when the
    two texts are the same, and apply_unified_diff refuses the patch of a
    text and itself on every text: no hunks found. *)
Theorem patch_of_equal_texts : forall path old new,
  (_make_patch_from_fulltext path old new = [] <-> old = new)
  /\ forall x, apply_unified_diff x (_make_patch_from_fulltext path old old)
               = Raise NoHunksFound.
Proof.
  intros path old new.
  assert (H : forall s, _make_patch_from_fulltext path s s = []).
  { intros s. unfold _make_patch_from_fulltext. rewrite unified_diff_self. reflexivity. }
  split; [split|].
  - intros E. unfold _make_patch_from_fulltext, unified_diff in E.
    destruct (get_grouped_opcodes (splitlines_keepends old) (splitlines_keepends new) 3)
      as [|g gs] eqn:Eg; [|discriminate E].
    apply no_group_same in Eg.
    rewrite <- (concat_keepends old), <- (concat_keepends new), Eg. reflexivity.
  - intros ->. apply H.
  - intros x. rewrite H. reflexivity.
Qed.

End SelfPatch.

(** Doubling a double, and a double divided by itself. *)
Module DoubleFacts.
Import PyFloat FloatFacts.

Lemma fexp_long : forall d e : Z,
  (53 <= d)%Z -> (-1074 <= e)%Z -> (fexp prec emax (d + e) - e = d - 53)%Z.
Proof. intros d e Hd He. unfold fexp, emin, prec, emax. lia. Qed.

Lemma shr_nat : forall mrs e k, (0 <= k)%Z ->
  shr mrs e k = (Nat.iter (Z.to_nat k) shr_1 mrs, (e + k)%Z).
Proof.
  intros mrs e k Hk. unfold shr. destruct k as [|p|p].
  - cbn. f_equal. lia.
  - rewrite iter_pos_nat. reflexivity.
  - lia.
Qed.

Lemma digits_succ : forall p,
  digits2_pos (Pos.succ p) = digits2_pos p
  \/ digits2_pos (Pos.succ p) = Pos.succ (digits2_pos p).
Proof.
  induction p as [p IH|p IH|]; cbn [Pos.succ digits2_pos].
  - destruct IH as [-> | ->]; auto.
  - left. reflexivity.
  - right. reflexivity.
Qed.

(** Rounding to nearest keeps the number of digits or adds one. *)
Lemma round_even_digits : forall m l, exists m',
  round_nearest_even (Zpos m) l = Zpos m'
  /\ (digits2_pos m' = digits2_pos m \/ digits2_pos m' = Pos.succ (digits2_pos m)).
Proof.
  intros m l.
  assert (Hup : exists m', (Zpos m + 1)%Z = Zpos m'
                  /\ (digits2_pos m' = digits2_pos m
                      \/ digits2_pos m' = Pos.succ (digits2_pos m))).
  { exists (Pos.succ m). split; [lia|apply digits_succ]. }
  assert (Hsame : exists m', Zpos m = Zpos m'
                  /\ (digits2_pos m' = digits2_pos m
                      \/ digits2_pos m' = Pos.succ (digits2_pos m))).
  { exists m. auto. }
  unfold round_nearest_even. destruct l as [|[| |]]; try assumption.
  destruct (Z.even (Zpos m)); assumption.
Qed.

(** Rounding a mantissa of 53 digits or more: the mantissa that comes out
    has 53 digits and does not depend on the exponent, and one more zero
    bit at the end of the mantissa counts as one more in the exponent. *)
Lemma round_shape : forall m, (53 <= Zpos (digits2_pos m))%Z ->
  exists m3 k,
    digits2_pos m3 = 53%positive /\ (0 <= k)%Z
    /\ (forall e, (-1074 <= e)%Z ->
          binary_round_aux prec emax false (Zpos m) e loc_Exact
          = if (e + k <=? emax - prec)%Z then S754_finite false m3 (e + k)
            else S754_infinity false)
    /\ (forall e, (-1074 <= e)%Z ->
          binary_round_aux prec emax false (Zpos (m~0)%positive) e loc_Exact
          = if (e + k + 1 <=? emax - prec)%Z then S754_finite false m3 (e + k + 1)
            else S754_infinity false).
Proof.
  intros m Hd.
  set (k1 := (Zpos (digits2_pos m) - 53)%Z).
  destruct (@shr_steps_positive (Z.to_nat k1) m false false) as [m1 [r1 [s1 [E1 D1]]]];
    [unfold k1; lia|].
  destruct (round_even_digits m1 (loc_of_shr_record (Build_shr_record (Zpos m1) r1 s1)))
    as [m2 [E2 D2]].
  assert (Hd2 : (53 <= Zpos (digits2_pos m2) <= 54)%Z) by (unfold k1 in D1; lia).
  set (k2 := (Zpos (digits2_pos m2) - 53)%Z).
  destruct (@shr_steps_positive (Z.to_nat k2) m2 false false) as [m3 [r3 [s3 [E3 D3]]]];
    [unfold k2; lia|].
  exists m3, (k1 + k2)%Z.
  split; [unfold k2 in D3; lia|]. split; [unfold k1, k2; lia|].
  assert (Hrun : forall mm e,
            (-1074 <= e)%Z ->
            Nat.iter (Z.to_nat (Zpos (digits2_pos mm) - 53)) shr_1
              (Build_shr_record (Zpos mm) false false)
            = Build_shr_record (Zpos m1) r1 s1 ->
            (53 <= Zpos (digits2_pos mm))%Z ->
            binary_round_aux prec emax false (Zpos mm) e loc_Exact
            = if (e + (Zpos (digits2_pos mm) - 53) + k2 <=? emax - prec)%Z
              then S754_finite false m3 (e + (Zpos (digits2_pos mm) - 53) + k2)
              else S754_infinity false).
  { intros mm e He Hmm Hdm. unfold binary_round_aux, shr_fexp.
    cbn [shr_record_of_loc Zdigits2].
    rewrite fexp_long by assumption. rewrite shr_nat by lia. rewrite Hmm.
    cbn [shr_m]. rewrite E2. cbn [shr_record_of_loc Zdigits2].
    rewrite fexp_long by lia. fold k2. rewrite shr_nat by (unfold k2; lia).
    rewrite E3. cbn [shr_m]. reflexivity. }
  split.
  - intros e He. rewrite (Hrun m e He E1 Hd). fold k1. rewrite !Z.add_assoc. reflexivity.
  - intros e He.
    assert (Hd' : digits2_pos (m~0)%positive = Pos.succ (digits2_pos m)) by reflexivity.
    rewrite (Hrun (m~0)%positive e He).
    + rewrite Hd'. replace (e + (Zpos (Pos.succ (digits2_pos m)) - 53) + k2)%Z
        with (e + (k1 + k2) + 1)%Z by (unfold k1; lia). reflexivity.
    + rewrite Hd'.
      replace (Z.to_nat (Zpos (Pos.succ (digits2_pos m)) - 53)) with (S (Z.to_nat k1))
        by (unfold k1; lia).
      rewrite Nat.iter_succ_r. exact E1.
    + rewrite Hd'. lia.
Qed.

(** A mantissa of 53 digits is left as it is. *)
Lemma round_canonical : forall m e,
  digits2_pos m = 53%positive -> (-1074 <= e)%Z ->
  binary_round_aux prec emax false (Zpos m) e loc_Exact
  = if (e <=? emax - prec)%Z then S754_finite false m e else S754_infinity false.
Proof.
  intros m e Hd He. unfold binary_round_aux, shr_fexp.
  cbn [shr_record_of_loc Zdigits2]. rewrite Hd.
  rewrite fexp_long by lia. rewrite shr_nat by lia.
  change (Z.to_nat (53 - 53)) with 0. cbn [Nat.iter nat_rect shr_m loc_of_shr_record
    round_nearest_even shr_record_of_loc Zdigits2].
  rewrite Hd. rewrite fexp_long by lia. rewrite shr_nat by lia.
  change (Z.to_nat (53 - 53)) with 0. cbn [Nat.iter nat_rect shr_m].
  replace (e + (53 - 53) + (53 - 53))%Z with e by lia. reflexivity.
Qed.

Lemma round_double : forall m e,
  (53 <= Zpos (digits2_pos m))%Z -> (-1074 <= e)%Z ->
  binary_round_aux prec emax false (Zpos (m~0)%positive) e loc_Exact
  = binary_round_aux prec emax false (Zpos m) (e + 1) loc_Exact.
Proof.
  intros m e Hd He. destruct (round_shape m Hd) as [m3 [k [_ [_ [H1 H2]]]]].
  rewrite H2 by exact He. rewrite H1 by lia.
  replace (e + 1 + k)%Z with (e + k + 1)%Z by lia. reflexivity.
Qed.

Lemma digits_iter_xO : forall j p,
  digits2_pos (Pos.iter xO p j) = (digits2_pos p + j)%positive.
Proof.
  induction j as [|j IH] using Pos.peano_ind; intros p.
  - cbn. lia.
  - rewrite Pos.iter_succ. cbn [digits2_pos]. rewrite IH. lia.
Qed.

Lemma round_doubles : forall n m e,
  (53 <= Zpos (digits2_pos m))%Z -> (-1074 <= e)%Z ->
  binary_round_aux prec emax false (Zpos (Nat.iter n xO m)) e loc_Exact
  = binary_round_aux prec emax false (Zpos m) (e + Z.of_nat n) loc_Exact.
Proof.
  induction n as [|n IH]; intros m e Hd He.
  - cbn [Nat.iter nat_rect]. f_equal. lia.
  - change (Nat.iter (S n) xO m) with ((Nat.iter n xO m)~0)%positive.
    rewrite round_double; [|clear IH|exact He].
    + rewrite IH by (try assumption; lia). f_equal. lia.
    + clear He. induction n as [|n IHn]; [exact Hd|].
      change (Nat.iter (S n) xO m) with ((Nat.iter n xO m)~0)%positive.
      cbn [digits2_pos]. lia.
Qed.

(** float(n) and float(2n): the same mantissa of 53 digits, one apart in
    the exponent. *)
Lemma of_pos_shape : forall p, exists m3 e3,
  digits2_pos m3 = 53%positive /\ (-52 <= e3)%Z
  /\ binary_round prec emax false p 0
     = (if (e3 <=? emax - prec)%Z then S754_finite false m3 e3 else S754_infinity false)
  /\ binary_round prec emax false (p~0)%positive 0
     = (if (e3 + 1 <=? emax - prec)%Z then S754_finite false m3 (e3 + 1)
        else S754_infinity false).
Proof.
  intros p. unfold binary_round.
  destruct (Z.lt_ge_cases (Zpos (digits2_pos p)) 53) as [Hlt|Hge].
  - set (j := Z.to_pos (53 - Zpos (digits2_pos p))).
    assert (Ex : shl_align p 0 (fexp prec emax (Zpos (digits2_pos p) + 0))
                 = (Pos.iter xO p j, (Zpos (digits2_pos p) - 53)%Z)).
    { unfold shl_align.
      replace (fexp prec emax (Zpos (digits2_pos p) + 0) - 0)%Z with (Zneg j)
        by (unfold fexp, emin, prec, emax, j; lia).
      f_equal. unfold fexp, emin, prec, emax. lia. }
    assert (Ey : shl_align (p~0)%positive 0 (fexp prec emax (Zpos (digits2_pos (p~0)%positive) + 0))
                 = (Pos.iter xO p j, (Zpos (digits2_pos p) - 53 + 1)%Z)).
    { unfold shl_align. cbn [digits2_pos].
      destruct (Z.eq_dec (Zpos (digits2_pos p)) 52) as [E52|N52].
      - replace (fexp prec emax (Zpos (Pos.succ (digits2_pos p)) + 0) - 0)%Z with 0%Z
          by (unfold fexp, emin, prec, emax; lia).
        replace j with 1%positive by (unfold j; lia).
        cbn [Pos.iter]. f_equal. lia.
      - set (j' := Z.to_pos (52 - Zpos (digits2_pos p))).
        replace (fexp prec emax (Zpos (Pos.succ (digits2_pos p)) + 0) - 0)%Z with (Zneg j')
          by (unfold fexp, emin, prec, emax, j'; lia).
        replace j with (Pos.succ j') by (unfold j, j'; lia).
        rewrite Pos.iter_succ_r. f_equal. unfold fexp, emin, prec, emax. lia. }
    rewrite Ex, Ey.
    assert (Hd : (53 <= Zpos (digits2_pos (Pos.iter xO p j)))%Z).
    { rewrite digits_iter_xO. unfold j. lia. }
    destruct (round_shape _ Hd) as [m3 [k [D3 [Hk [H1 _]]]]].
    exists m3, (Zpos (digits2_pos p) - 53 + k)%Z.
    split; [exact D3|]. split; [lia|]. split.
    + apply H1. lia.
    + rewrite H1 by lia.
      replace (Zpos (digits2_pos p) - 53 + 1 + k)%Z
        with (Zpos (digits2_pos p) - 53 + k + 1)%Z by lia. reflexivity.
  - assert (Ex : shl_align p 0 (fexp prec emax (Zpos (digits2_pos p) + 0)) = (p, 0%Z)).
    { unfold shl_align.
      destruct (fexp prec emax (Zpos (digits2_pos p) + 0) - 0)%Z eqn:E; try reflexivity.
      unfold fexp, emin, prec, emax in E. lia. }
    assert (Ey : shl_align (p~0)%positive 0 (fexp prec emax (Zpos (digits2_pos (p~0)%positive) + 0)) = ((p~0)%positive, 0%Z)).
    { unfold shl_align. cbn [digits2_pos].
      destruct (fexp prec emax (Zpos (Pos.succ (digits2_pos p)) + 0) - 0)%Z eqn:E;
        try reflexivity.
      unfold fexp, emin, prec, emax in E. lia. }
    rewrite Ex, Ey.
    destruct (round_shape p Hge) as [m3 [k [D3 [Hk [H1 H2]]]]].
    exists m3, k. split; [exact D3|]. split; [lia|]. split.
    + rewrite H1 by lia. reflexivity.
    + rewrite H2 by lia. reflexivity.
Qed.

(** A double divided by itself is one. *)
Lemma div_self : forall m e,
  div (S754_finite false m e) (S754_finite false m e) = f_1_0.
Proof.
  intros m e. unfold div, SFdiv, SFdiv_core_binary. cbn [Zdigits2 xorb].
  replace (Zpos (digits2_pos m) + e - (Zpos (digits2_pos m) + e))%Z with 0%Z by lia.
  replace (e - e)%Z with 0%Z by lia.
  change (Z.min (fexp prec emax 0) 0) with (-53)%Z.
  change (0 - -53)%Z with 53%Z. cbv iota.
  assert (E : Z.div_eucl (Z.shiftl (Zpos m) 53) (Zpos m) = (9007199254740992%Z, 0%Z)).
  { rewrite Z.shiftl_mul_pow2 by lia.
    assert (Hq : fst (Z.div_eucl (Zpos m * 2 ^ 53) (Zpos m)) = 9007199254740992%Z).
    { change (fst (Z.div_eucl (Zpos m * 2 ^ 53) (Zpos m)))
        with ((Zpos m * 2 ^ 53) / Zpos m)%Z.
      rewrite Z.mul_comm, Z.div_mul by lia. reflexivity. }
    assert (Hr : snd (Z.div_eucl (Zpos m * 2 ^ 53) (Zpos m)) = 0%Z).
    { change (snd (Z.div_eucl (Zpos m * 2 ^ 53) (Zpos m)))
        with ((Zpos m * 2 ^ 53) mod Zpos m)%Z.
      rewrite Z.mul_comm. apply Z.mod_mul. lia. }
    destruct (Z.div_eucl (Zpos m * 2 ^ 53) (Zpos m)) as [q r].
    cbn [fst snd] in Hq, Hr. subst. reflexivity. }
  rewrite E.
  assert (Hl : new_location (Zpos m) 0 = loc_Exact).
  { unfold new_location. destruct (Z.even (Zpos m)); reflexivity. }
  rewrite Hl. vm_compute. reflexivity.
Qed.

End DoubleFacts.

(** The similarity of a sequence with itself. *)
Module SameRatioFacts.
Import Py PyFacts Difflib PyFloat FloatFacts DoubleFacts SelfDiffFacts.

(** Twice n matches out of n + n lines: the ratio is one, or not a number
    when float(n + n) is infinite. *)
Lemma double_ratio : forall n, 0 < n ->
  div (mul f_2_0 (of_nat n)) (of_nat (n + n)) = f_1_0
  \/ div (mul f_2_0 (of_nat n)) (of_nat (n + n)) = S754_nan.
Proof.
  intros n Hn. unfold of_nat, binary_normalize.
  destruct (Z.of_nat n) as [|p|p] eqn:E; [lia| |lia].
  replace (Z.of_nat (n + n)) with (Zpos (p~0)%positive) by lia.
  destruct (of_pos_shape p) as [m3 [e3 [D [He [Hx Hy]]]]]. rewrite Hx, Hy.
  destruct (e3 <=? emax - prec)%Z eqn:E1.
  - assert (Hm : mul f_2_0 (S754_finite false m3 e3)
                 = if (e3 + 1 <=? emax - prec)%Z then S754_finite false m3 (e3 + 1)
                   else S754_infinity false).
    { unfold mul, f_2_0, SFmul. cbn [xorb].
      change (4503599627370496 * m3)%positive with (Nat.iter 52 xO m3).
      rewrite round_doubles by lia.
      rewrite round_canonical by (try assumption; lia).
      replace (-51 + e3 + Z.of_nat 52)%Z with (e3 + 1)%Z by lia. reflexivity. }
    rewrite Hm. destruct (e3 + 1 <=? emax - prec)%Z.
    + left. apply div_self.
    + right. reflexivity.
  - replace (e3 + 1 <=? emax - prec)%Z with false
      by (symmetry; apply Z.leb_gt; apply Z.leb_gt in E1; lia).
    right. reflexivity.
Qed.

Lemma ratio_self : forall a : list pystr,
  ratio a a = f_1_0 \/ ratio a a = S754_nan.
Proof.
  intros a. unfold ratio. rewrite matching_blocks_self.
  destruct a as [|x r]; [left; reflexivity|].
  cbn [fold_left]. unfold _calculate_ratio.
  replace (0 + List.length (x :: r) + 0) with (List.length (x :: r)) by lia.
  cbn [List.length Nat.add Nat.eqb]. apply (@double_ratio (S (List.length r))). lia.
Qed.

End SameRatioFacts.

Section FormattingOnly.
Context {RT : Runtime}.
Import PyFacts Guards PyFloat SameRatioFacts.

(** X25. A change that leaves the normal form of _normalize_for_similarity as
    it was (trailing white space, runs of blank lines, line ends) is never
    turned away as a rewrite: with no control character in the new text and
    the future import in place, enforce_guards accepts it, for a README as
    for any other file and whatever the instruction. *)
Theorem formatting_only_passes : forall relpath instruction old new,
  _has_control_chars new = false ->
  fst (_guard_future_import old new) = true ->
  _normalize_for_similarity old = _normalize_for_similarity new ->
  enforce_guards relpath instruction old new = (true, []).
Proof.
  intros relpath instruction old new Hc Hf Hn. unfold enforce_guards. rewrite Hc.
  destruct (str_eqb old new); [reflexivity|].
  destruct (_guard_future_import old new) as [okf whyf]. cbn [fst] in Hf. subst okf.
  cbn [negb]. unfold _similarity_ratio. rewrite Hn.
  destruct (ratio_self (splitlines (_normalize_for_similarity new))) as [-> | ->].
  - change (ltb f_1_0 f_0_90) with false. change (ltb f_1_0 f_0_20) with false.
    rewrite andb_false_r. destruct (is_readme relpath && negb (_allow_big_rewrite instruction));
      reflexivity.
  - change (ltb S754_nan f_0_90) with false. change (ltb S754_nan f_0_20) with false.
    rewrite andb_false_r. destruct (is_readme relpath && negb (_allow_big_rewrite instruction));
      reflexivity.
Qed.

End FormattingOnly.

(** A README whose trailing blanks and doubled blank lines are removed. *)
Lemma formatting_only_passes_witness :
  Guards._has_control_chars (lit "# Title\n\nText\n") = false
  /\ fst (Guards._guard_future_import (lit "# Title  \n\n\n\nText\n") (lit "# Title\n\nText\n"))
     = true
  /\ Guards._normalize_for_similarity (lit "# Title  \n\n\n\nText\n")
     = Guards._normalize_for_similarity (lit "# Title\n\nText\n")
  /\ @Guards.enforce_guards ascii_runtime (lit "README.md") (lit "apply")
       (lit "# Title  \n\n\n\nText\n") (lit "# Title\n\nText\n")
     = (true, []).
Proof.
  assert (H1 : Guards._has_control_chars (lit "# Title\n\nText\n") = false)
    by (vm_compute; reflexivity).
  assert (H2 : fst (Guards._guard_future_import (lit "# Title  \n\n\n\nText\n")
                      (lit "# Title\n\nText\n")) = true) by (vm_compute; reflexivity).
  assert (H3 : Guards._normalize_for_similarity (lit "# Title  \n\n\n\nText\n")
               = Guards._normalize_for_similarity (lit "# Title\n\nText\n"))
    by (vm_compute; reflexivity).
  exact (conj H1 (conj H2 (conj H3
           (@formatting_only_passes ascii_runtime (lit "README.md") (lit "apply") _ _
              H1 H2 H3)))).
Defined.

(** Replacing and the characters of a text. *)
Module UnescapeFacts.
Import Py PyFacts StrFacts Coder DisplayFacts.

Lemma contains_char : forall c s, contains s [c] = true <-> In c s.
Proof.
  intros c. induction s as [|y s IH]; cbn [contains startswith].
  - split; [discriminate|contradiction].
  - rewrite startswith_nil, andb_true_r. rewrite orb_true_iff, IH.
    unfold char_eqb. rewrite N.eqb_eq. cbn [In]. split; intros [H|H]; auto.
Qed.

(** A character that is not in the pattern is not lost. *)
Lemma replace_go_keeps : forall o old' new c,
  ~ In c (o :: old') ->
  forall s skip, In c (skipn skip s) -> In c (replace_go (o :: old') new s skip).
Proof.
  intros o old' new c Hc. induction s as [|x r IH]; intros skip H.
  - destruct skip; contradiction.
  - destruct skip as [|n].
    + cbn [skipn] in H. cbn [replace_go].
      destruct (startswith (x :: r) (o :: old')) eqn:E.
      * apply in_or_app. right. cbn [List.length Nat.pred]. apply IH.
        destruct (startswith_inv _ _ E) as [t Et].
        rewrite Et in H. cbn [app] in Et. inversion Et; subst.
        rewrite skipn_app, Nat.sub_diag, skipn_all. cbn [skipn app].
        apply in_app_or in H. destruct H as [H|H]; [contradiction|exact H].
      * destruct H as [H|H]; [left; exact H|right; apply (IH 0); exact H].
    + cbn [skipn] in H. cbn [replace_go]. apply IH. exact H.
Qed.

Lemma replace_keeps : forall o old' new c s,
  ~ In c (o :: old') -> In c s -> In c (replace s (o :: old') new).
Proof. intros o old' new c s Hc H. unfold replace. apply replace_go_keeps; assumption. Qed.

(** Where the pattern occurs, the replacement text comes in. *)
Lemma replace_inserts : forall o old' new c s,
  In c new -> contains s (o :: old') = true -> In c (replace s (o :: old') new).
Proof.
  intros o old' new c s Hc. unfold replace. induction s as [|x r IH]; intros H.
  - cbn in H. discriminate.
  - cbn [contains] in H. cbn [replace_go].
    destruct (startswith (x :: r) (o :: old')).
    + apply in_or_app. left. exact Hc.
    + right. apply IH. exact H.
Qed.

Lemma replace_absent : forall old new s, contains s old = false -> replace s old new = s.
Proof.
  intros old new. unfold replace. induction s as [|x r IH]; intros H; [reflexivity|].
  cbn [contains] in H. apply orb_false_iff in H. destruct H as [H1 H2].
  cbn [replace_go]. rewrite H1. f_equal. apply IH. exact H2.
Qed.

(** A text with a line feed is left as it is. *)
Lemma unescape_with_newline : forall s, In LF s -> _maybe_unescape_llm_string s = s.
Proof.
  intros s H. unfold _maybe_unescape_llm_string. destruct s as [|c r]; [reflexivity|].
  apply contains_char in H. rewrite H. rewrite andb_false_r. reflexivity.
Qed.

(** The text is left as it is, or it comes out with a line feed. *)
Lemma unescape_result : forall s,
  _maybe_unescape_llm_string s = s \/ In LF (_maybe_unescape_llm_string s).
Proof.
  intros s. unfold _maybe_unescape_llm_string. destruct s as [|c r]; [left; reflexivity|].
  destruct (contains (c :: r) (lit "\\n") && negb (contains (c :: r) [LF])) eqn:E;
    [right|left; reflexivity].
  apply andb_true_iff in E. destruct E as [E _]. cbv zeta.
  assert (Hkeep : forall t o old' new, ~ In LF (o :: old') -> In LF t ->
            In LF (replace t (o :: old') new)).
  { intros. apply replace_keeps; assumption. }
  assert (H2 : In LF (replace (replace (c :: r) (lit "\\r\\n") [LF]) (lit "\\n") [LF])).
  { destruct (contains (c :: r) (lit "\\r\\n")) eqn:E1.
    - apply (Hkeep _ BSL [ch "n"]).
      + intros [H|[H|H]]; try discriminate H; contradiction.
      + apply (@replace_inserts BSL (lit "r\\n")); [left; reflexivity|exact E1].
    - rewrite (replace_absent (lit "\\r\\n") [LF] (c :: r) E1).
      apply (@replace_inserts BSL [ch "n"]); [left; reflexivity|exact E]. }
  apply (Hkeep _ BSL [BSL]); [intros [H|[H|H]]; try discriminate H; contradiction|].
  apply (Hkeep _ BSL [SQ]); [intros [H|[H|H]]; try discriminate H; contradiction|].
  apply (Hkeep _ BSL [DQ]); [intros [H|[H|H]]; try discriminate H; contradiction|].
  apply (Hkeep _ BSL [ch "t"]); [intros [H|[H|H]]; try discriminate H; contradiction|].
  apply (Hkeep _ BSL [ch "r"]); [intros [H|[H|H]]; try discriminate H; contradiction|].
  exact H2.
Qed.

Lemma endswith_In : forall s c, endswith s [c] = true -> In c s.
Proof.
  intros s c H. unfold endswith in H. cbn [rev app] in H.
  destruct (rev s) as [|y t] eqn:E; [discriminate|].
  cbn [startswith] in H. apply andb_true_iff in H. destruct H as [H _].
  apply N.eqb_eq in H. subst y. apply in_rev. rewrite E. left. reflexivity.
Qed.

End UnescapeFacts.

Section UnescapeOnce.
Context {RT : Runtime}.
Import PyFacts StrFacts Coder UnescapeFacts.

(** X26. Unescaping is done once: _maybe_unescape_llm_string leaves alone what
    it returned, and it leaves alone every diff that went through
    _normalize_unified_diff, so the patch edit_plan reports is not
    unescaped again by apply_edit. *)
Theorem unescape_once : forall s,
  _maybe_unescape_llm_string (_maybe_unescape_llm_string s) = _maybe_unescape_llm_string s
  /\ _maybe_unescape_llm_string (_normalize_unified_diff s) = _normalize_unified_diff s.
Proof.
  intros s. split.
  - destruct (unescape_result s) as [E|H]; [rewrite E; exact E|].
    apply unescape_with_newline. exact H.
  - apply unescape_with_newline. apply endswith_In.
    unfold _normalize_unified_diff.
    set (norm := join [LF] (flat_map normalize_line
                   (split LF (replace (replace s [CR; LF] [LF]) [CR] [LF])))).
    destruct (endswith norm [LF]) eqn:E; cbn [negb]; [exact E|apply endswith_snoc].
Qed.

End UnescapeOnce.
